(* ===== verification/_CoqProject ===== *)
-Q . S2P
Prelude.v
GoLib.v
GoText.v
Config.v
GoHeap.v
Utils.v
Bytecode.v
Json.v
Word256.v
Machine.v
Opcodes.v
Interp.v
InstrSpec.v
AvmStrings.v
AvmParser.v
Sha256.v
Ledger.v
LedgerSpec.v
Work.v
Chain.v
Validation.v
ValidationSpec.v
Mempool.v
Execution.v
Mining.v
TestChain.v
Node.v
NodeSpec.v
MgLexer.v
MgAst.v
MgParser.v
MgParserSpec.v
MgPrint.v
MgTypes.v
MgTypesSpec.v
MgCodegen.v
MgFrame.v
MgCompile.v
MgMachine.v
MgCorrect.v
MgProgram.v
MgErase.v
MgPlain.v
MgTool.v
Tools.v
Converters.v
Rpc.v
Sync.v
QueryApi.v
Wallet.v
Miner.v
Demo.v
DemoNode.v
DemoSync.v
DemoApi.v
DemoTest.v
DemoMarigold.v
