(* ===== verification/Prelude.v ===== *)
(** * August: a verification library for the August blockchain

    August (src/) is a proof-of-work blockchain in Go with accounts, contracts
    that run on a stack machine, and a contract language (Marigold).  This
    library models its consensus core, its node and the compiler as executable
    Rocq functions and proves the properties the rest of the program relies on.

    ** The program and the files that model it

    - src/config, src/utils: protocol constants, checked 64-bit arithmetic and
      the compact encoding of targets.  [Config], [Utils] (modules [SafeMath]
      and [Convert]).
    - src/types: opcodes, prices, instructions and their validation.
      [Bytecode].
    - src/avm: the contract machine.  [Word256] is the two's complement
      arithmetic of runtime.go; [Machine] (module [VM]) its stack, memory,
      runtime record and the monad the handlers are written in; [Opcodes]
      (module [Handlers]) has one definition per case of [ExecuteInstruction];
      [Interp] (module [Exec]) dispatches, meters and iterates them;
      [InstrSpec] and [AvmStrings] prove instruction-level theorems;
      [AvmParser] (module [Asm]) is parser.go.
    - src/blockchain: [Ledger] (modules [Acct], [Tx], [Hdr], [Blk], [Merkle],
      [Code]) is the data of account.go, transaction.go, block.go and the
      hashes of crypto.go; [LedgerSpec] proves what the hashes bind; [Work] is
      work.go, difficulty.go and genesis.go; [Chain] (modules [Heap], [Chain])
      is chain.go and the account store; [Validation] is validation.go, with
      its theorems in [ValidationSpec]; [Mining] is mining.go.
    - src/execution: [Execution], the implementation of the executor interface
      that validation.go declares.
    - src/node/mempool.go: [Mempool], over the binary heap of the Go library in
      [GoHeap].
    - src/node: [Node] is node.go, header_processing.go, orphans.go, tasks.go,
      getters.go and the chain set-up of lifecycle.go: chains keyed by their
      tips, header and block indices, orphans, fork choice and reorganisation;
      [NodeSpec] proves its invariant, which steps may change what chain is
      current, that the walks over ancestors end, and where peers can harm a node.
    - src/libnet: [Converters] (module [Wire]) is converters.go; [Rpc] is utils.go,
      proto_stream.go, the pending requests of peerservice.go and the handlers of
      src/libnet/rpc, against an interface ([Rpc.NodeInterface]) that [Node] has;
      [Sync] composes both: a header announced, the block fetched and appended.
    - src/node/api.go: [QueryApi], the handlers of the HTTP API over [Node].
    - src/cmd/wallet, src/cmd/miner: [Wallet] and [Miner], from the parsed flags
      on what [QueryApi] answers.
    - src/testutils/blockchain.go: [TestChain], the headers, blocks, chains and
      forks the test suites build, over [Work] and [Mining].
    - The JSON forms of hashes and addresses (types.go, config.go): [Json].
    - src/marigold: [MgLexer] is lexer.go and tokens.go; [MgAst] types.go, ast.go
      and chainidents.go; [MgParser] parser.go; [MgTypes] (module [Typecheck])
      typechecker.go; [MgCodegen] (module [Codegen]) codegen.go.  Their theorems:
      [MgParserSpec] (the parser ends) and [MgPrint] (a printer with the
      precedences, and that the parser reads it back); [MgTypesSpec], the type
      system as rules; [MgFrame], what the generator leaves alone; [MgCompile],
      a compile function that knows its jump targets, and that the one-pass
      generator does the same; [MgMachine] and [MgCorrect], the code's runs on
      [Interp] against a reference semantics; [MgProgram], whole contracts;
      [MgErase], that the parser does not look at positions; [MgPlain], the plain
      programs that the checker leaves as they are.
    - src/cmd/marigold and src/marigold/utils.go: [MgTool] (module [Tool]), the
      compiler from text to code and the symbol tables it prints; src/cmd/parser,
      src/cmd/avm and src/cmd/test_codegen.go: [Tools].
    - [Demo], [DemoNode], [DemoSync], [DemoApi], [DemoTest] and [DemoMarigold] run small scenarios (a
      chain, a payment, a mined block, a node, its API, contracts from their text
      to their effect) and instantiate the theorems on them.

    The parts meet as in the code: [Validation.ApplyTransaction] calls a
    contract executor through the record [Validation.ContractExecutor]; the
    class [Validation.LawfulExecutor] states what it promises, the theorems
    about blocks assume only that class, and [Execution] proves it of the real
    executor, which runs [Exec.StartExecution].  [Node] calls [Validation] and
    [Chain] for every block it takes up and [Mempool] for every transaction.

    A method of the node that waits for its peers is split where it waits: the
    first piece records what it waits for ([Node.awaiting]), [Node.resume]
    continues with the answer.  [Node.step] is one piece, of any method or
    goroutine, with any answer, time and iteration order; [Node.reachable] is
    its closure.

    ** Modelling choices

    - Go integers are [Z], wrapped explicitly ([u64], [i64], ...) wherever an
      operation can leave the type's range; [big.Int] is [Z] unwrapped.
    - A run-time panic is the constructor [Panic] of the monad [go]; the code
      never recovers from one (around the API's handlers net/http does).  A returned [error] is a value ([res], [option]).
      Error texts are not modelled, error cases are.
    - Byte slices and strings are lists of [ascii] or [string].  [GoLib] has the
      functions of the Go standard library the sources use, [GoText] its hex and
      base64 encodings, [Sha256] the real SHA-256; signature verification (crypto/ed25519) is a parameter, the class
      [Signatures].
    - Pointers to accounts are locations of a heap shared by the maps that hold
      them, so aliasing and copying are visible; blocks and headers are never
      mutated after construction and are values.
    - Iteration over a Go map takes the order as an argument where it matters,
      and the theorems hold for every order.
    - Locks, logging, timers and the network are left out.

    ** Loops and fuel

    The execution loop has no bound in the code.  [Exec.exec_loop] takes as many
    steps as there is gas, plus one; [StartExecution_total] proves this is
    always enough, since every instruction that continues costs at least one
    unit.  The Merkle loop takes as many rounds as there are leaves
    ([LedgerSpec.merkle_loop_single]).  The nonce search is iterated up to 2^64
    times without a unary counter ([iterate]); [MineCorrectNonce_spec] proves it
    ends.  The genesis search tries the 975000 nonces of the source.  The sift
    loops of the heap move one level a round, and the bound of the heap's length
    is enough ([GoHeap.down_loop_spec], [GoHeap.up_loop_spec]).  The walks of
    the node over ancestors get one more round than there are stored headers
    ([Node.walk_fuel]), which is enough unless parent hashes form a cycle
    ([NodeSpec.ProcessHeader_terminates]).  The lexer takes as many rounds as the
    text has characters, plus one ([Lexer.Lex_total]), and the parser's loops and
    recursive calls as many as there are tokens, plus one
    ([ParserSpec.Parse_total]).  The reference semantics of Marigold takes fuel
    for the depth and the rounds of loops: the theorem about compiled code is
    for every fuel that gives a result.  Every other recursion is structural.

    ** What the theorems show

    - Ledger and consensus ([ValidationSpec], [Chain], [Work], [Mining]):
      validation decides its specification exactly; transfers to addresses
      without code implement a specification on finite maps, failures included;
      accepted blocks of such payments mint exactly the reward;
      applying a block is atomic; applied transactions are not replayable;
      accepted blocks extend the tip and accepted header chains add up their
      work; the chain indices stay consistent; retargeting is bounded; mined
      blocks pass validation; the genesis block is valid; the header chains and
      blocks of the test suites are valid where their comments say so, and not
      where they are not ([TestChain]).
    - Hashes ([LedgerSpec]): Merkle roots, header hashes and transfer hashes bind
      their contents, short of a SHA-256 collision among the very messages that
      were hashed, and the roots do not depend on map order; deployments are not
      bound, and the ambiguity is exhibited.
    - Machine ([Interp], [InstrSpec], [Word256], [AvmStrings]): termination and
      gas accounting for every program, the stack limit, reference semantics of
      nine binary instructions (EQ apart), calls, strings and storage.
    - Transaction pool ([GoHeap], [Mempool]): the heap operations keep heap order
      and contents; every reachable pool is consistent; the pool hands out its
      best transactions in order, for every order of map iteration.
    - Node ([NodeSpec]): every reachable node is consistent; the key of the current
      chain ([currentChainTip]) changes only when a validated block is applied to the
      chain its header extends, or by a reorganisation, to a candidate whose blocks
      validate from the genesis block on and that claims strictly more work (the test
      interface apart); processing a header ends.  Within a chain the tip is not
      protected: blocks fetched for forks and orphans enter unvalidated and can
      become its tip ([NodeSpec.fetched_block_moves_tip]).
    - Network and clients ([Rpc], [Sync], [QueryApi], [Wallet], [Miner]): no
      interleaving of waits and answers loses an answer or wakes the wrong waiter;
      blocks fetched from peers are the blocks the peers have, and a valid
      extension that is announced becomes the tip when the peers that answer have
      its block or nothing, and one has it ([Sync.block_travels]); what the
      API says of accounts, blocks and transactions is true and complete; payments,
      calls and deployments the wallet builds are accepted; what the API accepts is
      found until it expires while the pool has room and the chain stays
      ([QueryApi.submitted_transaction_found]);
      whatever its command line, it submits only signed transactions of its key's
      account that its flags ask for ([Wallet.main_sent]);
      what the miner mines on an empty pool the node validates while the chain
      requires the target that is built into the miner, and refuses otherwise
      ([Miner.idle_block_validates]); its coinbase is right for a single
      transaction, and [DemoApi] exhibits pools that crash it.
    - Interfaces and encodings ([Execution], [AvmParser], [Converters],
      [Utils]): the executor meets its interface; assembly text, wire messages
      and compact targets round trip; every assembly text that parses passes the
      tool's round-trip test ([Tools.parser_main_succeeds]).
    - Marigold: the lexer reads back written tokens, the parser ends on every
      list of tokens, and lexer and parser read back every printed program
      ([Erase.text_roundtrip]); accepted programs
      follow the typing rules ([TypesSpec.Typecheck_sound]); the patching
      generator emits the code of a compile function
      ([Compile.generateBlock_code]); compiled numeric contracts compute what
      their source says ([Program.compiled_entry_runs]), from the text the tool is
      given to the run of its code ([Tool.compiled_text_correct]).  Numeric means
      integer expressions over locals and context variables, assignments,
      conditionals, loops with [break] and [continue], [return] and [emit]; the
      excluded cases are strings, storage, calls between functions and entry
      functions that end in a conditional, where [DemoMarigold] exhibits code that
      does not do what the text says.
    - Where the code does not do what it means to, the theorem states what it
      does: double credit of contract calls, hash ambiguity, panics of validated
      programs, the node that loses its chain when a peer does not answer, and
      others.

    ** Not modelled

    The theorem about compiled contracts leaves out storage, strings and calls
    between functions: the generated code does not implement them as the text
    says ([DemoMarigold]).  [Sync] has one extension between two nodes; forks
    are followed inside one node, for every answer of its peers ([NodeSpec]).
    Left out, being I/O or third-party code: setting up and closing libp2p hosts
    and streams, starting and stopping the servers, cmd/seed, cmd/keygen and
    cmd/workbench, generated protobuf code, encoding/json on whole structures
    (the handlers take what the decoder made of a body), parsing of flags,
    reading of files and printed texts of the command-line tools, random
    identifiers and keys, the helpers of the Go test suites that start nodes,
    and the floating-point difficulty figure of log messages. *)

From Stdlib Require Export ZArith Lia Ascii String.
From stdpp Require Export base gmap strings numbers.
From stdpp Require Export list.

Global Open Scope Z_scope.

(** ** Go computations: a value, or a run-time panic

    Go panics abort the goroutine; the code base never recovers, so a panic is
    a final outcome of its own, separate from a returned [error]. *)

Inductive panic_kind :=
  | IndexOutOfRange
  | SliceBounds
  | MakeSliceRange
  | FillBytesTooLarge
  | NilDereference
  | DivideByZero
  | BadTypeAssertion
  | ExplicitPanic (msg : string).

Inductive go (A : Type) :=
  | Ret (a : A)
  | Panic (k : panic_kind).
Arguments Ret {A} _.
Arguments Panic {A} _.

#[export] Instance go_ret : MRet go := @Ret.

#[export] Instance go_bind : MBind go :=
  fun A B f m => match m with Ret a => f a | Panic k => Panic k end.

#[export] Instance go_fmap : FMap go :=
  fun A B f m => match m with Ret a => Ret (f a) | Panic k => Panic k end.

(** The computation returns normally. *)
Definition returns {A} (m : go A) : bool :=
  match m with Ret _ => true | Panic _ => false end.

(** ** Machine integers

    A [w]-bit integer is a [Z]; every operation that can leave the range is
    wrapped explicitly with the function of the Go type it has. *)

Definition u8 (z : Z) : Z := z mod 2 ^ 8.
Definition u16 (z : Z) : Z := z mod 2 ^ 16.
Definition u32 (z : Z) : Z := z mod 2 ^ 32.
Definition u64 (z : Z) : Z := z mod 2 ^ 64.
Definition i64 (z : Z) : Z := (z + 2 ^ 63) mod 2 ^ 64 - 2 ^ 63.

Definition is_u64 (z : Z) : Prop := 0 <= z < 2 ^ 64.
Definition is_i64 (z : Z) : Prop := - 2 ^ 63 <= z < 2 ^ 63.
Definition is_u32 (z : Z) : Prop := 0 <= z < 2 ^ 32.

Definition max_u64 : Z := 2 ^ 64 - 1.

(** ** Digits in a base

    [digits b n] is the big-endian list of base-[b] digits of [n], without
    leading zeros ([[]] for zero); [undigits] evaluates such a list. *)

Fixpoint digits_fuel (fuel : nat) (b n : Z) (acc : list Z) : list Z :=
  match fuel with
  | O => acc
  | S f => if n <=? 0 then acc else digits_fuel f b (n / b) (n mod b :: acc)
  end.

Definition digits (b n : Z) : list Z :=
  digits_fuel (S (Z.to_nat (Z.log2 n))) b n [].

Definition undigits (b : Z) (ds : list Z) : Z :=
  fold_left (fun a d => a * b + d) ds 0.

(** Exactly [len] digits, the most significant first, higher ones dropped. *)
Fixpoint fixed_digits (len : nat) (b n : Z) : list Z :=
  match len with
  | O => []
  | S l => fixed_digits l b (n / b) ++ [n mod b]
  end.

(** ** Long loops

    Up to [2 ^ k] rounds of a loop body that either goes on with a new state or
    leaves with a result, without a unary counter of that size. *)

Fixpoint iterate {St A} (k : nat) (body : St -> St + A) (st : St) : St + A :=
  match k with
  | O => body st
  | S k' => match iterate k' body st with inl st' => iterate k' body st' | inr a => inr a end
  end.

(** ** Tactics *)

(** Case split on the conditions and matches of a hypothesis or the goal. *)
Ltac destruct_match_in H :=
  match type of H with
  | context [match ?x with _ => _ end] =>
      lazymatch x with
      | context [match _ with _ => _ end] => fail
      | _ => let E := fresh "Hm" in destruct x eqn:E
      end
  end.

Ltac destruct_match_goal :=
  match goal with
  | |- context [match ?x with _ => _ end] =>
      lazymatch x with
      | context [match _ with _ => _ end] => fail
      | _ => let E := fresh "Hm" in destruct x eqn:E
      end
  end.

(** Turn boolean comparisons into the propositions they decide. *)
Ltac bool_to_prop :=
  repeat match goal with
  | H : _ && _ = true |- _ => apply andb_true_iff in H as [? ?]
  | H : _ || _ = false |- _ => apply orb_false_iff in H as [? ?]
  | H : negb _ = true |- _ => apply negb_true_iff in H
  | H : negb _ = false |- _ => apply negb_false_iff in H
  | H : (_ <? _) = true |- _ => apply Z.ltb_lt in H
  | H : (_ <? _) = false |- _ => apply Z.ltb_ge in H
  | H : (_ <=? _) = true |- _ => apply Z.leb_le in H
  | H : (_ <=? _) = false |- _ => apply Z.leb_gt in H
  | H : (_ =? _) = true |- _ => apply Z.eqb_eq in H
  | H : (_ =? _) = false |- _ => apply Z.eqb_neq in H
  | H : bool_decide _ = true |- _ => apply bool_decide_eq_true in H
  | H : bool_decide _ = false |- _ => apply bool_decide_eq_false in H
  end.

(** Evaluate the powers of two that bound the machine types. *)
Ltac machine_bounds :=
  unfold is_u64, is_i64, is_u32, max_u64 in *;
  change (2 ^ 8) with 256 in *;
  change (2 ^ 32) with 4294967296 in *;
  change (2 ^ 63) with 9223372036854775808 in *;
  change (2 ^ 64) with 18446744073709551616 in *.

Create HintDb august.
Create Rewrite HintDb august.

(** ** Lemmas on machine integers *)

Lemma u64_range z : is_u64 (u64 z).
Proof. apply Z.mod_pos_bound. lia. Qed.

Lemma u64_small z : is_u64 z -> u64 z = z.
Proof. intros. apply Z.mod_small. done. Qed.

Lemma u32_range z : is_u32 (u32 z).
Proof. apply Z.mod_pos_bound. lia. Qed.

Lemma u32_small z : is_u32 z -> u32 z = z.
Proof. intros. apply Z.mod_small. done. Qed.

Lemma i64_range z : is_i64 (i64 z).
Proof.
  unfold i64, is_i64. pose proof (Z.mod_pos_bound (z + 2 ^ 63) (2 ^ 64) ltac:(lia)).
  machine_bounds. lia.
Qed.

Lemma i64_small z : is_i64 z -> i64 z = z.
Proof.
  intros H. unfold i64. rewrite Z.mod_small; machine_bounds; lia.
Qed.

Lemma u64_idemp z : u64 (u64 z) = u64 z.
Proof. apply u64_small, u64_range. Qed.

Lemma u64_i64 z : u64 (i64 z) = u64 z.
Proof.
  unfold u64, i64. rewrite Zminus_mod_idemp_l.
  f_equal. lia.
Qed.

#[export] Hint Resolve u64_range u32_range i64_range : august.
#[export] Hint Rewrite u64_idemp u64_i64 : august.

(** ** Lemmas on the Go monad *)

Lemma go_bind_ret_inv {A B} (f : A -> go B) (m : go A) b :
  m ≫= f = Ret b -> exists a, m = Ret a /\ f a = Ret b.
Proof. destruct m as [a|k]; simpl; [eauto | discriminate]. Qed.

Lemma Ret_inj {A} (x y : A) : Ret x = Ret y -> x = y.
Proof. congruence. Qed.

(** ** Lemmas on digits *)

Lemma undigits_snoc b ds d : undigits b (ds ++ [d]) = undigits b ds * b + d.
Proof. unfold undigits. rewrite fold_left_app. reflexivity. Qed.

Lemma undigits_app b ds es :
  undigits b (ds ++ es) = undigits b ds * b ^ Z.of_nat (length es) + undigits b es.
Proof.
  revert ds. induction es as [|e es IH] using rev_ind; intros ds.
  - rewrite app_nil_r. unfold undigits at 3. simpl. lia.
  - rewrite app_assoc, !undigits_snoc, IH, length_app. simpl.
    rewrite Nat2Z.inj_add, Z.pow_add_r by lia.
    change (Z.of_nat 1) with 1. rewrite Z.pow_1_r. ring.
Qed.

Lemma undigits_range b ds :
  1 < b -> Forall (fun d => 0 <= d < b) ds ->
  0 <= undigits b ds < b ^ Z.of_nat (length ds).
Proof.
  intros Hb. induction ds as [|d ds IH] using rev_ind; intros Hd.
  - unfold undigits. simpl. lia.
  - apply Forall_app in Hd as [Hds Hd1]. inversion_clear Hd1 as [|? ? Hd2 _].
    rewrite undigits_snoc, length_app. simpl.
    rewrite Nat2Z.inj_add, Z.pow_add_r by lia.
    change (Z.of_nat 1) with 1. rewrite Z.pow_1_r.
    specialize (IH Hds). nia.
Qed.

Lemma digits_fuel_spec fuel b n acc :
  1 < b -> n < 2 ^ Z.of_nat fuel ->
  exists ds, digits_fuel fuel b n acc = ds ++ acc /\ undigits b ds = Z.max 0 n
    /\ Forall (fun d => 0 <= d < b) ds
    /\ (0 < n -> exists d ds', ds = d :: ds' /\ 0 < d)
    /\ (n <= 0 -> ds = []).
Proof.
  intros Hb. revert n acc. induction fuel as [|f IH]; intros n acc Hn.
  - exists []. simpl in *. unfold undigits. simpl. repeat split; auto; try lia.
  - cbn [digits_fuel]. destruct (Z.leb_spec n 0).
    + exists []. unfold undigits. simpl. repeat split; auto; try lia.
    + assert (n / b < 2 ^ Z.of_nat f).
      { apply Z.div_lt_upper_bound; [lia|].
        rewrite Nat2Z.inj_succ, Z.pow_succ_r in Hn by lia.
        pose proof (Z.pow_pos_nonneg 2 (Z.of_nat f)). nia. }
      destruct (IH (n / b) (n mod b :: acc)) as (ds & -> & Hv & Hr & Hh & Hz); [done|].
      pose proof (Z.div_pos n b ltac:(lia) ltac:(lia)).
      exists (ds ++ [n mod b]). split; [rewrite <- app_assoc; reflexivity|].
      split; [|split; [|split]].
      * rewrite undigits_snoc, Hv.
        pose proof (Z.div_mod n b). lia.
      * apply Forall_app. split; [done|]. constructor; [apply Z.mod_pos_bound; lia|done].
      * intros _. destruct (Z.eq_dec (n / b) 0) as [E|E].
        -- rewrite Hz by lia. exists (n mod b), []. split; [done|].
           rewrite Z.mod_eq, E by lia. lia.
        -- destruct Hh as (d & ds' & -> & ?); [lia|]. exists d, (ds' ++ [n mod b]). done.
      * lia.
Qed.

Lemma digits_spec b n :
  1 < b ->
  undigits b (digits b n) = Z.max 0 n
  /\ Forall (fun d => 0 <= d < b) (digits b n)
  /\ (0 < n -> exists d ds, digits b n = d :: ds /\ 0 < d)
  /\ (n <= 0 -> digits b n = []).
Proof.
  intros Hb. unfold digits.
  destruct (digits_fuel_spec (S (Z.to_nat (Z.log2 n))) b n [] Hb) as (ds & -> & ? & ? & ? & ?).
  - rewrite Nat2Z.inj_succ, Z2Nat.id by apply Z.log2_nonneg.
    destruct (Z.lt_ge_cases 0 n); [apply Z.log2_spec; done|].
    pose proof (Z.pow_pos_nonneg 2 (Z.succ (Z.log2 n)) ltac:(lia)).
    pose proof (Z.log2_nonneg n). lia.
  - rewrite app_nil_r. done.
Qed.

Lemma undigits_digits b n : 1 < b -> 0 <= n -> undigits b (digits b n) = n.
Proof. intros Hb Hn. destruct (digits_spec b n Hb) as [-> _]. lia. Qed.

Lemma digits_range b n : 1 < b -> Forall (fun d => 0 <= d < b) (digits b n).
Proof. intros Hb. apply (digits_spec b n Hb). Qed.

Lemma digits_fuel_length f b n acc : (length (digits_fuel f b n acc) <= f + length acc)%nat.
Proof.
  revert n acc. induction f as [|f IH]; intros n acc; simpl; [lia|].
  destruct (n <=? 0); [lia|]. pose proof (IH (n / b) (n mod b :: acc)). simpl in *. lia.
Qed.

Lemma length_fixed_digits len b n : length (fixed_digits len b n) = len.
Proof.
  revert n. induction len as [|l IH]; intros n; [done|]. simpl.
  rewrite length_app, IH. simpl. lia.
Qed.

Lemma fixed_digits_range len b n :
  0 < b -> Forall (fun d => 0 <= d < b) (fixed_digits len b n).
Proof.
  intros Hb. revert n. induction len as [|l IH]; intros n; [constructor|]. simpl.
  apply Forall_app. split; [done|]. constructor; [apply Z.mod_pos_bound; lia|done].
Qed.

Lemma undigits_fixed len b n :
  1 < b -> undigits b (fixed_digits len b n) = n mod b ^ Z.of_nat len.
Proof.
  intros Hb. revert n. induction len as [|l IH]; intros n.
  - simpl. rewrite Z.mod_1_r. done.
  - cbn [fixed_digits]. rewrite undigits_snoc, IH, Nat2Z.inj_succ, Z.pow_succ_r by lia.
    pose proof (Z.pow_pos_nonneg b (Z.of_nat l)).
    rewrite Z.rem_mul_r by lia. lia.
Qed.

Lemma fixed_digits_undigits b ds :
  1 < b -> Forall (fun d => 0 <= d < b) ds ->
  fixed_digits (length ds) b (undigits b ds) = ds.
Proof.
  intros Hb. induction ds as [|d ds IH] using rev_ind; intros Hd; [done|].
  apply Forall_app in Hd as [Hds Hd1]. inversion_clear Hd1 as [|? ? Hd2 _].
  rewrite undigits_snoc, length_app, Nat.add_comm. cbn [length Nat.add fixed_digits].
  rewrite Z.div_add_l, (Z.div_small d b), Z.add_0_r, IH by (done || lia).
  f_equal. rewrite Z.add_comm, Z.mod_add, Z.mod_small by lia. done.
Qed.

(** Two digit lists of one length are equal when their values are. *)
Lemma undigits_inj b ds es :
  1 < b -> length ds = length es ->
  Forall (fun d => 0 <= d < b) ds -> Forall (fun d => 0 <= d < b) es ->
  undigits b ds = undigits b es -> ds = es.
Proof.
  intros Hb Hl Hd He H.
  rewrite <- (fixed_digits_undigits b ds), <- (fixed_digits_undigits b es) by done.
  rewrite H, Hl. done.
Qed.

(** ** Fallible results: the [(T, error)] pairs whose value is unused on error *)

Inductive res (E A : Type) :=
  | Ok (a : A)
  | Err (e : E).
Arguments Ok {E A} _.
Arguments Err {E A} _.

#[export] Instance res_ret E : MRet (res E) := fun A => Ok.

#[export] Instance res_bind E : MBind (res E) :=
  fun A B f m => match m with Ok a => f a | Err e => Err e end.

Lemma res_bind_ok_inv {E A B} (f : A -> res E B) (m : res E A) b :
  m ≫= f = Ok b -> exists a, m = Ok a /\ f a = Ok b.
Proof. destruct m as [a|e]; simpl; [eauto | discriminate]. Qed.

(** ** Lemmas on long loops *)

(** Rounds of a loop that do not leave it. *)
Inductive rounds {St A} (body : St -> St + A) : nat -> St -> St -> Prop :=
  | rounds_O st : rounds body 0 st st
  | rounds_S n st st1 st2 : body st = inl st1 -> rounds body n st1 st2 -> rounds body (S n) st st2.

Lemma rounds_app {St A} (body : St -> St + A) n m a b c :
  rounds body n a b -> rounds body m b c -> rounds body (n + m) a c.
Proof. intros H1. induction H1; intros H2; simpl; [done|]. econstructor; eauto. Qed.

(** A loop of [2 ^ k] rounds runs them all, or leaves after fewer. *)
Lemma iterate_spec {St A} (body : St -> St + A) k st :
  match iterate k body st with
  | inl st' => rounds body (2 ^ k) st st'
  | inr a => exists n st', (n < 2 ^ k)%nat /\ rounds body n st st' /\ body st' = inr a
  end.
Proof.
  revert st. induction k as [|k IH]; intros st; simpl.
  - destruct (body st) as [st'|a] eqn:E; [econstructor; [done | constructor]|].
    exists 0%nat, st. split; [lia|]. split; [constructor | done].
  - pose proof (IH st) as H1. destruct (iterate k body st) as [st1|a].
    + pose proof (IH st1) as H2. destruct (iterate k body st1) as [st2|a].
      * rewrite Nat.add_0_r. by eapply rounds_app.
      * destruct H2 as (n & st' & Hn & Hr & He). exists (2 ^ k + n)%nat, st'.
        split; [lia|]. split; [by eapply rounds_app | done].
    + destruct H1 as (n & st' & Hn & Hr & He). exists n, st'. split; [lia|]. done.
Qed.
