(* ===== verification/GoLib.v ===== *)
(** * The parts of the Go standard library the sources call

    Bytes are [ascii]s, a Go [string] is a [string] (a byte sequence, not a
    sequence of runes) and a [[]byte] is a [list ascii].  A [*big.Int] is a
    [Z]; no operation of the sources mutates a [big.Int] that another name
    still holds, so sharing of the pointers is not observable. *)

From S2P Require Import Prelude.

Abbreviation bytes := (list ascii).

Definition byte_val (c : ascii) : Z := Z.of_N (N_of_ascii c).
Definition byte_of (z : Z) : ascii := ascii_of_N (Z.to_N (z mod 256)).

Definition bytes_of_string (s : string) : bytes := list_ascii_of_string s.
Definition string_of_bytes (b : bytes) : string := string_of_list_ascii b.

(** [len] of a slice or string, as the [int] it is. *)
Definition len {A} (l : list A) : Z := Z.of_nat (length l).

(** ** [encoding/binary] and array copies *)

(** Big-endian encoding on exactly [n] bytes ([binary.BigEndian.PutUint64]). *)
Definition be_bytes (n : nat) (z : Z) : bytes := map byte_of (fixed_digits n 256 z).

(** [copy(dst[:], src)] into a zeroed array of [n] bytes. *)
Definition copy_into (n : nat) (src : bytes) : bytes :=
  take n (src ++ replicate n zero).

(** ** [math/big] *)

(** [SetBytes]: the big-endian unsigned value. *)
Definition big_SetBytes (b : bytes) : Z := undigits 256 (map byte_val b).

(** [Bytes]: the absolute value, big-endian, no leading zero byte. *)
Definition big_Bytes (z : Z) : bytes := map byte_of (digits 256 (Z.abs z)).

(** [FillBytes] on a buffer of [n] bytes: the absolute value, zero-padded on the
    left; it panics when the value does not fit. *)
Definition big_FillBytes (n : nat) (z : Z) : go bytes :=
  if Z.abs z <? 256 ^ Z.of_nat n then Ret (be_bytes n (Z.abs z)) else Panic FillBytesTooLarge.

(** [Uint64] and [Int64] take the low 64 bits of the absolute value, and
    [Int64] then negates for a negative value. *)
Definition big_Uint64 (z : Z) : Z := u64 (Z.abs z).
Definition big_Int64 (z : Z) : Z :=
  let v := i64 (Z.abs z) in if z <? 0 then i64 (- v) else v.

(** [Div] and [Mod] are Euclidean: the remainder is never negative.  The
    sources call them with a divisor they have checked, or a positive constant. *)
Definition big_Div (a b : Z) : Z := Z.sgn b * (a / Z.abs b).
Definition big_Mod (a b : Z) : Z := a mod Z.abs b.

(** [Cmp] as -1, 0 or 1. *)
Definition big_Cmp (a b : Z) : Z :=
  match a ?= b with Lt => -1 | Eq => 0 | Gt => 1 end.

(** [BitLen]: bits of the absolute value. *)
Definition big_BitLen (z : Z) : Z := if z =? 0 then 0 else Z.log2 (Z.abs z) + 1.

(** Digits as characters: [0-9], then lower-case letters. *)
Definition digit_char (d : Z) : ascii :=
  byte_of (if d <? 10 then d + 48 else d + 87).

(** A digit's value, either letter case; [None] for another character. *)
Definition digit_val (c : ascii) : option Z :=
  let v := byte_val c in
  if (48 <=? v) && (v <=? 57) then Some (v - 48)
  else if (97 <=? v) && (v <=? 122) then Some (v - 87)
  else if (65 <=? v) && (v <=? 90) then Some (v - 55)
  else None.

(** [Text(base)]; [String()] and [%d] are base ten. *)
Definition text_nat (base n : Z) : bytes :=
  match digits base n with [] => [digit_char 0] | ds => map digit_char ds end.

Definition big_Text (base z : Z) : string :=
  string_of_bytes ((if z <? 0 then ["-"%char] else []) ++ text_nat base (Z.abs z)).

Definition dec (z : Z) : string := big_Text 10 z.
Definition hex (z : Z) : string := big_Text 16 z.

(** The longest prefix of digits below [base], and the rest. *)
Fixpoint scan_digits (base : Z) (l : bytes) : list Z * bytes :=
  match l with
  | [] => ([], [])
  | c :: l' =>
      match digit_val c with
      | Some d => if d <? base then let '(ds, r) := scan_digits base l' in (d :: ds, r)
                  else ([], l)
      | None => ([], l)
      end
  end.

Definition scan_sign (l : bytes) : bool * bytes :=
  match l with
  | c :: l' => if Ascii.eqb c "-" then (true, l') else if Ascii.eqb c "+" then (false, l') else (false, l)
  | [] => (false, [])
  end.

(** [new(big.Int).SetString(s, base)] for base 10 or 16: the value left in the
    receiver, and whether the whole string was a number. *)
Definition big_SetString (s : string) (base : Z) : Z * bool :=
  let '(neg, l) := scan_sign (bytes_of_string s) in
  match scan_digits base l with
  | ([], _) => (0, false)
  | (ds, rest) =>
      let v := undigits base ds in
      (if neg then - v else v, match rest with [] => true | _ => false end)
  end.

(** ** [strings], [encoding/hex] and string order *)

Definition has_prefix (p s : string) : bool := String.prefix p s.

Fixpoint contains_bytes (p s : bytes) : bool :=
  has_prefix (string_of_bytes p) (string_of_bytes s)
  || match s with [] => false | _ :: s' => contains_bytes p s' end.

Definition strings_Contains (s p : string) : bool :=
  contains_bytes (bytes_of_string p) (bytes_of_string s).

(** [fmt.Sprintf("%x", b)] and [hex.EncodeToString(b)]: two digits a byte. *)
Definition hex_encode (b : bytes) : string :=
  string_of_bytes (concat (map (fun c => map digit_char (fixed_digits 2 16 (byte_val c))) b)).

(** Lexicographic order of byte strings, as Go's [>] on strings has it. *)
Fixpoint bytes_gtb (a b : bytes) : bool :=
  match a, b with
  | [], _ => false
  | _ :: _, [] => true
  | x :: a', y :: b' =>
      if byte_val y <? byte_val x then true
      else if byte_val x <? byte_val y then false
      else bytes_gtb a' b'
  end.

(** [string(c)] of a [byte] [c] is the UTF-8 encoding of the rune of that
    number: two bytes from 0x80 on. *)
Definition string_of_rune_byte (c : ascii) : bytes :=
  let v := byte_val c in
  if v <? 128 then [c]
  else [byte_of (Z.lor 192 (Z.shiftr v 6)); byte_of (Z.lor 128 (Z.land v 63))].

(** [make([]byte, 0, n)] with a [uint64] capacity: it panics beyond the address
    space of the run time (2^48 bytes on a 64-bit Linux).  A smaller capacity
    that the machine cannot provide ends the process; that is not modelled. *)
Definition maxAlloc : Z := 2 ^ 48.
Definition make_bytes (cap : Z) : go unit :=
  if cap <=? maxAlloc then Ret () else Panic MakeSliceRange.

(** ** Lemmas *)

Lemma byte_val_range c : 0 <= byte_val c < 256.
Proof. unfold byte_val. pose proof (N_ascii_bounded c). lia. Qed.

Lemma byte_val_of z : byte_val (byte_of z) = z mod 256.
Proof.
  unfold byte_val, byte_of. pose proof (Z.mod_pos_bound z 256).
  rewrite N_ascii_embedding by lia. rewrite Z2N.id; lia.
Qed.

Lemma byte_of_val c : byte_of (byte_val c) = c.
Proof.
  unfold byte_of. rewrite Z.mod_small by apply byte_val_range.
  unfold byte_val. rewrite N2Z.id. apply ascii_N_embedding.
Qed.

#[export] Instance byte_val_inj : Inj (=) (=) byte_val.
Proof. intros c d H. rewrite <- (byte_of_val c), H. apply byte_of_val. Qed.

Lemma map_byte_val_of ds :
  Forall (fun d => 0 <= d < 256) ds -> map byte_val (map byte_of ds) = ds.
Proof.
  induction 1 as [|d ds Hd _ IH]; [done|]. simpl. rewrite byte_val_of, IH, Z.mod_small by done.
  done.
Qed.

Lemma map_byte_of_val b : map byte_of (map byte_val b) = b.
Proof. induction b as [|c b IH]; [done|]. simpl. by rewrite byte_of_val, IH. Qed.

Lemma byte_vals_range b : Forall (fun d => 0 <= d < 256) (map byte_val b).
Proof. induction b; simpl; constructor; auto using byte_val_range. Qed.

Lemma string_of_bytes_of_string s : string_of_bytes (bytes_of_string s) = s.
Proof. apply string_of_list_ascii_of_string. Qed.

Lemma bytes_of_string_of_bytes b : bytes_of_string (string_of_bytes b) = b.
Proof. apply list_ascii_of_string_of_list_ascii. Qed.

#[export] Hint Rewrite string_of_bytes_of_string bytes_of_string_of_bytes : august.

Lemma length_be_bytes n z : length (be_bytes n z) = n.
Proof. unfold be_bytes. rewrite length_map. apply length_fixed_digits. Qed.

Lemma length_copy_into n b : length (copy_into n b) = n.
Proof. unfold copy_into. rewrite length_take, length_app, length_replicate. lia. Qed.

Lemma copy_into_id n b : length b = n -> copy_into n b = b.
Proof. intros <-. unfold copy_into. apply take_app_length. Qed.

Lemma big_SetBytes_be n z : big_SetBytes (be_bytes n z) = z mod 256 ^ Z.of_nat n.
Proof.
  unfold big_SetBytes, be_bytes. rewrite map_byte_val_of by (apply fixed_digits_range; lia).
  apply undigits_fixed. lia.
Qed.

Lemma big_SetBytes_range b : 0 <= big_SetBytes b < 256 ^ len b.
Proof.
  unfold big_SetBytes, len. rewrite <- (length_map byte_val b).
  apply undigits_range; [lia | apply byte_vals_range].
Qed.

Lemma be_bytes_SetBytes n b : length b = n -> be_bytes n (big_SetBytes b) = b.
Proof.
  intros <-. unfold be_bytes, big_SetBytes.
  rewrite <- (length_map byte_val b), fixed_digits_undigits by (lia || apply byte_vals_range).
  apply map_byte_of_val.
Qed.

(** Fixed-width big-endian encodings are injective on their range. *)
Lemma be_bytes_inj n x y :
  0 <= x < 256 ^ Z.of_nat n -> 0 <= y < 256 ^ Z.of_nat n ->
  be_bytes n x = be_bytes n y -> x = y.
Proof.
  intros Hx Hy H. apply (f_equal big_SetBytes) in H.
  rewrite !big_SetBytes_be, !Z.mod_small in H by done. done.
Qed.

(** A chunk of at most [n] bytes survives the trip through an integer. *)
Lemma big_FillBytes_SetBytes n b :
  length b = n -> big_FillBytes n (big_SetBytes b) = Ret b.
Proof.
  intros Hb. unfold big_FillBytes. pose proof (big_SetBytes_range b) as Hr.
  unfold len in Hr. rewrite Hb in Hr. rewrite Z.abs_eq by lia.
  rewrite (proj2 (Z.ltb_lt _ _)) by lia. by rewrite be_bytes_SetBytes.
Qed.

Lemma digit_val_char d : 0 <= d < 36 -> digit_val (digit_char d) = Some d.
Proof.
  intros Hd. unfold digit_val, digit_char. rewrite byte_val_of.
  destruct (Z.ltb_spec d 10); rewrite Z.mod_small by lia;
    repeat destruct_match_goal; bool_to_prop; try (f_equal; lia);
    repeat match goal with H : _ && _ = false |- _ => apply andb_false_iff in H as [H|H] end;
    bool_to_prop; lia.
Qed.

Lemma scan_digits_chars base ds :
  base <= 36 -> Forall (fun d => 0 <= d < base) ds ->
  scan_digits base (map digit_char ds) = (ds, []).
Proof.
  intros Hb. induction 1 as [|d ds Hd _ IH]; [done|]. cbn [map scan_digits].
  rewrite digit_val_char by lia. rewrite (proj2 (Z.ltb_lt _ _)) by lia. by rewrite IH.
Qed.

Lemma digit_char_not_sign d :
  0 <= d < 36 -> Ascii.eqb (digit_char d) "-" = false /\ Ascii.eqb (digit_char d) "+" = false.
Proof.
  intros Hd. pose proof (digit_val_char d Hd) as H.
  split; apply Ascii.eqb_neq; intros E; rewrite E in H; discriminate.
Qed.

Lemma text_nat_digits base n :
  1 < base <= 36 -> 0 <= n ->
  exists ds, text_nat base n = map digit_char ds /\ ds <> [] /\ undigits base ds = n
    /\ Forall (fun d => 0 <= d < base) ds.
Proof.
  intros Hb Hn. unfold text_nat.
  destruct (digits_spec base n) as (Hv & Hr & Hp & Hz); [lia|].
  destruct (digits base n) as [|d ds] eqn:E.
  - exists [0]. destruct (Z.lt_ge_cases 0 n) as [H|H].
    + destruct (Hp H) as (?&?&?&?). discriminate.
    + unfold undigits. simpl. repeat split; try done; try lia. constructor; [lia|done].
  - exists (d :: ds). rewrite Hv. repeat split; try done. lia.
Qed.

(** A number below [2 ^ k] has at most [k + 1] characters. *)
Lemma length_text_nat base n k : 0 <= n < 2 ^ Z.of_nat k -> (length (text_nat base n) <= S k)%nat.
Proof.
  intros Hn. unfold text_nat.
  assert (length (digits base n) <= S k)%nat as H.
  { unfold digits. pose proof (digits_fuel_length (S (Z.to_nat (Z.log2 n))) base n []) as H. simpl length in *.
    assert (Z.log2 n <= Z.of_nat k); [|lia].
    destruct (Z.eq_dec n 0) as [->|]; [simpl; lia|].
    assert (Z.log2 n < Z.of_nat k) by (apply Z.log2_lt_pow2; lia). lia. }
  destruct (digits base n); [simpl; lia|]. by rewrite length_map.
Qed.

(** Printing an integer in a base and reading it back. *)
Lemma SetString_Text base z :
  1 < base <= 36 -> big_SetString (big_Text base z) base = (z, true).
Proof.
  intros Hb. unfold big_SetString, big_Text. rewrite bytes_of_string_of_bytes.
  destruct (text_nat_digits base (Z.abs z)) as (ds & -> & Hne & Hv & Hr); [lia..|].
  destruct ds as [|d ds]; [done|].
  assert (0 <= d < 36) as Hd by (inversion_clear Hr; lia).
  destruct (digit_char_not_sign d Hd) as [Hm Hp].
  destruct (Z.ltb_spec z 0); cbn [app scan_sign map].
  - change (Ascii.eqb "-" "-") with true. cbn iota.
    change (digit_char d :: map digit_char ds) with (map digit_char (d :: ds)).
    rewrite scan_digits_chars, Hv by (done || lia). f_equal. lia.
  - rewrite Hm, Hp. change (digit_char d :: map digit_char ds) with (map digit_char (d :: ds)).
    rewrite scan_digits_chars, Hv by (done || lia). f_equal. lia.
Qed.

Lemma dec_inj x y : dec x = dec y -> x = y.
Proof.
  intros H. pose proof (SetString_Text 10 x) as Hx. pose proof (SetString_Text 10 y) as Hy.
  unfold dec in H. rewrite H in Hx. rewrite Hx in Hy by lia. by injection (Hy ltac:(lia)).
Qed.

(** The Euclidean division identity and its remainder bound. *)
Lemma big_Div_Mod a b : b <> 0 -> a = b * big_Div a b + big_Mod a b /\ 0 <= big_Mod a b < Z.abs b.
Proof.
  intros Hb. unfold big_Div, big_Mod.
  pose proof (Z.div_mod a (Z.abs b) ltac:(lia)). pose proof (Z.mod_pos_bound a (Z.abs b)).
  split; [|lia]. destruct (Z.lt_trichotomy b 0) as [?|[?|?]]; [|lia|].
  - rewrite Z.sgn_neg by lia. rewrite Z.abs_neq in * by lia. lia.
  - rewrite Z.sgn_pos by lia. rewrite Z.abs_eq in * by lia. lia.
Qed.

Lemma big_Uint64_small z : is_u64 z -> big_Uint64 z = z.
Proof. intros [? ?]. unfold big_Uint64. rewrite Z.abs_eq by lia. by apply u64_small. Qed.

Lemma big_Uint64_range z : is_u64 (big_Uint64 z).
Proof. apply u64_range. Qed.

Lemma big_Int64_small z : is_i64 z -> big_Int64 z = z.
Proof.
  intros H. unfold big_Int64. destruct (Z.ltb_spec z 0).
  - destruct (Z.eq_dec z (- 2 ^ 63)) as [->|Hne]; [reflexivity|].
    rewrite Z.abs_neq by lia.
    rewrite (i64_small (- z)) by (machine_bounds; lia).
    rewrite Z.opp_involutive. by apply i64_small.
  - rewrite Z.abs_eq by lia. by apply i64_small.
Qed.

Lemma big_Int64_range z : is_i64 (big_Int64 z).
Proof. unfold big_Int64. destruct (_ <? _); apply i64_range. Qed.

#[export] Hint Resolve byte_val_range big_Uint64_range : august.
#[export] Hint Rewrite length_be_bytes length_copy_into : august.
