(* ===== verification/GoText.v ===== *)
(** * Go library functions on text: [encoding/hex], [encoding/base64],
    [strings.TrimPrefix] and [strconv.Atoi]

    The decoders give [None] for an error.  Both encodings round trip. *)

From S2P Require Import Prelude GoLib.

(** ** [encoding/hex] *)

Definition hex_digit (c : ascii) : option Z :=
  d ← digit_val c; if d <? 16 then Some d else None.

Fixpoint hex_decode (l : bytes) : option bytes :=
  match l with
  | [] => Some []
  | a :: b :: l => x ← hex_digit a; y ← hex_digit b; r ← hex_decode l; Some (byte_of (16 * x + y) :: r)
  | [_] => None
  end.

Definition hex_DecodeString (s : string) : option bytes := hex_decode (bytes_of_string s).

Lemma hex_digit_char d : 0 <= d < 16 -> hex_digit (digit_char d) = Some d.
Proof. intros Hd. unfold hex_digit. rewrite digit_val_char by lia. cbn. by rewrite (proj2 (Z.ltb_lt _ _)) by lia. Qed.

Lemma hex_byte c r : hex_decode (map digit_char (fixed_digits 2 16 (byte_val c)) ++ r) = r' ← hex_decode r; Some (c :: r').
Proof.
  pose proof (byte_val_range c) as Hc. assert (0 <= byte_val c / 16 < 16) as Hq.
  { split; [apply Z.div_pos; lia | apply Z.div_lt_upper_bound; lia]. }
  assert (0 <= byte_val c mod 16 < 16) as Hm by (apply Z.mod_pos_bound; lia).
  cbn [fixed_digits map app hex_decode]. rewrite (Z.mod_small (byte_val c / 16)) by done.
  rewrite !hex_digit_char by done. cbn. rewrite <- Z.div_mod by lia. by rewrite byte_of_val.
Qed.

Lemma hex_decode_encode b : hex_DecodeString (hex_encode b) = Some b.
Proof.
  unfold hex_DecodeString, hex_encode. rewrite bytes_of_string_of_bytes.
  induction b as [|c b IH]; [done|]. cbn [map concat]. by rewrite hex_byte, IH.
Qed.

Lemma hex_encode_inj a b : hex_encode a = hex_encode b -> a = b.
Proof. intros H. apply (f_equal hex_DecodeString) in H. rewrite !hex_decode_encode in H. congruence. Qed.

(** ** [encoding/base64], the standard alphabet with padding *)

Definition b64_char (d : Z) : ascii :=
  byte_of (if d <? 26 then d + 65 else if d <? 52 then d + 71 else if d <? 62 then d - 4 else if d =? 62 then 43 else 47).

Definition b64_val (c : ascii) : option Z :=
  let v := byte_val c in
  if (65 <=? v) && (v <=? 90) then Some (v - 65)
  else if (97 <=? v) && (v <=? 122) then Some (v - 71)
  else if (48 <=? v) && (v <=? 57) then Some (v + 4)
  else if v =? 43 then Some 62
  else if v =? 47 then Some 63
  else None.

(** Groups of four characters; one or two paddings end the last group.  The bits
    under a padding are not looked at. *)
Fixpoint b64_decode (l : bytes) : option bytes :=
  match l with
  | [] => Some []
  | a :: b :: c :: d :: r =>
      x ← b64_val a; y ← b64_val b;
      if Ascii.eqb c "=" then
        if Ascii.eqb d "=" then match r with [] => Some [byte_of (x * 4 + y / 16)] | _ => None end else None
      else
        z ← b64_val c;
        if Ascii.eqb d "=" then
          match r with [] => Some [byte_of (x * 4 + y / 16); byte_of (y * 16 + z / 4)] | _ => None end
        else
          w ← b64_val d; r ← b64_decode r;
          Some (byte_of (x * 4 + y / 16) :: byte_of (y * 16 + z / 4) :: byte_of (z * 64 + w) :: r)
  | _ => None
  end.

Definition is_newline (c : ascii) : bool := (byte_val c =? 10) || (byte_val c =? 13).

(** Line ends are skipped. *)
Definition base64_DecodeString (s : string) : option bytes :=
  b64_decode (List.filter (fun c => negb (is_newline c)) (bytes_of_string s)).

Fixpoint b64_encode (l : bytes) : bytes :=
  match l with
  | [] => []
  | [a] => let x := byte_val a in [b64_char (x / 4); b64_char (x mod 4 * 16); "="%char; "="%char]
  | [a; b] =>
      let x := byte_val a in let y := byte_val b in
      [b64_char (x / 4); b64_char (x mod 4 * 16 + y / 16); b64_char (y mod 16 * 4); "="%char]
  | a :: b :: c :: r =>
      let x := byte_val a in let y := byte_val b in let z := byte_val c in
      b64_char (x / 4) :: b64_char (x mod 4 * 16 + y / 16) :: b64_char (y mod 16 * 4 + z / 64) :: b64_char (z mod 64)
      :: b64_encode r
  end.

Definition base64_EncodeToString (b : bytes) : string := string_of_bytes (b64_encode b).

(** ** [strings.TrimPrefix], [strconv.Atoi] *)

Definition strings_TrimPrefix (s p : string) : string :=
  if has_prefix p s then string_of_bytes (drop (String.length p) (bytes_of_string s)) else s.

(** Decimal digits after an optional sign, in the range of an [int]. *)
Definition strconv_Atoi (s : string) : option Z :=
  let '(v, ok) := big_SetString s 10 in
  if (ok : bool) && (- 2 ^ 63 <=? v) && (v <? 2 ^ 63) then Some v else None.

(** ** Base64 round trips *)

(** The characters of the alphabet, by their numbers. *)
Lemma b64_table d : 0 <= d < 64 ->
  b64_val (b64_char d) = Some d /\ Ascii.eqb (b64_char d) "=" = false /\ is_newline (b64_char d) = false.
Proof.
  intros Hd. assert (forallb (fun n => let d := Z.of_nat n in
    bool_decide (b64_val (b64_char d) = Some d) && negb (Ascii.eqb (b64_char d) "=") && negb (is_newline (b64_char d))) (seq 0 64) = true)
    as H by reflexivity.
  rewrite List.forallb_forall in H. specialize (H (Z.to_nat d)). rewrite Z2Nat.id in H by lia.
  cbv zeta in H. rewrite !andb_true_iff, !negb_true_iff, bool_decide_eq_true in H.
  destruct H as [[H1 H2] H3]; [apply in_seq; lia | done].
Qed.

Lemma b64_quot x k : 0 <= x < 256 -> 0 < k -> 0 <= x / k < 256 / k + 1.
Proof.
  intros Hx Hk. split; [apply Z.div_pos; lia|]. pose proof (Z.div_le_mono x 256 k). lia.
Qed.

Lemma b64_first x y : 0 <= x < 256 -> 0 <= y < 16 -> byte_of (x / 4 * 4 + (x mod 4 * 16 + y) / 16) = byte_of x.
Proof.
  intros Hx Hy. f_equal. rewrite Z.div_add_l by lia. rewrite (Z.div_small y) by lia.
  pose proof (Z.div_mod x 4). lia.
Qed.

Lemma b64_second x y z : 0 <= y < 256 -> 0 <= z < 4 ->
  byte_of ((x * 16 + y / 16) * 16 + (y mod 16 * 4 + z) / 4) = byte_of y.
Proof.
  intros Hy Hz. unfold byte_of. do 2 f_equal. rewrite Z.div_add_l by lia. rewrite (Z.div_small z) by lia.
  replace ((x * 16 + y / 16) * 16 + (y mod 16 + 0)) with (y + x * 256) by (pose proof (Z.div_mod y 16); lia).
  by rewrite Z.mod_add.
Qed.

Lemma b64_third y z : 0 <= z < 256 -> byte_of ((y * 4 + z / 64) * 64 + z mod 64) = byte_of z.
Proof.
  intros Hz. unfold byte_of. do 2 f_equal.
  replace ((y * 4 + z / 64) * 64 + z mod 64) with (z + y * 256) by (pose proof (Z.div_mod z 64); lia).
  by rewrite Z.mod_add.
Qed.

(** The numbers of the characters of a group are in the alphabet. *)
Lemma b64_ranges x y z : 0 <= x < 256 -> 0 <= y < 256 -> 0 <= z < 256 ->
  0 <= x / 4 < 64 /\ 0 <= x mod 4 * 16 + y / 16 < 64 /\ 0 <= x mod 4 * 16 < 64 /\ 0 <= y mod 16 * 4 + z / 64 < 64
  /\ 0 <= y mod 16 * 4 < 64 /\ 0 <= z mod 64 < 64.
Proof.
  intros Hx Hy Hz. pose proof (Z.mod_pos_bound x 4). pose proof (Z.mod_pos_bound y 16). pose proof (Z.mod_pos_bound z 64).
  pose proof (b64_quot x 4 Hx). pose proof (b64_quot y 16 Hy). pose proof (b64_quot z 64 Hz).
  assert (x / 4 < 64) by (apply Z.div_lt_upper_bound; lia). assert (y / 16 < 16) by (apply Z.div_lt_upper_bound; lia).
  assert (z / 64 < 4) by (apply Z.div_lt_upper_bound; lia). lia.
Qed.

Lemma b64_decode_encode l : b64_decode (b64_encode l) = Some l.
Proof.
  revert l. fix IH 1. intros [|a [|b [|c r]]]; [done|..]; cbn [b64_encode b64_decode]; cbv zeta.
  - pose proof (byte_val_range a) as Ha. destruct (b64_ranges (byte_val a) 0 0 Ha ltac:(lia) ltac:(lia)) as (H1 & _ & H2 & _).
    destruct (b64_table _ H1) as [-> _]. destruct (b64_table _ H2) as [-> _]. cbn.
    pose proof (b64_first (byte_val a) 0 Ha ltac:(lia)) as E. rewrite Z.add_0_r in E. by rewrite E, byte_of_val.
  - pose proof (byte_val_range a) as Ha. pose proof (byte_val_range b) as Hb.
    destruct (b64_ranges (byte_val a) (byte_val b) 0 Ha Hb ltac:(lia)) as (H1 & H2 & _ & _ & H3 & _).
    destruct (b64_table _ H1) as [-> _]. destruct (b64_table _ H2) as [-> _]. destruct (b64_table _ H3) as (-> & -> & _). cbn.
    assert (0 <= byte_val b / 16 < 16) as Hq by (split; [apply Z.div_pos; lia | apply Z.div_lt_upper_bound; lia]).
    rewrite (b64_first _ _ Ha Hq), byte_of_val.
    pose proof (b64_second (byte_val a mod 4) (byte_val b) 0 Hb ltac:(lia)) as E. rewrite Z.add_0_r in E. by rewrite E, byte_of_val.
  - pose proof (byte_val_range a) as Ha. pose proof (byte_val_range b) as Hb. pose proof (byte_val_range c) as Hc.
    destruct (b64_ranges _ _ _ Ha Hb Hc) as (H1 & H2 & _ & H3 & _ & H4).
    destruct (b64_table _ H1) as [-> _]. destruct (b64_table _ H2) as [-> _].
    destruct (b64_table _ H3) as (-> & -> & _). destruct (b64_table _ H4) as (-> & -> & _). rewrite IH. cbn.
    assert (0 <= byte_val b / 16 < 16) as Hq by (split; [apply Z.div_pos; lia | apply Z.div_lt_upper_bound; lia]).
    assert (0 <= byte_val c / 64 < 4) as Hq' by (split; [apply Z.div_pos; lia | apply Z.div_lt_upper_bound; lia]).
    by rewrite (b64_first _ _ Ha Hq), (b64_second _ _ _ Hb Hq'), (b64_third _ _ Hc), !byte_of_val.
Qed.

Lemma b64_encode_lines l : forallb (fun c => negb (is_newline c)) (b64_encode l) = true.
Proof.
  revert l. fix IH 1. intros [|a [|b [|c r]]]; [done|..]; cbn [b64_encode forallb]; cbv zeta.
  - destruct (b64_ranges (byte_val a) 0 0 (byte_val_range a) ltac:(lia) ltac:(lia)) as (H1 & _ & H2 & _).
    destruct (b64_table _ H1) as (_ & _ & ->). by destruct (b64_table _ H2) as (_ & _ & ->).
  - destruct (b64_ranges (byte_val a) (byte_val b) 0 (byte_val_range a) (byte_val_range b) ltac:(lia)) as (H1 & H2 & _ & _ & H3 & _).
    destruct (b64_table _ H1) as (_ & _ & ->). destruct (b64_table _ H2) as (_ & _ & ->). by destruct (b64_table _ H3) as (_ & _ & ->).
  - destruct (b64_ranges _ _ _ (byte_val_range a) (byte_val_range b) (byte_val_range c)) as (H1 & H2 & _ & H3 & _ & H4).
    destruct (b64_table _ H1) as (_ & _ & ->). destruct (b64_table _ H2) as (_ & _ & ->).
    destruct (b64_table _ H3) as (_ & _ & ->). destruct (b64_table _ H4) as (_ & _ & ->). apply IH.
Qed.

Lemma base64_roundtrip b : base64_DecodeString (base64_EncodeToString b) = Some b.
Proof.
  unfold base64_DecodeString, base64_EncodeToString. rewrite bytes_of_string_of_bytes.
  assert (forall l, forallb (fun c => negb (is_newline c)) l = true -> List.filter (fun c => negb (is_newline c)) l = l) as Hf.
  { induction l as [|c l IH]; [done|]. cbn. intros [-> Hl]%andb_true_iff. by rewrite IH. }
  rewrite Hf by apply b64_encode_lines. apply b64_decode_encode.
Qed.

(** ** What the decoders reject *)

Lemma hex_decode_pads l : "="%char ∈ l -> hex_decode l = None.
Proof.
  remember (length l) as n eqn:Hn. revert l Hn. induction n as [n IH] using lt_wf_ind. intros l Hn Hin.
  destruct l as [|a [|b l]]; [by apply not_elem_of_nil in Hin | done|]. cbn [hex_decode].
  destruct (decide (a = "="%char)) as [->|Ha]; [done|]. destruct (hex_digit a); [|done]. cbn [mbind option_bind].
  destruct (decide (b = "="%char)) as [->|Hb]; [done|]. destruct (hex_digit b); [|done]. cbn [mbind option_bind].
  apply elem_of_cons in Hin as [Hx|[Hx|Hin]%elem_of_cons]; [congruence|congruence|].
  by rewrite (IH (length l)) by (done || (subst; cbn; lia)).
Qed.

Lemma b64_encode_pads l : (length l mod 3 <> 0)%nat -> "="%char ∈ b64_encode l.
Proof.
  remember (length l) as n eqn:Hn. revert l Hn. induction n as [n IH] using lt_wf_ind. intros l Hn Hm.
  destruct l as [|a [|b [|c l]]]; cbn [b64_encode].
  - by subst.
  - repeat first [apply list_elem_of_here | apply list_elem_of_further].
  - do 3 apply list_elem_of_further. apply list_elem_of_here.
  - do 4 apply list_elem_of_further. apply (IH (length l)); [subst; cbn; lia | done|]. intros H0. apply Hm. subst.
    cbn [length]. change (S (S (S (length l)))) with (3 + length l)%nat. rewrite <- (Nat.mul_1_l 3) at 1.
    by rewrite Nat.add_comm, Nat.Div0.mod_add.
Qed.

(** A base64 text with padding is not a hex text. *)
Lemma base64_not_hex b : (length b mod 3 <> 0)%nat -> hex_DecodeString (base64_EncodeToString b) = None.
Proof.
  intros Hb. unfold hex_DecodeString, base64_EncodeToString. rewrite bytes_of_string_of_bytes.
  by apply hex_decode_pads, b64_encode_pads.
Qed.

Lemma string_prefix_app p s : String.prefix p (p ++ s)%string = true.
Proof.
  induction p as [|c p IH]; [by destruct s|]. change (String c p ++ s)%string with (String c (p ++ s)).
  cbn [String.prefix]. by destruct (Ascii.ascii_dec c c).
Qed.

Lemma string_prefix_refl s : String.prefix s s = true.
Proof. induction s as [|c s IH]; [done|]. cbn [String.prefix]. by destruct (Ascii.ascii_dec c c). Qed.

Lemma drop_prefix p s : drop (String.length p) (bytes_of_string (p ++ s)) = bytes_of_string s.
Proof. induction p as [|c p IH]; [done|]. exact IH. Qed.

Lemma TrimPrefix_app p s : strings_TrimPrefix (p ++ s) p = s.
Proof.
  unfold strings_TrimPrefix, has_prefix. by rewrite string_prefix_app, drop_prefix, string_of_bytes_of_string.
Qed.

(** [ed25519.PrivateKey.Public]: the second half of the key. *)
Definition ed25519_Public (priv : bytes) : go bytes :=
  if (length priv <? 32)%nat then Panic SliceBounds else Ret (copy_into 32 (drop 32 priv)).
