(* ===== verification/Config.v ===== *)
(** * Protocol constants (src/config/config.go)

    Only the constants that the modelled code reads.  [IsTestMode] answers
    [true] unconditionally in the source, and so does the model. *)

From S2P Require Import Prelude GoLib.

(** A 32-byte array.  [PublicKey] and [Hash32] are distinct Go types over the
    same representation; both compare with [==] bytewise. *)
Definition PublicKey : Type := bytes.

#[export] Instance PublicKey_eq_dec : EqDecision PublicKey := _ : EqDecision bytes.
#[export] Instance PublicKey_countable : Countable PublicKey := _ : Countable bytes.

(** [PublicKey{}] *)
Definition PublicKey_zero : PublicKey := replicate 32 zero.

Definition MainnetChainID : Z := 1.
Definition TestnetChainID : Z := 2.

Definition RPCClientVersion : string := "1.0.0".

Definition RecalculationFrequency : Z := 2016.
Definition TargetTimespan : Z := 1209600.
Definition MaxAdjustmentFactor : Z := 4.
Definition MaxTargetCompact : Z := 0x1d00ffff.
Definition TestTargetCompact : Z := 0x1f00ffff.

Definition IsTestMode : bool := true.

Definition GetTargetCompact : Z :=
  if IsTestMode then TestTargetCompact else MaxTargetCompact.

Definition Leaf : Z := 1.
Definition AUG : Z := 1000000 * Leaf.
Definition BlockReward : Z := 50 * AUG.
Definition ContractDeploymentFee : Z := 1 * AUG.

Definition GasTransfer : Z := 21000.
Definition GasContractDeploy : Z := 21000.
Definition GasDataPerByte : Z := 68.

Definition AVMMaxStackSize : Z := 10000.
Definition AVMMaxMemorySize : Z := 10000.

Definition MaxCandidateChainDepthGap : Z := 6.
Definition MempoolMaxSize : Z := 1000.

(** Seven days, in nanoseconds. *)
Definition MempoolMaxExpiry : Z := 7 * 24 * (60 * 60 * 10 ^ 9).

Definition MaxPeersForRequest : Z := 20.

(** The account of the genesis coinbase. *)
Definition FirstUser : PublicKey :=
  map byte_of
    [0x99; 0x3f; 0xe6; 0xa3; 0x6d; 0x19; 0xed; 0x52;
     0x78; 0x90; 0xa7; 0x69; 0x8e; 0x94; 0x0c; 0x3c;
     0x1c; 0x62; 0x9c; 0xa0; 0x64; 0x43; 0x83; 0x78;
     0x71; 0xcb; 0x0e; 0xd1; 0x94; 0x35; 0x22; 0x9b].
