(* ===== verification/GoHeap.v ===== *)
(** * [container/heap] of the Go library

    The binary heap on a slice, for an element type with a comparison [less]:
    [up], [down], [Init], [Push], [Pop] and [Fix] with the index arithmetic of
    the library.  For a strict weak order the operations keep the heap order
    and the elements, and [Pop] returns a least element. *)

From S2P Require Import Prelude GoLib.

Section GoHeap.
Context {A : Type} `{Inhabited A} (less : A -> A -> bool).

(** ** The library *)

(** [Less(i, j)] and [Swap(i, j)] at indices in range: every call below is. *)
Definition Less (l : list A) (i j : nat) : bool := less (l !!! i) (l !!! j).
Definition Swap (l : list A) (i j : nat) : list A := <[i := l !!! j]> (<[j := l !!! i]> l).

(** The loop of [up]; [j] strictly decreases. *)
Fixpoint up_loop (fuel : nat) (l : list A) (j : nat) : list A :=
  match fuel with
  | O => l
  | S f =>
      let i := ((j - 1) / 2)%nat in
      if (i =? j)%nat || negb (Less l j i) then l else up_loop f (Swap l i j) i
  end.

Definition up (l : list A) (j : nat) : list A := up_loop (S j) l j.

(** The loop of [down], with the index it ends at; the index strictly increases. *)
Fixpoint down_loop (fuel : nat) (l : list A) (i n : nat) : list A * nat :=
  match fuel with
  | O => (l, i)
  | S f =>
      let j1 := (2 * i + 1)%nat in
      if (n <=? j1)%nat then (l, i)
      else
        let j2 := (j1 + 1)%nat in
        let j := if (j2 <? n)%nat && Less l j2 j1 then j2 else j1 in
        if negb (Less l j i) then (l, i) else down_loop f (Swap l i j) j n
  end.

Definition down (l : list A) (i0 n : nat) : list A * bool :=
  let '(l', i) := down_loop (S n) l i0 n in (l', (i0 <? i)%nat).

(** [for i := n/2 - 1; i >= 0; i--] *)
Fixpoint init_loop (k : nat) (l : list A) (n : nat) : list A :=
  match k with O => l | S i => init_loop i (down l i n).1 n end.

Definition Init (l : list A) : list A := init_loop (length l / 2) l (length l).

Definition Push (x : A) (l : list A) : list A := up (l ++ [x]) (length l).

(** On an empty heap [Swap(0, -1)] is out of range. *)
Definition Pop (l : list A) : go (A * list A) :=
  match l with
  | [] => Panic IndexOutOfRange
  | _ =>
      let n := (length l - 1)%nat in
      let l := (down (Swap l 0 n) 0 n).1 in
      Ret (l !!! n, take n l)
  end.

Definition Fix (l : list A) (i : nat) : list A :=
  let '(l', moved) := down l i (length l) in if moved then l' else up l' i.

(** ** Heap order *)

Definition hle (x y : A) : Prop := less y x = false.

Definition child (p c : nat) : Prop := (c = 2 * p + 1 \/ c = 2 * p + 2)%nat.

(** The entries below [n] whose parent is at least [k], and for which [P]
    holds, are in order with their parents. *)
Definition ordered (P : nat -> nat -> Prop) (k n : nat) (l : list A) : Prop :=
  forall p c, child p c -> (c < n)%nat -> (k <= p)%nat -> P p c -> hle (l !!! p) (l !!! c).

Definition heap_ordered (l : list A) : Prop := ordered (fun _ _ => True) 0 (length l) l.

(** The parent of [i] is in order with the children of [i]. *)
Definition bridged (i k n : nat) (l : list A) : Prop :=
  forall p c, child p i -> child i c -> (c < n)%nat -> (k <= p)%nat -> hle (l !!! p) (l !!! c).

Lemma parent_child j : (0 < j)%nat -> child ((j - 1) / 2) j.
Proof.
  intros Hj. unfold child. pose proof (Nat.div_mod_eq (j - 1) 2).
  pose proof (Nat.mod_upper_bound (j - 1) 2). lia.
Qed.

(** ** Swapping *)

Lemma length_Swap l i j : length (Swap l i j) = length l.
Proof. unfold Swap. by rewrite !length_insert. Qed.

Lemma insert_swap_perm (l : list A) i x y : l !! i = Some y -> y :: <[i := x]> l ≡ₚ x :: l.
Proof.
  revert i. induction l as [|z l IH]; intros [|i] E; simplify_eq/=; [apply perm_swap|].
  rewrite perm_swap, (IH i E). apply perm_swap.
Qed.

Lemma Swap_perm l i j : (i < length l)%nat -> (j < length l)%nat -> Swap l i j ≡ₚ l.
Proof.
  intros Hi Hj. unfold Swap. set (l1 := <[j := l !!! i]> l).
  assert (l1 !! i = Some (l !!! i)) as E1.
  { unfold l1. destruct (decide (i = j)) as [->|n]; [by apply list_lookup_insert_eq|].
    rewrite list_lookup_insert_ne by done. by apply list_lookup_lookup_total_lt. }
  pose proof (insert_swap_perm l1 i (l !!! j) (l !!! i) E1) as P1.
  pose proof (insert_swap_perm l j (l !!! i) (l !!! j) (list_lookup_lookup_total_lt l j Hj)) as P2.
  apply (Permutation_cons_inv (a := l !!! i)). exact (Permutation_trans P1 P2).
Qed.

Lemma lookup_Swap l i j c : (i < length l)%nat -> (j < length l)%nat ->
  Swap l i j !!! c = (if decide (c = i) then l !!! j else if decide (c = j) then l !!! i else l !!! c).
Proof.
  intros Hi Hj. unfold Swap. destruct (decide (c = i)) as [->|n].
  - rewrite list_lookup_total_insert_eq; [done|]. by rewrite length_insert.
  - rewrite list_lookup_total_insert_ne by done. destruct (decide (c = j)) as [->|n'].
    + by rewrite list_lookup_total_insert_eq.
    + by rewrite list_lookup_total_insert_ne.
Qed.

(** ** The sift loops *)

(** [less] is a strict weak order. *)
Hypothesis less_asym : forall x y, less x y = true -> less y x = false.
Context `{hle_trans : !Transitive hle}.

Lemma hle_refl x : hle x x.
Proof. unfold hle. destruct (less x x) eqn:E; [|done]. pose proof (less_asym _ _ E). congruence. Qed.

Lemma hle_total x y : hle x y \/ hle y x.
Proof. unfold hle. destruct (less y x) eqn:E; [right; by apply less_asym|by left]. Qed.

(** The child [down] compares with: the lesser of the two. *)
Definition pick (l : list A) (i n : nat) : nat :=
  if (2 * i + 1 + 1 <? n)%nat && Less l (2 * i + 1 + 1) (2 * i + 1) then (2 * i + 1 + 1)%nat else (2 * i + 1)%nat.

Lemma pick_child l i n : (2 * i + 1 < n)%nat -> child i (pick l i n) /\ (pick l i n < n)%nat.
Proof. intros Hn. unfold pick, child. destruct (Nat.ltb_spec (2 * i + 1 + 1) n), (Less _ _ _); simpl andb; cbv iota; lia. Qed.

Lemma pick_least l i n c : child i c -> (c < n)%nat -> hle (l !!! pick l i n) (l !!! c).
Proof.
  intros Hc Hn. unfold pick.
  assert (c = 2 * i + 1 \/ c = 2 * i + 1 + 1)%nat as [-> | ->] by (unfold child in Hc; lia);
    destruct (Nat.ltb_spec (2 * i + 1 + 1) n), (Less l (2 * i + 1 + 1) (2 * i + 1)) eqn:L; simpl andb; cbv iota;
    try apply hle_refl; try done; try lia.
  by apply less_asym in L.
Qed.

(** One step of [down]: the lesser child moves up; the disorder is below. *)
Lemma down_step l i n k (j := pick l i n) :
  (n <= length l)%nat -> (2 * i + 1 < n)%nat -> Less l j i = true ->
  ordered (fun p c => p <> i /\ c <> i) k n l -> bridged i k n l ->
  ordered (fun p c => p <> j) k n (Swap l i j) /\ bridged j k n (Swap l i j).
Proof.
  intros Hlen Hi L Hord Hbr. destruct (pick_child l i n Hi) as [Hj Hjn]. fold j in Hj, Hjn.
  assert (i < n)%nat by (unfold child in Hj; lia).
  split; intros p c Hc.
  - intros Hcn Hk Hp. rewrite !lookup_Swap by lia. rewrite (decide_False (P := p = j)) by done.
    destruct (decide (p = i)) as [->|Hpi].
    + rewrite decide_False by (unfold child in *; lia). destruct (decide (c = j)) as [->|].
      * by apply less_asym in L.
      * by apply pick_least.
    + destruct (decide (c = i)) as [->|]; [by apply Hbr|].
      rewrite decide_False by (unfold child in *; lia). by apply Hord.
  - intros Hc' Hcn Hk. rewrite !lookup_Swap by (unfold child in *; lia).
    rewrite decide_True by (unfold child in *; lia). rewrite !decide_False by (unfold child in *; lia).
    apply Hord; unfold child in *; lia.
Qed.

Lemma down_loop_spec f l i n k l' i' :
  (n <= length l)%nat -> (n < f + i)%nat ->
  ordered (fun p c => p <> i /\ c <> i) k n l -> bridged i k n l ->
  down_loop f l i n = (l', i') ->
  l' ≡ₚ l /\ drop n l' = drop n l /\ (i <= i')%nat /\ (i' = i -> l' = l)
  /\ ordered (fun p c => i' <> i \/ c <> i) k n l'.
Proof.
  revert l i. induction f as [|f IH]; intros l i Hlen Hf Hord Hbr E; cbn [down_loop] in E.
  - simplify_eq. split_and!; try done. intros p c Hc Hn Hk _. apply Hord; unfold child in *; lia.
  - fold (pick l i n) in E. destruct (Nat.leb_spec n (2 * i + 1)) as [E1|Hi].
    { simplify_eq. split_and!; try done. intros p c Hc Hn Hk [?|?]; [done|].
      apply Hord; try done. split; [|done]. unfold child in Hc. lia. }
    destruct (pick_child l i n Hi) as [Hj Hjn].
    destruct (Less l (pick l i n) i) eqn:L; simpl in E.
    + destruct (down_step l i n k Hlen Hi L Hord Hbr) as [Hord' Hbr'].
      assert (i < pick l i n)%nat as Hij by (unfold child in Hj; lia).
      apply IH in E as (Hp & Hd & Hle & Heq & Ho); [|rewrite ?length_Swap; lia|lia| |done].
      2: { intros p c Hc Hn Hk [Hp _]. by apply Hord'. }
      split_and!; try lia.
      * rewrite Hp. apply Swap_perm; lia.
      * rewrite Hd. unfold Swap. by rewrite !drop_insert_lt by lia.
      * intros p c Hc Hn Hk _. destruct (decide (i' = pick l i n)) as [Ei|n'].
        -- destruct (decide (c = pick l i n)) as [->|Hne]; [|apply Ho; auto].
           rewrite (Heq Ei). apply Hord'; try done. unfold child in Hc. lia.
        -- apply Ho; auto.
    + injection E as <- <-. split_and!; try done. intros p c Hc Hn Hk [?|?]; [done|].
      destruct (decide (p = i)) as [->|]; [|by apply Hord].
      trans (l !!! pick l i n); [exact L|by apply pick_least].
Qed.

(** [down]: the elements are kept, those from [n] on in place; when the element
    moves, all is in order, otherwise all but perhaps the pair of [i] and its
    parent. *)
Lemma down_spec l i n k :
  (n <= length l)%nat ->
  ordered (fun p c => p <> i /\ c <> i) k n l -> bridged i k n l ->
  (down l i n).1 ≡ₚ l /\ drop n (down l i n).1 = drop n l
  /\ ((down l i n).2 = false -> (down l i n).1 = l)
  /\ ordered (fun p c => (down l i n).2 = true \/ c <> i) k n (down l i n).1.
Proof.
  intros Hlen Hord Hbr. unfold down. destruct (down_loop (S n) l i n) as [l' i'] eqn:E. simpl.
  eapply down_loop_spec in E as (Hp & Hd & Hle & Heq & Ho); [|lia|lia|done|done].
  split_and!; try done.
  - intros Hf. apply Nat.ltb_ge in Hf. apply Heq. lia.
  - intros p c Hc Hn Hk Hor. apply Ho; try done. rewrite Nat.ltb_lt in Hor. lia.
Qed.

(** One step of [up]: the disorder moves to the parent. *)
Lemma up_step l i j :
  (j < length l)%nat -> child i j -> Less l j i = true ->
  ordered (fun p c => c <> j) 0 (length l) l -> bridged j 0 (length l) l ->
  ordered (fun p c => c <> i) 0 (length l) (Swap l i j) /\ bridged i 0 (length l) (Swap l i j).
Proof.
  intros Hj Hij L Hord Hbr. assert (i < j)%nat by (unfold child in Hij; lia).
  split; intros p c Hc.
  - intros Hcn _ Hci. rewrite !lookup_Swap by lia. rewrite (decide_False (P := c = i)) by done.
    destruct (decide (p = i)) as [->|Hpi].
    + destruct (decide (c = j)) as [->|]; [by apply less_asym in L|].
      trans (l !!! i); [by apply less_asym in L|]. apply Hord; try done; lia.
    + destruct (decide (p = j)) as [->|]; [rewrite decide_False by (unfold child in *; lia); apply Hbr; try done; lia|].
      rewrite decide_False by (unfold child in *; lia). apply Hord; try done; lia || (unfold child in *; lia).
  - intros Hc' Hcn _. rewrite !lookup_Swap by lia.
    rewrite (decide_False (P := p = i)), (decide_False (P := p = j)), (decide_False (P := c = i))
      by (unfold child in *; lia).
    assert (hle (l !!! p) (l !!! i)) as Hpi by (apply Hord; unfold child in *; lia).
    destruct (decide (c = j)) as [->|]; [done|].
    trans (l !!! i); [done|]. apply Hord; unfold child in *; lia.
Qed.

Lemma up_loop_spec f l j :
  (j < length l)%nat -> (j < f)%nat ->
  ordered (fun p c => c <> j) 0 (length l) l -> bridged j 0 (length l) l ->
  up_loop f l j ≡ₚ l /\ heap_ordered (up_loop f l j).
Proof.
  revert l j. induction f as [|f IH]; intros l j Hj Hf Hord Hbr; [lia|].
  cbn [up_loop]. destruct (Nat.eqb_spec ((j - 1) / 2) j) as [E|n].
  - simpl. split; [done|]. intros p c Hc Hn _ _. apply Hord; try done; try lia.
    assert (j = 0)%nat by (destruct j; [done|]; pose proof (parent_child (S j)); unfold child in *; lia).
    unfold child in Hc. lia.
  - assert (0 < j)%nat as Hpos by (destruct j; [done|lia]). pose proof (parent_child j Hpos) as Hc.
    set (i := ((j - 1) / 2)%nat) in *. clearbody i. destruct (Less l j i) eqn:L; simpl.
    + assert (i < j)%nat by (unfold child in Hc; lia). destruct (up_step l i j Hj Hc L Hord Hbr) as [Ho Hb].
      destruct (IH (Swap l i j) i) as [Hp Hh]; try (rewrite ?length_Swap; lia || done).
      split; [|done]. rewrite Hp. apply Swap_perm; lia.
    + split; [done|]. intros p c Hpc Hn _ _. destruct (decide (c = j)) as [->|]; [|apply Hord; try done; lia].
      assert (p = i) as -> by (unfold child in *; lia). exact L.
Qed.

(** ** The operations *)

Lemma heap_ordered_nil : heap_ordered [].
Proof. intros p c Hc Hn. simpl in Hn. lia. Qed.

Lemma heap_root l c : heap_ordered l -> (c < length l)%nat -> hle (l !!! 0%nat) (l !!! c).
Proof.
  intros Hh. induction (lt_wf c) as [c _ IH]. intros Hc.
  destruct (decide (c = 0)%nat) as [->|n]; [apply hle_refl|].
  pose proof (parent_child c ltac:(lia)) as Hp. set (p := ((c - 1) / 2)%nat) in *. clearbody p.
  trans (l !!! p); [apply IH; unfold child in Hp; lia|]. apply Hh; try done; lia.
Qed.

Lemma heap_prefix n l : ordered (fun _ _ => True) 0 n l -> (n <= length l)%nat -> heap_ordered (take n l).
Proof.
  intros Hh Hn p c Hc Hcn _ _. rewrite length_take in Hcn.
  rewrite !lookup_total_take_lt by (unfold child in Hc; lia). apply Hh; try done; lia.
Qed.

Lemma heap_take n l : heap_ordered l -> heap_ordered (take n l).
Proof.
  intros Hh p c Hc Hcn _ _. rewrite length_take in Hcn.
  rewrite !lookup_total_take_lt by (unfold child in Hc; lia). apply Hh; try done; lia.
Qed.

Lemma init_loop_spec k l n :
  n = length l -> ordered (fun _ _ => True) k n l ->
  init_loop k l n ≡ₚ l /\ heap_ordered (init_loop k l n).
Proof.
  revert l. induction k as [|k IH]; intros l -> Hord; simpl; [by split|].
  destruct (down_spec l k (length l) k) as (Hp & _ & _ & Ho); [lia| | |].
  - intros p c Hc Hn Hk [Hpk _]. apply Hord; try done; lia.
  - intros p c Hc _ _ Hk. unfold child in Hc. lia.
  - destruct (IH (down l k (length l)).1) as [Hp' Hh]; [by rewrite Hp| |split; [by rewrite Hp'|done]].
    intros p c Hc Hn Hk _. apply Ho; try done. right. unfold child in Hc. lia.
Qed.

Lemma Init_spec l : Init l ≡ₚ l /\ heap_ordered (Init l).
Proof.
  apply init_loop_spec; [done|]. intros p c Hc Hn Hk _. exfalso.
  pose proof (Nat.div_mod_eq (length l) 2). pose proof (Nat.mod_upper_bound (length l) 2).
  unfold child in Hc. lia.
Qed.

Lemma Push_spec x l : heap_ordered l -> Push x l ≡ₚ x :: l /\ heap_ordered (Push x l).
Proof.
  intros Hh. unfold Push, up. rewrite (Permutation_cons_append l x).
  apply up_loop_spec; rewrite ?length_app; simpl; try lia.
  - intros p c Hc Hn _ Hne. rewrite !lookup_total_app_l by (unfold child in Hc; lia).
    apply Hh; try done; lia.
  - intros p c _ Hc Hn. unfold child in Hc. lia.
Qed.

Lemma Fix_spec l i :
  (i < length l)%nat -> ordered (fun p c => p <> i /\ c <> i) 0 (length l) l -> bridged i 0 (length l) l ->
  Fix l i ≡ₚ l /\ heap_ordered (Fix l i).
Proof.
  intros Hi Hord Hbr. unfold Fix.
  destruct (down_spec l i (length l) 0) as (Hp & _ & Heq & Ho); [lia|done|done|].
  destruct (down l i (length l)) as [l' [|]]; simpl in *.
  - split; [done|]. intros p c Hc Hn _ _. rewrite (Permutation_length Hp) in Hn. apply Ho; auto; lia.
  - specialize (Heq eq_refl) as ->. apply up_loop_spec; try done; try lia.
    intros p c Hc Hn _ Hne. apply Ho; auto; lia.
Qed.

(** Overwriting one entry of a heap leaves it ready for [Fix]. *)
Lemma heap_replace l i x :
  heap_ordered l ->
  ordered (fun p c => p <> i /\ c <> i) 0 (length l) (<[i := x]> l) /\ bridged i 0 (length l) (<[i := x]> l).
Proof.
  intros Hh. split; intros p c Hc.
  - intros Hn _ [Hp Hci]. rewrite !list_lookup_total_insert_ne by done. apply Hh; try done; lia.
  - intros Hc' Hn _. rewrite !list_lookup_total_insert_ne by (unfold child in *; lia).
    trans (l !!! i); apply Hh; unfold child in *; try lia.
Qed.

Lemma Pop_spec l : heap_ordered l -> l <> [] ->
  exists x l', Pop l = Ret (x, l') /\ l ≡ₚ x :: l' /\ heap_ordered l' /\ Forall (hle x) l'.
Proof.
  intros Hh Hne. set (n := (length l - 1)%nat). set (l1 := Swap l 0 n).
  assert (length l = S n) as Hlen by (destruct l; [done|simpl in n |- *; lia]).
  assert (l1 ≡ₚ l) as Hp1 by (apply Swap_perm; lia).
  destruct (down_spec l1 0 n 0) as (Hp & Hd & _ & Ho).
  - unfold l1. rewrite length_Swap. lia.
  - intros p c Hc Hn _ [Hp0 Hc0]. unfold l1.
    rewrite !lookup_Swap, !decide_False by (unfold child in Hc; lia). apply Hh; try done; lia.
  - intros p c Hc. unfold child in Hc. lia.
  - set (l2 := (down l1 0 n).1) in *. assert (length l2 = S n) as Hl2 by (by rewrite Hp, Hp1).
    assert (l2 !!! n = l !!! 0%nat) as Hx.
    { assert (drop n l2 !!! 0%nat = drop n l1 !!! 0%nat) as E by (by rewrite Hd).
      rewrite !lookup_total_drop, Nat.add_0_r in E. rewrite E. unfold l1. rewrite lookup_Swap by lia.
      destruct (decide (n = 0)%nat) as [->|]; [done|]. by rewrite decide_True. }
    assert (l ≡ₚ l !!! 0%nat :: take n l2) as Hperm.
    { trans l2; [by rewrite Hp|]. rewrite <- Hx, Permutation_cons_append.
      rewrite <- (take_S_r l2 n (l2 !!! n)) by (apply list_lookup_lookup_total_lt; lia).
      by rewrite take_ge by lia. }
    exists (l !!! 0%nat), (take n l2). split_and!; [|done| |].
    + unfold Pop. destruct l; [done|]. fold n l1 l2. by rewrite Hx.
    + apply heap_prefix; [|lia]. intros p c Hc Hn _ _. apply Ho; try done; [lia|right; unfold child in Hc; lia].
    + apply Forall_forall. intros y Hy.
      assert (y ∈ l) as (c & Hc)%list_elem_of_lookup by (rewrite Hperm; by right).
      apply list_lookup_total_correct in Hc as E. rewrite <- E. apply heap_root; [done|by eapply lookup_lt_Some].
Qed.

(** Removal of an entry: the last one takes its place and is moved to where it
    belongs. *)
Lemma Fix_last l i (n := (length l - 1)%nat) :
  heap_ordered l -> (i < n)%nat ->
  l ≡ₚ l !!! i :: Fix (take n (<[i := l !!! n]> l)) i /\ heap_ordered (Fix (take n (<[i := l !!! n]> l)) i).
Proof.
  intros Hh Hi. destruct (heap_replace l i (l !!! n) Hh) as [Hord Hbr].
  set (l1 := <[i := l !!! n]> l) in *. assert (length l1 = S n) as Hl1 by (unfold l1; rewrite length_insert; lia).
  assert (length (take n l1) = n) as Hlen by (rewrite length_take; lia).
  destruct (Fix_spec (take n l1) i) as [Hp Hf]; rewrite ?Hlen; [done| | |split; [|done]].
  - intros p c Hc Hn Hk HP. rewrite !lookup_total_take_lt by (unfold child in Hc; lia). apply Hord; try done; lia.
  - intros p c Hc Hc' Hn Hk. rewrite !lookup_total_take_lt by (unfold child in *; lia). apply Hbr; try done; lia.
  - rewrite Hp. apply (Permutation_cons_inv (a := l !!! n)).
    trans (l !!! i :: l1); [symmetry; apply insert_swap_perm, list_lookup_lookup_total_lt; lia|].
    rewrite perm_swap. apply Permutation_skip.
    rewrite <- (take_ge l1 (S n)) at 1 by lia.
    rewrite (take_S_r l1 n (l !!! n)); [symmetry; apply Permutation_cons_append|].
    unfold l1. rewrite list_lookup_insert_ne by lia. apply list_lookup_lookup_total_lt. lia.
Qed.

End GoHeap.
