(* ===== verification/Utils.v ===== *)
(** * Checked arithmetic and compact targets (src/utils)

    [Module SafeMath] is safemath.go; [Module Convert] is convert.go: the
    big-endian integer encodings that feed every hash, and the Bitcoin-style
    compact encoding of 256-bit targets. *)

From S2P Require Import Prelude GoLib.

Module SafeMath.

Inductive math_error :=
  | AdditionOverflow (a b : Z)
  | SubtractionUnderflow (a b : Z)
  | AmountTooLarge (a : Z).

Definition SafeAdd (a b : Z) : res math_error Z :=
  if u64 (max_u64 - b) <? a then Err (AdditionOverflow a b) else Ok (u64 (a + b)).

Definition SafeSubtract (a b : Z) : res math_error Z :=
  if a <? b then Err (SubtractionUnderflow a b) else Ok (u64 (a - b)).

Definition ValidateAmount (amount : Z) : res math_error unit :=
  if max_u64 <? amount then Err (AmountTooLarge amount) else Ok ().

(** On [uint64] operands, [SafeAdd] returns the true sum exactly when it fits
    and the overflow error exactly when it does not. *)
Lemma SafeAdd_spec a b :
  is_u64 a -> is_u64 b ->
  SafeAdd a b = if decide (a + b < 2 ^ 64) then Ok (a + b) else Err (AdditionOverflow a b).
Proof.
  intros Ha Hb. unfold SafeAdd. rewrite u64_small by (machine_bounds; lia).
  destruct (Z.ltb_spec (max_u64 - b) a); case_decide; try (machine_bounds; lia); [done|].
  f_equal. apply u64_small. machine_bounds; lia.
Qed.

Lemma SafeSubtract_spec a b :
  is_u64 a -> is_u64 b ->
  SafeSubtract a b = if decide (b <= a) then Ok (a - b) else Err (SubtractionUnderflow a b).
Proof.
  intros Ha Hb. unfold SafeSubtract.
  destruct (Z.ltb_spec a b); case_decide; try lia; [done|].
  f_equal. apply u64_small. machine_bounds; lia.
Qed.

Lemma ValidateAmount_u64 a : is_u64 a -> ValidateAmount a = Ok ().
Proof.
  intros Ha. unfold ValidateAmount. rewrite (proj2 (Z.ltb_ge _ _)); [done|]. machine_bounds; lia.
Qed.

Lemma SafeAdd_ok a b c :
  is_u64 a -> is_u64 b -> SafeAdd a b = Ok c -> c = a + b /\ is_u64 c.
Proof.
  intros Ha Hb. rewrite SafeAdd_spec by done. case_decide; [|discriminate].
  intros [= <-]. machine_bounds; lia.
Qed.

Lemma SafeSubtract_ok a b c :
  is_u64 a -> is_u64 b -> SafeSubtract a b = Ok c -> c = a - b /\ is_u64 c.
Proof.
  intros Ha Hb. rewrite SafeSubtract_spec by done. case_decide; [|discriminate].
  intros [= <-]. machine_bounds; lia.
Qed.

End SafeMath.

Module Convert.

Definition Uint64ToBytes (n : Z) : bytes := be_bytes 8 n.

Definition Uint32ToBytes (n : Z) : bytes := be_bytes 4 n.

Definition CompactToBig (compact : Z) : Z :=
  let exponent := Z.shiftr compact 24 in
  let mantissa := Z.land compact 0x007fffff in
  let target := i64 mantissa in
  if 3 <? exponent then Z.shiftl target (8 * (exponent - 3))
  else Z.shiftr target (8 * (3 - exponent)).

Definition BigToCompact (target : Z) : Z :=
  if target <=? 0 then 0
  else
    let bs := map byte_val (big_Bytes target) in
    let exponent := u32 (Z.of_nat (length bs)) in
    let mantissa := match bs with b0 :: _ => Z.shiftl b0 16 | _ => 0 end in
    let mantissa := match bs with _ :: b1 :: _ => Z.lor mantissa (Z.shiftl b1 8) | _ => mantissa end in
    let mantissa := match bs with _ :: _ :: b2 :: _ => Z.lor mantissa b2 | _ => mantissa end in
    let '(mantissa, exponent) :=
      if negb (Z.land mantissa 0x00800000 =? 0)
      then (Z.shiftr mantissa 8, u32 (exponent + 1)) else (mantissa, exponent) in
    Z.lor (u32 (Z.shiftl exponent 24)) mantissa.

(** ** Field lemmas *)

Lemma Uint64ToBytes_inj x y :
  is_u64 x -> is_u64 y -> Uint64ToBytes x = Uint64ToBytes y -> x = y.
Proof. intros Hx Hy. apply be_bytes_inj; done. Qed.

(** A compact value splits into its exponent and a 23-bit mantissa. *)
Lemma CompactToBig_fields e m :
  0 <= e < 256 -> 0 <= m < 2 ^ 23 ->
  CompactToBig (e * 2 ^ 24 + m) =
    if 3 <? e then m * 256 ^ (e - 3) else m / 256 ^ (3 - e).
Proof.
  intros He Hm. unfold CompactToBig.
  assert (Z.shiftr (e * 2 ^ 24 + m) 24 = e) as ->.
  { rewrite Z.shiftr_div_pow2, Z.div_add_l, Z.div_small by lia. lia. }
  assert (Z.land (e * 2 ^ 24 + m) 0x007fffff = m) as ->.
  { change 0x007fffff with (Z.ones 23). rewrite Z.land_ones by lia.
    replace (e * 2 ^ 24 + m) with (m + (e * 2) * 2 ^ 23) by lia.
    rewrite Z.mod_add, Z.mod_small; lia. }
  rewrite i64_small by (machine_bounds; lia).
  assert (forall k, 0 <= k -> 2 ^ (8 * k) = 256 ^ k) as Hp.
  { intros k Hk. rewrite Z.pow_mul_r by lia. done. }
  destruct (Z.ltb_spec 3 e).
  - rewrite Z.shiftl_mul_pow2, Hp by lia. done.
  - rewrite Z.shiftr_div_pow2, Hp by lia. done.
Qed.

(** The three leading bytes of a number, as the 24-bit value they form. *)
Definition top3 (bs : list Z) : Z :=
  match bs with
  | [] => 0
  | [a] => a * 2 ^ 16
  | [a; b] => a * 2 ^ 16 + b * 2 ^ 8
  | a :: b :: c :: _ => a * 2 ^ 16 + b * 2 ^ 8 + c
  end.

(** Or-ing a low part into a shifted high part is addition. *)
Lemma lor_disjoint a b n : 0 <= n -> 0 <= b < 2 ^ n -> Z.lor (a * 2 ^ n) b = a * 2 ^ n + b.
Proof.
  intros Hn Hb. rewrite <- Z.add_lor_land.
  enough (Z.land (a * 2 ^ n) b = 0) as -> by lia.
  rewrite <- (Z.mod_small b (2 ^ n)), <- Z.shiftl_mul_pow2 by done.
  apply Z.bits_inj'. intros k Hk. rewrite Z.land_spec, Z.bits_0.
  destruct (Z.lt_ge_cases k n).
  - by rewrite Z.shiftl_spec_low.
  - rewrite Z.mod_pow2_bits_high by lia. apply andb_false_r.
Qed.

Lemma lor_mantissa a b c :
  0 <= b < 256 -> 0 <= c < 256 ->
  Z.lor (Z.lor (Z.shiftl a 16) (Z.shiftl b 8)) c = a * 2 ^ 16 + b * 2 ^ 8 + c.
Proof.
  intros Hb Hc. rewrite !Z.shiftl_mul_pow2 by lia.
  rewrite (lor_disjoint a) by lia.
  replace (a * 2 ^ 16 + b * 2 ^ 8) with ((a * 2 ^ 8 + b) * 2 ^ 8) by lia.
  rewrite lor_disjoint by lia. lia.
Qed.

Lemma big_Bytes_pos t :
  0 < t -> exists b bs, map byte_val (big_Bytes t) = b :: bs /\ 0 < b < 256
    /\ Forall (fun d => 0 <= d < 256) bs /\ undigits 256 (b :: bs) = t.
Proof.
  intros Ht. unfold big_Bytes. rewrite Z.abs_eq by lia.
  destruct (digits_spec 256 t ltac:(lia)) as (Hv & Hr & Hp & _).
  rewrite map_byte_val_of by done.
  destruct (Hp Ht) as (b & bs & E & Hb). rewrite E in *. inversion_clear Hr.
  exists b, bs. repeat split; try lia; done.
Qed.

(** The code's three conditional or-s compute [top3]. *)
Lemma BigToCompact_mantissa bs :
  Forall (fun d => 0 <= d < 256) bs ->
  (let mantissa := match bs with b0 :: _ => Z.shiftl b0 16 | _ => 0 end in
   let mantissa := match bs with _ :: b1 :: _ => Z.lor mantissa (Z.shiftl b1 8) | _ => mantissa end in
   match bs with _ :: _ :: b2 :: _ => Z.lor mantissa b2 | _ => mantissa end) = top3 bs.
Proof.
  intros H. destruct bs as [|a [|b [|c bs]]]; cbn [top3]; cbv zeta.
  - done.
  - by rewrite Z.shiftl_mul_pow2 by lia.
  - inversion_clear H as [|? ? _ H1]. inversion_clear H1.
    pose proof (lor_mantissa a b 0) as E. rewrite Z.lor_0_r in E. rewrite E; lia.
  - inversion_clear H as [|? ? _ H1]. inversion_clear H1 as [|? ? ? H2]. inversion_clear H2.
    by apply lor_mantissa.
Qed.

Lemma land_sign_bit q : 0 <= q < 2 ^ 24 -> (Z.land q 0x00800000 =? 0) = (q <? 2 ^ 23).
Proof.
  intros Hq. change 0x00800000 with (2 ^ 23).
  assert (Z.land q (2 ^ 23) = if Z.testbit q 23 then 2 ^ 23 else 0) as ->.
  { apply Z.bits_inj'. intros k Hk. rewrite Z.land_spec.
    destruct (Z.eq_dec k 23) as [->|Hne].
    - rewrite Z.pow2_bits_true, andb_true_r by lia.
      destruct (Z.testbit q 23); [by rewrite Z.pow2_bits_true by lia | by rewrite Z.bits_0].
    - rewrite Z.pow2_bits_false, andb_false_r by lia.
      destruct (Z.testbit q 23); [by rewrite Z.pow2_bits_false by lia | by rewrite Z.bits_0]. }
  rewrite Z.testbit_eqb by lia.
  destruct (Z.ltb_spec q (2 ^ 23)).
  - rewrite Z.div_small by lia. done.
  - replace (q / 2 ^ 23) with 1; [done|].
    apply Z.div_unique with (q - 2 ^ 23); lia.
Qed.

Lemma top3_range b bs :
  0 < b < 256 -> Forall (fun d => 0 <= d < 256) bs -> 2 ^ 16 <= top3 (b :: bs) < 2 ^ 24.
Proof.
  intros Hb H. destruct bs as [|c [|d bs]]; simpl; [lia| |];
    inversion_clear H as [|? ? Hc H1]; [lia|]. inversion_clear H1. lia.
Qed.

(** A number below [256^n] has at most [n] bytes. *)
Lemma length_bound b bs t n :
  0 < b < 256 -> Forall (fun d => 0 <= d < 256) bs -> undigits 256 (b :: bs) = t ->
  0 <= n -> t < 256 ^ n -> Z.of_nat (length (b :: bs)) <= n.
Proof.
  intros Hb Hbs Hv Hn Hmax.
  enough (Z.of_nat (length bs) < n) by (simpl; lia).
  apply (Z.pow_lt_mono_r_iff 256); [lia..|].
  revert Hv. change (b :: bs) with ([b] ++ bs). rewrite undigits_app.
  pose proof (undigits_range 256 bs ltac:(lia) Hbs) as Hbnd.
  change (undigits 256 [b]) with b.
  pose proof (Z.pow_pos_nonneg 256 (Z.of_nat (length bs)) ltac:(lia) ltac:(lia)). nia.
Qed.

(** Normal form of the encoder: exponent and mantissa in terms of the leading
    bytes, the mantissa shifted once when its top bit would be the sign. *)
Lemma BigToCompact_fields t :
  0 < t < 256 ^ 250 ->
  exists b bs, map byte_val (big_Bytes t) = b :: bs /\ undigits 256 (b :: bs) = t
    /\ 0 < b < 256 /\ Forall (fun d => 0 <= d < 256) bs /\ (length (b :: bs) <= 250)%nat
    /\ BigToCompact t =
       let q := top3 (b :: bs) in let e := Z.of_nat (length (b :: bs)) in
       if q <? 2 ^ 23 then e * 2 ^ 24 + q else (e + 1) * 2 ^ 24 + q / 256.
Proof.
  intros [Ht Hmax]. destruct (big_Bytes_pos t Ht) as (b & bs & E & Hb & Hbs & Hv).
  pose proof (length_bound b bs t 250 Hb Hbs Hv ltac:(lia) Hmax) as Hl.
  exists b, bs. refine (conj E (conj Hv (conj Hb (conj Hbs (conj _ _))))).

  - simpl in *. lia.
  - unfold BigToCompact. destruct (Z.leb_spec t 0); [lia|]. rewrite E.
    pose proof (top3_range b bs Hb Hbs) as Hq.
    pose proof (BigToCompact_mantissa (b :: bs) ltac:(constructor; [lia|done])) as Hm.
    cbv zeta in Hm |- *. rewrite Hm. rewrite land_sign_bit by lia.
    remember (top3 (b :: bs)) as q. remember (Z.of_nat (length (b :: bs))) as e.
    assert (1 <= e) by (subst e; simpl; lia).
    rewrite (u32_small e) by (machine_bounds; lia).
    destruct (q <? 2 ^ 23) eqn:Hc; cbn [negb]; bool_to_prop.
    + rewrite Z.shiftl_mul_pow2 by lia. rewrite u32_small by (machine_bounds; lia).
      apply lor_disjoint; lia.
    + rewrite (u32_small (e + 1)) by (machine_bounds; lia).
      rewrite Z.shiftl_mul_pow2, Z.shiftr_div_pow2 by lia.
      rewrite u32_small by (machine_bounds; lia).
      apply lor_disjoint; [lia|]. split; [apply Z.div_pos; lia|].
      apply Z.div_lt_upper_bound; lia.
Qed.

(** The value splits into its three leading bytes and a remainder below one
    unit of the last of them. *)
Lemma top3_value b bs :
  0 < b < 256 -> Forall (fun d => 0 <= d < 256) bs ->
  let t := undigits 256 (b :: bs) in let e := Z.of_nat (length (b :: bs)) in
  if 3 <? e then top3 (b :: bs) * 256 ^ (e - 3) <= t < (top3 (b :: bs) + 1) * 256 ^ (e - 3)
  else top3 (b :: bs) = t * 256 ^ (3 - e).
Proof.
  intros Hb Hbs. destruct bs as [|c [|d bs]]; cbv zeta.
  - cbn [length top3]. unfold undigits. simpl fold_left.
    change (3 <? Z.of_nat 1) with false. cbv iota. change (256 ^ (3 - Z.of_nat 1)) with (2 ^ 16). lia.
  - cbn [length top3]. unfold undigits. simpl fold_left.
    change (3 <? Z.of_nat 2) with false. cbv iota. change (256 ^ (3 - Z.of_nat 2)) with (2 ^ 8). lia.
  - inversion_clear Hbs as [|? ? Hc H1]. inversion_clear H1 as [|? ? Hd Hr].
    change (b :: c :: d :: bs) with ([b; c; d] ++ bs). rewrite undigits_app, length_app.
    change (undigits 256 [b; c; d]) with ((b * 256 + c) * 256 + d).
    pose proof (undigits_range 256 bs ltac:(lia) Hr) as Hu.
    replace (Z.of_nat (length [b; c; d] + length bs) - 3) with (Z.of_nat (length bs))
      by (simpl length; lia).
    cbn [top3 app]. destruct (Z.ltb_spec 3 (Z.of_nat (length [b; c; d] + length bs))).
    + nia.
    + assert (length bs = O) as -> by (simpl length in *; lia).
      destruct bs; [|simpl length in *; lia].
      change (undigits 256 []) with 0. simpl length. simpl Z.pow. lia.
Qed.

(** The leading bytes bound the value from both sides. *)
Lemma top3_bounds b bs :
  0 < b < 256 -> Forall (fun d => 0 <= d < 256) bs ->
  let t := undigits 256 (b :: bs) in let e := Z.of_nat (length (b :: bs)) in
  top3 (b :: bs) * 256 ^ e <= t * 256 ^ 3 < (top3 (b :: bs) + 1) * 256 ^ e.
Proof.
  intros Hb Hbs t e. pose proof (top3_value b bs Hb Hbs) as H. fold t e in H. cbv zeta in H.
  assert (1 <= e) by (subst e; simpl length; lia).
  destruct (Z.ltb_spec 3 e).
  - replace e with (e - 3 + 3) by lia. rewrite Z.pow_add_r by lia.
    replace (e - 3 + 3 - 3) with (e - 3) by lia. nia.
  - rewrite H. replace (256 ^ 3) with (256 ^ (3 - e) * 256 ^ e)
      by (rewrite <- Z.pow_add_r by lia; f_equal; lia).
    pose proof (Z.pow_pos_nonneg 256 e ltac:(lia) ltac:(lia)). nia.
Qed.

(** [a * 256^x < b * 256^y] with [256^k * b <= 256^l * a] bounds the exponents. *)
Lemma pow256_lt_exponent a b x y k l :
  0 <= x -> 0 <= y -> 0 <= k -> 0 <= l -> 0 < b ->
  256 ^ k * b <= 256 ^ l * a -> a * 256 ^ x < b * 256 ^ y -> k + x < l + y.
Proof.
  intros Hx Hy Hk Hl Hb Hab H. apply (Z.pow_lt_mono_r_iff 256); [lia..|].
  rewrite !Z.pow_add_r by lia.
  pose proof (Z.pow_pos_nonneg 256 x ltac:(lia) Hx).
  pose proof (Z.pow_pos_nonneg 256 l ltac:(lia) Hl). 
  apply (Z.mul_lt_mono_pos_l b); [done|]. nia.
Qed.

Lemma scale_lt a b x y : 0 <= b < a -> 0 < y -> a * x <= b * y -> x < y.
Proof. intros. destruct (Z.lt_ge_cases x y); [done|]. nia. Qed.

(** The quotient of an exact multiple, from its two-sided bound. *)
Lemma floor_unique q m p : 0 < p -> q * p <= m * p < (q + 1) * p -> q = m.
Proof. intros. nia. Qed.

(** Decoding a normalised compact value and encoding it again gives it back:
    the 32-bit target of a header is a faithful representation. *)
Theorem compact_roundtrip e m :
  3 <= e <= 250 -> 2 ^ 15 <= m < 2 ^ 23 ->
  BigToCompact (CompactToBig (e * 2 ^ 24 + m)) = e * 2 ^ 24 + m.
Proof.
  intros He Hm. rewrite CompactToBig_fields by lia.
  assert ((if 3 <? e then m * 256 ^ (e - 3) else m / 256 ^ (3 - e)) = m * 256 ^ (e - 3)) as ->.
  { destruct (Z.ltb_spec 3 e); [done|]. replace e with 3 by lia. simpl Z.pow. rewrite Z.div_1_r. lia. }
  set (t := m * 256 ^ (e - 3)).
  assert (t * 256 ^ 3 = m * 256 ^ e) as Ht.
  { unfold t. rewrite <- Z.mul_assoc, <- Z.pow_add_r by lia. do 2 f_equal. lia. }
  assert (0 < t < 256 ^ 250) as Hr.
  { pose proof (Z.pow_pos_nonneg 256 (e - 3) ltac:(lia) ltac:(lia)).
    pose proof (Z.pow_le_mono_r 256 (e - 3) 247 ltac:(lia) ltac:(lia)).
    replace (256 ^ 250) with (256 ^ 3 * 256 ^ 247) by (rewrite <- Z.pow_add_r by lia; done).
    unfold t. nia. }
  destruct (BigToCompact_fields t Hr) as (b & bs & _ & Hv & Hb & Hbs & Hl & ->).
  pose proof (top3_bounds b bs Hb Hbs) as Hq. pose proof (top3_range b bs Hb Hbs) as Hqr.
  rewrite Hv in Hq. cbv zeta in Hq |- *.
  remember (top3 (b :: bs)) as q. remember (Z.of_nat (length (b :: bs))) as L.
  assert (0 <= L) by lia. rewrite Ht in Hq.
  pose proof (Z.pow_pos_nonneg 256 e ltac:(lia) ltac:(lia)) as Hpe.
  destruct (Z.lt_ge_cases m (2 ^ 16)) as [Hm16|Hm16].
  - assert (L = e - 1) as ->.
    { pose proof (scale_lt q m (256 ^ L) (256 ^ e) ltac:(lia) Hpe (proj1 Hq)) as Hlt.
      apply Z.pow_lt_mono_r_iff in Hlt; [|lia..].
      pose proof (pow256_lt_exponent m (q + 1) e L 1 3 ltac:(lia) ltac:(lia) ltac:(lia) ltac:(lia)
        ltac:(lia) ltac:(lia) (proj2 Hq)). lia. }
    replace e with (1 + (e - 1)) in Hq at 2 3 by lia.
    rewrite Z.pow_add_r in Hq by lia. change (256 ^ 1) with 256 in Hq.
    assert (q = m * 256) as ->.
    { apply floor_unique with (256 ^ (e - 1)); [apply Z.pow_pos_nonneg; lia | lia]. }
    rewrite (proj2 (Z.ltb_ge _ _)) by lia. rewrite Z.div_mul by lia. lia.
  - assert (L = e) as ->.
    { pose proof (pow256_lt_exponent m (q + 1) e L 0 1 ltac:(lia) ltac:(lia) ltac:(lia) ltac:(lia)
        ltac:(lia) ltac:(lia) (proj2 Hq)).
      assert (q * 256 ^ L < (m + 1) * 256 ^ e) as Hlt by lia.
      pose proof (pow256_lt_exponent q (m + 1) L e 0 1 ltac:(lia) ltac:(lia) ltac:(lia) ltac:(lia)
        ltac:(lia) ltac:(lia) Hlt). lia. }
    assert (q = m) as -> by (apply floor_unique with (256 ^ e); lia).
    rewrite (proj2 (Z.ltb_lt _ _)) by lia. done.
Qed.

(** A value [v] kept from a quotient [q] of which the low byte was dropped. *)
Lemma compact_roundtrip_witness :
  BigToCompact (CompactToBig (0x1d * 2 ^ 24 + 0x00ffff)) = 0x1d00ffff.
Proof. apply (compact_roundtrip 0x1d 0x00ffff); lia. Defined.

Lemma truncation_bound v t q m x p :
  0 < p -> 0 < x -> 2 ^ 15 <= m -> m * 256 <= q -> q + 1 <= (m + 1) * 256 ->
  v * p = m * 256 * x -> q * x <= t * p < (q + 1) * x ->
  v <= t /\ 2 ^ 15 * t < (2 ^ 15 + 1) * v.
Proof.
  intros Hp Hx Hm Hlo Hhi Hv Ht. split.
  - apply (Z.mul_le_mono_pos_r _ _ p); [done|]. rewrite Hv.
    transitivity (q * x); [apply Z.mul_le_mono_nonneg_r; lia | lia].
  - apply (Z.mul_lt_mono_pos_r p); [done|].
    rewrite <- !Z.mul_assoc, Hv.
    apply Z.lt_le_trans with (2 ^ 15 * ((q + 1) * x)); [lia|].
    rewrite !Z.mul_assoc. apply Z.mul_le_mono_nonneg_r; lia.
Qed.

(** Encoding never raises a target, and loses less than one part in 2^15:
    a retargeted difficulty is never easier than the computed one. *)
Lemma BigToCompact_truncates t :
  0 < t < 256 ^ 250 ->
  CompactToBig (BigToCompact t) <= t
  /\ 2 ^ 15 * t < (2 ^ 15 + 1) * CompactToBig (BigToCompact t).
Proof.
  intros Ht. destruct (BigToCompact_fields t Ht) as (b & bs & _ & Hv & Hb & Hbs & Hl & ->).
  pose proof (top3_bounds b bs Hb Hbs) as Hq. pose proof (top3_range b bs Hb Hbs) as Hqr.
  pose proof (top3_value b bs Hb Hbs) as Hx. rewrite Hv in Hq, Hx. cbv zeta in *.
  remember (top3 (b :: bs)) as q. remember (Z.of_nat (length (b :: bs))) as L.
  assert (1 <= L <= 250) by (subst L; simpl length in *; lia).
  destruct (Z.ltb_spec q (2 ^ 23)) as [Hc|Hc].
  - rewrite CompactToBig_fields by lia. destruct (Z.ltb_spec 3 L).
    + pose proof (Z.pow_pos_nonneg 256 (L - 3) ltac:(lia) ltac:(lia)). nia.
    + rewrite Hx, Z.div_mul by (pose proof (Z.pow_pos_nonneg 256 (3 - L)); lia). lia.
  - pose proof (Z.div_mod q 256 ltac:(lia)). pose proof (Z.mod_pos_bound q 256 ltac:(lia)).
    rewrite CompactToBig_fields by lia.
    destruct (Z.ltb_spec 3 (L + 1)).
    + replace (L + 1 - 3) with (L - 2) by lia.
      assert (q / 256 * 256 ^ (L - 2) * 256 ^ 3 = q / 256 * 256 * 256 ^ L).
      { rewrite <- !Z.mul_assoc. f_equal. replace L with (L - 2 + 2) at 2 by lia.
        rewrite Z.pow_add_r by lia. change (256 ^ 3) with (256 * 256 ^ 2). lia. }
      apply truncation_bound with q (q / 256) (256 ^ L) (256 ^ 3); lia.
    + assert (q / 256 = t * 256 ^ (2 - L)) as ->.
      { destruct (Z.ltb_spec 3 L); [lia|]. rewrite Hx. replace (3 - L) with (2 - L + 1) by lia.
        rewrite Z.pow_add_r, Z.pow_1_r, Z.mul_assoc, Z.div_mul by lia. done. }
      replace (3 - (L + 1)) with (2 - L) by lia.
      rewrite Z.div_mul by (pose proof (Z.pow_pos_nonneg 256 (2 - L)); lia). lia.
Qed.

End Convert.
