(* ===== verification/Bytecode.v ===== *)
(** * Bytecode: opcodes and instructions (src/types/bytecode.go, src/types/types.go)

    The wire form of an opcode is a [uint8], so an instruction carries a [Z];
    [Op] enumerates the declared constants and [opcode] is their [iota] value. *)

From S2P Require Import Prelude GoLib Config.

Definition Hash32 : Type := bytes.

#[export] Instance Hash32_eq_dec : EqDecision Hash32 := _ : EqDecision bytes.
#[export] Instance Hash32_countable : Countable Hash32 := _ : Countable bytes.

(** [Hash32{}] *)
Definition Hash32_zero : Hash32 := replicate 32 zero.

(** [Signature{}] is 64 bytes. *)
Definition Signature : Type := bytes.

Definition Hash32_String (h : Hash32) : string := hex_encode h.

(** The declared opcodes, in [iota] order. *)
Inductive Op :=
  | NOOP | PC | PUSH | POP | DUP | SWAP | ADD | SUB | MUL | DIV | MOD | AND | OR | EQ
  | LT | GT | ISZERO | JUMP | JUMPC | MSTORE | MLOAD | PSTORE | PLOAD | LOAD_LOCAL
  | STORE_LOCAL | CALL | RETURN | STOP | EMIT | STRCONCAT | STRLEN | EMITSTR
  | STRINDEX | STRSLICE | STRTOINT | INTTOSTR | CALLER | ADDRESS | BALANCE | ORIGIN
  | GASPRICE | CALLVALUE | TIMESTAMP | DIFFICULTY | BLOCKHASH | LASTBLOCKHASH
  | COINBASE | HEIGHT | GASLIMIT | TSXDATA.

#[export] Instance Op_eq_dec : EqDecision Op.
Proof. solve_decision. Defined.

Definition all_ops : list Op :=
  [NOOP; PC; PUSH; POP; DUP; SWAP; ADD; SUB; MUL; DIV; MOD; AND; OR; EQ; LT; GT;
   ISZERO; JUMP; JUMPC; MSTORE; MLOAD; PSTORE; PLOAD; LOAD_LOCAL; STORE_LOCAL; CALL;
   RETURN; STOP; EMIT; STRCONCAT; STRLEN; EMITSTR; STRINDEX; STRSLICE; STRTOINT;
   INTTOSTR; CALLER; ADDRESS; BALANCE; ORIGIN; GASPRICE; CALLVALUE; TIMESTAMP;
   DIFFICULTY; BLOCKHASH; LASTBLOCKHASH; COINBASE; HEIGHT; GASLIMIT; TSXDATA].

(** The [iota] value of a constant. *)
Definition opcode (o : Op) : Z :=
  match o with
  | NOOP => 0 | PC => 1 | PUSH => 2 | POP => 3 | DUP => 4 | SWAP => 5 | ADD => 6
  | SUB => 7 | MUL => 8 | DIV => 9 | MOD => 10 | AND => 11 | OR => 12 | EQ => 13
  | LT => 14 | GT => 15 | ISZERO => 16 | JUMP => 17 | JUMPC => 18 | MSTORE => 19
  | MLOAD => 20 | PSTORE => 21 | PLOAD => 22 | LOAD_LOCAL => 23 | STORE_LOCAL => 24
  | CALL => 25 | RETURN => 26 | STOP => 27 | EMIT => 28 | STRCONCAT => 29
  | STRLEN => 30 | EMITSTR => 31 | STRINDEX => 32 | STRSLICE => 33 | STRTOINT => 34
  | INTTOSTR => 35 | CALLER => 36 | ADDRESS => 37 | BALANCE => 38 | ORIGIN => 39
  | GASPRICE => 40 | CALLVALUE => 41 | TIMESTAMP => 42 | DIFFICULTY => 43
  | BLOCKHASH => 44 | LASTBLOCKHASH => 45 | COINBASE => 46 | HEIGHT => 47
  | GASLIMIT => 48 | TSXDATA => 49
  end.

(** The counter constant that ends the enumeration. *)
Definition LAST : Z := 50.

(** The constant a [uint8] stands for, if any. *)
Definition op_of (z : Z) : option Op := if z <? 0 then None else all_ops !! Z.to_nat z.

Definition Valid (op : Z) : bool := (op <? LAST) && (0 <=? op).

(** The [opcodeNames] array: [PC] has no entry, so its slot is the empty string. *)
Definition opcodeNames (o : Op) : string :=
  match o with
  | PC => ""
  | NOOP => "NOOP" | PUSH => "PUSH" | POP => "POP" | DUP => "DUP" | SWAP => "SWAP"
  | ADD => "ADD" | SUB => "SUB" | MUL => "MUL" | DIV => "DIV" | MOD => "MOD"
  | AND => "AND" | OR => "OR" | EQ => "EQ" | LT => "LT" | GT => "GT"
  | ISZERO => "ISZERO" | JUMP => "JUMP" | JUMPC => "JUMPC" | MSTORE => "MSTORE"
  | MLOAD => "MLOAD" | PSTORE => "PSTORE" | PLOAD => "PLOAD"
  | LOAD_LOCAL => "LOAD_LOCAL" | STORE_LOCAL => "STORE_LOCAL" | CALL => "CALL"
  | RETURN => "RETURN" | STOP => "STOP" | EMIT => "EMIT" | STRCONCAT => "STRCONCAT"
  | STRLEN => "STRLEN" | EMITSTR => "EMITSTR" | STRINDEX => "STRINDEX"
  | STRSLICE => "STRSLICE" | STRTOINT => "STRTOINT" | INTTOSTR => "INTTOSTR"
  | CALLER => "CALLER" | ADDRESS => "ADDRESS" | BALANCE => "BALANCE"
  | ORIGIN => "ORIGIN" | GASPRICE => "GASPRICE" | CALLVALUE => "CALLVALUE"
  | TIMESTAMP => "TIMESTAMP" | DIFFICULTY => "DIFFICULTY" | BLOCKHASH => "BLOCKHASH"
  | LASTBLOCKHASH => "LASTBLOCKHASH" | COINBASE => "COINBASE" | HEIGHT => "HEIGHT"
  | GASLIMIT => "GASLIMIT" | TSXDATA => "TSXDATA"
  end.

(** [len(opcodeNames)] and [len(opcodeGasPrices)]: the last index given is that
    of [TSXDATA]. *)
Definition table_len : Z := opcode TSXDATA + 1.

Definition OPCODE_String (op : Z) : string :=
  let unknown := ("UNKNOWN_OPCODE(" +:+ dec op +:+ ")")%string in
  match op_of op with
  | Some o => if String.eqb (opcodeNames o) "" then unknown else opcodeNames o
  | None => unknown
  end.

(** The [opcodeGasPrices] array; the slot of [PC] is zero. *)
Definition opcodeGasPrices (o : Op) : Z :=
  match o with
  | PC => 0
  | NOOP => 1 | PUSH => 3 | POP => 2 | DUP => 3 | SWAP => 3 | ADD => 3 | SUB => 3
  | MUL => 5 | DIV => 5 | MOD => 5 | AND => 3 | OR => 3 | EQ => 3 | LT => 3 | GT => 3
  | ISZERO => 3 | JUMP => 8 | JUMPC => 10 | MSTORE => 20 | MLOAD => 15
  | PSTORE => 1000 | PLOAD => 1000 | LOAD_LOCAL => 3 | STORE_LOCAL => 3 | CALL => 10
  | RETURN => 8 | STOP => 0 | EMIT => 100 | STRCONCAT => 50 | STRLEN => 10
  | EMITSTR => 150 | STRINDEX => 20 | STRSLICE => 30 | STRTOINT => 25
  | INTTOSTR => 25 | CALLER => 2 | ADDRESS => 2 | BALANCE => 400 | ORIGIN => 2
  | GASPRICE => 2 | CALLVALUE => 2 | TIMESTAMP => 2 | DIFFICULTY => 2
  | BLOCKHASH => 20 | LASTBLOCKHASH => 20 | COINBASE => 2 | HEIGHT => 2
  | GASLIMIT => 2 | TSXDATA => 2
  end.

Definition Price (op : Z) : Z :=
  match op_of op with Some o => opcodeGasPrices o | None => 65535 end.

(** The [OpcodeMap] literal. *)
Definition OpcodeMap : gmap string Z :=
  list_to_map
    [("NOOP", opcode NOOP); ("PUSH", opcode PUSH); ("POP", opcode POP);
     ("DUP", opcode DUP); ("SWAP", opcode SWAP); ("ADD", opcode ADD);
     ("SUB", opcode SUB); ("MUL", opcode MUL); ("DIV", opcode DIV);
     ("MOD", opcode MOD); ("AND", opcode AND); ("OR", opcode OR); ("EQ", opcode EQ);
     ("LT", opcode LT); ("GT", opcode GT); ("ISZERO", opcode ISZERO);
     ("JUMP", opcode JUMP); ("JUMPC", opcode JUMPC); ("MSTORE", opcode MSTORE);
     ("MLOAD", opcode MLOAD); ("PLOAD", opcode PLOAD); ("PSTORE", opcode PSTORE);
     ("LOAD_LOCAL", opcode LOAD_LOCAL); ("STORE_LOCAL", opcode STORE_LOCAL);
     ("CALL", opcode CALL); ("RETURN", opcode RETURN); ("STOP", opcode STOP);
     ("EMIT", opcode EMIT); ("STRCONCAT", opcode STRCONCAT);
     ("STRLEN", opcode STRLEN); ("EMITSTR", opcode EMITSTR);
     ("STRINDEX", opcode STRINDEX); ("STRSLICE", opcode STRSLICE);
     ("STRTOINT", opcode STRTOINT); ("INTTOSTR", opcode INTTOSTR);
     ("CALLER", opcode CALLER); ("ADDRESS", opcode ADDRESS);
     ("BALANCE", opcode BALANCE); ("ORIGIN", opcode ORIGIN);
     ("GASPRICE", opcode GASPRICE); ("CALLVALUE", opcode CALLVALUE);
     ("TIMESTAMP", opcode TIMESTAMP); ("DIFFICULTY", opcode DIFFICULTY);
     ("BLOCKHASH", opcode BLOCKHASH); ("LASTBLOCKHASH", opcode LASTBLOCKHASH);
     ("COINBASE", opcode COINBASE); ("HEIGHT", opcode HEIGHT);
     ("GASLIMIT", opcode GASLIMIT); ("TSXDATA", opcode TSXDATA)].

(** An instruction: an opcode and the optional textual operand of [PUSH]. *)
Record Instruction := MkInstruction {
  Opcode : Z;
  Value : option string
}.

#[export] Instance Instruction_eq_dec : EqDecision Instruction.
Proof. solve_decision. Defined.

Inductive instr_error :=
  | ErrInvalidOpcodeByte
  | ErrInvalidPush
  | ErrNegativeValue
  | ErrUnexpectedInstructionParameter
  | ErrInvalidHexValue
  | ErrInvalidValue.

Definition MakeInstruction (op : Z) : Instruction := MkInstruction op None.

Definition MakePushInstruction (value : string) : Instruction :=
  MkInstruction (opcode PUSH) (Some value).

(** The dynamic types [MakeInstructionWithValue] switches on. *)
Inductive operand :=
  | OpString (s : string)
  | OpBig (v : option Z)
  | OpInt (v : Z)
  | OpInt64 (v : Z)
  | OpUint64 (v : Z)
  | OpOther.

(** Negative numbers in decimal, the others in hexadecimal with a prefix. *)
Definition signed_text (v : Z) : string :=
  if v <? 0 then dec v else ("0x" +:+ hex v)%string.

Definition operand_text (v : operand) : string :=
  match v with
  | OpString s => s
  | OpBig (Some v) => signed_text v
  | OpBig None => ""
  | OpInt v => signed_text v
  | OpInt64 v => signed_text v
  | OpUint64 v => ("0x" +:+ hex (i64 v))%string
  | OpOther => ""
  end.

Definition MakeInstructionWithValue (op : Z) (value : operand) : Instruction :=
  let valueStr := operand_text value in
  if String.eqb valueStr "" then MkInstruction op None else MkInstruction op (Some valueStr).

Definition MakeInstructionWithValueAndParam (op : Z) (value : operand) (param : string) : Instruction :=
  let valueStr :=
    match value with
    | OpString s => s
    | OpBig (Some v) => signed_text v
    | _ => ""
    end in
  MkInstruction op (Some (valueStr +:+ ",param=" +:+ param)%string).

Definition MakeInstructionWithParam (op : Z) (param : operand) : Instruction :=
  MakeInstructionWithValue op param.

(** The operand as a [big.Int]: hexadecimal after [0x], decimal otherwise. *)
Definition GetValueAsBigInt (ins : Instruction) : res instr_error Z :=
  match Value ins with
  | None => Ok 0
  | Some v =>
      if String.eqb v "" then Ok 0
      else if has_prefix "0x" v then
        match big_SetString (string_of_bytes (drop 2 (bytes_of_string v))) 16 with
        | (n, true) => Ok n
        | (_, false) => Err ErrInvalidHexValue
        end
      else
        match big_SetString v 10 with
        | (n, true) => Ok n
        | (_, false) => Err ErrInvalidValue
        end
  end.

Definition ValidateInstruction (ins : Instruction) : res instr_error unit :=
  if negb (Valid (Opcode ins)) then Err ErrInvalidOpcodeByte
  else if Opcode ins =? opcode PUSH then
    match Value ins with
    | None => Err ErrInvalidPush
    | Some v =>
        if strings_Contains v ",param=" then Err ErrUnexpectedInstructionParameter
        else match GetValueAsBigInt ins with
             | Err _ => Err ErrInvalidPush
             | Ok n => if n <? 0 then Err ErrNegativeValue else Ok ()
             end
    end
  else match Value ins with
       | Some _ => Err ErrUnexpectedInstructionParameter
       | None => Ok ()
       end.

(** ** Opcode tables *)

Lemma op_of_opcode o : op_of (opcode o) = Some o.
Proof. by destruct o. Qed.

Lemma op_of_Some z o : op_of z = Some o -> z = opcode o.
Proof.
  unfold op_of. destruct (Z.ltb_spec z 0); [discriminate|].
  intros Hl. apply Z2Nat.inj; [done | by destruct o |].
  revert Hl. generalize (Z.to_nat z) as n. clear. intros n Hn.
  do 50 (destruct n as [|n]; [injection Hn as <-; reflexivity|]). discriminate.
Qed.

Lemma op_of_Valid z : is_Some (op_of z) <-> Valid z = true.
Proof.
  unfold op_of, Valid, LAST. destruct (Z.ltb_spec z 0).
  - split; [intros [? ?]; discriminate|]. intros. bool_to_prop. lia.
  - rewrite lookup_lt_is_Some. change (length all_ops) with 50%nat.
    split; intros; bool_to_prop; [|lia]. apply andb_true_iff. lia.
Qed.

(** Every mnemonic of the table reads back as the opcode that printed it; the
    program counter opcode, which has no mnemonic, is the only exception. *)
Theorem OpcodeMap_String o :
  OpcodeMap !! OPCODE_String (opcode o) = if decide (o = PC) then None else Some (opcode o).
Proof. by destruct o; vm_compute. Qed.

(** The only free opcodes are the halting one and [PC], which no handler
    executes: every other declared opcode costs at least one unit of gas. *)
Lemma Price_positive o : o <> STOP -> o <> PC -> 1 <= Price (opcode o) <= 1000.
Proof. destruct o; vm_compute; intuition congruence. Qed.

Lemma Price_range z : 0 <= Price z <= 65535.
Proof.
  unfold Price. destruct (op_of z) as [o|]; [|lia]. destruct o; simpl; lia.
Qed.

(** ** Operands *)

Lemma has_prefix_0x s : has_prefix "0x" ("0x" +:+ s) = true.
Proof. unfold has_prefix. simpl. by destruct s. Qed.

(** The textual operand of an emitted instruction carries its number exactly,
    negative ones included. *)
Theorem GetValueAsBigInt_signed_text op z :
  GetValueAsBigInt (MkInstruction op (Some (signed_text z))) = Ok z.
Proof.
  unfold signed_text, GetValueAsBigInt. cbn [Value]. destruct (Z.ltb_spec z 0) as [Hz|Hz].
  - assert (exists s, dec z = String "-" s) as [s E].
    { unfold dec, big_Text. rewrite (proj2 (Z.ltb_lt _ _) Hz). eexists. reflexivity. }
    pose proof (SetString_Text 10 z ltac:(lia)) as Hd. fold (dec z) in Hd.
    rewrite E in *. cbn [String.eqb]. change (has_prefix "0x" (String "-" s)) with false.
    cbv iota. by rewrite Hd.
  - rewrite has_prefix_0x. cbn [String.eqb].
    change (drop 2 (bytes_of_string ("0x" +:+ hex z))) with (bytes_of_string (hex z)).
    rewrite string_of_bytes_of_string. unfold hex. by rewrite SetString_Text by lia.
Qed.

Lemma ValidateInstruction_Ok ins :
  ValidateInstruction ins = Ok () ->
  exists o, Opcode ins = opcode o
    /\ (o = PUSH -> exists n, GetValueAsBigInt ins = Ok n /\ 0 <= n)
    /\ (o <> PUSH -> Value ins = None).
Proof.
  unfold ValidateInstruction. destruct (Valid (Opcode ins)) eqn:Hv; [|discriminate]. cbn [negb].
  destruct (proj2 (op_of_Valid _) Hv) as [o Ho]. apply op_of_Some in Ho.
  intros H. exists o. split; [done|]. rewrite Ho in H.
  destruct (Z.eqb_spec (opcode o) (opcode PUSH)) as [E|E].
  - assert (o = PUSH) as -> by (destruct o; done). split; [|done]. intros _.
    repeat destruct_match_in H; try discriminate; bool_to_prop. eauto.
  - split; [intros ->; done|]. intros _. by destruct (Value ins).
Qed.

(** Validation accepts exactly the well-formed instructions: a declared opcode,
    with a non-negative numeric operand on [PUSH] and no operand elsewhere. *)
Theorem ValidateInstruction_spec ins :
  ValidateInstruction ins = Ok () <->
  exists o, Opcode ins = opcode o /\
    match o with
    | PUSH => exists v n, Value ins = Some v /\ strings_Contains v ",param=" = false
                /\ GetValueAsBigInt ins = Ok n /\ 0 <= n
    | _ => Value ins = None
    end.
Proof.
  split.
  - intros H. destruct (ValidateInstruction_Ok _ H) as (o & Ho & Hp & Hn). exists o.
    split; [done|]. destruct o; try (apply Hn; done). destruct (Hp eq_refl) as (n & Hg & ?).
    revert H. unfold ValidateInstruction. rewrite Ho. cbn. destruct (Value ins) as [v|]; [|done].
    destruct (strings_Contains v ",param=") eqn:Hc; [done|]. eauto 8.
  - intros (o & Ho & H). unfold ValidateInstruction. rewrite Ho.
    rewrite (proj1 (op_of_Valid (opcode o))) by (rewrite op_of_opcode; eauto). cbn [negb].
    destruct (Z.eqb_spec (opcode o) (opcode PUSH)) as [E|E].
    + assert (o = PUSH) as -> by (destruct o; done). destruct H as (v & n & -> & -> & -> & ?).
      by rewrite (proj2 (Z.ltb_ge _ _)).
    + assert (Value ins = None) as ->; [|done]. destruct o; done.
Qed.
