(* ===== verification/Json.v ===== *)
(** * JSON forms of hashes and addresses (src/types/types.go, src/config/config.go)

    A hash is a quoted hex string, an address a quoted base64 string.  A method
    that fails leaves its receiver as it was: [None] is an error. *)

From S2P Require Import Prelude GoLib GoText Config Utils Bytecode.

Module Json.

Definition quote : ascii := byte_of 34.

(** [len(data) < 2 || data[0] != '"' || data[len(data)-1] != '"'], and what is
    between the quotes. *)
Definition unquote (data : bytes) : option string :=
  match data with
  | q :: (_ :: _) as data' =>
      if Ascii.eqb q quote && Ascii.eqb (List.last (tl data) zero) quote
      then Some (string_of_bytes (removelast (tl data)))
      else None
  | _ => None
  end.

Definition Hash32_MarshalJSON (h : Hash32) : bytes := (quote :: bytes_of_string (Hash32_String h)) ++ [quote].

Definition Hash32_UnmarshalJSON (data : bytes) : option Hash32 :=
  hexStr ← unquote data;
  bytes ← hex_DecodeString hexStr;
  if bool_decide (length bytes = 32%nat) then Some (copy_into 32 bytes) else None.

Definition PublicKey_MarshalJSON (pk : PublicKey) : bytes :=
  (quote :: bytes_of_string (base64_EncodeToString pk)) ++ [quote].

Definition PublicKey_UnmarshalJSON (data : bytes) : option PublicKey :=
  b64String ← unquote data;
  decoded ← base64_DecodeString b64String;
  if bool_decide (length decoded = 32%nat) then Some (copy_into 32 decoded) else None.

Lemma unquote_quoted s : unquote ((quote :: bytes_of_string s) ++ [quote]) = Some s.
Proof.
  unfold unquote. cbn [app tl]. rewrite last_last, removelast_last, string_of_bytes_of_string.
  by destruct (bytes_of_string s).
Qed.

(** What is not quoted at both ends is refused, a lone quote included. *)
Lemma unquote_quotes data s : unquote data = Some s -> data = (quote :: bytes_of_string s) ++ [quote].
Proof.
  destruct data as [|q [|c data]]; [done|done|]. cbn [unquote tl].
  destruct (Ascii.eqb_spec q quote) as [->|]; [|done]. destruct (Ascii.eqb_spec (List.last (c :: data) zero) quote) as [Hl|]; [|done].
  intros [= <-]. rewrite bytes_of_string_of_bytes. cbn [app]. f_equal. rewrite <- Hl. by apply app_removelast_last.
Qed.

(** A hash and an address come back from their JSON forms; whatever is read has 32
    bytes, so that nothing shorter is padded with zeros. *)
Theorem json_roundtrip h pk : length h = 32%nat -> length pk = 32%nat ->
  Hash32_UnmarshalJSON (Hash32_MarshalJSON h) = Some h /\ PublicKey_UnmarshalJSON (PublicKey_MarshalJSON pk) = Some pk.
Proof.
  intros Hh Hp. unfold Hash32_UnmarshalJSON, PublicKey_UnmarshalJSON, Hash32_MarshalJSON, PublicKey_MarshalJSON.
  rewrite !unquote_quoted. cbn [mbind option_bind]. unfold Hash32_String. rewrite hex_decode_encode, base64_roundtrip.
  cbn [mbind option_bind]. rewrite !bool_decide_true by done. by rewrite !copy_into_id.
Qed.

Lemma Hash32_UnmarshalJSON_exact data h : Hash32_UnmarshalJSON data = Some h ->
  exists s, data = (quote :: bytes_of_string s) ++ [quote] /\ hex_DecodeString s = Some h /\ length h = 32%nat.
Proof.
  unfold Hash32_UnmarshalJSON. destruct (unquote data) as [s|] eqn:Eq; [|done]. cbn [mbind option_bind].
  destruct (hex_DecodeString s) as [b|] eqn:Eh; [|done]. cbn [mbind option_bind]. case_bool_decide as Hl; [|done].
  intros [= <-]. exists s. rewrite copy_into_id by done. split; [by apply unquote_quotes | done].
Qed.

Lemma json_roundtrip_witness :
  Hash32_UnmarshalJSON (Hash32_MarshalJSON Hash32_zero) = Some Hash32_zero /\
  PublicKey_UnmarshalJSON (PublicKey_MarshalJSON FirstUser) = Some FirstUser.
Proof. apply (json_roundtrip Hash32_zero FirstUser); reflexivity. Defined.

End Json.
