(* ===== verification/Word256.v ===== *)
(** * Signed 256-bit arithmetic of the virtual machine (src/avm/runtime.go)

    Stack words are unbounded [big.Int]s that the handlers of ADD, SUB, MUL,
    DIV, LT and GT read as two's complement 256-bit integers.  The theorems
    give each helper on words in range, against plain modular arithmetic. *)

From S2P Require Import Prelude GoLib.

Definition mod256 : Z := Z.shiftl 1 256.
Definition sign256 : Z := Z.shiftl 1 255.

Definition toSigned256 (n : Z) : Z :=
  if 0 <=? big_Cmp n sign256 then - (mod256 - n) else n.

Definition toUnsigned256 (n : Z) : Z :=
  if Z.sgn n <? 0 then mod256 + n else big_Mod n mod256.

Definition signedAdd (a b : Z) : Z := toUnsigned256 (toSigned256 a + toSigned256 b).

Definition signedSub (a b : Z) : Z := toUnsigned256 (toSigned256 a - toSigned256 b).

Definition signedMul (a b : Z) : Z := toUnsigned256 (toSigned256 a * toSigned256 b).

Definition signedDiv (a b : Z) : Z :=
  let signedA := toSigned256 a in
  let signedB := toSigned256 b in
  if Z.sgn signedB =? 0 then 0 else toUnsigned256 (big_Div signedA signedB).

Definition signedCmp (a b : Z) : Z := big_Cmp (toSigned256 a) (toSigned256 b).

(** ** Words and their signed reading *)

(** A stack value that fits an unsigned 256-bit word. *)
Definition is_word (n : Z) : Prop := 0 <= n < 2 ^ 256.

(** The range of the signed reading. *)
Definition is_signed (z : Z) : Prop := - 2 ^ 255 <= z < 2 ^ 255.

Lemma mod256_pow : mod256 = 2 ^ 256.
Proof. reflexivity. Qed.

Lemma sign256_pow : sign256 = 2 ^ 255.
Proof. reflexivity. Qed.

Lemma big_Cmp_ge a b : (0 <=? big_Cmp a b) = (b <=? a).
Proof. unfold big_Cmp. destruct (Z.compare_spec a b), (Z.leb_spec b a); simpl; lia. Qed.

Lemma toSigned256_eq n : toSigned256 n = if n <? 2 ^ 255 then n else n - 2 ^ 256.
Proof.
  unfold toSigned256. rewrite big_Cmp_ge, mod256_pow, sign256_pow.
  destruct (Z.leb_spec (2 ^ 255) n), (Z.ltb_spec n (2 ^ 255)); lia.
Qed.

Lemma toUnsigned256_eq z :
  toUnsigned256 z = if z <? 0 then 2 ^ 256 + z else z mod 2 ^ 256.
Proof.
  unfold toUnsigned256, big_Mod. rewrite mod256_pow.
  change (Z.abs (2 ^ 256)) with (2 ^ 256).
  destruct (Z.ltb_spec z 0).
  - by rewrite Z.sgn_neg by lia.
  - rewrite (proj2 (Z.ltb_ge _ _)); [done|]. by apply Z.sgn_nonneg.
Qed.

Lemma toSigned256_range n : is_word n -> is_signed (toSigned256 n).
Proof. unfold is_word, is_signed. rewrite toSigned256_eq. destruct (Z.ltb_spec n (2 ^ 255)); lia. Qed.

(** The signed reading differs from the word by a multiple of the modulus. *)
Lemma toSigned256_mod n : toSigned256 n mod 2 ^ 256 = n mod 2 ^ 256.
Proof.
  rewrite toSigned256_eq. destruct (Z.ltb_spec n (2 ^ 255)); [done|].
  rewrite Zminus_mod, Z_mod_same_full, Z.sub_0_r, Zmod_mod. done.
Qed.

(** The conversion back is reduction modulo 2^256 from -2^256 upwards. *)
Lemma toUnsigned256_mod z : - 2 ^ 256 <= z -> toUnsigned256 z = z mod 2 ^ 256.
Proof.
  intros Hz. rewrite toUnsigned256_eq. destruct (Z.ltb_spec z 0); [|done].
  apply Z.mod_unique with (-1); lia.
Qed.

Lemma toUnsigned256_word z : - 2 ^ 256 <= z -> is_word (toUnsigned256 z).
Proof. intros Hz. rewrite toUnsigned256_mod by done. apply Z.mod_pos_bound. lia. Qed.

(** Signed and unsigned readings are inverse bijections between words and the
    signed range. *)
Theorem signed_unsigned_roundtrip :
  (forall n, is_word n -> toUnsigned256 (toSigned256 n) = n)
  /\ (forall z, is_signed z -> toSigned256 (toUnsigned256 z) = z).
Proof.
  unfold is_word, is_signed. split; intros x Hx.
  - pose proof (toSigned256_range x Hx) as Hs. unfold is_signed in Hs.
    rewrite toUnsigned256_mod by lia. rewrite toSigned256_mod. by apply Z.mod_small.
  - rewrite toUnsigned256_eq, toSigned256_eq. destruct (Z.ltb_spec x 0).
    + rewrite (proj2 (Z.ltb_ge _ _)); lia.
    + rewrite Z.mod_small by lia. by rewrite (proj2 (Z.ltb_lt _ _)) by lia.
Qed.

(** ** The arithmetic handlers *)

Lemma signedAdd_mod a b : is_word a -> is_word b -> signedAdd a b = (a + b) mod 2 ^ 256.
Proof.
  intros Ha Hb. pose proof (toSigned256_range a Ha). pose proof (toSigned256_range b Hb).
  unfold is_signed, signedAdd in *. rewrite toUnsigned256_mod by lia.
  by rewrite Zplus_mod, !toSigned256_mod, <- Zplus_mod.
Qed.

Lemma signedSub_mod a b : is_word a -> is_word b -> signedSub a b = (a - b) mod 2 ^ 256.
Proof.
  intros Ha Hb. pose proof (toSigned256_range a Ha). pose proof (toSigned256_range b Hb).
  unfold is_signed, signedSub in *. rewrite toUnsigned256_mod by lia.
  by rewrite Zminus_mod, !toSigned256_mod, <- Zminus_mod.
Qed.

Lemma signedCmp_lt a b : signedCmp a b < 0 <-> toSigned256 a < toSigned256 b.
Proof. unfold signedCmp, big_Cmp. destruct (Z.compare_spec (toSigned256 a) (toSigned256 b)); lia. Qed.

Lemma signedCmp_gt a b : signedCmp a b > 0 <-> toSigned256 a > toSigned256 b.
Proof. unfold signedCmp, big_Cmp. destruct (Z.compare_spec (toSigned256 a) (toSigned256 b)); lia. Qed.

(** On words, ADD and SUB are addition and subtraction modulo 2^256. *)
Theorem signedAdd_signedSub_spec a b :
  is_word a -> is_word b ->
  signedAdd a b = (a + b) mod 2 ^ 256 /\ signedSub a b = (a - b) mod 2 ^ 256.
Proof. intros. split; [by apply signedAdd_mod | by apply signedSub_mod]. Qed.

(** MUL is multiplication modulo 2^256 as long as the signed product is at
    least -2^256; below, the pushed value is negative, so not a word at all. *)
Theorem signedMul_spec a b :
  is_word a -> is_word b ->
  if decide (- 2 ^ 256 <= toSigned256 a * toSigned256 b)
  then signedMul a b = (a * b) mod 2 ^ 256
  else signedMul a b < 0.
Proof.
  intros Ha Hb. unfold signedMul. case_decide.
  - rewrite toUnsigned256_mod by done.
    rewrite Zmult_mod, !toSigned256_mod, <- Zmult_mod. done.
  - rewrite toUnsigned256_eq. rewrite (proj2 (Z.ltb_lt _ _)); lia.
Qed.

Lemma big_Div_range a b : is_signed a -> is_signed b -> b <> 0 -> Z.abs (big_Div a b) <= 2 ^ 255.
Proof.
  unfold is_signed. intros Ha Hb Hnz. unfold big_Div.
  assert (- 2 ^ 255 <= a / Z.abs b < 2 ^ 255) as Hq.
  { split.
    - apply Z.div_le_lower_bound; [lia|]. nia.
    - apply Z.div_lt_upper_bound; [lia|]. nia. }
  destruct (Z.lt_trichotomy b 0) as [H|[H|H]]; [|lia|].
  - rewrite Z.sgn_neg by done. lia.
  - rewrite Z.sgn_pos by done. lia.
Qed.

(** DIV is Euclidean division of the signed readings: the quotient that leaves
    a non-negative remainder, and zero for a zero divisor. *)
Theorem signedDiv_spec a b :
  is_word a -> is_word b ->
  is_word (signedDiv a b) /\
  (b = 0 -> signedDiv a b = 0) /\
  (b <> 0 -> exists q r, signedDiv a b = q mod 2 ^ 256
     /\ toSigned256 a = toSigned256 b * q + r /\ 0 <= r < Z.abs (toSigned256 b)).
Proof.
  intros Ha Hb. pose proof (toSigned256_range a Ha) as Hsa. pose proof (toSigned256_range b Hb) as Hsb.
  assert (toSigned256 b = 0 <-> b = 0) as Hz.
  { rewrite toSigned256_eq. unfold is_word in Hb. destruct (Z.ltb_spec b (2 ^ 255)); lia. }
  unfold signedDiv. destruct (Z.eqb_spec (Z.sgn (toSigned256 b)) 0) as [E|E].
  - assert (b = 0) by (apply Hz, Z.sgn_null_iff, E). split; [unfold is_word; lia|].
    split; [done|]. done.
  - assert (toSigned256 b <> 0) as Hnz by (intros E'; apply E; rewrite E'; done).
    pose proof (big_Div_range _ _ Hsa Hsb Hnz) as Hr.
    split; [apply toUnsigned256_word; lia|]. split; [tauto|]. intros _.
    destruct (big_Div_Mod (toSigned256 a) (toSigned256 b) Hnz) as [Hdm Hm].
    eexists _, _. split; [apply toUnsigned256_mod; lia|]. eauto.
Qed.

(** Minus seven divided by two is minus four, where truncation towards zero
    would give minus three. *)
Theorem signedDiv_not_truncated :
  signedDiv (2 ^ 256 - 7) 2 = 2 ^ 256 - 4 /\ Z.quot (-7) 2 = -3.
Proof. vm_compute. done. Qed.

(** LT and GT compare the signed readings. *)
Theorem signedCmp_spec a b :
  (signedCmp a b < 0 <-> toSigned256 a < toSigned256 b)
  /\ (signedCmp a b > 0 <-> toSigned256 a > toSigned256 b)
  /\ (is_word a -> is_word b -> (signedCmp a b = 0 <-> a = b)).
Proof.
  unfold signedCmp, big_Cmp. destruct (Z.compare_spec (toSigned256 a) (toSigned256 b)) as [E|E|E];
    (split; [lia|split; [lia|]]); intros Ha Hb; unfold is_word in *; rewrite !toSigned256_eq in E;
    destruct (Z.ltb_spec a (2 ^ 255)), (Z.ltb_spec b (2 ^ 255)); lia.
Qed.

Lemma signedAdd_signedSub_spec_witness :
  signedAdd (2 ^ 256 - 1) 2 = 1 /\ signedSub (2 ^ 256 - 1) 2 = 2 ^ 256 - 3.
Proof. apply (signedAdd_signedSub_spec (2 ^ 256 - 1) 2); split; vm_compute; (discriminate || reflexivity). Defined.

Lemma signedMul_spec_witness : signedMul 3 (2 ^ 256 - 5) = 2 ^ 256 - 15.
Proof. apply (signedMul_spec 3 (2 ^ 256 - 5)); split; vm_compute; (discriminate || reflexivity). Defined.

Lemma signedDiv_spec_witness : is_word (signedDiv (2 ^ 256 - 7) 2).
Proof. apply (signedDiv_spec (2 ^ 256 - 7) 2); split; vm_compute; (discriminate || reflexivity). Defined.
