(* ===== verification/Machine.v ===== *)
(** * The virtual machine: state, stack and memory (src/avm/runtime.go, src/avm/errors.go)

    [Module VM] holds the data of the machine and the operations on its two
    stores.  Slices grow at their end, so the head of a [list] is index 0.
    An opcode handler is a computation of the monad [M]: it threads the
    runtime, keeps the mutations done before an error (as the code does when it
    assigns [err] and leaves the switch), and may panic. *)

From S2P Require Import Prelude GoLib Config Bytecode.

Module VM.

Inductive avm_error :=
  | ErrOutOfGas
  | ErrStackUnderflow
  | ErrStackOverflow
  | ErrInvalidJump
  | ErrInvalidOpcode
  | ErrMemoryOutOfBounds
  | ErrProgramStopped
  | ErrInvalidSwapParameter
  | ErrEmptyStack
  | ErrInstruction (e : instr_error)
  | ErrLocalOffset
  | ErrStringPointer
  | ErrStringChunk
  | ErrStringIndex
  | ErrSliceStart
  | ErrSliceEnd
  | ErrNotInteger
  | ErrNotClean.

Record BlockchainContext := MkContext {
  BlockNumber : Z;
  BlockHash : Hash32;
  LastBlockHash : Hash32;
  Timestamp : Z;
  Difficulty : Z;
  GasLimit : Z;
  Coinbase : PublicKey;
  ChainID : Z;
  Caller : PublicKey;
  Origin : PublicKey;
  GasPrice : Z;
  CallValue : Z;
  ContractAddress : PublicKey;
  TsxData : bytes;
  Deployer : PublicKey;
  DeploymentTime : Z;
  DeploymentGas : Z
}.

(** ** The stack *)

Record stack := MkStack { s : list Z; stack_maxSize : Z }.

Definition NewStack (maxSize : Z) : stack := MkStack [] maxSize.

Definition stack_Push (st : stack) (v : Z) : res avm_error stack :=
  if (0 <? stack_maxSize st) && (stack_maxSize st <=? len (s st)) then Err ErrStackOverflow
  else Ok (MkStack (s st ++ [v]) (stack_maxSize st)).

Definition stack_Pop (st : stack) : res avm_error (Z * stack) :=
  match last (s st) with
  | None => Err ErrEmptyStack
  | Some v => Ok (v, MkStack (take (length (s st) - 1) (s st)) (stack_maxSize st))
  end.

Definition stack_Top (st : stack) : res avm_error Z :=
  match last (s st) with None => Err ErrEmptyStack | Some v => Ok v end.

(** A slice element by a Go [int]: out of range panics. *)
Definition slice_get {A} (l : list A) (i : Z) : go A :=
  if i <? 0 then Panic IndexOutOfRange
  else match l !! Z.to_nat i with Some x => Ret x | None => Panic IndexOutOfRange end.

Definition stack_Swap (st : stack) (down : Z) : go (res avm_error stack) :=
  if len (s st) <=? down then Ret (Err ErrStackUnderflow)
  else match stack_Top st with
       | Err e => Ret (Err e)
       | Ok cpy =>
           let l := len (s st) in
           let j := i64 (l - 1 - down) in
           v ← slice_get (s st) j;
           Ret (Ok (MkStack (<[Z.to_nat j := cpy]> (<[Z.to_nat (l - 1) := v]> (s st))) (stack_maxSize st)))
       end.

Definition stack_Size (st : stack) : Z := len (s st).

(** ** Memory *)

Record memory := MkMemory { m : gmap Z Z; mem_maxSize : Z }.

Definition NewMemory (maxSize : Z) : memory := MkMemory ∅ maxSize.

Definition Store (mem : memory) (address value : Z) : res avm_error memory :=
  if (0 <? mem_maxSize mem) && (mem_maxSize mem <=? address) then Err ErrMemoryOutOfBounds
  else Ok (MkMemory (<[address := value]> (m mem)) (mem_maxSize mem)).

Definition Load (mem : memory) (address : Z) : res avm_error Z :=
  if (0 <? mem_maxSize mem) && (mem_maxSize mem <=? address) then Err ErrMemoryOutOfBounds
  else Ok (default 0 (m mem !! address)).

(** ** The runtime *)

Record Runtime := MkRuntime {
  Stack : stack;
  Memory : memory;
  FramePointer : Z;
  IC : Z;
  StartIC : Z;
  GasAvailable : Z;
  GasUsed : Z;
  Instructions : list Instruction;
  Persistent : gmap string string;
  Context : BlockchainContext;
  ReturnStack : list Z;
  FrameStack : list Z;
  NextMemoryAddr : Z
}.

Definition NewRuntimeWithIC (gasAvailable : Z) (instructions : list Instruction)
    (context : BlockchainContext) (startIC : Z) : Runtime :=
  {| Stack := NewStack AVMMaxStackSize;
     Memory := NewMemory AVMMaxMemorySize;
     FramePointer := 0;
     IC := startIC;
     StartIC := startIC;
     GasAvailable := gasAvailable;
     GasUsed := 0;
     Instructions := instructions;
     Persistent := ∅;
     Context := context;
     ReturnStack := [];
     FrameStack := [];
     NextMemoryAddr := 100 |}.

Definition NewRuntime (gasAvailable : Z) (instructions : list Instruction)
    (context : BlockchainContext) : Runtime :=
  NewRuntimeWithIC gasAvailable instructions context 0.

Definition MockBlockchainContext : BlockchainContext :=
  {| BlockNumber := 1; BlockHash := Hash32_zero; LastBlockHash := Hash32_zero;
     Timestamp := 1640995200; Difficulty := 1000; GasLimit := 1000000;
     Coinbase := PublicKey_zero; ChainID := 1; Caller := PublicKey_zero;
     Origin := PublicKey_zero; GasPrice := 1; CallValue := 0;
     ContractAddress := PublicKey_zero; TsxData := [];
     Deployer := PublicKey_zero; DeploymentTime := 1640995200; DeploymentGas := 1 |}.

Definition NewTestRuntime (gasAvailable : Z) (instructions : list Instruction) : Runtime :=
  NewRuntime gasAvailable instructions MockBlockchainContext.

(** Unlike [NewRuntimeWithIC], this constructor leaves [NextMemoryAddr] zero. *)
Definition NewTestRuntimeWithLimits (gasAvailable : Z) (instructions : list Instruction)
    (stackSize memorySize : Z) : Runtime :=
  {| Stack := NewStack stackSize; Memory := NewMemory memorySize; FramePointer := 0;
     IC := 0; StartIC := 0; GasAvailable := gasAvailable; GasUsed := 0;
     Instructions := instructions; Persistent := ∅; Context := MockBlockchainContext;
     ReturnStack := []; FrameStack := []; NextMemoryAddr := 0 |}.

(** Field updates. *)
Definition with_Stack (st : stack) (r : Runtime) : Runtime :=
  MkRuntime st (Memory r) (FramePointer r) (IC r) (StartIC r) (GasAvailable r) (GasUsed r)
    (Instructions r) (Persistent r) (Context r) (ReturnStack r) (FrameStack r) (NextMemoryAddr r).
Definition with_Memory (mm : memory) (r : Runtime) : Runtime :=
  MkRuntime (Stack r) mm (FramePointer r) (IC r) (StartIC r) (GasAvailable r) (GasUsed r)
    (Instructions r) (Persistent r) (Context r) (ReturnStack r) (FrameStack r) (NextMemoryAddr r).
Definition with_FramePointer (fp : Z) (r : Runtime) : Runtime :=
  MkRuntime (Stack r) (Memory r) fp (IC r) (StartIC r) (GasAvailable r) (GasUsed r)
    (Instructions r) (Persistent r) (Context r) (ReturnStack r) (FrameStack r) (NextMemoryAddr r).
Definition with_IC (ic : Z) (r : Runtime) : Runtime :=
  MkRuntime (Stack r) (Memory r) (FramePointer r) ic (StartIC r) (GasAvailable r) (GasUsed r)
    (Instructions r) (Persistent r) (Context r) (ReturnStack r) (FrameStack r) (NextMemoryAddr r).
Definition with_Gas (avail used : Z) (r : Runtime) : Runtime :=
  MkRuntime (Stack r) (Memory r) (FramePointer r) (IC r) (StartIC r) avail used
    (Instructions r) (Persistent r) (Context r) (ReturnStack r) (FrameStack r) (NextMemoryAddr r).
Definition with_Persistent (p : gmap string string) (r : Runtime) : Runtime :=
  MkRuntime (Stack r) (Memory r) (FramePointer r) (IC r) (StartIC r) (GasAvailable r) (GasUsed r)
    (Instructions r) p (Context r) (ReturnStack r) (FrameStack r) (NextMemoryAddr r).
Definition with_ReturnStack (l : list Z) (r : Runtime) : Runtime :=
  MkRuntime (Stack r) (Memory r) (FramePointer r) (IC r) (StartIC r) (GasAvailable r) (GasUsed r)
    (Instructions r) (Persistent r) (Context r) l (FrameStack r) (NextMemoryAddr r).
Definition with_FrameStack (l : list Z) (r : Runtime) : Runtime :=
  MkRuntime (Stack r) (Memory r) (FramePointer r) (IC r) (StartIC r) (GasAvailable r) (GasUsed r)
    (Instructions r) (Persistent r) (Context r) (ReturnStack r) l (NextMemoryAddr r).
Definition with_NextMemoryAddr (a : Z) (r : Runtime) : Runtime :=
  MkRuntime (Stack r) (Memory r) (FramePointer r) (IC r) (StartIC r) (GasAvailable r) (GasUsed r)
    (Instructions r) (Persistent r) (Context r) (ReturnStack r) (FrameStack r) a.

(** ** Strings in memory: a length word, then 32-byte big-endian chunks *)

Definition chunks_of (length : Z) : Z := u64 (length + 31) / 32.

(** The chunk-reading loop shared by [readStringFromMemory], STRCONCAT and
    EMITSTR: [n] more chunks from chunk [i], [acc] read so far; [None] when a
    chunk lies outside the memory. *)
Fixpoint read_chunks (mem : memory) (addr length : Z) (n : nat) (i : Z) (acc : bytes)
    : go (option bytes) :=
  match n with
  | O => Ret (Some acc)
  | S n' =>
      match Load mem (u64 (addr + 1 + i)) with
      | Err _ => Ret None
      | Ok chunkVal =>
          chunk ← big_FillBytes 32 chunkVal;
          let remaining := u64 (length - len acc) in
          read_chunks mem addr length n' (i + 1)
            (if 32 <? remaining then acc ++ chunk else acc ++ take (Z.to_nat remaining) chunk)
      end
  end.

Definition readStringFromMemory (mem : memory) (addr : Z) : go bytes :=
  match Load mem addr with
  | Err _ => Ret []
  | Ok lenVal =>
      let length := big_Uint64 lenVal in
      if length =? 0 then Ret []
      else if 1000000 <? length then Ret []
      else
        o ← read_chunks mem addr length (Z.to_nat (chunks_of length)) 0 [];
        Ret (default [] o)
  end.

(** Chunk [i] of a string, zero-padded to 32 bytes, as a number. *)
Definition chunk_word (b : bytes) (i : nat) : Z :=
  big_SetBytes (copy_into 32 (take 32 (drop (32 * i) b))).

(** The chunk-writing loop of [storeStringInMemory]: store errors are ignored. *)
Fixpoint store_chunks (b : bytes) (addr : Z) (n i : nat) (mem : memory) : memory :=
  match n with
  | O => mem
  | S n' =>
      store_chunks b addr n' (S i)
        match Store mem (u64 (addr + 1 + Z.of_nat i)) (chunk_word b i) with
        | Ok mem' => mem'
        | Err _ => mem
        end
  end.

Definition storeStringInMemory (r : Runtime) (str : bytes) : Z * Runtime :=
  let byteLength := u64 (len str) in
  let chunksNeeded := chunks_of byteLength in
  let addr := NextMemoryAddr r in
  let mem0 := match Store (Memory r) addr (i64 byteLength) with Ok mm => mm | Err _ => Memory r end in
  let mem1 := store_chunks str addr (Z.to_nat chunksNeeded) 0 mem0 in
  (addr, with_NextMemoryAddr (u64 (addr + 1 + chunksNeeded)) (with_Memory mem1 r)).

(** The chunk-writing loop of STRCONCAT: the first store error ends it. *)
Fixpoint store_chunks_checked (b : bytes) (addr : Z) (n i : nat) (mem : memory)
    : memory * option avm_error :=
  match n with
  | O => (mem, None)
  | S n' =>
      match Store mem (u64 (addr + 1 + Z.of_nat i)) (chunk_word b i) with
      | Ok mem' => store_chunks_checked b addr n' (S i) mem'
      | Err e => (mem, Some e)
      end
  end.

(** ** Handlers *)

(** How a handler ends early: with [err] set, after which the gas and the
    counter are still updated, or by [return], which skips both. *)
Inductive halt :=
  | Fail (e : avm_error)
  | Exit (e : avm_error).

Definition M (A : Type) : Type := Runtime -> go (Runtime * (A + halt)).

#[export] Instance M_ret : MRet M := fun A a r => Ret (r, inl a).

#[export] Instance M_bind : MBind M := fun A B f c r =>
  match c r with
  | Ret (r', inl a) => f a r'
  | Ret (r', inr h) => Ret (r', inr h)
  | Panic k => Panic k
  end.

Definition get : M Runtime := fun r => Ret (r, inl r).
Definition modify (f : Runtime -> Runtime) : M unit := fun r => Ret (f r, inl ()).
Definition fail {A} (e : avm_error) : M A := fun r => Ret (r, inr (Fail e)).
Definition exit {A} (e : avm_error) : M A := fun r => Ret (r, inr (Exit e)).
Definition of_go {A} (c : go A) : M A := fun r => a ← c; Ret (r, inl a).
Definition of_res {A} (c : res avm_error A) : M A :=
  match c with Ok a => mret a | Err e => fail e end.

Definition Push (v : Z) : M unit :=
  r ← get; st ← of_res (stack_Push (Stack r) v); modify (with_Stack st).

Definition Pop : M Z :=
  r ← get; p ← of_res (stack_Pop (Stack r)); modify (with_Stack p.2);; mret p.1.

Definition Top : M Z := r ← get; of_res (stack_Top (Stack r)).

Definition Pop2 : M (Z * Z) := v1 ← Pop; v2 ← Pop; mret (v1, v2).

Definition readString (addr : Z) : M bytes :=
  r ← get; of_go (readStringFromMemory (Memory r) addr).

Definition storeString (str : bytes) : M Z :=
  fun r => let '(a, r') := storeStringInMemory r str in Ret (r', inl a).

Definition b2z (b : bool) : Z := if b then 1 else 0.

End VM.
