(* ===== verification/Opcodes.v ===== *)
(** * Opcode handlers (src/avm/runtime.go, the cases of [ExecuteInstruction])

    One definition per case of the switch, in the monad of [Machine].  The
    debug output of the handlers is not modelled; the panics of the calls that
    prepare it are. *)

From S2P Require Import Prelude GoLib Config Bytecode Word256 Machine.

Module Handlers.
Import VM.

(** ** Stack *)

Definition op_PUSH (ins : Instruction) : M unit :=
  match GetValueAsBigInt ins with
  | Err e => fail (ErrInstruction e)
  | Ok value => Push value
  end.

Definition op_POP : M unit := Pop;; mret ().

Definition op_DUP : M unit := val ← Top; Push val.

Definition op_SWAP : M unit :=
  swapIndexVal ← Pop;
  let swapIndex := i64 (big_Uint64 swapIndexVal) in
  r ← get;
  if len (s (Stack r)) <=? swapIndex then fail ErrInvalidSwapParameter
  else
    x ← of_go (stack_Swap (Stack r) swapIndex);
    st ← of_res x;
    modify (with_Stack st).

(** ** Arithmetic, logic and comparison *)

(** Pop two operands, the second one being the left, and push the result. *)
Definition binop (f : Z -> Z -> Z) : M unit :=
  vs ← Pop2; let '(v1, v2) := vs in Push (f v2 v1).

Definition op_ADD : M unit := binop signedAdd.
Definition op_SUB : M unit := binop signedSub.
Definition op_MUL : M unit := binop signedMul.
Definition op_DIV : M unit := binop signedDiv.

Definition op_MOD : M unit :=
  binop (fun v2 v1 => if Z.sgn v1 =? 0 then 0 else big_Mod v2 v1).

Definition op_AND : M unit :=
  binop (fun v2 v1 => big_Mod (Z.land v2 v1) (Z.shiftl 1 256)).

Definition op_OR : M unit :=
  binop (fun v2 v1 => big_Mod (Z.lor v2 v1) (Z.shiftl 1 256)).

Definition op_EQ : M unit :=
  vs ← Pop2; let '(v1, v2) := vs in
  let addr1 := big_Uint64 v1 in
  let addr2 := big_Uint64 v2 in
  str1 ← (if addr1 <? 1000000 then readString addr1 else mret []);
  str2 ← (if addr2 <? 1000000 then readString addr2 else mret []);
  match str1, str2 with
  | _ :: _, _ :: _ => Push (b2z (bool_decide (str1 = str2)))
  | _, _ => Push (b2z (v2 =? v1))
  end.

Definition op_LT : M unit := binop (fun v2 v1 => b2z (signedCmp v2 v1 <? 0)).
Definition op_GT : M unit := binop (fun v2 v1 => b2z (0 <? signedCmp v2 v1)).

Definition op_ISZERO : M unit := val ← Pop; Push (b2z (val =? 0)).

(** ** Control flow *)

Definition op_JUMP : M unit :=
  jumpTarget ← Pop;
  let target := i64 (big_Uint64 jumpTarget) in
  r ← get;
  if (target <? 0) || (len (Instructions r) <=? target) then fail ErrInvalidJump
  else modify (with_IC target).

Definition op_JUMPC : M unit :=
  jumpTarget ← Pop;
  condition ← Pop;
  let target := i64 (big_Uint64 jumpTarget) in
  r ← get;
  if (target <? 0) || (len (Instructions r) <=? target) then fail ErrInvalidJump
  else if condition =? 1 then modify (with_IC target)
  else modify (with_IC (i64 (IC r + 1))).

(** The number of parameters is fixed at two in the code. *)
Definition numParams : Z := 2.

Definition op_CALL : M unit :=
  functionAddr ← Pop;
  r ← get;
  modify (with_FrameStack (FrameStack r ++ [FramePointer r]));;
  modify (with_FramePointer (i64 (len (s (Stack r)) - numParams)));;
  modify (with_ReturnStack (ReturnStack r ++ [i64 (IC r + 1)]));;
  modify (with_IC (i64 (i64 (big_Uint64 functionAddr) - 1))).

(** [if len(r.Stack.s) > 0 { r.Stack.Pop() }] *)
Definition pop_if_any : M unit :=
  r ← get; if 0 <? len (s (Stack r)) then Pop;; mret () else mret ().

Definition op_RETURN : M unit :=
  r ← get;
  match last (ReturnStack r) with
  | None => exit ErrProgramStopped
  | Some returnAddr =>
      returnValue ← Pop;
      match last (FrameStack r) with
      | Some fp =>
          modify (with_FramePointer fp);;
          modify (with_FrameStack (take (length (FrameStack r) - 1) (FrameStack r)))
      | None => mret ()
      end;;
      pop_if_any;;
      pop_if_any;;
      Push returnValue;;
      modify (with_ReturnStack (take (length (ReturnStack r) - 1) (ReturnStack r)));;
      modify (with_IC (i64 (returnAddr - 1)))
  end.

Definition op_STOP : M unit := exit ErrProgramStopped.

Definition op_EMIT : M unit :=
  val ← Top; of_go (big_FillBytes 32 val);; mret ().

(** ** Memory, storage and locals *)

Definition op_MSTORE : M unit :=
  vs ← Pop2; let '(address, value) := vs in
  r ← get;
  mm ← of_res (Store (Memory r) (big_Uint64 address) value);
  modify (with_Memory mm).

Definition op_MLOAD : M unit :=
  address ← Pop;
  r ← get;
  value ← of_res (Load (Memory r) (big_Uint64 address));
  Push value.

(** The storage key of a popped address: the string it points to, or the
    address itself in decimal. *)
Definition storage_key (address : Z) : M string :=
  let addressUint := big_Uint64 address in
  stringContent ← readString addressUint;
  match stringContent with
  | [] => mret (dec addressUint)
  | _ => mret (string_of_bytes stringContent)
  end.

Definition op_PSTORE : M unit :=
  vs ← Pop2; let '(address, value) := vs in
  key ← storage_key address;
  stringContent ← readString (big_Uint64 value);
  let valueStr :=
    match stringContent with [] => dec value | _ => string_of_bytes stringContent end in
  r ← get;
  modify (with_Persistent (<[key := valueStr]> (Persistent r))).

Definition op_PLOAD : M unit :=
  address ← Pop;
  key ← storage_key address;
  r ← get;
  match Persistent r !! key with
  | None => emptyStringAddr ← storeString []; Push (i64 emptyStringAddr)
  | Some valueStr => stringAddr ← storeString (bytes_of_string valueStr); Push (i64 stringAddr)
  end.

(** [for len(s) <= stackIndex { s = append(s, 0) }] *)
Definition expand (l : list Z) (stackIndex : Z) : list Z :=
  l ++ replicate (Z.to_nat (stackIndex + 1 - len l)) 0.

Definition op_LOAD_LOCAL : M unit :=
  offsetBig ← Pop;
  r ← get;
  let offset := i64 (big_Uint64 offsetBig) in
  let stackIndex := i64 (FramePointer r + offset) in
  if stackIndex <? 0 then fail ErrLocalOffset
  else
    let st := MkStack (expand (s (Stack r)) stackIndex) (stack_maxSize (Stack r)) in
    modify (with_Stack st);;
    value ← of_go (slice_get (s st) stackIndex);
    Push value.

Definition op_STORE_LOCAL : M unit :=
  offsetBig ← Pop;
  value ← Pop;
  r ← get;
  let offset := i64 (big_Uint64 offsetBig) in
  let stackIndex := i64 (FramePointer r + offset) in
  if stackIndex <? 0 then fail ErrLocalOffset
  else
    modify (with_Stack (MkStack (<[Z.to_nat stackIndex := value]> (expand (s (Stack r)) stackIndex))
                                (stack_maxSize (Stack r)))).

(** ** Strings *)

(** Run a handler and forget its error: what the code does in STRCONCAT, where
    an inner [err :=] shadows the variable the function returns. *)
Definition shadowed (c : M unit) : M unit := fun r =>
  match c r with
  | Ret (r', inr (Fail _)) => Ret (r', inl ())
  | x => x
  end.

Definition strconcat_body (addr1 addr2 : Z) : M unit :=
  r ← get;
  len1Val ← match Load (Memory r) addr1 with Ok v => mret v | Err _ => fail ErrStringPointer end;
  let len1 := big_Uint64 len1Val in
  len2Val ← match Load (Memory r) addr2 with Ok v => mret v | Err _ => fail ErrStringPointer end;
  let len2 := big_Uint64 len2Val in
  of_go (make_bytes len1);;
  o1 ← of_go (read_chunks (Memory r) addr1 len1 (Z.to_nat (chunks_of len1)) 0 []);
  of_go (make_bytes len2);;
  o2 ← of_go (read_chunks (Memory r) addr2 len2 (Z.to_nat (chunks_of len2)) 0 []);
  match o1, o2 with
  | Some str1Bytes, Some str2Bytes =>
      let resultBytes := str1Bytes ++ str2Bytes in
      let resultLen := u64 (len resultBytes) in
      let resultChunks := chunks_of resultLen in
      let resultAddr := NextMemoryAddr r in
      mm ← of_res (Store (Memory r) resultAddr (i64 resultLen));
      let '(mm', storeErr) := store_chunks_checked resultBytes resultAddr (Z.to_nat resultChunks) 0 mm in
      modify (with_Memory mm');;
      match storeErr with Some e => fail e | None => mret () end;;
      modify (with_NextMemoryAddr (u64 (NextMemoryAddr r + (1 + resultChunks))));;
      Push (i64 resultAddr)
  | _, _ => fail ErrStringChunk
  end.

Definition op_STRCONCAT : M unit :=
  ptr2 ← Pop;
  ptr1 ← Pop;
  shadowed (strconcat_body (big_Uint64 ptr1) (big_Uint64 ptr2)).

Definition op_STRLEN : M unit :=
  ptr ← Pop;
  r ← get;
  match Load (Memory r) (big_Uint64 ptr) with
  | Err _ => fail ErrStringPointer
  | Ok lenVal => Push lenVal
  end.

Definition op_EMITSTR : M unit :=
  ptr ← Pop;
  let addr := big_Uint64 ptr in
  r ← get;
  match Load (Memory r) addr with
  | Err _ => fail ErrStringPointer
  | Ok lenVal =>
      let strLen := big_Uint64 lenVal in
      of_go (make_bytes strLen);;
      o ← of_go (read_chunks (Memory r) addr strLen (Z.to_nat (chunks_of strLen)) 0 []);
      match o with None => fail ErrStringChunk | Some _ => mret () end
  end.

Definition op_STRINDEX : M unit :=
  index ← Pop;
  stringAddr ← Pop;
  stringContent ← readString (big_Uint64 stringAddr);
  let indexInt := big_Int64 index in
  if (indexInt <? 0) || (len stringContent <=? indexInt) then fail ErrStringIndex
  else
    c ← of_go (slice_get stringContent indexInt);
    charAddr ← storeString (string_of_rune_byte c);
    Push (i64 charAddr).

Definition op_STRSLICE : M unit :=
  endIndex ← Pop;
  startIndex ← Pop;
  stringAddr ← Pop;
  stringContent ← readString (big_Uint64 stringAddr);
  let startInt := big_Int64 startIndex in
  let endInt := big_Int64 endIndex in
  let endInt := if endInt =? 999999 then len stringContent else endInt in
  if (startInt <? 0) || (len stringContent <? startInt) then fail ErrSliceStart
  else if (endInt <? startInt) || (len stringContent <? endInt) then fail ErrSliceEnd
  else
    sliceAddr ← storeString (take (Z.to_nat (endInt - startInt)) (drop (Z.to_nat startInt) stringContent));
    Push (i64 sliceAddr).

(** The digit loop of STRTOINT, wrapping at 64 bits; [None] at the first
    character that is not a digit. *)
Fixpoint parse_digits (result : Z) (l : bytes) : option Z :=
  match l with
  | [] => Some result
  | char :: l' =>
      if (byte_val char <? 48) || (57 <? byte_val char) then None
      else parse_digits (i64 (i64 (result * 10) + (byte_val char - 48))) l'
  end.

Definition string_to_int (str : bytes) : option Z :=
  match str with
  | [] => None
  | c :: rest =>
      if Ascii.eqb c "-" then
        match rest with
        | [] => None
        | _ => match parse_digits 0 rest with Some v => Some (i64 (- v)) | None => None end
        end
      else parse_digits 0 str
  end.

Definition op_STRTOINT : M unit :=
  stringAddr ← Pop;
  stringContent ← readString (big_Uint64 stringAddr);
  match string_to_int stringContent with
  | None => fail ErrNotInteger
  | Some result => Push result
  end.

Definition op_INTTOSTR : M unit :=
  intValue ← Pop;
  let intVal := big_Int64 intValue in
  stringAddr ← storeString (bytes_of_string (dec intVal));
  Push (i64 stringAddr).

(** ** Blockchain context *)

Definition push_context (f : BlockchainContext -> Z) : M unit :=
  r ← get; Push (f (Context r)).

Definition op_CALLER : M unit := push_context (fun c => big_SetBytes (Caller c)).
Definition op_ADDRESS : M unit := push_context (fun c => big_SetBytes (ContractAddress c)).
Definition op_BALANCE : M unit := Pop;; Push 0.
Definition op_ORIGIN : M unit := push_context (fun c => big_SetBytes (Origin c)).
Definition op_GASPRICE : M unit := push_context (fun c => i64 (GasPrice c)).
Definition op_CALLVALUE : M unit := push_context (fun c => i64 (CallValue c)).
Definition op_TIMESTAMP : M unit := push_context (fun c => i64 (Timestamp c)).
Definition op_DIFFICULTY : M unit := push_context (fun c => i64 (Difficulty c)).
Definition op_BLOCKHASH : M unit := push_context (fun c => big_SetBytes (BlockHash c)).
Definition op_LASTBLOCKHASH : M unit := push_context (fun c => big_SetBytes (LastBlockHash c)).
Definition op_COINBASE : M unit := push_context (fun c => big_SetBytes (Coinbase c)).
Definition op_HEIGHT : M unit := push_context (fun c => i64 (BlockNumber c)).
Definition op_GASLIMIT : M unit := push_context (fun c => i64 (GasLimit c)).

Definition op_TSXDATA : M unit :=
  r ← get; stringAddr ← storeString (TsxData (Context r)); Push (i64 stringAddr).

End Handlers.
