(* ===== verification/Interp.v ===== *)
(** * The execution engine (src/avm/runtime.go: [ExecuteInstruction], [StartExecution])

    [ExecuteInstruction] validates, meters, dispatches and accounts;
    [StartExecution] iterates it.  The loop has no bound of its own in the code:
    the model runs it on [GasAvailable + 1] steps of fuel, and
    [StartExecution_total] proves that this always suffices. *)

From S2P Require Import Prelude GoLib Config Bytecode Word256 Machine Opcodes.

Module Exec.
Import VM Handlers.

(** The switch of [ExecuteInstruction]. *)
Definition dispatch (ins : Instruction) (o : Op) : M unit :=
  match o with
  | NOOP => mret ()
  | PC => fail ErrInvalidOpcode
  | PUSH => op_PUSH ins | POP => op_POP | DUP => op_DUP | SWAP => op_SWAP
  | ADD => op_ADD | SUB => op_SUB | MUL => op_MUL | DIV => op_DIV | MOD => op_MOD
  | AND => op_AND | OR => op_OR
  | EQ => op_EQ | LT => op_LT | GT => op_GT | ISZERO => op_ISZERO
  | JUMP => op_JUMP | JUMPC => op_JUMPC
  | MSTORE => op_MSTORE | MLOAD => op_MLOAD | PSTORE => op_PSTORE | PLOAD => op_PLOAD
  | LOAD_LOCAL => op_LOAD_LOCAL | STORE_LOCAL => op_STORE_LOCAL
  | CALL => op_CALL | RETURN => op_RETURN | STOP => op_STOP
  | EMIT => op_EMIT
  | STRCONCAT => op_STRCONCAT | STRLEN => op_STRLEN | EMITSTR => op_EMITSTR
  | STRINDEX => op_STRINDEX | STRSLICE => op_STRSLICE
  | STRTOINT => op_STRTOINT | INTTOSTR => op_INTTOSTR
  | CALLER => op_CALLER | ADDRESS => op_ADDRESS | BALANCE => op_BALANCE | ORIGIN => op_ORIGIN
  | GASPRICE => op_GASPRICE | CALLVALUE => op_CALLVALUE | TIMESTAMP => op_TIMESTAMP
  | DIFFICULTY => op_DIFFICULTY | BLOCKHASH => op_BLOCKHASH | LASTBLOCKHASH => op_LASTBLOCKHASH
  | COINBASE => op_COINBASE | HEIGHT => op_HEIGHT | GASLIMIT => op_GASLIMIT
  | TSXDATA => op_TSXDATA
  end.

Definition run_opcode (ins : Instruction) : M unit :=
  match op_of (Opcode ins) with
  | Some o => dispatch ins o
  | None => fail ErrInvalidOpcode
  end.

(** The accounting after the switch. *)
Definition finish (ins : Instruction) (r : Runtime) : Runtime :=
  let r := with_Gas (u64 (GasAvailable r - Price (Opcode ins)))
                    (u64 (GasUsed r + Price (Opcode ins))) r in
  if (Opcode ins =? opcode JUMP) || (Opcode ins =? opcode JUMPC) then r
  else with_IC (i64 (IC r + 1)) r.

Definition ExecuteInstruction (r : Runtime) : go (Runtime * option avm_error) :=
  ins ← slice_get (Instructions r) (IC r);
  match ValidateInstruction ins with
  | Err e => Ret (r, Some (ErrInstruction e))
  | Ok _ =>
      if GasAvailable r <? Price (Opcode ins) then Ret (r, Some ErrOutOfGas)
      else
        x ← run_opcode ins r;
        match x with
        | (r', inl _) => Ret (finish ins r', None)
        | (r', inr (Fail e)) => Ret (finish ins r', Some e)
        | (r', inr (Exit e)) => Ret (r', Some e)
        end
  end.

(** The loop [for r.IC < len(r.Instructions)]; [None] when the fuel runs out. *)
Fixpoint exec_loop (fuel : nat) (r : Runtime) : option (go (Runtime * option avm_error)) :=
  match fuel with
  | O => None
  | S f =>
      if IC r <? len (Instructions r) then
        match ExecuteInstruction r with
        | Panic k => Some (Panic k)
        | Ret (r', Some e) => Some (Ret (r', Some e))
        | Ret (r', None) => exec_loop f r'
        end
      else Some (Ret (r, None))
  end.

Definition loop_fuel (r : Runtime) : nat := S (Z.to_nat (GasAvailable r)).

(** The final runtime, the reported gas and the error. *)
Definition StartExecution (r : Runtime) : option (go (Runtime * Z * option avm_error)) :=
  if negb (IC r =? StartIC r) then Some (Ret (r, 0, Some ErrNotClean))
  else if negb (len (s (Stack r)) =? 0) then Some (Ret (r, 0, Some ErrNotClean))
  else
    match exec_loop (loop_fuel r) r with
    | None => None
    | Some (Panic k) => Some (Panic k)
    | Some (Ret (r', e)) => Some (Ret (r', GasUsed r', e))
    end.

(** One iteration of the loop that continues. *)
Inductive step (r r' : Runtime) : Prop :=
  step_intro : IC r < len (Instructions r) -> ExecuteInstruction r = Ret (r', None) -> step r r'.

(** ** What handlers leave alone *)

(** [c] relates the state before to the state after, however it ends. *)
Definition respects (R : Runtime -> Runtime -> Prop) {A} (c : M A) : Prop :=
  forall r r' x, c r = Ret (r', x) -> R r r'.

Section respects.
Context (R : Runtime -> Runtime -> Prop) `{!PreOrder R}.

Lemma respects_ret {A} (a : A) : respects R (mret a).
Proof. intros r r' x [= <- <-]. reflexivity. Qed.

Lemma respects_bind {A B} (c : M A) (f : A -> M B) :
  respects R c -> (forall a, respects R (f a)) -> respects R (c ≫= f).
Proof.
  intros Hc Hf r r' x. unfold mbind, M_bind.
  destruct (c r) as [[r1 [a|h]]|k] eqn:E; try discriminate.
  - intros H. transitivity r1; [eapply Hc | eapply Hf]; eassumption.
  - intros [= <- <-]. eapply Hc. eassumption.
Qed.

Lemma respects_get : respects R get.
Proof. intros r r' x [= <- <-]. reflexivity. Qed.

Lemma respects_fail {A} e : respects R (fail e : M A).
Proof. intros r r' x [= <- <-]. reflexivity. Qed.

Lemma respects_exit {A} e : respects R (exit e : M A).
Proof. intros r r' x [= <- <-]. reflexivity. Qed.

Lemma respects_of_go {A} (c : go A) : respects R (of_go c).
Proof. intros r r' x. unfold of_go. destruct c; [|discriminate]. intros [= <- <-]. reflexivity. Qed.

Lemma respects_of_res {A} (c : res avm_error A) : respects R (of_res c).
Proof. destruct c; [apply respects_ret | apply respects_fail]. Qed.

Lemma respects_shadowed c : respects R c -> respects R (shadowed c).
Proof.
  intros Hc r r' x. unfold shadowed. destruct (c r) as [[r1 [a|[e|e]]]|k] eqn:E; try discriminate;
    intros [= <- <-]; eapply Hc; eassumption.
Qed.

Lemma respects_readString a : respects R (readString a).
Proof. apply respects_bind; [apply respects_get|]. intros. apply respects_of_go. Qed.

End respects.

Lemma respects_modify (R : Runtime -> Runtime -> Prop) f :
  (forall r, R r (f r)) -> respects R (modify f).
Proof. intros H r r' x [= <- <-]. apply H. Qed.

Create HintDb respects.
#[export] Hint Resolve respects_ret respects_get respects_fail respects_exit respects_of_go
  respects_of_res respects_shadowed respects_readString : respects.

(** Walk through a handler. *)
Ltac respects_tac :=
  intros; cbv beta zeta;
  lazymatch goal with
  | |- respects _ (_ ≫= _) =>
      apply respects_bind; [typeclasses eauto | respects_tac | intros; respects_tac]
  | |- respects _ (match ?x with _ => _ end) => destruct x; respects_tac
  | _ => try solve [eauto with respects typeclass_instances]
  end.

(** What a relation must satisfy on the primitive operations to hold across
    every handler.  The two handlers of local variables are left out: they
    extend the stack on their own. *)
Class HandlerFrame (R : Runtime -> Runtime -> Prop) : Prop := {
  hf_preorder :: PreOrder R;
  hf_Push : forall v, respects R (Push v);
  hf_Pop : respects R Pop;
  hf_storeString : forall b, respects R (storeString b);
  hf_with_IC : forall z, respects R (modify (with_IC z));
  hf_with_FramePointer : forall z, respects R (modify (with_FramePointer z));
  hf_with_ReturnStack : forall l, respects R (modify (with_ReturnStack l));
  hf_with_FrameStack : forall l, respects R (modify (with_FrameStack l));
  hf_with_Persistent : forall l, respects R (modify (with_Persistent l));
  hf_SWAP : respects R op_SWAP;
  hf_MSTORE : respects R op_MSTORE;
  hf_strconcat : forall a b, respects R (strconcat_body a b)
}.

#[export] Hint Resolve hf_Push hf_Pop hf_storeString hf_with_IC hf_with_FramePointer
  hf_with_ReturnStack hf_with_FrameStack hf_with_Persistent hf_SWAP hf_MSTORE hf_strconcat : respects.

Section walk.
Context (R : Runtime -> Runtime -> Prop) `{!HandlerFrame R}.

Lemma walk_Top : respects R Top.
Proof. unfold Top. respects_tac. Qed.

Lemma walk_Pop2 : respects R Pop2.
Proof. unfold Pop2. respects_tac. Qed.

#[local] Hint Resolve walk_Top walk_Pop2 : respects.

Lemma walk_binop f : respects R (binop f).
Proof. unfold binop. respects_tac. Qed.

Lemma walk_storage_key a : respects R (storage_key a).
Proof. unfold storage_key. respects_tac. Qed.

Lemma walk_pop_if_any : respects R pop_if_any.
Proof. unfold pop_if_any. respects_tac. Qed.

Lemma walk_push_context f : respects R (push_context f).
Proof. unfold push_context. respects_tac. Qed.

#[local] Hint Resolve walk_binop walk_storage_key walk_pop_if_any walk_push_context : respects.

Lemma walk_dispatch ins o :
  (o = LOAD_LOCAL -> respects R op_LOAD_LOCAL) -> (o = STORE_LOCAL -> respects R op_STORE_LOCAL) ->
  respects R (dispatch ins o).
Proof.
  intros Hl Hs. destruct o; simpl dispatch; try (by apply Hl); try (by apply Hs); clear Hl Hs;
    try unfold op_PUSH, op_POP, op_DUP, op_ADD, op_SUB, op_MUL, op_DIV, op_MOD, op_AND, op_OR,
      op_EQ, op_LT, op_GT, op_ISZERO, op_JUMP, op_JUMPC, op_CALL, op_RETURN, op_STOP, op_EMIT,
      op_MLOAD, op_PSTORE, op_PLOAD, op_STRCONCAT, op_STRLEN, op_EMITSTR, op_STRINDEX,
      op_STRSLICE, op_STRTOINT, op_INTTOSTR, op_CALLER, op_ADDRESS, op_BALANCE, op_ORIGIN,
      op_GASPRICE, op_CALLVALUE, op_TIMESTAMP, op_DIFFICULTY, op_BLOCKHASH, op_LASTBLOCKHASH,
      op_COINBASE, op_HEIGHT, op_GASLIMIT, op_TSXDATA; respects_tac.
Qed.

End walk.

(** Reading the state and continuing from it. *)
Lemma respects_get_bind (R : Runtime -> Runtime -> Prop) {A} (f : Runtime -> M A) :
  (forall r r' x, f r r = Ret (r', x) -> R r r') -> respects R (get ≫= f).
Proof. intros H r r' x. apply H. Qed.

(** The code, the context, the start and the limits, none of which any
    instruction changes; the gas, which only the accounting changes. *)
Record frame (r r' : Runtime) : Prop := {
  frame_Instructions : Instructions r' = Instructions r;
  frame_Context : Context r' = Context r;
  frame_StartIC : StartIC r' = StartIC r;
  frame_stack_max : stack_maxSize (Stack r') = stack_maxSize (Stack r);
  frame_mem_max : mem_maxSize (Memory r') = mem_maxSize (Memory r)
}.

Definition gas_frame (r r' : Runtime) : Prop :=
  frame r r' /\ GasAvailable r' = GasAvailable r /\ GasUsed r' = GasUsed r.

#[export] Instance frame_preorder : PreOrder frame.
Proof.
  split; [by split|]. intros r1 r2 r3 [] []. split; congruence.
Qed.

#[export] Instance gas_frame_preorder : PreOrder gas_frame.
Proof.
  split; [by repeat split|]. intros r1 r2 r3 (?&?&?) (?&?&?).
  split; [by transitivity r2|]. split; congruence.
Qed.

Lemma Store_max mem a v mem' : Store mem a v = Ok mem' -> mem_maxSize mem' = mem_maxSize mem.
Proof. unfold Store. case_match; [discriminate|]. by intros [= <-]. Qed.

Lemma stack_Push_max st v st' : stack_Push st v = Ok st' -> stack_maxSize st' = stack_maxSize st.
Proof. unfold stack_Push. case_match; [discriminate|]. by intros [= <-]. Qed.

Lemma stack_Pop_max st v st' : stack_Pop st = Ok (v, st') -> stack_maxSize st' = stack_maxSize st.
Proof. unfold stack_Pop. case_match; [|discriminate]. by intros [= <- <-]. Qed.

Lemma stack_Swap_max st d st' :
  stack_Swap st d = Ret (Ok st') -> stack_maxSize st' = stack_maxSize st.
Proof.
  unfold stack_Swap. repeat case_match; try discriminate.
  intros H'. apply go_bind_ret_inv in H' as (v & _ & [= <-]). done.
Qed.

Lemma store_chunks_max b addr n i mem :
  mem_maxSize (store_chunks b addr n i mem) = mem_maxSize mem.
Proof.
  revert i mem. induction n as [|n IH]; intros i mem; [done|]. simpl. rewrite IH.
  case_match; [|done]. eapply Store_max. eassumption.
Qed.

Lemma store_chunks_checked_max b addr n i mem mem' o :
  store_chunks_checked b addr n i mem = (mem', o) -> mem_maxSize mem' = mem_maxSize mem.
Proof.
  revert i mem. induction n as [|n IH]; intros i mem; simpl; [by intros [= <- <-]|].
  case_match; [|by intros [= <- <-]]. intros H'. rewrite (IH _ _ H').
  eapply Store_max. eassumption.
Qed.

Lemma gas_frame_Push v : respects gas_frame (Push v).
Proof.
  intros r r' x. unfold Push, mbind, M_bind, get. destruct (stack_Push (Stack r) v) eqn:E; simpl.
  - intros [= <- <-]. apply stack_Push_max in E. by repeat split.
  - intros [= <- <-]. reflexivity.
Qed.

Lemma gas_frame_Pop : respects gas_frame Pop.
Proof.
  intros r r' x. unfold Pop, mbind, M_bind, get.
  destruct (stack_Pop (Stack r)) as [[v st]|] eqn:E; simpl.
  - intros [= <- <-]. apply stack_Pop_max in E. by repeat split.
  - intros [= <- <-]. reflexivity.
Qed.

Lemma gas_frame_storeString b : respects gas_frame (storeString b).
Proof.
  intros r r' x. unfold storeString, storeStringInMemory. intros [= <- <-].
  repeat split; simpl. rewrite store_chunks_max. case_match; [|done].
  eapply Store_max. eassumption.
Qed.

#[local] Hint Resolve gas_frame_Push gas_frame_Pop gas_frame_storeString : respects.

Lemma gas_frame_Pop2 : respects gas_frame Pop2.
Proof. unfold Pop2. respects_tac. Qed.

#[local] Hint Resolve gas_frame_Pop2 : respects.

Lemma gas_frame_op_SWAP : respects gas_frame op_SWAP.
Proof.
  unfold op_SWAP. apply respects_bind; [typeclasses eauto | respects_tac | intros v].
  apply respects_get_bind. intros r r' x. case_match; [by intros [= <- <-]|].
  unfold mbind, M_bind, of_go. destruct (stack_Swap _ _) as [[st|e]|k] eqn:E; simpl; try discriminate.
  - intros [= <- <-]. apply stack_Swap_max in E. by repeat split.
  - intros [= <- <-]. reflexivity.
Qed.

Lemma gas_frame_op_MSTORE : respects gas_frame op_MSTORE.
Proof.
  unfold op_MSTORE. apply respects_bind; [typeclasses eauto | respects_tac | intros [a v]].
  apply respects_get_bind. intros r r' x.
  unfold mbind, M_bind. destruct (Store _ _ _) eqn:E; simpl; intros [= <- <-]; [|reflexivity].
  apply Store_max in E. by repeat split.
Qed.

Lemma gas_frame_op_LOAD_LOCAL : respects gas_frame op_LOAD_LOCAL.
Proof.
  unfold op_LOAD_LOCAL. apply respects_bind; [typeclasses eauto | respects_tac | intros o].
  apply respects_get_bind. intros r r' x. case_match; [by intros [= <- <-]|].
  intros H'. transitivity (with_Stack (MkStack (expand (s (Stack r))
    (i64 (FramePointer r + i64 (big_Uint64 o)))) (stack_maxSize (Stack r))) r); [by repeat split|].
  revert H'. unfold modify at 1. unfold mbind at 1, M_bind at 1.
  apply respects_bind; [typeclasses eauto | respects_tac | respects_tac].
Qed.

Lemma gas_frame_op_STORE_LOCAL : respects gas_frame op_STORE_LOCAL.
Proof.
  unfold op_STORE_LOCAL.
  do 2 (apply respects_bind; [typeclasses eauto | respects_tac | intros ?]).
  apply respects_get_bind. intros r r' x. case_match; intros [= <- <-]; by repeat split.
Qed.

(** STRCONCAT changes the memory and its high-water mark, then pushes at most
    one word. *)
Lemma strconcat_body_inv a1 a2 r r' x :
  strconcat_body a1 a2 r = Ret (r', x) ->
  exists mm n, mem_maxSize mm = mem_maxSize (Memory r) /\
    (r' = with_NextMemoryAddr n (with_Memory mm r)
     \/ Push (i64 (NextMemoryAddr r)) (with_NextMemoryAddr n (with_Memory mm r)) = Ret (r', x)).
Proof.
  assert (r = with_NextMemoryAddr (NextMemoryAddr r) (with_Memory (Memory r) r)) as Heta
    by (by destruct r).
  unfold strconcat_body, mbind, M_bind, get.
  destruct (Load (Memory r) a1) as [l1|]; [|intros [= <- <-]; by eauto]. simpl.
  destruct (Load (Memory r) a2) as [l2|]; [|intros [= <- <-]; by eauto]. simpl. unfold of_go.
  destruct (make_bytes (big_Uint64 l1)); simpl; [|discriminate].
  destruct (read_chunks _ _ (big_Uint64 l1) _ _ _) as [o1|]; simpl; [|discriminate].
  destruct (make_bytes (big_Uint64 l2)); simpl; [|discriminate].
  destruct (read_chunks _ _ (big_Uint64 l2) _ _ _) as [o2|]; simpl; [|discriminate].
  destruct o1 as [b1|]; [|intros [= <- <-]; by eauto].
  destruct o2 as [b2|]; [|intros [= <- <-]; by eauto].
  destruct (Store (Memory r) (NextMemoryAddr r) _) as [mm|] eqn:E1; simpl;
    [|intros [= <- <-]; by eauto].
  destruct (store_chunks_checked _ _ _ _ mm) as [mm' oe] eqn:E2. simpl.
  apply Store_max in E1. apply store_chunks_checked_max in E2. rewrite E1 in E2.
  destruct oe as [e|]; simpl.
  - intros [= <- <-]. exists mm', (NextMemoryAddr r). split; [done|]. left. by destruct r.
  - intros H. eexists mm', _. split; [done|]. right. exact H.
Qed.

Lemma gas_frame_strconcat_body a1 a2 : respects gas_frame (strconcat_body a1 a2).
Proof.
  intros r r' x H. apply strconcat_body_inv in H as (mm & n & Hm & H).
  assert (gas_frame r (with_NextMemoryAddr n (with_Memory mm r))) as Hf by (by repeat split).
  destruct H as [->|H]; [done|]. etransitivity; [exact Hf|]. eapply gas_frame_Push. exact H.
Qed.

#[export] Instance gas_frame_handlers : HandlerFrame gas_frame.
Proof.
  split; auto using gas_frame_preorder, gas_frame_Push, gas_frame_Pop, gas_frame_storeString,
    gas_frame_op_SWAP, gas_frame_op_MSTORE, gas_frame_strconcat_body;
    intros; apply respects_modify; by repeat split.
Qed.

Lemma gas_frame_run_opcode ins : respects gas_frame (run_opcode ins).
Proof.
  unfold run_opcode. destruct (op_of _); [|respects_tac].
  apply walk_dispatch; auto using gas_frame_handlers, gas_frame_op_LOAD_LOCAL, gas_frame_op_STORE_LOCAL.
Qed.

(** ** Gas *)

Lemma finish_frame ins r : frame r (finish ins r).
Proof. unfold finish. destruct (_ || _); by repeat split. Qed.

Lemma finish_gas ins r :
  GasAvailable (finish ins r) = u64 (GasAvailable r - Price (Opcode ins))
  /\ GasUsed (finish ins r) = u64 (GasUsed r + Price (Opcode ins)).
Proof. unfold finish. by destruct (_ || _). Qed.

(** A returning instruction: what it fetched, and how it charged for it. *)
Lemma ExecuteInstruction_inv r r' e :
  ExecuteInstruction r = Ret (r', e) ->
  frame r r' /\
  exists ins, slice_get (Instructions r) (IC r) = Ret ins /\
    ((gas_frame r r' /\ e <> None)
     \/ (Price (Opcode ins) <= GasAvailable r
         /\ GasAvailable r' = u64 (GasAvailable r - Price (Opcode ins))
         /\ GasUsed r' = u64 (GasUsed r + Price (Opcode ins))
         /\ (e = None -> 1 <= Price (Opcode ins)))).
Proof.
  unfold ExecuteInstruction. intros H. apply go_bind_ret_inv in H as (ins & Hins & H).
  destruct (ValidateInstruction ins) as [[]|ie] eqn:Hv.
  2: { injection H as <- <-. split; [reflexivity|]. exists ins. split; [done|]. left.
       split; [reflexivity|done]. }
  destruct (Z.ltb_spec (GasAvailable r) (Price (Opcode ins))) as [Hg|Hg].
  { injection H as <- <-. split; [reflexivity|]. exists ins. split; [done|]. left.
    split; [reflexivity|done]. }
  apply go_bind_ret_inv in H as ([r1 x] & Hrun & H).
  pose proof (gas_frame_run_opcode ins r r1 x Hrun) as (Hf & Ha & Hu).
  pose proof (finish_gas ins r1) as [Hfa Hfu]. rewrite Ha in Hfa. rewrite Hu in Hfu.
  pose proof (finish_frame ins r1) as Hff.
  destruct x as [[]|[e'|e']]; injection H as <- <-.
  - split; [by transitivity r1|]. exists ins. split; [done|]. right. split_and!; try done.
    intros _. destruct (ValidateInstruction_Ok ins Hv) as (o & Ho & _). rewrite Ho in *.
    unfold run_opcode in Hrun. rewrite Ho, op_of_opcode in Hrun.
    apply Price_positive; intros ->; discriminate Hrun.
  - split; [by transitivity r1|]. exists ins. split; [done|]. right. split_and!; try done.
  - split; [done|]. exists ins. split; [done|]. left. done.
Qed.

Lemma step_gas r r' :
  is_u64 (GasAvailable r) -> step r r' ->
  frame r r' /\ exists p, 1 <= p <= 65535 /\ p <= GasAvailable r
    /\ GasAvailable r' = GasAvailable r - p /\ GasUsed r' = u64 (GasUsed r + p).
Proof.
  intros Hr [_ H]. apply ExecuteInstruction_inv in H as (Hf & ins & _ & [[_ ?]|(Hp & Ha & Hu & Hpos)]);
    [done|].
  split; [done|]. exists (Price (Opcode ins)). pose proof (Price_range (Opcode ins)).
  specialize (Hpos eq_refl). rewrite u64_small in Ha by (machine_bounds; lia).
  repeat (split; try lia); done.
Qed.

(** Fuel beyond the available gas never runs out, and never matters. *)
Lemma exec_loop_enough fuel r :
  is_u64 (GasAvailable r) -> GasAvailable r < Z.of_nat fuel ->
  exec_loop fuel r = exec_loop (loop_fuel r) r /\ is_Some (exec_loop fuel r).
Proof.
  unfold loop_fuel. remember (Z.to_nat (GasAvailable r)) as n eqn:En.
  assert (GasAvailable r <= Z.of_nat n) as Hn by lia. clear En.
  revert n r Hn. induction fuel as [|f IH]; intros n r Hn Hr Hf; [machine_bounds; lia|].
  cbn [exec_loop]. destruct (Z.ltb_spec (IC r) (len (Instructions r))); [|by eauto].
  destruct (ExecuteInstruction r) as [[r' [e|]]|k] eqn:E; [by eauto| |by eauto].
  destruct (step_gas r r' Hr) as (_ & p & ? & ? & Ha & _); [by constructor|].
  destruct n as [|n]; [machine_bounds; lia|].
  apply IH; machine_bounds; lia.
Qed.

Lemma StartExecution_some r : is_u64 (GasAvailable r) -> is_Some (StartExecution r).
Proof.
  intros Hr. unfold StartExecution. repeat (case_match; [by eauto|]).
  destruct (exec_loop_enough (loop_fuel r) r Hr) as [_ [x ->]].
  { unfold loop_fuel. machine_bounds. lia. }
  destruct x as [[r' e]|k]; eauto.
Qed.

(** C7. [StartExecution] always comes back: gas metering bounds the loop, whatever
    the program, so the fuel of the model is never the reason it stops. *)
Theorem StartExecution_total r :
  is_u64 (GasAvailable r) -> is_Some (StartExecution r).
Proof. apply StartExecution_some. Qed.

Lemma StartExecution_total_witness :
  is_Some (StartExecution (NewTestRuntime 50 [MakePushInstruction "0x0"; MakeInstruction (opcode JUMP)])).
Proof. apply (StartExecution_total). vm_compute. split; [discriminate | reflexivity]. Defined.

(** Sequences of steps keep the code, context and limits, and every unit of
    gas spent is a unit of gas used; they are no longer than the gas allows. *)
Lemma steps_gas n r r' :
  is_u64 (GasAvailable r) -> 0 <= GasUsed r -> GasUsed r + GasAvailable r < 2 ^ 64 ->
  nsteps step n r r' ->
  frame r r' /\ 0 <= GasAvailable r' /\ GasUsed r <= GasUsed r'
  /\ GasUsed r' + GasAvailable r' = GasUsed r + GasAvailable r
  /\ Z.of_nat n <= GasUsed r' - GasUsed r.
Proof.
  intros Hr H0 Hs Hst. induction Hst as [r|n r1 r2 r3 H12 H23 IH].
  { split; [reflexivity|]. machine_bounds. lia. }
  destruct (step_gas r1 r2 Hr H12) as (Hf & p & Hp & Hle & Ha & Hu).
  rewrite u64_small in Hu by (machine_bounds; lia).
  destruct IH as (Hf' & ? & ? & ? & ?); [machine_bounds; lia..|].
  split; [by transitivity r2|]. lia.
Qed.

(** The result of the loop is the result of a sequence of steps followed by one
    last instruction, or by falling off the end of the code. *)
Lemma exec_loop_steps fuel r out :
  exec_loop fuel r = Some out ->
  exists n r1, nsteps step n r r1 /\
    ((len (Instructions r1) <= IC r1 /\ out = Ret (r1, None))
     \/ (IC r1 < len (Instructions r1) /\
         ((exists k, ExecuteInstruction r1 = Panic k /\ out = Panic k)
          \/ (exists r' e, ExecuteInstruction r1 = Ret (r', Some e) /\ out = Ret (r', Some e))))).
Proof.
  revert r. induction fuel as [|f IH]; intros r; [discriminate|]. cbn [exec_loop].
  destruct (Z.ltb_spec (IC r) (len (Instructions r))) as [Hi|Hi].
  - destruct (ExecuteInstruction r) as [[r' [e|]]|k] eqn:E.
    + intros [= <-]. exists O, r. split; [constructor|]. right. eauto 8.
    + intros H. destruct (IH _ H) as (n & r1 & Hn & Hout). exists (S n), r1.
      split; [econstructor; [by constructor|done]|done].
    + intros [= <-]. exists O, r. split; [constructor|]. right. eauto 8.
  - intros [= <-]. exists O, r. split; [constructor|]. left. done.
Qed.

(** Gas accounting from any runtime that has used no gas yet. *)
Lemma StartExecution_account r r' used e :
  is_u64 (GasAvailable r) -> GasUsed r = 0 -> IC r = StartIC r -> s (Stack r) = [] ->
  StartExecution r = Some (Ret (r', used, e)) ->
  0 <= used <= GasAvailable r /\ used = GasUsed r' /\ GasAvailable r' = GasAvailable r - used
  /\ frame r r'.
Proof.
  intros Hg Hu0 Hic Hst. unfold StartExecution. rewrite Hic, Z.eqb_refl, Hst. cbn [negb len length Z.of_nat Z.eqb].
  remember (GasAvailable r) as gas eqn:Hgas.
  destruct (exec_loop (loop_fuel r) r) as [out|] eqn:E; [|discriminate].
  destruct out as [[rf ef]|k]; [|discriminate]. intros [= <- <- <-].
  apply exec_loop_steps in E as (n & r1 & Hn & Hout).
  apply steps_gas in Hn as (Hf & Ha & Hu & Hsum & _); [|machine_bounds; simpl; lia..].
  assert (GasAvailable r1 = gas - GasUsed r1) as Ha1 by lia.
  rewrite Hu0 in Hu.
  destruct Hout as [[_ [= -> ->]] | [_ [(k & _ & ?) | (r2 & e2 & Hx & [= -> ->])]]];
    [|discriminate|].
  - split_and!; try done; machine_bounds; lia.
  - apply ExecuteInstruction_inv in Hx as (Hf2 & ins & _ & [[(_ & Ha2 & Hu2) _]|(Hp & Ha2 & Hu2 & _)]).
    + machine_bounds. split; [lia|]. split; [done|]. split; [lia|]. by transitivity r1.
    + pose proof (Price_range (Opcode ins)).
      rewrite u64_small in Ha2 by (machine_bounds; lia).
      rewrite u64_small in Hu2 by (machine_bounds; lia).
      machine_bounds. split; [lia|]. split; [done|]. split; [lia|]. by transitivity r1.
Qed.

(** C8. Gas accounting of a whole run: the reported gas is at most the gas provided,
    exactly what is missing from the runtime afterwards, and the code, context
    and limits are those of the start. *)
Theorem StartExecution_gas gas code ctx ic r' used e :
  is_u64 gas ->
  StartExecution (NewRuntimeWithIC gas code ctx ic) = Some (Ret (r', used, e)) ->
  0 <= used <= gas /\ used = GasUsed r' /\ GasAvailable r' = gas - used
  /\ frame (NewRuntimeWithIC gas code ctx ic) r'.
Proof. intros Hg. by apply StartExecution_account. Qed.

Lemma StartExecution_gas_witness :
  exists r' used e,
    StartExecution (NewTestRuntime 50 [MakePushInstruction "0x0"; MakeInstruction (opcode JUMP)])
      = Some (Ret (r', used, e)) /\ 0 <= used <= 50.
Proof.
  eexists _, _, _. split; [vm_compute; reflexivity|].
  refine (proj1 (StartExecution_gas 50 [MakePushInstruction "0x0"; MakeInstruction (opcode JUMP)]
    MockBlockchainContext 0 _ _ _ _ _)).
  - vm_compute. split; [discriminate | reflexivity].
  - vm_compute. reflexivity.
Defined.

End Exec.
