(* ===== verification/InstrSpec.v ===== *)
(** * Instruction-level theorems about the virtual machine

    The stack limit, the reference semantics of the binary instructions, jumps
    and calls, and the programs on which the engine panics. *)

From S2P Require Import Prelude GoLib Config Bytecode Word256 Machine Opcodes Interp.

Module InstrSpec.
Import VM Handlers Exec.

(** ** The stack limit *)

(** The stack respects the configured limit, if there is one. *)
Definition stack_ok (st : stack) : Prop :=
  0 < stack_maxSize st -> len (s st) <= stack_maxSize st.

Definition keeps_stack_ok (r r' : Runtime) : Prop := stack_ok (Stack r) -> stack_ok (Stack r').

#[local] Instance keeps_stack_ok_preorder : PreOrder keeps_stack_ok.
Proof. split; unfold keeps_stack_ok; [intros r; auto | intros r1 r2 r3; auto]. Qed.

Lemma stack_Push_ok st v st' : stack_Push st v = Ok st' -> stack_ok st'.
Proof.
  unfold stack_Push, stack_ok. destruct (_ && _) eqn:E; [discriminate|]. intros [= <-]. simpl.
  intros Hm. apply andb_false_iff in E as [E|E]; bool_to_prop; [lia|].
  unfold len in *. rewrite length_app. simpl. lia.
Qed.

Lemma stack_Pop_ok st v st' : stack_Pop st = Ok (v, st') -> stack_ok st -> stack_ok st'.
Proof.
  unfold stack_Pop, stack_ok. destruct (last _); [|discriminate]. intros [= <- <-] H Hm. simpl in *.
  unfold len in *. rewrite length_take. specialize (H Hm). lia.
Qed.

Lemma stack_Swap_length st d st' : stack_Swap st d = Ret (Ok st') -> length (s st') = length (s st).
Proof.
  unfold stack_Swap. repeat case_match; try discriminate.
  intros H'. apply go_bind_ret_inv in H' as (v & _ & [= <-]). simpl. by rewrite !length_insert.
Qed.

Lemma stack_ok_Push v : respects keeps_stack_ok (Push v).
Proof.
  intros r r' x. unfold Push, mbind, M_bind, get, keeps_stack_ok.
  destruct (stack_Push (Stack r) v) eqn:E; simpl; intros [= <- <-]; [|done].
  intros _. eapply stack_Push_ok. eassumption.
Qed.

Lemma stack_ok_Pop : respects keeps_stack_ok Pop.
Proof.
  intros r r' x. unfold Pop, mbind, M_bind, get, keeps_stack_ok.
  destruct (stack_Pop (Stack r)) as [[v st]|] eqn:E; simpl; intros [= <- <-]; [|done].
  eapply stack_Pop_ok. eassumption.
Qed.

#[local] Hint Resolve stack_ok_Push stack_ok_Pop : respects.

Lemma stack_ok_SWAP : respects keeps_stack_ok op_SWAP.
Proof.
  unfold op_SWAP. apply respects_bind; [typeclasses eauto | respects_tac | intros v].
  apply respects_get_bind. intros r r' x. case_match; [by intros [= <- <-]|].
  unfold mbind, M_bind, of_go. destruct (stack_Swap _ _) as [[st|e]|k] eqn:E; simpl; try discriminate;
    intros [= <- <-]; [|by intros ?].
  unfold keeps_stack_ok, stack_ok, len. simpl. rewrite (stack_Swap_length _ _ _ E).
  by rewrite (stack_Swap_max _ _ _ E).
Qed.

Lemma stack_ok_MSTORE : respects keeps_stack_ok op_MSTORE.
Proof.
  unfold op_MSTORE, Pop2. apply respects_bind; [typeclasses eauto | respects_tac | intros [a v]].
  apply respects_get_bind. intros r r' x.
  unfold mbind, M_bind. destruct (Store _ _ _) eqn:E; simpl; intros [= <- <-]; by intros ?.
Qed.

Lemma stack_ok_strconcat a b : respects keeps_stack_ok (strconcat_body a b).
Proof.
  intros r r' x H. apply strconcat_body_inv in H as (mm & n & _ & [->|H]); [by intros ?|].
  apply stack_ok_Push in H. intros Hr. apply H. done.
Qed.

#[local] Instance keeps_stack_ok_handlers : HandlerFrame keeps_stack_ok.
Proof.
  split; auto using keeps_stack_ok_preorder, stack_ok_Push, stack_ok_Pop, stack_ok_SWAP,
    stack_ok_MSTORE, stack_ok_strconcat; try (intros; apply respects_modify; by intros ? ?).
  intros b r r' x [= <- <-]. by intros ?.
Qed.

(** C9. Every instruction except the two that address locals keeps the stack within
    its limit. *)
Theorem ExecuteInstruction_stack_limit r r' e ins :
  slice_get (Instructions r) (IC r) = Ret ins ->
  Opcode ins <> opcode LOAD_LOCAL -> Opcode ins <> opcode STORE_LOCAL ->
  stack_ok (Stack r) -> ExecuteInstruction r = Ret (r', e) -> stack_ok (Stack r').
Proof.
  intros Hins Hl Hs Hok. unfold ExecuteInstruction. rewrite Hins. simpl.
  destruct (ValidateInstruction ins); [|by intros [= <- <-]].
  destruct (_ <? _); [by intros [= <- <-]|]. intros H.
  apply go_bind_ret_inv in H as ([r1 x] & Hrun & H).
  assert (stack_ok (Stack r1)) as H1.
  { revert Hok. unfold run_opcode in Hrun. destruct (op_of (Opcode ins)) as [o|] eqn:Ho.
    - apply op_of_Some in Ho. refine (walk_dispatch keeps_stack_ok ins o _ _ r r1 x Hrun);
        intros ->; congruence.
    - injection Hrun as <- <-. done. }
  assert (Stack (finish ins r1) = Stack r1) as Hfin by (unfold finish; by destruct (_ || _)).
  destruct x as [[]|[e'|e']]; injection H as <- <-; rewrite ?Hfin; done.
Qed.

Lemma ExecuteInstruction_stack_limit_witness :
  exists r' e, ExecuteInstruction (NewTestRuntime 10 [MakePushInstruction "0x2a"]) = Ret (r', e)
    /\ stack_ok (Stack r').
Proof.
  eexists _, _. split; [vm_compute; reflexivity|].
  eapply (ExecuteInstruction_stack_limit (NewTestRuntime 10 [MakePushInstruction "0x2a"]));
    [vm_compute; reflexivity | discriminate | discriminate | | vm_compute; reflexivity].
  vm_compute. discriminate.
Defined.

(** STORE_LOCAL grows the stack past its limit, without an error and for three
    units of gas, whatever the offset. *)
Theorem STORE_LOCAL_ignores_limit :
  exists r', StartExecution (NewTestRuntimeWithLimits 1000
      [MakePushInstruction "0x1"; MakePushInstruction "0x40"; MakeInstruction (opcode STORE_LOCAL)] 2 100)
    = Some (Ret (r', 9, None))
  /\ stack_maxSize (Stack r') = 2 /\ len (s (Stack r')) = 65.
Proof. eexists. split; [vm_compute; reflexivity|]. vm_compute. done. Qed.

(** ** Panics *)

(** A word: [0x] and the hexadecimal text of a number. *)
Definition push (z : Z) : Instruction := MakeInstructionWithValue (opcode PUSH) (OpBig (Some z)).

(** Every instruction passes validation, and running the program panics. *)
Definition aborts (prog : list Instruction) (k : panic_kind) : Prop :=
  Forall (fun i => ValidateInstruction i = Ok ()) prog
  /\ StartExecution (NewTestRuntime 1000 prog) = Some (Panic k).

(** Programs that pass instruction validation and abort the interpreter, which
    nothing recovers: a call to an address of 2^63 or more, a swap with a
    depth of 2^63 or more, a debug output of a word of more than 256 bits, and
    a string whose length word is out of range. *)
Theorem validated_programs_panic :
  aborts [push (2 ^ 63); MakeInstruction (opcode CALL)] IndexOutOfRange
  /\ aborts [push 7; push (2 ^ 64 - 1); MakeInstruction (opcode SWAP)] IndexOutOfRange
  /\ aborts [push (2 ^ 256); MakeInstruction (opcode EMIT)] FillBytesTooLarge
  /\ aborts [push (2 ^ 60); push 0; MakeInstruction (opcode MSTORE); push 0; MakeInstruction (opcode EMITSTR)]
       MakeSliceRange.
Proof.
  split_and!; split; try (vm_compute; reflexivity); repeat (constructor; [vm_compute; reflexivity|]); constructor.
Qed.

(** ** Running a handler on a known stack *)

Lemma stack_Pop_snoc st v mx : stack_Pop (MkStack (st ++ [v]) mx) = Ok (v, MkStack st mx).
Proof.
  unfold stack_Pop. simpl. rewrite last_snoc, length_app. simpl.
  replace (length st + 1 - 1)%nat with (length st) by lia. by rewrite take_app_length.
Qed.

Lemma Pop_run r st v mx :
  Stack r = MkStack (st ++ [v]) mx -> Pop r = Ret (with_Stack (MkStack st mx) r, inl v).
Proof. intros H. unfold Pop, mbind, M_bind, get. rewrite H, stack_Pop_snoc. done. Qed.

Lemma Push_run r v :
  stack_maxSize (Stack r) <= 0 \/ len (s (Stack r)) < stack_maxSize (Stack r) ->
  Push v r = Ret (with_Stack (MkStack (s (Stack r) ++ [v]) (stack_maxSize (Stack r))) r, inl ()).
Proof.
  intros H. unfold Push, mbind, M_bind, get, stack_Push.
  replace ((0 <? stack_maxSize (Stack r)) && (stack_maxSize (Stack r) <=? len (s (Stack r)))) with false; [done|].
  symmetry. apply andb_false_iff. rewrite Z.ltb_ge, Z.leb_gt. done.
Qed.

Lemma Pop2_run r st a b mx :
  Stack r = MkStack (st ++ [a; b]) mx -> Pop2 r = Ret (with_Stack (MkStack st mx) r, inl (b, a)).
Proof.
  intros H. unfold Pop2.
  assert (Stack r = MkStack ((st ++ [a]) ++ [b]) mx) as H' by (by rewrite <- app_assoc).
  unfold mbind, M_bind at 1. rewrite (Pop_run r _ _ _ H').
  unfold M_bind at 1. by rewrite (Pop_run _ st a mx).
Qed.

Lemma binop_run f r st a b mx :
  Stack r = MkStack (st ++ [a; b]) mx -> stack_ok (Stack r) ->
  binop f r = Ret (with_Stack (MkStack (st ++ [f a b]) mx) r, inl ()).
Proof.
  intros H Hok. unfold binop, mbind, M_bind. rewrite (Pop2_run _ _ _ _ _ H).
  rewrite Push_run; [done|]. simpl. unfold stack_ok in Hok. rewrite H in Hok. simpl in Hok.
  unfold len in *. rewrite length_app in Hok. simpl in Hok. lia.
Qed.

(** The state after a metered, non-jumping instruction whose handler ended in [r]. *)
Lemma ExecuteInstruction_run r ins r' :
  slice_get (Instructions r) (IC r) = Ret ins -> ValidateInstruction ins = Ok () ->
  Price (Opcode ins) <= GasAvailable r -> run_opcode ins r = Ret (r', inl ()) ->
  ExecuteInstruction r = Ret (finish ins r', None).
Proof.
  intros Hi Hv Hg Hr. unfold ExecuteInstruction. rewrite Hi. simpl. rewrite Hv.
  rewrite (proj2 (Z.ltb_ge _ _)) by done. by rewrite Hr.
Qed.

(** ** Reference semantics of the binary instructions on 256-bit words

    Addition and subtraction are modular; MUL is, unless the signed product lies
    below -2^256, which the code brings up by one modulus only; DIV is Euclidean
    on the signed readings (the quotient that leaves a remainder of at least
    zero), and division by zero gives zero. *)

Definition ref_mul (a b : Z) : Z :=
  let p := toSigned256 a * toSigned256 b in
  if decide (- 2 ^ 256 <= p) then (a * b) mod 2 ^ 256 else p + 2 ^ 256.

Definition ref_div (a b : Z) : Z :=
  let x := toSigned256 a in
  let y := toSigned256 b in
  if b =? 0 then 0 else ((x - x mod Z.abs y) / y) mod 2 ^ 256.

Definition ref_binop (o : Op) : option (Z -> Z -> Z) :=
  match o with
  | ADD => Some (fun a b => (a + b) mod 2 ^ 256)
  | SUB => Some (fun a b => (a - b) mod 2 ^ 256)
  | MUL => Some ref_mul
  | DIV => Some ref_div
  | MOD => Some (fun a b => if b =? 0 then 0 else a mod b)
  | AND => Some Z.land
  | OR => Some Z.lor
  | LT => Some (fun a b => if decide (toSigned256 a < toSigned256 b) then 1 else 0)
  | GT => Some (fun a b => if decide (toSigned256 a > toSigned256 b) then 1 else 0)
  | _ => None
  end.

Lemma word_ones a : is_word a -> Z.land a (Z.ones 256) = a.
Proof. intros H. rewrite Z.land_ones by lia. by apply Z.mod_small. Qed.

Lemma big_Mod_word a : big_Mod a (Z.shiftl 1 256) = Z.land a (Z.ones 256).
Proof. unfold big_Mod. rewrite Z.land_ones by lia. done. Qed.

(** The result of MUL is a word only when the product is not too small. *)
Definition in_range (o : Op) (a b : Z) : Prop := o = MUL -> - 2 ^ 256 <= toSigned256 a * toSigned256 b.

Lemma ref_mul_signed a b : is_word a -> is_word b -> signedMul a b = ref_mul a b.
Proof.
  intros Ha Hb. pose proof (signedMul_spec a b Ha Hb) as H. unfold ref_mul. case_decide; [exact H|].
  unfold signedMul. rewrite toUnsigned256_eq, (proj2 (Z.ltb_lt _ _)) by lia. lia.
Qed.

Lemma ref_div_signed a b : is_word a -> is_word b -> signedDiv a b = ref_div a b.
Proof.
  intros Ha Hb. destruct (signedDiv_spec a b Ha Hb) as (_ & Hz & Hd). unfold ref_div.
  destruct (Z.eqb_spec b 0) as [E|E]; [by apply Hz|]. destruct (Hd E) as (q & r & -> & Hqr & Hr). f_equal.
  assert (toSigned256 a mod Z.abs (toSigned256 b) = r) as ->.
  { symmetry. destruct (Z.abs_spec (toSigned256 b)) as [[_ Habs]|[_ Habs]]; rewrite Habs in *.
    - apply (Z.mod_unique_pos _ _ q); lia.
    - apply (Z.mod_unique_pos _ _ (- q)); lia. }
  replace (toSigned256 a - r) with (q * toSigned256 b) by lia. symmetry. apply Z.div_mul. lia.
Qed.

Lemma ref_binop_word o f a b : ref_binop o = Some f -> is_word a -> is_word b -> in_range o a b -> is_word (f a b).
Proof.
  intros Hf Ha Hb Hr. assert (forall x, is_word (x mod 2 ^ 256)) as Hm by (intros; apply Z.mod_pos_bound; lia).
  destruct o; try discriminate; injection Hf as <-; try apply Hm.
  - unfold ref_mul. rewrite decide_True by by apply Hr. apply Hm.
  - rewrite <- ref_div_signed by done. by apply signedDiv_spec.
  - unfold is_word in *. destruct (Z.eqb_spec b 0); [lia|].
    pose proof (Z.mod_pos_bound a b). lia.
  - rewrite <- (word_ones b) by done. rewrite Z.land_assoc, Z.land_ones by lia. apply Hm.
  - rewrite <- (word_ones a), <- (word_ones b) by done.
    rewrite <- Z.land_lor_distr_l, Z.land_ones by lia. apply Hm.
  - unfold is_word. case_decide; lia.
  - unfold is_word. case_decide; lia.
Qed.

(** The handler of a binary opcode applies its reference function. *)
Lemma dispatch_ref_binop o f ins :
  ref_binop o = Some f ->
  exists g, dispatch ins o = binop g /\ forall a b, is_word a -> is_word b -> g a b = f a b.
Proof.
  destruct o; try discriminate; intros [= <-]; eexists; (split; [reflexivity|]); intros a b Ha Hb;
    cbv beta.
  - apply signedAdd_mod; done.
  - apply signedSub_mod; done.
  - apply ref_mul_signed; done.
  - apply ref_div_signed; done.
  - unfold is_word in *. unfold big_Mod. destruct (Z.eqb_spec (Z.sgn b) 0) as [E|E], (Z.eqb_spec b 0);
      try done; try lia. by rewrite Z.abs_eq by lia.
  - rewrite big_Mod_word, <- Z.land_assoc. by rewrite (word_ones b).
  - rewrite big_Mod_word, Z.land_lor_distr_l. by rewrite !word_ones.
  - pose proof (signedCmp_lt a b). case_decide; unfold b2z; case_match; bool_to_prop; lia.
  - pose proof (signedCmp_gt a b). case_decide; unfold b2z; case_match; bool_to_prop; lia.
Qed.

(** C10. The arithmetic, bitwise and ordering instructions (ADD, SUB, MUL, DIV, MOD, AND,
    OR, LT and GT) on two words at the top of the stack: the instruction costs its
    price, moves on by one, and replaces the operands by the reference result,
    which is a word again unless it is a product below -2^256.  (EQ is not one of
    them: it compares strings when its operands are addresses of strings.) *)
Theorem binary_instruction_spec o f r st a b mx :
  ref_binop o = Some f ->
  slice_get (Instructions r) (IC r) = Ret (MakeInstruction (opcode o)) ->
  Stack r = MkStack (st ++ [a; b]) mx -> stack_ok (Stack r) -> is_word a -> is_word b ->
  Price (opcode o) <= GasAvailable r -> is_u64 (GasAvailable r) -> is_i64 (IC r + 1) ->
  (in_range o a b -> is_word (f a b)) /\
  exists r', ExecuteInstruction r = Ret (r', None)
    /\ s (Stack r') = st ++ [f a b] /\ Memory r' = Memory r /\ Persistent r' = Persistent r
    /\ IC r' = IC r + 1 /\ GasAvailable r' = GasAvailable r - Price (opcode o).
Proof.
  intros Hf Hi Hst Hok Ha Hb Hg Hu Hic. split; [intros Hr; by eapply ref_binop_word|].
  destruct (dispatch_ref_binop o f (MakeInstruction (opcode o)) Hf) as (g & Hd & Hgf).
  eexists. split.
  - apply ExecuteInstruction_run with (r' := with_Stack (MkStack (st ++ [g a b]) mx) r); [done| |done|].
    + destruct o; try discriminate; done.
    + unfold run_opcode. cbn [MakeInstruction Opcode]. rewrite op_of_opcode, Hd.
      by apply binop_run.
  - unfold finish. cbn [MakeInstruction Opcode].
    replace ((opcode o =? opcode JUMP) || (opcode o =? opcode JUMPC)) with false
      by (destruct o; try discriminate; done).
    simpl. rewrite Hgf, i64_small, u64_small by (done || (pose proof (Price_range (opcode o)); machine_bounds; lia)).
    done.
Qed.

Lemma binary_instruction_spec_witness :
  (exists r', ExecuteInstruction (with_Stack (MkStack [5; 2 ^ 256 - 1] 10)
      (NewTestRuntime 10 [MakeInstruction (opcode ADD)])) = Ret (r', None) /\ s (Stack r') = [4]) /\
  (exists r', ExecuteInstruction (with_Stack (MkStack [2 ^ 256 - 7; 2] 10)
      (NewTestRuntime 10 [MakeInstruction (opcode DIV)])) = Ret (r', None) /\ s (Stack r') = [2 ^ 256 - 4]) /\
  exists r', ExecuteInstruction (with_Stack (MkStack [2 ^ 255; 3] 10)
      (NewTestRuntime 10 [MakeInstruction (opcode MUL)])) = Ret (r', None) /\ s (Stack r') = [- 2 ^ 255].
Proof.
  split; [|split].
  - destruct (binary_instruction_spec ADD _ (with_Stack (MkStack [5; 2 ^ 256 - 1] 10)
        (NewTestRuntime 10 [MakeInstruction (opcode ADD)])) [] 5 (2 ^ 256 - 1) 10 eq_refl eq_refl eq_refl)
      as (_ & r' & H & Hs & _); try (vm_compute; (done || split; done)).
    exists r'. split; [exact H|]. rewrite Hs. vm_compute. reflexivity.
  - destruct (binary_instruction_spec DIV _ (with_Stack (MkStack [2 ^ 256 - 7; 2] 10)
        (NewTestRuntime 10 [MakeInstruction (opcode DIV)])) [] (2 ^ 256 - 7) 2 10 eq_refl eq_refl eq_refl)
      as (_ & r' & H & Hs & _); try (vm_compute; (done || split; done)).
    exists r'. split; [exact H|]. rewrite Hs. vm_compute. reflexivity.
  - destruct (binary_instruction_spec MUL _ (with_Stack (MkStack [2 ^ 255; 3] 10)
        (NewTestRuntime 10 [MakeInstruction (opcode MUL)])) [] (2 ^ 255) 3 10 eq_refl eq_refl eq_refl)
      as (_ & r' & H & Hs & _); try (vm_compute; (done || split; done)).
    exists r'. split; [exact H|]. rewrite Hs. vm_compute. reflexivity.
Defined.

(** ** Calls and returns *)

Lemma pop_if_any_run r st v mx :
  Stack r = MkStack (st ++ [v]) mx -> pop_if_any r = Ret (with_Stack (MkStack st mx) r, inl ()).
Proof.
  intros H. unfold pop_if_any, mbind, M_bind, get. rewrite H. cbn [s].
  rewrite (proj2 (Z.ltb_lt _ _)) by (unfold len; rewrite length_app; simpl; lia).
  by rewrite (Pop_run _ _ _ _ H).
Qed.

Lemma op_CALL_run r st addr mx :
  Stack r = MkStack (st ++ [addr]) mx ->
  op_CALL r = Ret
    (with_IC (i64 (i64 (big_Uint64 addr) - 1))
      (with_ReturnStack (ReturnStack r ++ [i64 (IC r + 1)])
        (with_FramePointer (i64 (len st - numParams))
          (with_FrameStack (FrameStack r ++ [FramePointer r])
            (with_Stack (MkStack st mx) r)))), inl ()).
Proof. intros H. unfold op_CALL, mbind, M_bind at 1. by rewrite (Pop_run _ _ _ _ H). Qed.

Lemma op_RETURN_run r st p q v mx rs ra fs fp :
  Stack r = MkStack (st ++ [p; q; v]) mx -> stack_ok (Stack r) ->
  ReturnStack r = rs ++ [ra] -> FrameStack r = fs ++ [fp] ->
  op_RETURN r = Ret
    (with_IC (i64 (ra - 1))
      (with_ReturnStack rs
        (with_Stack (MkStack (st ++ [v]) mx)
          (with_FrameStack fs (with_FramePointer fp r)))), inl ()).
Proof.
  intros H Hok Hr Hf. unfold op_RETURN, mbind at 1, M_bind at 1, get at 1.
  rewrite Hr, Hf, !last_snoc, !length_app. cbn [length].
  rewrite !Nat.add_sub, !take_app_length.
  assert (Stack r = MkStack (((st ++ [p]) ++ [q]) ++ [v]) mx) as H' by (by rewrite <- !app_assoc).
  unfold mbind, M_bind. rewrite (Pop_run _ _ _ _ H'). simpl.
  rewrite (pop_if_any_run _ (st ++ [p]) q mx) by done.
  rewrite (pop_if_any_run _ st p mx) by done.
  rewrite Push_run; [done|]. simpl. unfold stack_ok in Hok. rewrite H in Hok. simpl in Hok.
  unfold len in *. rewrite length_app in Hok. simpl in Hok. lia.
Qed.

(** C11. A call frame: after CALL to an address in range the machine is at that
    address, with the return address and the caller's frame pointer saved, and
    the frame pointer two below the top; the matching RETURN restores both and
    leaves the returned value in place of the two parameters. *)
Theorem call_return_roundtrip r st p q addr v mx :
  Stack r = MkStack (st ++ [p; q; addr]) mx -> stack_ok (Stack r) ->
  0 <= addr < 2 ^ 63 -> is_i64 (IC r + 1) -> 0 <= IC r -> len st < 2 ^ 62 ->
  exists r1, op_CALL r = Ret (r1, inl ())
    /\ s (Stack r1) = st ++ [p; q] /\ i64 (IC r1 + 1) = addr /\ FramePointer r1 = len st
    /\ forall r2, frame r1 r2 -> ReturnStack r2 = ReturnStack r1 -> FrameStack r2 = FrameStack r1 ->
         s (Stack r2) = st ++ [p; q; v] ->
         exists r3, op_RETURN r2 = Ret (r3, inl ())
           /\ s (Stack r3) = st ++ [v] /\ i64 (IC r3 + 1) = IC r + 1
           /\ FramePointer r3 = FramePointer r
           /\ ReturnStack r3 = ReturnStack r /\ FrameStack r3 = FrameStack r.
Proof.
  intros Hst Hok Ha Hic Hic0 Hlen.
  assert (Stack r = MkStack ((st ++ [p; q]) ++ [addr]) mx) as Hst' by (by rewrite <- app_assoc).
  eexists. split; [exact (op_CALL_run r _ addr mx Hst')|]. cbn.
  rewrite big_Uint64_small by (machine_bounds; lia). rewrite (i64_small addr) by (machine_bounds; lia).
  rewrite (i64_small (addr - 1)) by (machine_bounds; lia).
  split; [done|]. split; [rewrite i64_small; machine_bounds; lia|].
  split.
  { unfold numParams, len in *. rewrite length_app. simpl. rewrite i64_small; machine_bounds; lia. }
  intros r2 Hf Hrs Hfs Hs2.
  assert (Stack r2 = MkStack (st ++ [p; q; v]) mx) as H2.
  { destruct Hf as [_ _ _ Hmx _]. cbn in Hmx. destruct (Stack r2). cbn in *. by subst. }
  eexists. split.
  - eapply op_RETURN_run; [exact H2 | | exact Hrs | exact Hfs].
    revert Hok. rewrite H2, Hst. unfold stack_ok, len. cbn. rewrite !length_app. done.
  - cbn. rewrite (i64_small (IC r + 1)) by done.
    rewrite (i64_small (IC r + 1 - 1)) by (machine_bounds; lia).
    rewrite i64_small by (machine_bounds; lia). repeat split; try done. lia.
Qed.

Lemma call_return_roundtrip_witness :
  exists r1, op_CALL (with_Stack (MkStack [10; 1; 2; 7] 100) (NewTestRuntime 10 [])) = Ret (r1, inl ())
    /\ i64 (IC r1 + 1) = 7 /\ FramePointer r1 = 1.
Proof.
  destruct (call_return_roundtrip (with_Stack (MkStack [10; 1; 2; 7] 100) (NewTestRuntime 10 []))
    [10] 1 2 7 3 100 eq_refl) as (r1 & H & _ & Hi & Hf & _);
    try (unfold stack_ok, is_i64, len; simpl; lia).
  exists r1. done.
Defined.

End InstrSpec.
