(* ===== verification/AvmStrings.v ===== *)
(** * Strings of the virtual machine (src/avm/runtime.go: string helpers and string opcodes)

    A string lives in memory as a length word followed by 32-byte chunks.
    [holds_string] is that representation predicate; the theorems show that the
    allocator establishes it, that reading it back gives the string, and that
    the string opcodes refine the corresponding list operations. *)

From S2P Require Import Prelude GoLib Config Bytecode Word256 Machine Opcodes Interp InstrSpec.

Module Strings.
Import VM Handlers Exec InstrSpec.

(** The number of 32-byte chunks of a string. *)
Definition nchunks (b : bytes) : nat := Z.to_nat ((len b + 31) / 32).

(** [b] is stored at address [a]. *)
Record holds_string (mem : memory) (a : Z) (b : bytes) : Prop := {
  hs_addr : 0 <= a;
  hs_end : a + 1 + Z.of_nat (nchunks b) < 2 ^ 64;
  hs_len : Load mem a = Ok (len b);
  hs_chunk : forall i, (i < nchunks b)%nat -> Load mem (a + 1 + Z.of_nat i) = Ok (chunk_word b i)
}.

(** The addresses below [n] can be written. *)
Definition room (mem : memory) (n : Z) : Prop := mem_maxSize mem <= 0 \/ n <= mem_maxSize mem.

(** ** Chunks *)

Lemma nchunks_lt b i : (i < nchunks b)%nat <-> (32 * i < length b)%nat.
Proof.
  unfold nchunks, len. split; intros H.
  - assert (Z.of_nat i + 1 <= (Z.of_nat (length b) + 31) / 32) as H' by lia.
    pose proof (Z.mul_div_le (Z.of_nat (length b) + 31) 32). lia.
  - assert (Z.of_nat i + 1 <= (Z.of_nat (length b) + 31) / 32); [|lia].
    apply Z.div_le_lower_bound; lia.
Qed.

Lemma chunks_of_len b : len b < 2 ^ 63 -> Z.to_nat (chunks_of (len b)) = nchunks b.
Proof.
  intros H. unfold chunks_of, nchunks. rewrite u64_small; [done|]. unfold len in *. machine_bounds. lia.
Qed.

Lemma nchunks_of_nat b : len b < 2 ^ 63 -> chunks_of (len b) = Z.of_nat (nchunks b).
Proof.
  intros H. rewrite <- chunks_of_len by done. rewrite Z2Nat.id; [done|].
  apply Z.div_pos; [|lia]. apply u64_range.
Qed.

Lemma take_step (b : bytes) i : take (32 * S i) b = take (32 * i) b ++ take 32 (drop (32 * i) b).
Proof.
  replace (32 * S i)%nat with (32 * i + 32)%nat by lia.
  rewrite take_take_drop. done.
Qed.

Lemma chunk_word_fill b i :
  big_FillBytes 32 (chunk_word b i) = Ret (copy_into 32 (take 32 (drop (32 * i) b))).
Proof. apply big_FillBytes_SetBytes, length_copy_into. Qed.

(** One round of the reading loop appends the next 32 bytes of the string. *)
Lemma read_round b i :
  (32 * i < length b)%nat -> len b < 2 ^ 63 ->
  let acc := take (32 * i) b in
  let chunk := copy_into 32 (take 32 (drop (32 * i) b)) in
  let remaining := u64 (len b - len acc) in
  (if 32 <? remaining then acc ++ chunk else acc ++ take (Z.to_nat remaining) chunk)
    = take (32 * S i) b.
Proof.
  intros Hi Hb acc chunk remaining. rewrite take_step. fold acc.
  assert (remaining = Z.of_nat (length b - 32 * i)) as Hr.
  { unfold remaining, acc, len in *. rewrite length_take, u64_small; machine_bounds; lia. }
  rewrite Hr. destruct (Z.ltb_spec 32 (Z.of_nat (length b - 32 * i))) as [H|H]; f_equal.
  - unfold chunk. apply copy_into_id. rewrite length_take, length_drop. lia.
  - unfold chunk, copy_into. rewrite Nat2Z.id, take_take.
    rewrite Nat.min_l by lia.
    assert (take 32 (drop (32 * i) b) = drop (32 * i) b) as -> by (apply take_ge; rewrite length_drop; lia).
    rewrite <- length_drop. apply take_app_length.
Qed.

Lemma read_chunks_holds mem a b n i :
  holds_string mem a b -> len b < 2 ^ 63 -> (i + n = nchunks b)%nat ->
  read_chunks mem a (len b) n (Z.of_nat i) (take (32 * i) b) = Ret (Some b).
Proof.
  intros Hs Hb. revert i. induction n as [|n IH]; intros i Hn.
  - cbn [read_chunks]. rewrite take_ge; [done|]. pose proof (nchunks_lt b i). lia.
  - cbn [read_chunks]. destruct Hs as [Ha He _ Hc].
    rewrite u64_small by (machine_bounds; lia). rewrite Hc by lia. rewrite chunk_word_fill.
    cbn [mbind go_bind]. rewrite (read_round b i); [|apply nchunks_lt; lia|done].
    replace (Z.of_nat i + 1) with (Z.of_nat (S i)) by lia. apply IH. lia.
Qed.

(** Reading a stored string of at most a million bytes gives it back. *)
Lemma readStringFromMemory_holds mem a b :
  holds_string mem a b -> len b <= 1000000 -> readStringFromMemory mem a = Ret b.
Proof.
  intros Hs Hb. unfold readStringFromMemory. rewrite (hs_len _ _ _ Hs).
  rewrite big_Uint64_small by (unfold len in *; machine_bounds; lia).
  destruct (Z.eqb_spec (len b) 0) as [E|E].
  { destruct b; [done|]. unfold len in E. simpl in E. lia. }
  rewrite (proj2 (Z.ltb_ge _ _)) by done.
  rewrite chunks_of_len by lia.
  change (read_chunks mem a (len b) (nchunks b) 0 [])
    with (read_chunks mem a (len b) (nchunks b) (Z.of_nat 0) (take (32 * 0) b)).
  rewrite read_chunks_holds by (done || lia). done.
Qed.

(** ** Writing *)

Lemma Load_Store_eq mem a v mem' : Store mem a v = Ok mem' -> Load mem' a = Ok v.
Proof.
  unfold Store, Load. destruct (_ && _) eqn:E; [discriminate|]. intros [= <-]. simpl.
  rewrite E, lookup_insert_eq. done.
Qed.

Lemma Load_Store_ne mem a v mem' a' : Store mem a v = Ok mem' -> a <> a' -> Load mem' a' = Load mem a'.
Proof.
  unfold Store, Load. destruct (_ && _) eqn:E; [discriminate|]. intros [= <-] Hne. simpl.
  by rewrite lookup_insert_ne.
Qed.

Lemma Store_room mem a v : room mem (a + 1) -> exists mem', Store mem a v = Ok mem'.
Proof.
  intros H. unfold Store. replace (_ && _) with false; [eauto|].
  symmetry. apply andb_false_iff. rewrite Z.ltb_ge, Z.leb_gt. unfold room in H. lia.
Qed.

Lemma store_chunks_checked_spec b a n i mem :
  0 <= a -> a + 1 + Z.of_nat (i + n) < 2 ^ 64 -> room mem (a + 1 + Z.of_nat (i + n)) ->
  exists mem', store_chunks_checked b a n i mem = (mem', None)
    /\ store_chunks b a n i mem = mem'
    /\ mem_maxSize mem' = mem_maxSize mem
    /\ (forall j, (i <= j < i + n)%nat -> Load mem' (a + 1 + Z.of_nat j) = Ok (chunk_word b j))
    /\ (forall a', a' < a + 1 + Z.of_nat i -> Load mem' a' = Load mem a').
Proof.
  intros Ha. revert i mem. induction n as [|n IH]; intros i mem He Hr.
  - exists mem. split_and!; try done. intros; lia.
  - cbn [store_chunks_checked store_chunks]. rewrite u64_small by (machine_bounds; lia).
    destruct (Store_room mem (a + 1 + Z.of_nat i) (chunk_word b i)) as [mem1 E].
    { unfold room in *. lia. }
    rewrite E. pose proof (Store_max _ _ _ _ E) as Hm1.
    destruct (IH (S i) mem1) as (mem' & H1 & H2 & H3 & H4 & H5).
    { lia. } { unfold room in *. rewrite Hm1. lia. }
    exists mem'. split_and!; [done | done | congruence | |].
    + intros j Hj. destruct (decide (j = i)) as [->|Hne]; [|apply H4; lia].
      rewrite H5 by lia. eapply Load_Store_eq. exact E.
    + intros a' Ha'. rewrite H5 by lia. eapply Load_Store_ne; [exact E|lia].
Qed.

(** Writes at or above an address leave the strings below it alone. *)
Lemma holds_string_mono mem mem' a b n :
  holds_string mem a b -> a + 1 + Z.of_nat (nchunks b) <= n ->
  (forall a', a' < n -> Load mem' a' = Load mem a') -> holds_string mem' a b.
Proof.
  intros [Ha He Hl Hc] Hn Hsame. split; try done.
  - rewrite Hsame by lia. done.
  - intros i Hi. rewrite Hsame by lia. auto.
Qed.

(** Room for one more string at the allocation mark of a runtime. *)
Definition fits (r : Runtime) (b : bytes) : Prop :=
  0 <= NextMemoryAddr r /\ NextMemoryAddr r + 1 + Z.of_nat (nchunks b) < 2 ^ 63
  /\ len b < 2 ^ 63 /\ room (Memory r) (NextMemoryAddr r + 1 + Z.of_nat (nchunks b)).

(** Both writing loops, after the length word, establish the representation. *)
Lemma write_string r b :
  fits r b ->
  exists mem0 mem', Store (Memory r) (NextMemoryAddr r) (len b) = Ok mem0
    /\ store_chunks_checked b (NextMemoryAddr r) (nchunks b) 0 mem0 = (mem', None)
    /\ store_chunks b (NextMemoryAddr r) (nchunks b) 0 mem0 = mem'
    /\ mem_maxSize mem' = mem_maxSize (Memory r)
    /\ holds_string mem' (NextMemoryAddr r) b
    /\ (forall a', a' < NextMemoryAddr r -> Load mem' a' = Load (Memory r) a').
Proof.
  intros (Ha & He & Hb & Hr).
  destruct (Store_room (Memory r) (NextMemoryAddr r) (len b)) as [mem0 E0].
  { unfold room in *. lia. }
  pose proof (Store_max _ _ _ _ E0) as Hm0.
  destruct (store_chunks_checked_spec b (NextMemoryAddr r) (nchunks b) 0 mem0)
    as (mem' & Hs1 & Hs2 & Hm & Hc & Hl); [done | machine_bounds; lia | unfold room in *; rewrite Hm0; lia |].
  exists mem0, mem'. do 3 (split; [done|]). split; [congruence|]. split.
  - split; [done | machine_bounds; lia | | intros i Hi; apply Hc; lia].
    rewrite Hl by lia. eapply Load_Store_eq. exact E0.
  - intros a' Ha'. rewrite Hl by lia. eapply Load_Store_ne; [exact E0 | lia].
Qed.

(** On a string that fits, the machine arithmetic of the writers is exact. *)
Lemma fits_arith r b :
  fits r b ->
  u64 (len b) = len b /\ i64 (len b) = len b /\ Z.to_nat (chunks_of (len b)) = nchunks b
  /\ chunks_of (len b) = Z.of_nat (nchunks b) /\ i64 (NextMemoryAddr r) = NextMemoryAddr r
  /\ u64 (NextMemoryAddr r + 1 + Z.of_nat (nchunks b)) = NextMemoryAddr r + 1 + Z.of_nat (nchunks b).
Proof.
  intros (Ha & He & Hb & Hr). assert (0 <= len b) by (unfold len; lia).
  rewrite chunks_of_len, nchunks_of_nat, !u64_small, !i64_small by (machine_bounds; lia). done.
Qed.

Lemma storeStringInMemory_spec r b :
  fits r b ->
  exists mem', storeStringInMemory r b =
      (NextMemoryAddr r,
       with_NextMemoryAddr (NextMemoryAddr r + 1 + Z.of_nat (nchunks b)) (with_Memory mem' r))
    /\ mem_maxSize mem' = mem_maxSize (Memory r)
    /\ holds_string mem' (NextMemoryAddr r) b
    /\ (forall a', a' < NextMemoryAddr r -> Load mem' a' = Load (Memory r) a').
Proof.
  intros Hf. destruct (write_string r b Hf) as (mem0 & mem' & E0 & _ & Hs & Hrest).
  destruct (fits_arith r b Hf) as (Hu & Hi & Hn & Hc & _ & Ha).
  exists mem'. split; [|done]. unfold storeStringInMemory.
  by rewrite Hu, Hi, E0, Hn, Hc, Hs, Ha.
Qed.

(** ** Running the string instructions *)

Lemma bind_run {A B} (c : M A) (f : A -> M B) r r' a :
  c r = Ret (r', inl a) -> (c ≫= f) r = f a r'.
Proof. intros H. unfold mbind, M_bind. by rewrite H. Qed.

(** One more value fits on a stack whose visible part is [st]. *)
Definition has_room (r : Runtime) (n : Z) : Prop :=
  stack_maxSize (Stack r) <= 0 \/ n < stack_maxSize (Stack r).

Lemma readString_run r a b :
  holds_string (Memory r) a b -> len b <= 1000000 -> readString a r = Ret (r, inl b).
Proof.
  intros Hs Hb. unfold readString, mbind, M_bind, get, of_go. by rewrite (readStringFromMemory_holds _ _ b).
Qed.

(** [r'] is [r] with the string [b] allocated and its address pushed on [st]. *)
Record allocated (r : Runtime) (st : list Z) (b : bytes) (r' : Runtime) : Prop := {
  al_stack : Stack r' = MkStack (st ++ [NextMemoryAddr r]) (stack_maxSize (Stack r));
  al_holds : holds_string (Memory r') (NextMemoryAddr r) b;
  al_next : NextMemoryAddr r' = NextMemoryAddr r + 1 + Z.of_nat (nchunks b);
  al_old : forall a' b', holds_string (Memory r) a' b' ->
             a' + 1 + Z.of_nat (nchunks b') <= NextMemoryAddr r -> holds_string (Memory r') a' b'
}.

Lemma allocate_run r st b :
  s (Stack r) = st -> has_room r (len st) -> fits r b ->
  exists r', (a ← storeString b; Push (i64 a)) r = Ret (r', inl ()) /\ allocated r st b r'.
Proof.
  intros Hst Hroom Hf. destruct (storeStringInMemory_spec r b Hf) as (mem' & Hrun & Hmax & Hh & Hlow).
  assert (is_i64 (NextMemoryAddr r)) as Hn.
  { destruct Hf as (? & ? & _). machine_bounds. lia. }
  assert (storeString b r = Ret (with_NextMemoryAddr (NextMemoryAddr r + 1 + Z.of_nat (nchunks b))
            (with_Memory mem' r), inl (NextMemoryAddr r))) as E.
  { unfold storeString. by rewrite Hrun. }
  eexists. split.
  - rewrite (bind_run _ _ _ _ _ E). rewrite Push_run; [reflexivity|]. simpl. rewrite Hst. exact Hroom.
  - split; simpl; [by rewrite Hst, i64_small | done | done |].
    intros a' b' H1 H2. eapply holds_string_mono; eauto.
Qed.

Lemma Pop_bind_run {B} (f : Z -> M B) r st v mx :
  Stack r = MkStack (st ++ [v]) mx -> (Pop ≫= f) r = f v (with_Stack (MkStack st mx) r).
Proof. intros H. apply bind_run, Pop_run, H. Qed.

Lemma get_bind_run {B} (f : Runtime -> M B) r : (get ≫= f) r = f r r.
Proof. done. Qed.

Lemma allocated_stack_irrel r st mx st' b r' :
  stack_maxSize (Stack r) = mx -> allocated (with_Stack (MkStack st' mx) r) st b r' -> allocated r st b r'.
Proof. intros <- [H1 H2 H3 H4]. by split. Qed.

(** Reading a length-checked string, as STRCONCAT and EMITSTR do. *)
Lemma read_counted mem a b :
  holds_string mem a b -> len b <= maxAlloc ->
  big_Uint64 (len b) = len b /\ make_bytes (len b) = Ret ()
  /\ read_chunks mem a (len b) (Z.to_nat (chunks_of (len b))) 0 [] = Ret (Some b).
Proof.
  intros Hs Hb. assert (0 <= len b < 2 ^ 63) as Hl by (unfold maxAlloc, len in *; lia).
  split; [apply big_Uint64_small; machine_bounds; lia|]. split.
  - unfold make_bytes. by rewrite (proj2 (Z.leb_le _ _)).
  - rewrite chunks_of_len by lia. apply (read_chunks_holds mem a b (nchunks b) 0); [done | lia | done].
Qed.

(** Popping makes room for the result. *)
Lemma popped_room r st x l mx :
  Stack r = MkStack (st ++ x :: l) mx -> stack_ok (Stack r) ->
  has_room (with_Stack (MkStack st mx) r) (len st).
Proof.
  intros Hst Hok. unfold has_room. simpl. unfold stack_ok in Hok. rewrite Hst in Hok. simpl in Hok.
  unfold len in *. rewrite length_app in Hok. simpl in Hok. lia.
Qed.

Lemma nchunks_le b b' : (length b' <= length b)%nat -> (nchunks b' <= nchunks b)%nat.
Proof.
  intros H. unfold nchunks, len. apply Z2Nat.inj_le; try (apply Z.div_pos; lia).
  apply Z.div_le_mono; lia.
Qed.

Lemma fits_le r b b' : (length b' <= length b)%nat -> fits r b -> fits r b'.
Proof.
  intros H (H1 & H2 & H3 & H4). pose proof (nchunks_le b b' H).
  unfold fits, room, len in *. lia.
Qed.

Lemma strconcat_body_run r st a1 a2 b1 b2 :
  s (Stack r) = st -> has_room r (len st) ->
  holds_string (Memory r) a1 b1 -> holds_string (Memory r) a2 b2 ->
  len b1 <= maxAlloc -> len b2 <= maxAlloc -> fits r (b1 ++ b2) ->
  exists r', strconcat_body a1 a2 r = Ret (r', inl ()) /\ allocated r st (b1 ++ b2) r'.
Proof.
  intros Hst Hroom H1 H2 Hb1 Hb2 Hf.
  destruct (read_counted _ _ _ H1 Hb1) as (Hu1 & Hk1 & Hr1).
  destruct (read_counted _ _ _ H2 Hb2) as (Hu2 & Hk2 & Hr2).
  destruct (write_string r _ Hf) as (mem0 & mem' & E0 & Hs & _ & Hmax & Hh & Hlow).
  destruct (fits_arith r _ Hf) as (Hu & Hi & Hn & Hc & Hna & Ha).
  unfold strconcat_body. rewrite get_bind_run, (hs_len _ _ _ H1).
  unfold mbind, M_bind, mret, M_ret, of_go. rewrite (hs_len _ _ _ H2).
  rewrite Hu1, Hu2, Hk1, Hk2, Hr1, Hr2. simpl. rewrite Hu, Hi, E0. simpl. rewrite Hn, Hs. simpl.
  rewrite Push_run by (simpl; rewrite Hst; exact Hroom).
  eexists. split; [reflexivity|]. split; simpl.
  - by rewrite Hst, Hna.
  - done.
  - rewrite Hc, Z.add_assoc. exact Ha.
  - intros a' b' Hh' Ha'. eapply holds_string_mono; eauto.
Qed.

(** ** Decimal strings *)

Lemma i64_mod z : i64 z mod 2 ^ 64 = z mod 2 ^ 64.
Proof. exact (u64_i64 z). Qed.

(** Machine addition and multiplication agree with the integers modulo 2^64. *)
Lemma i64_eq x y : x mod 2 ^ 64 = y mod 2 ^ 64 -> i64 x = i64 y.
Proof. intros H. unfold i64. f_equal. rewrite Z.add_mod, H, <- Z.add_mod by lia. done. Qed.

Lemma i64_digit_step v d : i64 (i64 (i64 v * 10) + d) = i64 (v * 10 + d).
Proof.
  apply i64_eq. rewrite Z.add_mod, i64_mod, Z.mul_mod, i64_mod, <- Z.mul_mod, <- Z.add_mod by lia. done.
Qed.

Lemma parse_digits_chars ds v :
  Forall (fun d => 0 <= d < 10) ds ->
  parse_digits (i64 v) (map digit_char ds) = Some (i64 (fold_left (fun a d => a * 10 + d) ds v)).
Proof.
  intros Hd. revert v. induction Hd as [|d ds Hd _ IH]; intros v; [done|].
  assert (byte_val (digit_char d) = d + 48) as Hv.
  { unfold digit_char. rewrite (proj2 (Z.ltb_lt _ _)), byte_val_of by lia. apply Z.mod_small. lia. }
  cbn [map parse_digits fold_left]. rewrite Hv.
  rewrite (proj2 (Z.ltb_ge _ _)), (proj2 (Z.ltb_ge _ _)) by lia. cbn [orb].
  replace (d + 48 - 48) with d by lia. rewrite i64_digit_step. apply IH.
Qed.

Lemma string_to_int_dec v : is_i64 v -> string_to_int (bytes_of_string (dec v)) = Some v.
Proof.
  intros Hv. unfold dec, big_Text. rewrite bytes_of_string_of_bytes.
  destruct (text_nat_digits 10 (Z.abs v)) as (ds & -> & Hne & Hu & Hr); [lia..|].
  destruct ds as [|d ds]; [done|].
  assert (Ascii.eqb (digit_char d) "-" = false) as Hm.
  { apply digit_char_not_sign. inversion_clear Hr. lia. }
  pose proof (parse_digits_chars (d :: ds) 0 Hr) as Hp. fold (undigits 10 (d :: ds)) in Hp.
  rewrite Hu in Hp. change (i64 0) with 0 in Hp.
  destruct (Z.ltb_spec v 0); cbn [app map string_to_int]; cbn [map] in Hp.
  - change (Ascii.eqb "-" "-") with true. cbn iota. rewrite Hp. f_equal.
    transitivity (i64 v); [|by apply i64_small]. apply i64_eq.
    rewrite <- (Z.sub_0_l (i64 _)), Zminus_mod, i64_mod, <- Zminus_mod. f_equal. lia.
  - rewrite Hm, Hp, Z.abs_eq by lia. f_equal. by apply i64_small.
Qed.

(** ** Theorems *)

(** STRCONCAT on the addresses of two strings allocates their concatenation,
    pushes its address and leaves every string below the mark as it was. *)
Theorem STRCONCAT_spec r st a1 a2 b1 b2 mx :
  Stack r = MkStack (st ++ [a1; a2]) mx -> stack_ok (Stack r) ->
  is_u64 a1 -> is_u64 a2 ->
  holds_string (Memory r) a1 b1 -> holds_string (Memory r) a2 b2 ->
  len b1 <= maxAlloc -> len b2 <= maxAlloc -> fits r (b1 ++ b2) ->
  exists r', op_STRCONCAT r = Ret (r', inl ()) /\ allocated r st (b1 ++ b2) r'.
Proof.
  intros Hst Hok Hu1 Hu2 H1 H2 Hb1 Hb2 Hf.
  destruct (strconcat_body_run (with_Stack (MkStack st mx) r) st a1 a2 b1 b2) as (r' & Hrun & Hal);
    try done.
  { by eapply popped_room. }
  exists r'. split; [|eapply allocated_stack_irrel; [|exact Hal]; by rewrite Hst].
  unfold op_STRCONCAT.
  rewrite (Pop_bind_run _ r (st ++ [a1]) a2 mx) by (by rewrite <- app_assoc).
  rewrite (Pop_bind_run _ _ st a1 mx) by done.
  rewrite !big_Uint64_small by done. unfold shadowed.
  match goal with |- context [strconcat_body a1 a2 ?x] => change x with (with_Stack (MkStack st mx) r) end.
  by rewrite Hrun.
Qed.

(** STRSLICE, on every branch: [start] outside the string and [end] outside
    [start..len] are errors; 999999 stands for the length; otherwise the bytes
    from [start] to [end] are allocated. *)
Theorem STRSLICE_spec r st a i j b mx :
  let e := if j =? 999999 then len b else j in
  Stack r = MkStack (st ++ [a; i; j]) mx -> stack_ok (Stack r) -> is_u64 a -> is_i64 i -> is_i64 j ->
  holds_string (Memory r) a b -> len b <= 1000000 -> fits r b ->
  (~ 0 <= i <= len b -> exists r', op_STRSLICE r = Ret (r', inr (Fail ErrSliceStart)))
  /\ (0 <= i <= len b -> ~ i <= e <= len b -> exists r', op_STRSLICE r = Ret (r', inr (Fail ErrSliceEnd)))
  /\ (0 <= i <= len b -> i <= e <= len b -> exists r', op_STRSLICE r = Ret (r', inl ())
        /\ allocated r st (take (Z.to_nat (e - i)) (drop (Z.to_nat i) b)) r').
Proof.
  intros e Hst Hok Ha Hi Hj Hh Hb Hf.
  set (r0 := with_Stack (MkStack st mx) r).
  assert (op_STRSLICE r =
    (if (i <? 0) || (len b <? i) then fail ErrSliceStart
     else if (e <? i) || (len b <? e) then fail ErrSliceEnd
     else x ← storeString (take (Z.to_nat (e - i)) (drop (Z.to_nat i) b)); Push (i64 x)) r0) as ->.
  { unfold op_STRSLICE.
    rewrite (Pop_bind_run _ r (st ++ [a; i]) j mx) by (by rewrite <- app_assoc).
    rewrite (Pop_bind_run _ _ (st ++ [a]) i mx) by (simpl; by rewrite <- app_assoc).
    rewrite (Pop_bind_run _ _ st a mx) by done.
    rewrite (big_Uint64_small a), (big_Int64_small i), (big_Int64_small j) by done.
    erewrite bind_run by (apply (readString_run _ a b); done). done. }
  split_and!; intros.
  - replace ((i <? 0) || (len b <? i)) with true; [eexists; reflexivity|].
    symmetry. apply orb_true_iff. rewrite !Z.ltb_lt. lia.
  - replace ((i <? 0) || (len b <? i)) with false by (symmetry; apply orb_false_iff; rewrite !Z.ltb_ge; lia).
    replace ((e <? i) || (len b <? e)) with true; [eexists; reflexivity|].
    symmetry. apply orb_true_iff. rewrite !Z.ltb_lt. lia.
  - replace ((i <? 0) || (len b <? i)) with false by (symmetry; apply orb_false_iff; rewrite !Z.ltb_ge; lia).
    replace ((e <? i) || (len b <? e)) with false by (symmetry; apply orb_false_iff; rewrite !Z.ltb_ge; lia).
    destruct (allocate_run r0 st (take (Z.to_nat (e - i)) (drop (Z.to_nat i) b))) as (r' & Hrun & Hal);
      [done | by eapply popped_room | eapply fits_le; [|exact Hf]; rewrite length_take, length_drop; lia |].
    exists r'. split; [done|]. eapply allocated_stack_irrel; [|exact Hal]. by rewrite Hst.
Qed.

Lemma len_dec_i64 v : is_i64 v -> len (bytes_of_string (dec v)) <= 1000000.
Proof.
  intros Hv. pose proof (length_text_nat 10 (Z.abs v) 64) as H.
  unfold dec, big_Text. rewrite bytes_of_string_of_bytes. unfold len.
  change (2 ^ Z.of_nat 64) with (2 ^ 64) in H. machine_bounds.
  destruct (v <? 0); simpl; lia.
Qed.

(** INTTOSTR followed by STRTOINT gives back the number, as a signed 64-bit
    value: a negative one comes back negative, whatever word it was. *)
Theorem INTTOSTR_STRTOINT_roundtrip r st v mx :
  let b := bytes_of_string (dec (big_Int64 v)) in
  Stack r = MkStack (st ++ [v]) mx -> stack_ok (Stack r) -> fits r b ->
  exists r', (op_INTTOSTR;; op_STRTOINT) r = Ret (r', inl ())
    /\ Stack r' = MkStack (st ++ [big_Int64 v]) mx
    /\ NextMemoryAddr r' = NextMemoryAddr r + 1 + Z.of_nat (nchunks b).
Proof.
  intros b Hst Hok Hf. set (r0 := with_Stack (MkStack st mx) r).
  destruct (allocate_run r0 st b) as (r1 & Hrun & [Hs Hh Hn _]); [done | by eapply popped_room | done |].
  assert (op_INTTOSTR r = Ret (r1, inl ())) as E1.
  { unfold op_INTTOSTR. by rewrite (Pop_bind_run _ r st v mx). }
  rewrite (bind_run _ _ _ _ _ E1). unfold op_STRTOINT.
  rewrite (Pop_bind_run _ r1 st (NextMemoryAddr r) mx) by done.
  rewrite big_Uint64_small by (destruct Hf as (? & ? & _); machine_bounds; lia).
  erewrite bind_run by (apply (readString_run _ _ b); [exact Hh | apply len_dec_i64, big_Int64_range]).
  unfold b. rewrite string_to_int_dec by apply big_Int64_range.
  rewrite Push_run by exact (popped_room _ _ _ _ _ Hst Hok). eexists. done.
Qed.

Lemma readString_bind_run {B} (f : bytes -> M B) r a b :
  readStringFromMemory (Memory r) a = Ret b -> (readString a ≫= f) r = f b r.
Proof. intros H. apply bind_run. unfold readString, mbind, M_bind, get, of_go. by rewrite H. Qed.

(** What a storage slot holds for a popped word [v] that reads as the string
    [b]: the string, or the word in decimal when it reads as none. *)
Definition stored_text (v : Z) (b : bytes) : string :=
  match b with [] => dec v | _ => string_of_bytes b end.

Lemma storage_key_bind_run {B} (f : string -> M B) r k kb :
  readStringFromMemory (Memory r) (big_Uint64 k) = Ret kb ->
  (storage_key k ≫= f) r = f (stored_text (big_Uint64 k) kb) r.
Proof.
  intros H. apply bind_run. unfold storage_key. rewrite (readString_bind_run _ _ _ _ H). by destruct kb.
Qed.

(** PSTORE then PLOAD of the same key: the slot of the key is set, every other
    slot is kept, and the loaded string is the stored text. *)
Theorem PSTORE_PLOAD_roundtrip r st k v kb vb mx :
  let key := stored_text (big_Uint64 k) kb in
  let text := stored_text v vb in
  Stack r = MkStack (st ++ [k; v; k]) mx -> stack_ok (Stack r) ->
  readStringFromMemory (Memory r) (big_Uint64 k) = Ret kb ->
  readStringFromMemory (Memory r) (big_Uint64 v) = Ret vb ->
  fits r (bytes_of_string text) ->
  exists r', (op_PSTORE;; op_PLOAD) r = Ret (r', inl ())
    /\ allocated r st (bytes_of_string text) r'
    /\ Persistent r' = <[key := text]> (Persistent r).
Proof.
  intros key text Hst Hok Hk Hv Hf.
  set (r0 := with_Persistent (<[key := text]> (Persistent r)) (with_Stack (MkStack (st ++ [k]) mx) r)).
  set (r1 := with_Stack (MkStack st mx) r0).
  assert (op_PSTORE r = Ret (r0, inl ())) as E1.
  { unfold op_PSTORE. rewrite (bind_run _ _ _ _ _ (Pop2_run r (st ++ [k]) v k mx ltac:(by rewrite <- app_assoc))).
    erewrite storage_key_bind_run by exact Hk. erewrite readString_bind_run by exact Hv. done. }
  destruct (allocate_run r1 st (bytes_of_string text)) as (r' & Hrun & Hal);
    [done | exact (popped_room _ _ _ _ _ Hst Hok) | done |].
  exists r'. split_and!.
  - rewrite (bind_run _ _ _ _ _ E1). unfold op_PLOAD. rewrite (Pop_bind_run _ r0 st k mx) by done.
    erewrite storage_key_bind_run by exact Hk. rewrite get_bind_run. fold key. simpl.
    rewrite lookup_insert_eq. exact Hrun.
  - destruct Hal as [H1 H2 H3 H4]. split; simpl in *; try done. by rewrite Hst.
  - change (<[key:=text]> (Persistent r)) with (Persistent r1). revert Hrun.
    unfold mbind, M_bind, storeString, storeStringInMemory. simpl.
    unfold Push, mbind, M_bind, get. simpl. destruct (stack_Push _ _); simpl; [|discriminate].
    by intros [= <-].
Qed.

(** STRCONCAT loses its errors: on a stack with two words, the second of which
    points outside the memory, it pops both, pushes nothing, and execution goes
    on as if it had succeeded. *)
Theorem STRCONCAT_loses_errors r st a1 a2 mx :
  Stack r = MkStack (st ++ [a1; a2]) mx ->
  0 < mem_maxSize (Memory r) -> mem_maxSize (Memory r) <= a2 < 2 ^ 64 ->
  op_STRCONCAT r = Ret (with_Stack (MkStack st mx) r, inl ()).
Proof.
  intros Hst Hm Ha2. unfold op_STRCONCAT.
  rewrite (Pop_bind_run _ r (st ++ [a1]) a2 mx) by (by rewrite <- app_assoc).
  rewrite (Pop_bind_run _ _ st a1 mx) by done.
  rewrite (big_Uint64_small a2) by (machine_bounds; lia).
  unfold shadowed, strconcat_body. rewrite get_bind_run. simpl.
  assert (Load (Memory r) a2 = Err ErrMemoryOutOfBounds) as E.
  { unfold Load. by rewrite (proj2 (Z.ltb_lt _ _)), (proj2 (Z.leb_le _ _)) by lia. }
  rewrite E. unfold mbind, M_bind. by destruct (Load _ (big_Uint64 a1)).
Qed.

(** ** Witnesses *)

(** A machine with "au" at address 100 and "gust" at 102. *)
Definition demo_bytes (t : string) : bytes := bytes_of_string t.
Definition demo_memory : Runtime :=
  (storeStringInMemory (storeStringInMemory (NewTestRuntime 1000 []) (demo_bytes "au")).2 (demo_bytes "gust")).2.
Definition demo (l : list Z) : Runtime := with_Stack (MkStack l 1024) demo_memory.

Lemma demo_au l : holds_string (Memory (demo l)) 100 (demo_bytes "au").
Proof.
  split; [lia | reflexivity | reflexivity |].
  intros [|i] Hi; [vm_compute; reflexivity | exfalso; revert Hi; vm_compute; lia].
Qed.

Lemma demo_gust l : holds_string (Memory (demo l)) 102 (demo_bytes "gust").
Proof.
  split; [lia | reflexivity | reflexivity |].
  intros [|i] Hi; [vm_compute; reflexivity | exfalso; revert Hi; vm_compute; lia].
Qed.

Lemma demo_fits l t : (length (demo_bytes t) <= 32)%nat -> fits (demo l) (demo_bytes t).
Proof.
  intros H. pose proof (nchunks_le (repeat "x"%char 32) (demo_bytes t) H) as Hn.
  change (nchunks (repeat "x"%char 32)) with 1%nat in Hn.
  assert (NextMemoryAddr (demo l) = 104) as E by reflexivity.
  assert (mem_maxSize (Memory (demo l)) = AVMMaxMemorySize) as Em by reflexivity.
  unfold fits, room, len. rewrite E, Em. unfold AVMMaxMemorySize. lia.
Qed.

Lemma STRCONCAT_spec_witness :
  exists r', op_STRCONCAT (demo [7; 100; 102]) = Ret (r', inl ())
    /\ allocated (demo [7; 100; 102]) [7] (demo_bytes "august") r'.
Proof.
  apply (STRCONCAT_spec (demo [7; 100; 102]) [7] 100 102 (demo_bytes "au") (demo_bytes "gust") 1024);
    try (vm_compute; done); [apply demo_au | apply demo_gust |].
  apply (demo_fits _ "august"). vm_compute. lia.
Defined.

Lemma STRSLICE_spec_witness :
  exists r', op_STRSLICE (demo [102; 1; 3]) = Ret (r', inl ())
    /\ allocated (demo [102; 1; 3]) [] (demo_bytes "us") r'.
Proof.
  apply (STRSLICE_spec (demo [102; 1; 3]) [] 102 1 3 (demo_bytes "gust") 1024);
    try (vm_compute; done); try (vm_compute; split; discriminate).
  - apply demo_gust.
  - apply demo_fits. vm_compute. lia.
Defined.

Lemma INTTOSTR_STRTOINT_roundtrip_witness :
  exists r', (op_INTTOSTR;; op_STRTOINT) (demo [toUnsigned256 (-42)]) = Ret (r', inl ())
    /\ Stack r' = MkStack [-42] 1024 /\ NextMemoryAddr r' = 106.
Proof.
  apply (INTTOSTR_STRTOINT_roundtrip (demo [toUnsigned256 (-42)]) [] (toUnsigned256 (-42)) 1024);
    try (vm_compute; done).
  apply (demo_fits _ "-42"). vm_compute. lia.
Defined.

Lemma PSTORE_PLOAD_roundtrip_witness :
  exists r', (op_PSTORE;; op_PLOAD) (demo [100; 5000; 100]) = Ret (r', inl ())
    /\ allocated (demo [100; 5000; 100]) [] (demo_bytes "5000") r'
    /\ Persistent r' = {["au"%string := "5000"%string]}.
Proof.
  apply (PSTORE_PLOAD_roundtrip (demo [100; 5000; 100]) [] 100 5000 (demo_bytes "au") [] 1024);
    try (vm_compute; done).
  apply (demo_fits _ "5000"). vm_compute. lia.
Defined.

Lemma STRCONCAT_loses_errors_witness :
  op_STRCONCAT (demo [7; 100; 1000000000]) = Ret (with_Stack (MkStack [7] 1024) (demo [7; 100; 1000000000]), inl ()).
Proof.
  apply (STRCONCAT_loses_errors (demo [7; 100; 1000000000]) [7] 100 1000000000 1024);
    [reflexivity | reflexivity |]. vm_compute. split; [discriminate | done].
Defined.

End Strings.
