(* ===== verification/AvmParser.v ===== *)
(** * The assembly text of programs (src/avm/parser.go)

    [ParseInstructionsFromString] and [ExportInstructionsAsString], with the
    tokenizer the regular expression [[^,\n\s]+|,] stands for.  The theorems
    give the conditions under which exporting and parsing are inverse. *)

From S2P Require Import Prelude GoLib Config Bytecode.

Module Asm.

Inductive parse_error :=
  | ErrInvalidEof
  | ErrInvalidHex (tok : bytes)
  | ErrTooWide (tok : bytes)
  | ErrUnknownOpcode (tok : bytes).

(** [\s] of a Go regular expression: tab, newline, form feed, return, space. *)
Definition is_space (c : ascii) : bool :=
  let v := byte_val c in (v =? 9) || (v =? 10) || (v =? 12) || (v =? 13) || (v =? 32).

Definition is_comma (c : ascii) : bool := Ascii.eqb c ",".

Definition flush (cur : bytes) : list bytes := match cur with [] => [] | _ => [cur] end.

(** [re.FindAllString(text, -1)]: maximal runs of other characters, and commas. *)
Fixpoint tokens (cur l : bytes) : list bytes :=
  match l with
  | [] => flush cur
  | c :: l' =>
      if is_comma c then flush cur ++ [c] :: tokens [] l'
      else if is_space c then flush cur ++ tokens [] l'
      else tokens (cur ++ [c]) l'
  end.

(** The operand of a PUSH: its text with the prefix added where it is missing.
    [hexValue[:2]] panics on a token of one byte. *)
Definition parse_operand (hexValue : bytes) : go (res parse_error bytes) :=
  if len hexValue <? 2 then Panic SliceBounds
  else
    let prefixed := bool_decide (take 2 hexValue = bytes_of_string "0x") in
    let body := if prefixed then drop 2 hexValue else hexValue in
    match big_SetString (string_of_bytes body) 16 with
    | (_, false) => Ret (Err (ErrInvalidHex hexValue))
    | (testValue, true) =>
        let hexValue := if prefixed then hexValue else bytes_of_string "0x" ++ hexValue in
        if 256 <? big_BitLen testValue then Ret (Err (ErrTooWide hexValue))
        else Ret (Ok hexValue)
    end.

(** The loop over the tokens; instructions read before an error are returned
    with it. *)
Fixpoint parse_tokens (matches : list bytes) (insts : list Instruction)
    : go (list Instruction * option parse_error) :=
  match matches with
  | [] => Ret (insts, None)
  | tok :: rest =>
      if bool_decide (tok = bytes_of_string "PUSH") then
        match rest with
        | [] => Ret (insts, Some ErrInvalidEof)
        | hexValue :: rest' =>
            o ← parse_operand hexValue;
            match o with
            | Err e => Ret (insts, Some e)
            | Ok v => parse_tokens rest' (insts ++ [MakePushInstruction (string_of_bytes v)])
            end
        end
      else
        match OpcodeMap !! string_of_bytes tok with
        | None => Ret (insts, Some (ErrUnknownOpcode tok))
        | Some op => parse_tokens rest (insts ++ [MakeInstruction op])
        end
  end.

Definition ParseInstructionsFromString (text : bytes) : go (list Instruction * option parse_error) :=
  parse_tokens (tokens [] text) [].

(** The words of one instruction in the exported text. *)
Definition export_one (inst : Instruction) : list bytes :=
  match Value inst with
  | Some v => if Opcode inst =? opcode PUSH then [bytes_of_string "PUSH"; bytes_of_string v]
              else [bytes_of_string (OPCODE_String (Opcode inst))]
  | None => [bytes_of_string (OPCODE_String (Opcode inst))]
  end.

(** [strings.Join(parts, " ")] *)
Fixpoint join_space (parts : list bytes) : bytes :=
  match parts with
  | [] => []
  | [p] => p
  | p :: rest => p ++ " "%char :: join_space rest
  end.

Definition ExportInstructionsAsString (instructions : list Instruction) : bytes :=
  join_space (concat (map export_one instructions)).

(** ** Tokens *)

(** A word: no separator and not empty. *)
Definition plain (c : ascii) : bool := negb (is_comma c) && negb (is_space c).
Definition word (w : bytes) : Prop := w <> [] /\ Forall (fun c => plain c = true) w.

Lemma tokens_word w cur l :
  Forall (fun c => plain c = true) w -> tokens cur (w ++ l) = tokens (cur ++ w) l.
Proof.
  intros Hw. revert cur. induction Hw as [|c w Hc _ IH]; intros cur; simpl; [by rewrite app_nil_r|].
  unfold plain in Hc. bool_to_prop. rewrite H, H0, IH, <- app_assoc. done.
Qed.

Lemma tokens_join ws : Forall word ws -> tokens [] (join_space ws) = ws.
Proof.
  induction 1 as [|w ws [Hne Hw] _ IH]; [done|].
  assert (flush w = [w]) as Hf by (by destruct w).
  destruct ws as [|w' ws].
  - simpl. rewrite <- (app_nil_r w) at 1. rewrite tokens_word by done. done.
  - change (join_space (w :: w' :: ws)) with (w ++ " "%char :: join_space (w' :: ws)).
    rewrite tokens_word by done. cbn [tokens app]. change (is_comma " ") with false.
    change (is_space " ") with true. cbn iota. by rewrite IH, Hf.
Qed.

(** ** Operands *)

Lemma digit_plain c d : digit_val c = Some d -> plain c = true.
Proof.
  unfold digit_val, plain, is_comma, is_space. intros H.
  assert (byte_val c <> 44 /\ byte_val c > 32) as [Hc Hs].
  { repeat destruct_match_in H; try discriminate; bool_to_prop; lia. }
  rewrite (proj2 (Ascii.eqb_neq c ",")) by (intros ->; apply Hc; reflexivity).
  rewrite !(proj2 (Z.eqb_neq _ _)) by lia. done.
Qed.

Lemma scan_digits_plain base l ds : scan_digits base l = (ds, []) -> Forall (fun c => plain c = true) l.
Proof.
  revert ds. induction l as [|c l IH]; intros ds H; [constructor|]. cbn [scan_digits] in H.
  destruct (digit_val c) as [d|] eqn:Hd; [|discriminate].
  destruct (d <? base); [|discriminate]. destruct (scan_digits base l) as [ds' r] eqn:E.
  injection H as <- ->. constructor; [by eapply digit_plain | by eapply IH].
Qed.

Lemma SetString_plain t base n :
  big_SetString t base = (n, true) -> Forall (fun c => plain c = true) (bytes_of_string t).
Proof.
  unfold big_SetString. destruct (bytes_of_string t) as [|c l]; [constructor|]. cbn [scan_sign].
  assert (forall l', (match scan_digits base l' with
            | ([], _) => (0, false)
            | (d :: ds, rest) => (undigits base (d :: ds), match rest with [] => true | _ => false end)
            end).2 = true -> Forall (fun c => plain c = true) l') as Hl.
  { intros l'. destruct (scan_digits base l') as [[|d ds] [|]] eqn:E; try discriminate.
    intros _. by eapply scan_digits_plain. }
  destruct (Ascii.eqb_spec c "-") as [->|_]; [|destruct (Ascii.eqb_spec c "+") as [->|_]]; intros H.
  - constructor; [done|]. apply Hl. destruct (scan_digits base l) as [[|] [|]]; try discriminate; done.
  - constructor; [done|]. apply Hl. destruct (scan_digits base l) as [[|] [|]]; try discriminate; done.
  - apply Hl. destruct (scan_digits base (c :: l)) as [[|] [|]]; try discriminate; done.
Qed.

Lemma has_prefix_0x_inv v :
  has_prefix "0x" v = true -> exists t, v = ("0x" +:+ t)%string /\ drop 2 (bytes_of_string v) = bytes_of_string t.
Proof.
  unfold has_prefix. intros H. destruct v as [|c [|d t]]; cbn [String.prefix] in H;
    repeat destruct_match_in H; try discriminate. subst. eauto.
Qed.

(** An instruction whose text reads back: valid, not the nameless opcode, its
    operand hexadecimal with its prefix and at most 256 bits wide. *)
Definition reparsable (ins : Instruction) : Prop :=
  ValidateInstruction ins = Ok () /\ Opcode ins <> opcode PC
  /\ (forall v, Value ins = Some v -> has_prefix "0x" v = true)
  /\ (forall n, GetValueAsBigInt ins = Ok n -> big_BitLen n <= 256).

Lemma parse_operand_hex v n :
  has_prefix "0x" v = true -> GetValueAsBigInt (MakePushInstruction v) = Ok n -> big_BitLen n <= 256 ->
  parse_operand (bytes_of_string v) = Ret (Ok (bytes_of_string v)) /\ word (bytes_of_string v).
Proof.
  intros Hp Hg Hb. destruct (has_prefix_0x_inv v Hp) as (t & -> & Hd).
  unfold GetValueAsBigInt in Hg. cbn [Value MakePushInstruction] in Hg.
  rewrite Hp, Hd, string_of_bytes_of_string in Hg. cbn [String.eqb] in Hg.
  destruct (big_SetString t 16) as [n' b] eqn:Hs. change (String.eqb _ _) with false in Hg. cbv iota in Hg.
  destruct b; [|discriminate]. injection Hg as ->. split.
  - unfold parse_operand. rewrite (proj2 (Z.ltb_ge _ _)) by (unfold len; simpl; lia).
    change (take 2 (bytes_of_string ("0x" +:+ t))) with (bytes_of_string "0x").
    rewrite bool_decide_true by done. rewrite Hd, string_of_bytes_of_string, Hs.
    by rewrite (proj2 (Z.ltb_ge _ _)).
  - split; [done|]. constructor; [done|]. constructor; [done|]. by eapply SetString_plain.
Qed.

Lemma word_check w : (0 <? len w) && forallb plain w = true -> word w.
Proof.
  intros H. apply andb_true_iff in H as [H1 H2]. split; [by destruct w|].
  apply List.Forall_forall. by apply forallb_forall.
Qed.

Lemma opcode_word o : o <> PC -> word (bytes_of_string (OPCODE_String (opcode o))).
Proof. intros Ho. apply word_check. destruct o; (reflexivity || congruence). Qed.

Lemma OpcodeMap_name o :
  o <> PC -> OpcodeMap !! OPCODE_String (opcode o) = Some (opcode o).
Proof. intros Ho. destruct o; (vm_compute; reflexivity) || congruence. Qed.

Lemma name_not_PUSH o : o <> PUSH -> bytes_of_string (OPCODE_String (opcode o)) <> bytes_of_string "PUSH".
Proof. intros Ho. destruct o; (vm_compute; congruence) || congruence. Qed.

(** One instruction: its words are words, and reading them yields it. *)
Lemma export_one_spec ins rest acc :
  reparsable ins ->
  Forall word (export_one ins)
  /\ parse_tokens (export_one ins ++ rest) acc = parse_tokens rest (acc ++ [ins]).
Proof.
  intros (Hv & Hpc & Hp & Hb). destruct (ValidateInstruction_Ok _ Hv) as (o & Ho & HP & HN).
  destruct ins as [op val]. cbn [Opcode Value] in *. subst op.
  destruct (decide (o = PUSH)) as [->|Hne].
  - destruct (HP eq_refl) as (n & Hg & _).
    destruct val as [v|]; [|discriminate Hv].
    destruct (parse_operand_hex v n (Hp v eq_refl) Hg (Hb n Hg)) as [Hpo Hw].
    unfold export_one. cbn [Value Opcode Z.eqb]. split.
    + constructor; [by apply word_check | by constructor].
    + change (opcode PUSH =? opcode PUSH) with true. cbn [app parse_tokens].
      rewrite bool_decide_true by done. rewrite Hpo. cbn [mbind go_bind].
      by rewrite string_of_bytes_of_string.
  - rewrite (HN Hne) in *. unfold export_one. cbn [Value Opcode]. split.
    + constructor; [|constructor]. apply opcode_word. congruence.
    + cbn [app parse_tokens]. rewrite bool_decide_false by (by apply name_not_PUSH).
      rewrite string_of_bytes_of_string, OpcodeMap_name by congruence. done.
Qed.

(** An instruction whose exported words are read as the instruction. *)
Definition rereads (ins : Instruction) : Prop :=
  Forall word (export_one ins)
  /\ forall rest acc, parse_tokens (export_one ins ++ rest) acc = parse_tokens rest (acc ++ [ins]).

Lemma export_rereads prog :
  Forall rereads prog -> ParseInstructionsFromString (ExportInstructionsAsString prog) = Ret (prog, None).
Proof.
  intros Hp. unfold ParseInstructionsFromString, ExportInstructionsAsString.
  assert (Forall word (concat (map export_one prog))) as Hw.
  { induction Hp as [|ins prog [Hi _] _ IH]; simpl; [done|]. by apply Forall_app. }
  rewrite (tokens_join _ Hw). clear Hw.
  change prog with ([] ++ prog) at 2. generalize (@nil Instruction) as acc.
  induction Hp as [|ins prog [_ Hi] _ IH]; intros acc; simpl; [by rewrite app_nil_r|].
  rewrite Hi, IH, <- app_assoc. done.
Qed.

(** Parsing the exported text of a program gives the program back. *)
Theorem parse_export_roundtrip prog :
  Forall reparsable prog -> ParseInstructionsFromString (ExportInstructionsAsString prog) = Ret (prog, None).
Proof.
  intros Hp. apply export_rereads. eapply Forall_impl; [exact Hp|]. intros ins Hi.
  split; [by apply (export_one_spec ins [] []) | intros rest acc; by apply export_one_spec].
Qed.

Lemma parse_export_roundtrip_witness :
  let prog := [MakePushInstruction "0x2a"; MakePushInstruction "0x01"; MakeInstruction (opcode ADD);
               MakeInstruction (opcode STOP)] in
  ParseInstructionsFromString (ExportInstructionsAsString prog) = Ret (prog, None).
Proof.
  intros prog. apply (parse_export_roundtrip prog).
  repeat (constructor; [split; [vm_compute; reflexivity | split; [discriminate | split]];
    [intros v [= <-]; reflexivity || done | intros n [= <-]; vm_compute; discriminate] |]).
  constructor.
Defined.

(** ** Parsed programs *)

(** What the tokenizer finds: words and commas. *)
Definition token (w : bytes) : Prop := word w \/ w = [","%char].

Lemma flush_tokens cur : Forall (fun c => plain c = true) cur -> Forall token (flush cur).
Proof. intros Hc. destruct cur as [|c cur]; [constructor|]. constructor; [by left | constructor]. Qed.

Lemma tokens_are_tokens l : forall cur, Forall (fun c => plain c = true) cur -> Forall token (tokens cur l).
Proof.
  induction l as [|c l IH]; intros cur Hc; cbn [tokens]; [by apply flush_tokens|].
  destruct (is_comma c) eqn:Ec; [|destruct (is_space c) eqn:Es].
  - apply Forall_app. split; [by apply flush_tokens|]. constructor; [|by apply IH].
    right. unfold is_comma in Ec. apply Ascii.eqb_eq in Ec. by subst.
  - apply Forall_app. split; [by apply flush_tokens | by apply IH].
  - apply IH. apply Forall_app. split; [done|]. constructor; [|constructor]. unfold plain. by rewrite Ec, Es.
Qed.

(** An operand that was read, prefix included, is read as itself. *)
Lemma operand_rereads w v : token w -> parse_operand w = Ret (Ok v) -> parse_operand v = Ret (Ok v) /\ word v.
Proof.
  intros Hw E. unfold parse_operand in E. destruct (Z.ltb_spec (len w) 2) as [|Hl]; [discriminate|].
  destruct Hw as [[_ Hw] | ->]; [|unfold len in Hl; simpl in Hl; lia].
  destruct (bool_decide _) eqn:Hp in E.
  - destruct (big_SetString _ _) as [n [|]] eqn:Hs in E; [|discriminate].
    destruct (256 <? big_BitLen n) eqn:Hb in E; [discriminate|]. apply Ret_inj in E. injection E as <-.
    split; [|split; [|done]].
    + unfold parse_operand. rewrite (proj2 (Z.ltb_ge _ _)) by done. rewrite Hp. cbv iota. by rewrite Hs, Hb.
    + intros ->. unfold len in Hl. simpl in Hl. lia.
  - destruct (big_SetString _ _) as [n [|]] eqn:Hs in E; [|discriminate].
    destruct (256 <? big_BitLen n) eqn:Hb in E; [discriminate|]. apply Ret_inj in E. injection E as <-. split.
    + unfold parse_operand. rewrite (proj2 (Z.ltb_ge _ _)) by (unfold len; simpl; lia).
      change (take 2 (bytes_of_string "0x" ++ w)) with (bytes_of_string "0x"). rewrite bool_decide_true by done.
      cbv zeta iota. change (drop 2 (_ :: _ :: w)) with w. by rewrite Hs, Hb.
    + split; [done|]. constructor; [done|]. by constructor.
Qed.

Lemma push_rereads v : parse_operand v = Ret (Ok v) -> word v -> rereads (MakePushInstruction (string_of_bytes v)).
Proof.
  intros Hv Hw. unfold rereads, export_one. cbn [Value Opcode MakePushInstruction].
  change (opcode PUSH =? opcode PUSH) with true. cbv iota. rewrite bytes_of_string_of_bytes. split.
  - constructor; [by apply word_check | by constructor].
  - intros rest acc. cbn [app parse_tokens]. rewrite bool_decide_true by done. by rewrite Hv.
Qed.

(** Every name of the opcode table but PUSH, which is read before the table. *)
Definition name_rereads (k : string) (op : Z) : bool :=
  String.eqb k "PUSH" || (bool_decide (OPCODE_String op = k) && (0 <? len (bytes_of_string k)) && forallb plain (bytes_of_string k)).

Lemma names_reread k op : OpcodeMap !! k = Some op -> name_rereads k op = true.
Proof.
  assert (map_Forall (fun k op => name_rereads k op = true) OpcodeMap) as H; [|exact (H k op)].
  refine (bool_decide_eq_true_1 _ _). vm_compute. reflexivity.
Qed.

Lemma opcode_rereads k op : OpcodeMap !! k = Some op -> k <> "PUSH"%string -> rereads (MakeInstruction op).
Proof.
  intros Hk Hp. pose proof (names_reread k op Hk) as Hn. unfold name_rereads in Hn.
  apply orb_true_iff in Hn as [Hn%String.eqb_eq | Hn]; [done|]. rewrite <- andb_assoc in Hn.
  apply andb_true_iff in Hn as [Hn%bool_decide_eq_true Hw%word_check].
  unfold rereads, export_one. cbn [Value Opcode MakeInstruction]. rewrite Hn. split; [by constructor|].
  intros rest acc. cbn [app parse_tokens]. rewrite bool_decide_false.
  - by rewrite string_of_bytes_of_string, Hk.
  - intros E. apply Hp. by rewrite <- (string_of_bytes_of_string k), E.
Qed.

Lemma parsed_rereads n ms : (length ms <= n)%nat -> forall insts prog,
  Forall token ms -> parse_tokens ms insts = Ret (prog, None) -> Forall rereads insts -> Forall rereads prog.
Proof.
  revert ms. induction n as [|n IH]; intros ms Hn insts prog Hms E Hi.
  { destruct ms; [|simpl in Hn; lia]. cbn in E. by assert (insts = prog) as <- by congruence. }
  destruct ms as [|tok ms]; cbn [parse_tokens] in E; [by assert (insts = prog) as <- by congruence|].
  inversion_clear Hms as [|? ? Ht Hms']. cbn [length] in Hn. destruct (bool_decide _) eqn:Eb in E.
  - destruct ms as [|w ms]; [discriminate|]. inversion_clear Hms' as [|? ? Hw Hms].
    apply go_bind_ret_inv in E as (o & Ev & E). destruct o as [v|e]; cbv beta iota in E; [|discriminate].
    apply operand_rereads in Ev as [Hv Hwv]; [|done]. eapply IH; [|exact Hms|exact E|]; [cbn [length] in Hn; lia|].
    apply Forall_app. split; [done|]. constructor; [by apply push_rereads | constructor].
  - destruct (OpcodeMap !! _) as [op|] eqn:Eo in E; [|discriminate]. apply bool_decide_eq_false in Eb.
    eapply IH; [|exact Hms'|exact E|]; [lia|]. apply Forall_app. split; [done|]. constructor; [|constructor].
    eapply opcode_rereads; [exact Eo|]. intros Ek. apply Eb. by rewrite <- (bytes_of_string_of_bytes tok), Ek.
Qed.

(** Whatever text was parsed, exporting the program and parsing it again gives the
    same program: the exported text is a normal form. *)
Theorem parsed_roundtrip text prog :
  ParseInstructionsFromString text = Ret (prog, None) ->
  ParseInstructionsFromString (ExportInstructionsAsString prog) = Ret (prog, None).
Proof.
  intros E. apply export_rereads. apply (parsed_rereads _ (tokens [] text) (Nat.le_refl _) [] prog); [|exact E|constructor].
  by apply tokens_are_tokens.
Qed.

Lemma parsed_roundtrip_witness :
  ParseInstructionsFromString (bytes_of_string "PUSH 2a ADD") = Ret ([MakePushInstruction "0x2a"; MakeInstruction (opcode ADD)], None) /\
  ParseInstructionsFromString (ExportInstructionsAsString [MakePushInstruction "0x2a"; MakeInstruction (opcode ADD)])
  = Ret ([MakePushInstruction "0x2a"; MakeInstruction (opcode ADD)], None).
Proof.
  split; [vm_compute; reflexivity|].
  apply (parsed_roundtrip (bytes_of_string "PUSH 2a ADD")). vm_compute. reflexivity.
Defined.

(** ** Decimal operands *)

Lemma undigits_base_le b b' ds :
  0 <= b <= b' -> Forall (fun d => 0 <= d) ds -> 0 <= undigits b ds <= undigits b' ds.
Proof.
  intros Hb. induction ds as [|d ds IH] using rev_ind; intros Hd; [unfold undigits; simpl; lia|].
  apply Forall_app in Hd as [Hds Hd1]. inversion_clear Hd1. rewrite !undigits_snoc.
  specialize (IH Hds). split; [lia|].
  apply Z.add_le_mono_r, Z.mul_le_mono_nonneg; lia.
Qed.

(** The decimal digits of a number from ten on name a larger number in base 16. *)
Lemma undigits_16_10 ds :
  Forall (fun d => 0 <= d < 10) ds -> 10 <= undigits 10 ds -> undigits 10 ds < undigits 16 ds.
Proof.
  destruct ds as [|d ds _] using rev_ind; [unfold undigits; simpl; lia|].
  intros Hd. apply Forall_app in Hd as [Hds Hd1]. inversion_clear Hd1. rewrite !undigits_snoc. intros H10.
  destruct (undigits_base_le 10 16 ds); [lia | eapply Forall_impl; [exact Hds|simpl; lia] | lia].
Qed.

Lemma big_BitLen_le n k : 0 <= n < 2 ^ k -> 0 <= k -> big_BitLen n <= k.
Proof.
  intros Hn Hk. unfold big_BitLen. destruct (Z.eqb_spec n 0); [lia|]. rewrite Z.abs_eq by lia.
  assert (Z.log2 n < k); [apply Z.log2_lt_pow2; lia | lia].
Qed.

(** The text of a number from ten to 2^63: two to sixty-four decimal digits. *)
Lemma dec_digits n :
  10 <= n < 2 ^ 63 ->
  exists ds, bytes_of_string (dec n) = map digit_char ds /\ undigits 10 ds = n
    /\ Forall (fun d => 0 <= d < 10) ds /\ (2 <= length ds <= 64)%nat.
Proof.
  intros Hn. unfold dec, big_Text. rewrite bytes_of_string_of_bytes.
  rewrite (proj2 (Z.ltb_ge n 0)), Z.abs_eq by lia. cbn [app].
  pose proof (length_text_nat 10 n 63) as Hl. change (Z.of_nat 63) with 63 in Hl.
  destruct (text_nat_digits 10 n) as (ds & E & Hne & Hv & Hr); [lia..|].
  exists ds. split_and!; try done.
  - destruct ds as [|d [|d' ds]]; simpl; try lia; [done|].
    inversion_clear Hr. unfold undigits in Hv. simpl in Hv. lia.
  - rewrite E, length_map in Hl. lia.
Qed.

(** [digit_char] never produces the letter of the hexadecimal prefix. *)
Lemma dec_no_prefix ds :
  Forall (fun d => 0 <= d < 10) ds -> (2 <= length ds)%nat ->
  take 2 (map digit_char ds) <> bytes_of_string "0x".
Proof.
  destruct ds as [|d [|d' ds]]; simpl; try lia. intros Hr _ E.
  injection E as _ E. inversion_clear Hr as [|? ? ? Hr']. inversion_clear Hr' as [|? ? Hd' _].
  pose proof (digit_val_char d' ltac:(lia)) as Hd. rewrite E in Hd.
  assert (d' = 33) by (by injection Hd). lia.
Qed.

Lemma SetString_digits base ds :
  1 < base <= 36 -> ds <> [] -> Forall (fun d => 0 <= d < base) ds ->
  big_SetString (string_of_bytes (map digit_char ds)) base = (undigits base ds, true).
Proof.
  intros Hb Hne Hr. unfold big_SetString. rewrite bytes_of_string_of_bytes.
  destruct ds as [|d ds]; [done|]. assert (0 <= d < 36) as Hd by (inversion_clear Hr; lia).
  destruct (digit_char_not_sign d Hd) as [Hm Hp]. cbn [scan_sign map]. rewrite Hm, Hp.
  change (digit_char d :: map digit_char ds) with (map digit_char (d :: ds)).
  by rewrite scan_digits_chars by (done || lia).
Qed.

(** The parser reads a run of decimal digits as a prefixed hexadecimal operand. *)
Lemma parse_operand_decimal ds :
  Forall (fun d => 0 <= d < 10) ds -> (2 <= length ds <= 64)%nat ->
  parse_operand (map digit_char ds) = Ret (Ok (bytes_of_string "0x" ++ map digit_char ds)).
Proof.
  intros Hr Hl. assert (Forall (fun d => 0 <= d < 16) ds) as Hr16.
  { eapply Forall_impl; [exact Hr | simpl; lia]. }
  unfold parse_operand. rewrite (proj2 (Z.ltb_ge _ _)) by (unfold len; rewrite length_map; lia).
  rewrite bool_decide_false by (apply dec_no_prefix; [done|lia]).
  rewrite SetString_digits; [|lia | intros ->; simpl in Hl; lia | done].
  rewrite (proj2 (Z.ltb_ge _ _)); [done|]. apply big_BitLen_le; [|lia].
  pose proof (undigits_range 16 ds ltac:(lia) Hr16) as Hu.
  assert (16 ^ Z.of_nat (length ds) <= 16 ^ 64) by (apply Z.pow_le_mono_r; lia).
  change (2 ^ 256) with (16 ^ 64). lia.
Qed.

(** A decimal operand, which validation and execution read in base ten, comes
    back from the exported text as the larger, hexadecimal number of the same
    digits. *)
Theorem decimal_operands_reparse n :
  10 <= n < 2 ^ 63 ->
  GetValueAsBigInt (MakePushInstruction (dec n)) = Ok n
  /\ exists v, ParseInstructionsFromString (ExportInstructionsAsString [MakePushInstruction (dec n)])
               = Ret ([MakePushInstruction ("0x" +:+ dec n)], None)
     /\ GetValueAsBigInt (MakePushInstruction ("0x" +:+ dec n)) = Ok v /\ n < v.
Proof.
  intros Hn. destruct (dec_digits n Hn) as (ds & E & Hv & Hr & Hl).
  assert (dec n = string_of_bytes (map digit_char ds)) as Ed by (by rewrite <- E, string_of_bytes_of_string).
  assert (ds <> []) as Hne by (intros ->; simpl in Hl; lia).
  assert (Forall (fun d => 0 <= d < 16) ds) as Hr16 by (eapply Forall_impl; [exact Hr | simpl; lia]).
  split; [|exists (undigits 16 ds); split_and!].
  - unfold GetValueAsBigInt. cbn [Value MakePushInstruction].
    destruct (String.eqb_spec (dec n) "") as [E0|_].
    { rewrite E0 in E. by destruct ds. }
    destruct (has_prefix "0x" (dec n)) eqn:Hp.
    { destruct (has_prefix_0x_inv _ Hp) as (t & Et & _). exfalso.
      apply (dec_no_prefix ds Hr ltac:(lia)). rewrite <- E, Et. done. }
    rewrite Ed, SetString_digits, Hv by (done || lia). done.
  - assert (word (bytes_of_string (dec n))) as Hw.
    { rewrite E. split; [by destruct ds|]. apply Forall_map. eapply Forall_impl; [exact Hr|].
      intros d Hd. eapply digit_plain, digit_val_char. simpl in Hd. lia. }
    unfold ParseInstructionsFromString, ExportInstructionsAsString.
    change (concat _) with [bytes_of_string "PUSH"; bytes_of_string (dec n)].
    rewrite tokens_join by (constructor; [by apply word_check | by constructor]).
    cbn [app parse_tokens]. rewrite bool_decide_true by done.
    rewrite E, parse_operand_decimal by done. cbn [mbind go_bind].
    rewrite <- E. do 4 f_equal. by rewrite <- (string_of_bytes_of_string ("0x" +:+ dec n)).
  - unfold GetValueAsBigInt. cbn [Value MakePushInstruction]. rewrite has_prefix_0x. cbn [String.eqb].
    change (drop 2 (bytes_of_string ("0x" +:+ dec n))) with (bytes_of_string (dec n)).
    by rewrite string_of_bytes_of_string, Ed, SetString_digits by (done || lia).
  - rewrite <- Hv. apply undigits_16_10; [done | lia].
Qed.

Lemma decimal_operands_reparse_witness :
  GetValueAsBigInt (MakePushInstruction (dec 10)) = Ok 10
  /\ exists v, ParseInstructionsFromString (ExportInstructionsAsString [MakePushInstruction (dec 10)])
               = Ret ([MakePushInstruction ("0x" +:+ dec 10)], None)
     /\ GetValueAsBigInt (MakePushInstruction ("0x" +:+ dec 10)) = Ok v /\ 10 < v.
Proof. apply (decimal_operands_reparse 10). lia. Defined.

(** A PUSH of a one-character operand makes the parser panic. *)
Lemma one_digit_operand_panics :
  ParseInstructionsFromString (ExportInstructionsAsString [MakePushInstruction (dec 7)]) = Panic SliceBounds.
Proof. reflexivity. Qed.

End Asm.
