(* ===== verification/Sha256.v ===== *)
(** * SHA-256 (crypto/sha256, as the sources use it)

    The hash function of FIPS 180-4 on byte strings, executable.  The constants are computed
    from their definition.  Nothing is proved from its internals except the length of the digest; binding
    theorems elsewhere conclude "or a collision of [sha256]". *)

From S2P Require Import Prelude GoLib.

(** The constants of the standard: the first 32 bits of the fractional parts of
    the cube roots of the first 64 primes, and of the square roots of the first
    eight. *)
Definition sha_primes : list Z :=
  filter (fun p => forallb (fun d => negb (p mod d =? 0)) (seqZ 2 (p - 2)) = true) (seqZ 2 310).

(** [cbrt_bits n x r]: the integer cube root of [x], the top bits [r] of it being
    known and [n] being left to find. *)
Fixpoint cbrt_bits (n : nat) (x r : Z) : Z :=
  match n with
  | O => r
  | S n' =>
      let r' := r + 2 ^ Z.of_nat n' in
      cbrt_bits n' x (if r' ^ 3 <=? x then r' else r)
  end.

Definition sha_k : list Z :=
  Eval vm_compute in map (fun p => u32 (cbrt_bits 36 (p * 2 ^ 96) 0)) sha_primes.

Definition sha_init : list Z :=
  Eval vm_compute in map (fun p => u32 (Z.sqrt (p * 2 ^ 64))) (take 8 sha_primes).

Definition rotr (n x : Z) : Z := Z.lor (Z.shiftr x n) (u32 (Z.shiftl x (32 - n))).
Definition sha_xor3 (x y z : Z) : Z := Z.lxor x (Z.lxor y z).
Definition sha_s0 (x : Z) : Z := sha_xor3 (rotr 7 x) (rotr 18 x) (Z.shiftr x 3).
Definition sha_s1 (x : Z) : Z := sha_xor3 (rotr 17 x) (rotr 19 x) (Z.shiftr x 10).
Definition sha_S0 (x : Z) : Z := sha_xor3 (rotr 2 x) (rotr 13 x) (rotr 22 x).
Definition sha_S1 (x : Z) : Z := sha_xor3 (rotr 6 x) (rotr 11 x) (rotr 25 x).
Definition sha_ch (x y z : Z) : Z := Z.lxor (Z.land x y) (Z.land (Z.lxor x 0xffffffff) z).
Definition sha_maj (x y z : Z) : Z := sha_xor3 (Z.land x y) (Z.land x z) (Z.land y z).

(** The message schedule, most recent word first: the sixteen words of the
    block, then [n] more. *)
Fixpoint sha_schedule (n : nat) (w : list Z) : list Z :=
  match n with
  | O => w
  | S n' =>
      let at_ i := default 0 (w !! i) in
      sha_schedule n' (u32 (sha_s1 (at_ 1%nat) + at_ 6%nat + sha_s0 (at_ 14%nat) + at_ 15%nat) :: w)
  end.

Definition sha_round (st : list Z) (kw : Z * Z) : list Z :=
  match st with
  | [a; b; c; d; e; f; g; h] =>
      let t1 := h + sha_S1 e + sha_ch e f g + kw.1 + kw.2 in
      let t2 := sha_S0 a + sha_maj a b c in
      [u32 (t1 + t2); a; b; c; u32 (d + t1); e; f; g]
  | _ => st
  end.

Definition sha_word (b : bytes) (i : nat) : Z := big_SetBytes (take 4 (drop (4 * i) b)).

Definition sha_block (st : list Z) (b : bytes) : list Z :=
  let w := rev (sha_schedule 48 (rev (map (sha_word b) (seq 0 16)))) in
  zip_with (fun x y => u32 (x + y)) st (fold_left sha_round (zip sha_k w) st).

(** The message with its padding: a one bit, zeros, and the bit length. *)
Definition sha_pad (b : bytes) : bytes :=
  let n := length b in
  b ++ [byte_of 128] ++ replicate (Z.to_nat ((55 - Z.of_nat n) mod 64)) zero
    ++ be_bytes 8 (8 * Z.of_nat n).

Fixpoint sha_blocks (n : nat) (st : list Z) (b : bytes) : list Z :=
  match n with
  | O => st
  | S n' => sha_blocks n' (sha_block st (take 64 b)) (drop 64 b)
  end.

Definition sha_state (b : bytes) : list Z :=
  let p := sha_pad b in sha_blocks (length p / 64) sha_init p.

Definition sha256 (b : bytes) : bytes := be_bytes 32 (undigits (2 ^ 32) (sha_state b)).

Lemma length_sha256 b : length (sha256 b) = 32%nat.
Proof. apply length_be_bytes. Qed.

(** Known answers of the standard. *)
Lemma sha256_empty :
  hex_encode (sha256 []) = "e3b0c44298fc1c149afbf4c8996fb92427ae41e4649b934ca495991b7852b855"%string.
Proof. vm_compute. reflexivity. Qed.

Lemma sha256_abc :
  hex_encode (sha256 (bytes_of_string "abc"))
  = "ba7816bf8f01cfea414140de5dae2223b00361a396177a9cb410ff61f20015ad"%string.
Proof. vm_compute. reflexivity. Qed.

Lemma sha256_two_blocks :
  hex_encode (sha256 (bytes_of_string "abcdbcdecdefdefgefghfghighijhijkijkljklmklmnlmnomnopnopq"))
  = "248d6a61d20638b8e5c026930c3e6039a33ce45964ff2167f6ecedd419db06c1"%string.
Proof. vm_compute. reflexivity. Qed.

#[global] Opaque sha256.

(** Two different messages with one digest. *)
Definition collision (x y : bytes) : Prop := x <> y /\ sha256 x = sha256 y.

(** Digests are equal only for equal messages, unless they collide. *)
Lemma sha256_inj x y : sha256 x = sha256 y -> x = y \/ collision x y.
Proof. intros H. destruct (decide (x = y)); [by left | right; by split]. Qed.

#[export] Hint Rewrite length_sha256 : august.
