(* ===== verification/Ledger.v ===== *)
(** * Ledger data and its hashes (src/blockchain/account.go, block.go, transaction.go, crypto.go)

    Accounts, transactions, headers and blocks, one module each, with the byte
    strings their hashes are taken of; Merkle trees; the state and storage
    roots, whose exchange sorts are modelled as the loops are written.  A Go
    map is a [gmap]; where a function ranges over one, the order of iteration
    is an explicit argument, any enumeration of the keys. *)

From S2P Require Import Prelude GoLib Config Utils Bytecode Sha256.

Import Convert.

(** A hash is a digest copied into a 32-byte array. *)
Definition hash32 (msg : bytes) : Hash32 := copy_into 32 (sha256 msg).

(** ** Code *)

Module Code.

(** What the hashers write for one instruction. *)
Definition instruction_bytes (i : Instruction) : bytes :=
  byte_of (Opcode i) :: match Value i with Some v => bytes_of_string v | None => [] end.

Definition code_bytes (l : list Instruction) : bytes := concat (map instruction_bytes l).

Definition ComputeCodeHash (instructions : list Instruction) : Hash32 :=
  match instructions with [] => Hash32_zero | _ => hash32 (code_bytes instructions) end.

End Code.

(** ** Accounts *)

Module Acct.

Record AccountState := MkAccount {
  Address : PublicKey;
  Balance : Z;
  Nonce : Z;
  Instructions : list Instruction;
  Persistent : gmap string string;
  StorageRoot : Hash32;
  CodeHash : Hash32;
  DeploymentTsxHash : Hash32;
  DeploymentBlockHash : Hash32
}.

Definition with_Balance (b : Z) (a : AccountState) : AccountState :=
  MkAccount (Address a) b (Nonce a) (Instructions a) (Persistent a) (StorageRoot a)
    (CodeHash a) (DeploymentTsxHash a) (DeploymentBlockHash a).
Definition with_Nonce (n : Z) (a : AccountState) : AccountState :=
  MkAccount (Address a) (Balance a) n (Instructions a) (Persistent a) (StorageRoot a)
    (CodeHash a) (DeploymentTsxHash a) (DeploymentBlockHash a).
Definition with_Storage (p : gmap string string) (root : Hash32) (a : AccountState) : AccountState :=
  MkAccount (Address a) (Balance a) (Nonce a) (Instructions a) p root
    (CodeHash a) (DeploymentTsxHash a) (DeploymentBlockHash a).

(** [&AccountState{Balance: b, Address: addr}] *)
Definition fresh (addr : PublicKey) (b : Z) : AccountState :=
  MkAccount addr b 0 [] ∅ Hash32_zero Hash32_zero Hash32_zero Hash32_zero.

Definition hash_input (a : AccountState) : bytes :=
  Address a ++ Uint64ToBytes (Balance a) ++ Uint64ToBytes (Nonce a)
  ++ Code.code_bytes (Instructions a)
  ++ StorageRoot a ++ CodeHash a ++ DeploymentTsxHash a ++ DeploymentBlockHash a.

Definition GetHash (a : AccountState) : Hash32 := hash32 (hash_input a).

End Acct.

(** ** Transactions *)

Module Tx.

Record Transaction := MkTx {
  From : PublicKey;
  To : PublicKey;
  Amount : Z;
  Signature : Bytecode.Signature;
  Nonce : Z;
  Timestamp : Z;
  ChainID : Z;
  Instructions : list Instruction;
  GasLimit : Z;
  GasPrice : Z;
  Data : bytes
}.

Definition hash_input (t : Transaction) : bytes :=
  From t ++ To t ++ Uint64ToBytes (Amount t) ++ Uint64ToBytes (Nonce t)
  ++ Uint64ToBytes (Timestamp t) ++ Uint64ToBytes (ChainID t)
  ++ Uint64ToBytes (GasLimit t) ++ Uint64ToBytes (GasPrice t)
  ++ match Instructions t with [] => [] | _ => Code.ComputeCodeHash (Instructions t) end
  ++ Data t.

Definition GetHash (t : Transaction) : Hash32 := hash32 (hash_input t).

(** An assignment to [tx.Signature]. *)
Definition with_Signature (s : Bytecode.Signature) (t : Transaction) : Transaction :=
  MkTx (From t) (To t) (Amount t) s (Nonce t) (Timestamp t) (ChainID t) (Instructions t) (GasLimit t) (GasPrice t) (Data t).

(** [GetSignature], over the signing primitive of crypto/ed25519, which panics on a
    key that is not of 64 bytes. *)
Definition GetSignature (Sign : bytes -> bytes -> go bytes) (privateKey : bytes) (t : Transaction) : go Bytecode.Signature :=
  sig ← Sign privateKey (GetHash t); Ret (copy_into 64 sig).

End Tx.

(** ** Blocks *)

Module Hdr.

Record BlockHeader := MkHeader {
  Version : Z;
  PreviousHash : Hash32;
  Height : Z;
  Timestamp : Z;
  Nonce : Z;
  MerkleRoot : Hash32;
  StateRoot : Hash32;
  ReceiptRoot : Hash32;
  Bits : Z;
  TotalWork : string;
  GasLimit : Z;
  GasUsed : Z;
  Beneficiary : PublicKey
}.

Definition with_Nonce (n : Z) (h : BlockHeader) : BlockHeader :=
  MkHeader (Version h) (PreviousHash h) (Height h) (Timestamp h) n (MerkleRoot h) (StateRoot h)
    (ReceiptRoot h) (Bits h) (TotalWork h) (GasLimit h) (GasUsed h) (Beneficiary h).

(** The number [TotalWork] is read as before it is hashed. *)
Definition work_value (w : string) : Z := (big_SetString w 10).1.

Definition hash_input (h : BlockHeader) : bytes :=
  Uint64ToBytes (Version h) ++ PreviousHash h ++ Uint64ToBytes (Height h)
  ++ Uint64ToBytes (Timestamp h) ++ MerkleRoot h ++ StateRoot h ++ ReceiptRoot h
  ++ Uint32ToBytes (Bits h) ++ big_Bytes (work_value (TotalWork h))
  ++ Uint64ToBytes (GasLimit h) ++ Uint64ToBytes (GasUsed h) ++ Beneficiary h
  ++ Uint64ToBytes (Nonce h).

Definition GetHash (h : BlockHeader) : Hash32 := hash32 (hash_input h).

End Hdr.

Module Blk.

Record Block := MkBlock {
  Header : Hdr.BlockHeader;
  Transactions : list Tx.Transaction
}.

Definition GetHash (b : Block) : Hash32 := Hdr.GetHash (Header b).

(** The first transaction of the block with the hash. *)
Fixpoint find_tx (l : list Tx.Transaction) (txHash : Hash32) : option Tx.Transaction :=
  match l with
  | [] => None
  | t :: l' => if bool_decide (Tx.GetHash t = txHash) then Some t else find_tx l' txHash
  end.

Definition FindTransactionByHash (b : Block) (txHash : Hash32) : option Tx.Transaction :=
  find_tx (Transactions b) txHash.

End Blk.

(** ** Merkle trees and roots *)

Module Merkle.

(** [if len(hashes)%2 == 1 { hashes = append(hashes, hashes[len(hashes)-1]) }] *)
Definition pad_odd (hashes : list bytes) : list bytes :=
  if Nat.odd (length hashes) then hashes ++ match last hashes with Some h => [h] | None => [] end
  else hashes.

(** The loop over the pairs of a level. *)
Fixpoint hash_pairs (hashes : list bytes) : list bytes :=
  match hashes with
  | a :: b :: rest => sha256 (a ++ b) :: hash_pairs rest
  | _ => []
  end.

Definition next_level (hashes : list bytes) : list bytes := hash_pairs (pad_odd hashes).

(** [for len(hashes) > 1]: as many rounds as there are hashes are enough. *)
Fixpoint merkle_loop (fuel : nat) (hashes : list bytes) : list bytes :=
  match fuel with
  | O => hashes
  | S f => if (1 <? length hashes)%nat then merkle_loop f (next_level hashes) else hashes
  end.

(** The root of a non-empty list of leaves; zero for the empty one. *)
Definition merkle_root (leaves : list bytes) : Hash32 :=
  match leaves with
  | [] => Hash32_zero
  | _ => copy_into 32 (default [] (merkle_loop (length leaves) leaves !! 0%nat))
  end.

Definition MerkleTransactions (transactions : list Tx.Transaction) : Hash32 :=
  merkle_root (map Tx.GetHash transactions).

Definition GenerateContractAddress (deployer : PublicKey) (nonce : Z) : PublicKey :=
  copy_into 32 (take 32 (sha256 (deployer ++ Uint64ToBytes nonce))).

(** ** The exchange sort

    [for i { for j > i { if a[i] > a[j] swap } }].  [pass] is the inner loop:
    [x] is the value at [i], the list the values from [i+1] on. *)
Fixpoint pass {A} (gt : A -> A -> bool) (x : A) (l : list A) : A * list A :=
  match l with
  | [] => (x, [])
  | y :: l' =>
      if gt x y then let '(m, r) := pass gt y l' in (m, x :: r)
      else let '(m, r) := pass gt x l' in (m, y :: r)
  end.

Fixpoint outer {A} (gt : A -> A -> bool) (n : nat) (l : list A) : list A :=
  match n, l with
  | S n', x :: l' => let '(m, r) := pass gt x l' in m :: outer gt n' r
  | _, _ => l
  end.

Definition exchange_sort {A} (gt : A -> A -> bool) (l : list A) : list A := outer gt (length l) l.

(** [a[k] > b[k]] at the first of the 32 positions where they differ. *)
Fixpoint address_gt (k : nat) (a b : PublicKey) : bool :=
  match k, a, b with
  | S k', x :: a', y :: b' =>
      if byte_val y <? byte_val x then true
      else if byte_val x <? byte_val y then false
      else address_gt k' a' b'
  | _, _, _ => false
  end.

Definition ComputeStateRoot (order : list PublicKey) (accountStates : gmap PublicKey Acct.AccountState)
    : go Hash32 :=
  match order with
  | [] => Ret Hash32_zero
  | _ =>
      let addresses := exchange_sort (address_gt 32) order in
      hashes ← mapM (fun addr => match accountStates !! addr with
                                 | Some state => Ret (Acct.GetHash state)
                                 | None => Panic NilDereference
                                 end) addresses;
      Ret (merkle_root hashes)
  end.

(** A missing key of a Go map reads as the empty string. *)
Definition ComputeStorageRoot (order : list string) (persistent : gmap string string) : Hash32 :=
  let keys := exchange_sort (fun a b => bytes_gtb (bytes_of_string a) (bytes_of_string b)) order in
  merkle_root (map (fun key =>
    sha256 (bytes_of_string key ++ bytes_of_string (default "" (persistent !! key)))) keys).

(** The keys of a map in one of the orders the language allows. *)
Definition map_keys {V} {K} `{Countable K} (m : gmap K V) : list K := (map_to_list m).*1.

End Merkle.
