(* ===== verification/LedgerSpec.v ===== *)
(** * Theorems about the ledger hashes

    Merkle trees bind their leaves, and header hashes every field, up to a
    SHA-256 collision between two of the messages that were hashed on the way;
    the sorted roots do not depend on map iteration order; transaction and code
    hashes bind less, and the ambiguities are exhibited. *)

From stdpp Require Import sorting.
From S2P Require Import Prelude GoLib Config Utils Bytecode Sha256 Ledger.

Module LedgerSpec.
Import Convert Merkle.

(** Collisions exist; what is claimed is one between a message of [xs] and one of
    [ys], which are the messages that a computation has hashed. *)
Definition collision_in (xs ys : list bytes) : Prop := exists x y, x ∈ xs /\ y ∈ ys /\ collision x y.

Lemma collision_in_l xs ys xs' ys' : collision_in xs ys -> collision_in (xs ++ xs') (ys ++ ys').
Proof. intros (x & y & ? & ? & ?). exists x, y. rewrite !elem_of_app. auto. Qed.

Lemma collision_in_r xs ys xs' ys' : collision_in xs ys -> collision_in (xs' ++ xs) (ys' ++ ys).
Proof. intros (x & y & ? & ? & ?). exists x, y. rewrite !elem_of_app. auto. Qed.

(** The inner nodes of a tree that are hashed over the leaves [l]: each the
    concatenation of its two children. *)
Fixpoint node_messages (l : list bytes) : list bytes :=
  match l with a :: b :: rest => (a ++ b) :: node_messages rest | _ => [] end.

Fixpoint tree_messages (fuel : nat) (l : list bytes) : list bytes :=
  match fuel with
  | O => []
  | S f => if (1 <? length l)%nat then node_messages (pad_odd l) ++ tree_messages f (next_level l) else []
  end.

(** Everything that is hashed for a list of transactions. *)
Definition messages (txs : list Tx.Transaction) : list bytes :=
  map Tx.hash_input txs ++ tree_messages (length txs) (map Tx.GetHash txs).

Definition hash_sized (l : list bytes) : Prop := Forall (fun h => length h = 32%nat) l.

Lemma cons_eq {A} (x y : A) l k : x :: l = y :: k -> x = y /\ l = k.
Proof. intros H. by injection H. Qed.

(** ** Merkle levels *)

Lemma hash_pairs_length l : length (hash_pairs l) = (length l / 2)%nat.
Proof.
  induction l as [l IH] using (induction_ltof1 _ (@length bytes)). unfold ltof in IH.
  destruct l as [|a [|b l]]; [done | done |]. cbn [hash_pairs length]. rewrite IH by (simpl; lia).
  replace (S (S (length l))) with (length l + 1 * 2)%nat by lia. rewrite Nat.div_add by lia. lia.
Qed.

Lemma hash_pairs_sized l : hash_sized (hash_pairs l).
Proof.
  induction l as [l IH] using (induction_ltof1 _ (@length bytes)). unfold ltof in IH.
  destruct l as [|a [|b l]]; [constructor | constructor |]. constructor; [apply length_sha256|].
  apply IH. simpl. lia.
Qed.

(** The last element exists on a list of odd length. *)
Lemma pad_odd_spec l :
  pad_odd l = l /\ Nat.Even (length l)
  \/ exists l' h, l = l' ++ [h] /\ pad_odd l = l' ++ [h; h] /\ Nat.Even (length l').
Proof.
  unfold pad_odd. destruct (Nat.odd (length l)) eqn:E.
  - right. apply Nat.odd_spec in E as [k Hk].
    destruct l as [|h l _] using rev_ind; [simpl in Hk; lia|].
    exists l, h. rewrite last_snoc, <- app_assoc. split_and!; [done | done |].
    exists k. rewrite length_app in Hk. simpl in Hk. lia.
  - left. split; [done|]. apply Nat.even_spec. rewrite <- Nat.negb_odd, E. done.
Qed.

Lemma pad_odd_length l : length (pad_odd l) = (2 * ((length l + 1) / 2))%nat.
Proof.
  destruct (pad_odd_spec l) as [[-> [k Hk]] | (l' & h & -> & -> & [k Hk])].
  - rewrite Hk. replace (2 * k + 1)%nat with (1 + k * 2)%nat by lia. rewrite Nat.div_add by lia.
    change (1 / 2)%nat with 0%nat. lia.
  - rewrite !length_app, Hk. simpl length. replace (2 * k + 1 + 1)%nat with ((k + 1) * 2)%nat by lia.
    rewrite Nat.div_mul by lia. lia.
Qed.

Lemma next_level_length l : length (next_level l) = ((length l + 1) / 2)%nat.
Proof.
  unfold next_level. rewrite hash_pairs_length, pad_odd_length, Nat.mul_comm. apply Nat.div_mul. lia.
Qed.

Lemma next_level_shrinks l :
  (1 < length l)%nat -> (1 <= length (next_level l) < length l)%nat.
Proof.
  intros H. rewrite next_level_length. split.
  - apply Nat.div_le_lower_bound; lia.
  - apply Nat.Div0.div_lt_upper_bound; lia.
Qed.

Lemma merkle_loop_single fuel l :
  (length l <= fuel)%nat -> l <> [] -> exists h, merkle_loop fuel l = [h].
Proof.
  revert l. induction fuel as [|f IH]; intros l Hf Hne; [destruct l; simpl in *; [done | lia]|].
  cbn [merkle_loop]. destruct (Nat.ltb_spec 1 (length l)) as [H|H].
  - pose proof (next_level_shrinks l H). apply IH; [lia|]. intros E. rewrite E in *. simpl in *. lia.
  - destruct l as [|h [|]]; simpl in *; [done | eauto | lia].
Qed.

Lemma merkle_loop_fuel f1 f2 l :
  (length l <= f1)%nat -> (length l <= f2)%nat -> merkle_loop f1 l = merkle_loop f2 l.
Proof.
  revert f2 l. induction f1 as [|f1 IH]; intros [|f2] l H1 H2; try done; cbn [merkle_loop];
    destruct (Nat.ltb_spec 1 (length l)); try done; try lia.
  pose proof (next_level_shrinks l ltac:(done)). apply IH; lia.
Qed.

Lemma merkle_loop_sized fuel l : hash_sized l -> hash_sized (merkle_loop fuel l).
Proof.
  revert l. induction fuel as [|f IH]; intros l Hl; [done|]. cbn [merkle_loop].
  destruct (1 <? length l)%nat; [|done]. apply IH, hash_pairs_sized.
Qed.

(** ** Binding *)

Lemma hash_pairs_inj l1 l2 :
  length l1 = length l2 -> Nat.Even (length l1) -> hash_sized l1 -> hash_sized l2 ->
  hash_pairs l1 = hash_pairs l2 -> l1 = l2 \/ collision_in (node_messages l1) (node_messages l2).
Proof.
  revert l2. induction l1 as [l1 IH] using (induction_ltof1 _ (@length bytes)). unfold ltof in IH.
  intros l2 Hl [k Hk] H1 H2 E. destruct l1 as [|a [|b l1]].
  - destruct l2; [by left | done].
  - simpl in Hk. lia.
  - destruct l2 as [|c [|d l2]]; [done | simpl in Hl; lia |].
    cbn [hash_pairs] in E. apply cons_eq in E as [Eh Et]. inversion_clear H1 as [|? ? Ha H1']. inversion_clear H1' as [|? ? Hb H1].
    inversion_clear H2 as [|? ? Hc H2']. inversion_clear H2' as [|? ? Hd H2].
    destruct (sha256_inj _ _ Eh) as [Eq|Hc']; [|right; exists (a ++ b), (c ++ d); split_and!; [apply list_elem_of_here.. | done]].
    apply app_inj_1 in Eq as [-> ->]; [|congruence].
    destruct (IH l1 ltac:(simpl; lia) l2) as [->|Hb']; [simpl in Hl; lia | | done | done | done | by left |].
    + exists (k - 1)%nat. simpl in Hk. lia.
    + right. by apply (collision_in_r _ _ [c ++ d] [c ++ d]).
Qed.

Lemma pad_odd_sized l : hash_sized l -> hash_sized (pad_odd l).
Proof.
  intros H. destruct (pad_odd_spec l) as [[-> _] | (l' & h & -> & -> & _)]; [done|].
  apply Forall_app in H as [H1 H2]. apply Forall_app. split; [done|].
  inversion_clear H2. by repeat constructor.
Qed.

Lemma pad_odd_inj l1 l2 : length l1 = length l2 -> pad_odd l1 = pad_odd l2 -> l1 = l2.
Proof.
  unfold pad_odd. intros Hl. rewrite Hl. destruct (Nat.odd _); [|done].
  intros E. apply app_inj_1 in E as [-> _]; done.
Qed.

Lemma next_level_inj l1 l2 :
  length l1 = length l2 -> hash_sized l1 -> hash_sized l2 ->
  next_level l1 = next_level l2 -> l1 = l2 \/ collision_in (node_messages (pad_odd l1)) (node_messages (pad_odd l2)).
Proof.
  intros Hl H1 H2 E. destruct (hash_pairs_inj (pad_odd l1) (pad_odd l2)) as [Hp|]; auto using pad_odd_sized.
  - by rewrite !pad_odd_length, Hl.
  - rewrite pad_odd_length. eexists. reflexivity.
  - left. by apply pad_odd_inj.
Qed.

Lemma merkle_loop_inj fuel l1 l2 :
  length l1 = length l2 -> hash_sized l1 -> hash_sized l2 ->
  merkle_loop fuel l1 = merkle_loop fuel l2 -> l1 = l2 \/ collision_in (tree_messages fuel l1) (tree_messages fuel l2).
Proof.
  revert l1 l2. induction fuel as [|f IH]; intros l1 l2 Hl H1 H2; [by left|].
  cbn [merkle_loop tree_messages]. rewrite Hl. destruct (1 <? length l2)%nat; [|by left]. intros E.
  destruct (IH (next_level l1) (next_level l2)) as [E'|Hb]; try (apply hash_pairs_sized || done).
  - by rewrite !next_level_length, Hl.
  - destruct (next_level_inj l1 l2 Hl H1 H2 E') as [->|Hb]; [by left|right]. by apply collision_in_l.
  - right. by apply collision_in_r.
Qed.

Lemma merkle_root_inj l1 l2 :
  length l1 = length l2 -> hash_sized l1 -> hash_sized l2 ->
  merkle_root l1 = merkle_root l2 ->
  l1 = l2 \/ collision_in (tree_messages (length l1) l1) (tree_messages (length l2) l2).
Proof.
  intros Hl H1 H2. destruct l1 as [|a l1], l2 as [|b l2]; try done; [by left|].
  unfold merkle_root. rewrite <- !Hl.
  destruct (merkle_loop_single (length (a :: l1)) (a :: l1)) as [h1 E1]; [lia | done |].
  destruct (merkle_loop_single (length (a :: l1)) (b :: l2)) as [h2 E2]; [lia | done |].
  pose proof (merkle_loop_sized (length (a :: l1)) (a :: l1) H1) as S1.
  pose proof (merkle_loop_sized (length (a :: l1)) (b :: l2) H2) as S2.
  rewrite E1 in S1. rewrite E2 in S2. inversion_clear S1. inversion_clear S2.
  rewrite E1, E2. simpl. rewrite !copy_into_id by done. intros ->.
  apply (merkle_loop_inj (length (a :: l1))); [exact Hl | done | done | by rewrite E1, E2].
Qed.

Lemma hash32_length b : length (hash32 b) = 32%nat.
Proof. apply length_copy_into. Qed.

Lemma tx_hashes_sized txs : hash_sized (map Tx.GetHash txs).
Proof. apply Forall_map, Forall_true. intros t. apply hash32_length. Qed.

Lemma hash32_inj x y : hash32 x = hash32 y -> x = y \/ collision x y.
Proof. unfold hash32. rewrite !copy_into_id by apply length_sha256. apply sha256_inj. Qed.

Lemma tx_hashes_inj txs1 txs2 : map Tx.GetHash txs1 = map Tx.GetHash txs2 ->
  map Tx.hash_input txs1 = map Tx.hash_input txs2 \/ collision_in (map Tx.hash_input txs1) (map Tx.hash_input txs2).
Proof.
  revert txs2. induction txs1 as [|t1 txs1 IH]; intros [|t2 txs2] E; [by left | done.. |]. cbn [map] in E |- *.
  apply cons_eq in E as [E1 E2]. destruct (hash32_inj _ _ E1) as [->|Hc].
  - destruct (IH txs2 E2) as [->|Hc]; [by left|right].
    by apply (collision_in_r _ _ [Tx.hash_input t2] [Tx.hash_input t2]).
  - right. exists (Tx.hash_input t1), (Tx.hash_input t2). split_and!; [apply list_elem_of_here.. | done].
Qed.

(** C14. The Merkle root of a block binds the contents of its transactions: two lists of
    one length with one root have the same signed contents, transaction by
    transaction, or else two different messages among those that were hashed to
    compute the two roots have the same SHA-256. *)
Theorem merkle_binding txs1 txs2 :
  length txs1 = length txs2 -> MerkleTransactions txs1 = MerkleTransactions txs2 ->
  map Tx.hash_input txs1 = map Tx.hash_input txs2 \/ collision_in (messages txs1) (messages txs2).
Proof.
  intros Hl E. destruct (merkle_root_inj (map Tx.GetHash txs1) (map Tx.GetHash txs2)) as [E'|Hc];
    [by rewrite !length_map | apply tx_hashes_sized.. | done | |].
  - destruct (tx_hashes_inj _ _ E') as [->|Hc]; [by left|right]. by apply collision_in_l.
  - right. rewrite !length_map in Hc. by apply collision_in_r.
Qed.

(** The length matters: repeating the last transaction of a list of odd length
    leaves the root unchanged. *)
Theorem merkle_duplicate_last txs t :
  txs <> [] -> Nat.Even (length txs) ->
  MerkleTransactions (txs ++ [t]) = MerkleTransactions (txs ++ [t; t]).
Proof.
  intros Hne Hev. unfold MerkleTransactions. rewrite !map_app. cbn [map].
  set (l := map Tx.GetHash txs). set (h := Tx.GetHash t).
  assert (l <> [] /\ Nat.Even (length l)) as [Hl Hel].
  { unfold l. rewrite length_map. split; [|done]. by destruct txs. }
  clearbody l h.
  assert (next_level (l ++ [h]) = next_level (l ++ [h; h])) as E.
  { unfold next_level, pad_odd. destruct Hel as [k Hk]. rewrite !length_app, Hk. simpl length.
    assert (Nat.odd (2 * k + 1) = true) as -> by (apply Nat.odd_spec; by exists k).
    assert (Nat.odd (2 * k + 2) = false) as ->.
    { rewrite <- Nat.negb_even. apply negb_false_iff, Nat.even_spec. exists (k + 1)%nat. lia. }
    rewrite last_snoc, <- app_assoc. done. }
  assert (forall l', (1 < length l')%nat ->
    merkle_root l' = copy_into 32 (default [] (merkle_loop (length l') (next_level l') !! 0%nat))) as R.
  { intros l' H'. pose proof (next_level_shrinks l' H'). destruct l' as [|x l']; [simpl in H'; lia|].
    unfold merkle_root. rewrite (merkle_loop_fuel (length (x :: l')) (S (length (x :: l')))) by lia.
    cbn [merkle_loop]. by rewrite (proj2 (Nat.ltb_lt _ _)). }
  assert (0 < length l)%nat by (destruct l; [done | simpl; lia]).
  rewrite !R by (rewrite length_app; simpl; lia). rewrite E.
  pose proof (next_level_shrinks (l ++ [h]) ltac:(rewrite length_app; simpl; lia)) as Hs.
  rewrite E in Hs. rewrite !length_app in *. simpl length in *.
  rewrite (merkle_loop_fuel (length l + 1) (length l + 2)) by lia. reflexivity.
Qed.

(** ** The exchange sort *)

Section Sort.
  Context {A : Type} (gt : A -> A -> bool).

Definition le (x y : A) : Prop := gt x y = false.

  Context `{le_trans : !Transitive le}.
  Hypothesis gt_asym : forall x y, gt x y = true -> gt y x = false.

Lemma pass_perm x l : let '(m, r) := pass gt x l in x :: l ≡ₚ m :: r.
Proof using.
  revert x. induction l as [|y l IH]; intros x; simpl; [done|].
  destruct (gt x y).
  - specialize (IH y). destruct (pass gt y l) as [m r]. rewrite IH. constructor.
  - specialize (IH x). destruct (pass gt x l) as [m r]. rewrite Permutation_swap, IH. constructor.
Qed.

Lemma pass_min x l : let '(m, r) := pass gt x l in le m x /\ Forall (le m) r.
Proof.
  revert x. induction l as [|y l IH]; intros x; simpl.
  - split; [|constructor]. unfold le. destruct (gt x x) eqn:E; [|done].
    pose proof (gt_asym _ _ E). congruence.
  - destruct (gt x y) eqn:E.
    + specialize (IH y). destruct (pass gt y l) as [m r]. destruct IH as [H1 H2].
      assert (le m x) by (transitivity y; [done | by apply gt_asym]). split; [done|]. by constructor.
    + specialize (IH x). destruct (pass gt x l) as [m r]. destruct IH as [H1 H2].
      split; [done|]. constructor; [|done]. by transitivity x.
Qed.

Lemma outer_spec n l : (length l <= n)%nat -> StronglySorted le (outer gt n l) /\ outer gt n l ≡ₚ l.
Proof.
  revert l. induction n as [|n IH]; intros [|x l] Hn; simpl in *;
    [by split; constructor | lia | by split; constructor |].
  pose proof (pass_perm x l) as Hp. pose proof (pass_min x l) as Hm.
  destruct (pass gt x l) as [m r]. destruct Hm as [_ Hm].
  pose proof (Permutation_length Hp) as Hlen. simpl in Hlen.
  destruct (IH r ltac:(lia)) as [Hs Hperm]. split; [|by rewrite Hperm].
  constructor; [done|]. by rewrite Hperm.
Qed.

Lemma exchange_sort_spec l : StronglySorted le (exchange_sort gt l) /\ exchange_sort gt l ≡ₚ l.
Proof. apply outer_spec. done. Qed.

Lemma exchange_sort_perm `{!AntiSymm (=) le} l1 l2 :
  l1 ≡ₚ l2 -> exchange_sort gt l1 = exchange_sort gt l2.
Proof.
  intros Hp. destruct (exchange_sort_spec l1) as [S1 P1], (exchange_sort_spec l2) as [S2 P2].
  apply (StronglySorted_unique le); [done | done |]. by rewrite P1, P2.
Qed.

End Sort.

Lemma bytes_gtb_asym a b : bytes_gtb a b = true -> bytes_gtb b a = false.
Proof.
  revert b. induction a as [|x a IH]; intros [|y b]; simpl; try done.
  destruct (Z.ltb_spec (byte_val y) (byte_val x)), (Z.ltb_spec (byte_val x) (byte_val y)); try lia; try done.
  apply IH.
Qed.

#[export] Instance bytes_le_trans : Transitive (le bytes_gtb).
Proof.
  unfold le. intros a. induction a as [|x a IH]; intros [|y b] [|z c]; simpl; try done.
  destruct (Z.ltb_spec (byte_val y) (byte_val x)), (Z.ltb_spec (byte_val x) (byte_val y)); try done; try lia;
    destruct (Z.ltb_spec (byte_val z) (byte_val y)), (Z.ltb_spec (byte_val y) (byte_val z)); try done; try lia;
    destruct (Z.ltb_spec (byte_val z) (byte_val x)), (Z.ltb_spec (byte_val x) (byte_val z)); try done; try lia.
  apply IH.
Qed.

#[export] Instance bytes_le_antisym : AntiSymm (=) (le bytes_gtb).
Proof.
  unfold le. intros a. induction a as [|x a IH]; intros [|y b]; simpl; try done.
  destruct (Z.ltb_spec (byte_val y) (byte_val x)), (Z.ltb_spec (byte_val x) (byte_val y)); try done; try lia.
  intros H1 H2. rewrite (IH b H1 H2). f_equal.
  rewrite <- (byte_of_val x), <- (byte_of_val y). f_equal. lia.
Qed.

(** On arrays of the size of the loop, the address comparison is the order of
    byte strings. *)
Lemma address_gt_bytes k a b : length a = k -> length b = k -> address_gt k a b = bytes_gtb a b.
Proof.
  revert a b. induction k as [|k IH]; intros [|x a] [|y b]; simpl; try done.
  intros [= Ha] [= Hb]. by rewrite IH.
Qed.

Lemma pass_ext {A} (gt gt' : A -> A -> bool) (P : A -> Prop) x l :
  (forall a b, P a -> P b -> gt a b = gt' a b) -> P x -> Forall P l ->
  pass gt x l = pass gt' x l.
Proof.
  intros E. revert x. induction l as [|y l IH]; intros x Hx Hl; simpl; [done|].
  inversion_clear Hl. rewrite E by done. by rewrite !IH.
Qed.

Lemma exchange_sort_ext {A} (gt gt' : A -> A -> bool) (P : A -> Prop) l :
  (forall a b, P a -> P b -> gt a b = gt' a b) -> Forall P l ->
  exchange_sort gt l = exchange_sort gt' l.
Proof.
  intros E. unfold exchange_sort. generalize (length l) as n. intros n. revert l.
  induction n as [|n IH]; intros [|x l] Hl; simpl; try done.
  inversion_clear Hl as [|? ? Hx Hl']. rewrite (pass_ext gt gt' P) by done.
  pose proof (pass_perm gt' x l) as Hp. destruct (pass gt' x l) as [m r]. f_equal. apply IH.
  assert (Forall P (m :: r)) as Hf by (rewrite <- Hp; by constructor). by inversion_clear Hf.
Qed.

Definition string_gt (a b : string) : bool := bytes_gtb (bytes_of_string a) (bytes_of_string b).

#[export] Instance string_le_trans : Transitive (le string_gt).
Proof. intros a b c. apply (bytes_le_trans (bytes_of_string a) (bytes_of_string b)). Qed.

#[export] Instance string_le_antisym : AntiSymm (=) (le string_gt).
Proof.
  intros a b H1 H2. rewrite <- (string_of_bytes_of_string a), <- (string_of_bytes_of_string b).
  f_equal. by apply bytes_le_antisym.
Qed.

(** A public key is an array of 32 bytes. *)
Definition address_sized (a : bytes) : Prop := length a = 32%nat.

(** The roots do not depend on the order in which the maps are iterated: any two
    enumerations of the addresses (of 32 bytes each) give one state root, and
    any two enumerations of the keys one storage root. *)
Theorem roots_order_independent accounts order1 order2 storage keys1 keys2 :
  Forall address_sized order1 -> order1 ≡ₚ order2 -> keys1 ≡ₚ keys2 ->
  ComputeStateRoot order1 accounts = ComputeStateRoot order2 accounts
  /\ ComputeStorageRoot keys1 storage = ComputeStorageRoot keys2 storage.
Proof.
  intros Hsz Hp Hk. split.
  - assert (exchange_sort (address_gt 32) order1 = exchange_sort (address_gt 32) order2) as E.
    { assert (forall o, Forall (fun a => length a = 32%nat) o ->
        exchange_sort (address_gt 32) o = exchange_sort bytes_gtb o) as X.
      { intros o Ho. eapply exchange_sort_ext; [|exact Ho]. intros a b. apply address_gt_bytes. }
      rewrite !X by (done || by rewrite <- Hp). by apply (exchange_sort_perm bytes_gtb bytes_gtb_asym). }
    destruct order1 as [|a1 o1], order2 as [|a2 o2].
    + done.
    + by apply Permutation_nil_cons in Hp.
    + symmetry in Hp. by apply Permutation_nil_cons in Hp.
    + unfold ComputeStateRoot. by rewrite E.
  - unfold ComputeStorageRoot. fold string_gt.
    rewrite (exchange_sort_perm string_gt (fun a b => bytes_gtb_asym _ _) keys1 keys2 Hk). done.
Qed.

(** ** Headers *)

Import Hdr.

Record header_ok (h : BlockHeader) : Prop := {
  ok_Version : is_u64 (Version h);
  ok_Previous : length (PreviousHash h) = 32%nat;
  ok_Height : is_u64 (Height h);
  ok_Timestamp : is_u64 (Timestamp h);
  ok_Nonce : is_u64 (Nonce h);
  ok_Merkle : length (MerkleRoot h) = 32%nat;
  ok_State : length (StateRoot h) = 32%nat;
  ok_Receipt : length (ReceiptRoot h) = 32%nat;
  ok_Bits : is_u32 (Bits h);
  ok_GasLimit : is_u64 (GasLimit h);
  ok_GasUsed : is_u64 (GasUsed h);
  ok_Beneficiary : length (Beneficiary h) = 32%nat
}.

(** Equality of headers up to the spelling of the total work. *)
Definition same_header (h1 h2 : BlockHeader) : Prop :=
  h1 = MkHeader (Version h2) (PreviousHash h2) (Height h2) (Timestamp h2) (Nonce h2) (MerkleRoot h2)
         (StateRoot h2) (ReceiptRoot h2) (Bits h2) (TotalWork h1) (GasLimit h2) (GasUsed h2) (Beneficiary h2)
  /\ Z.abs (work_value (TotalWork h1)) = Z.abs (work_value (TotalWork h2)).

Lemma app_split {A} (a b c d : list A) : length a = length c -> a ++ b = c ++ d -> a = c /\ b = d.
Proof. intros Hl H. by apply app_inj_1 in H. Qed.

Lemma big_Bytes_inj x y : big_Bytes x = big_Bytes y -> Z.abs x = Z.abs y.
Proof.
  unfold big_Bytes. intros H. apply (f_equal (map byte_val)) in H.
  rewrite !map_byte_val_of in H by (apply digits_range; lia).
  rewrite <- (undigits_digits 256 (Z.abs x)), <- (undigits_digits 256 (Z.abs y)) by lia. by rewrite H.
Qed.

Lemma u64_bytes_split x y b d :
  is_u64 x -> is_u64 y -> Uint64ToBytes x ++ b = Uint64ToBytes y ++ d -> x = y /\ b = d.
Proof.
  intros Hx Hy H. apply app_split in H as [H ->]; [|unfold Uint64ToBytes, Uint32ToBytes; by rewrite !length_be_bytes].
  split; [|done]. by apply Uint64ToBytes_inj.
Qed.

(** The header's fixed-width prefix and suffix leave one reading of the bytes. *)
Lemma header_input_inj h1 h2 :
  header_ok h1 -> header_ok h2 -> hash_input h1 = hash_input h2 -> same_header h1 h2.
Proof.
  intros [] [] E. unfold hash_input in E.
  apply u64_bytes_split in E as [EV E]; [|done..].
  apply app_split in E as [EP E]; [|congruence].
  apply u64_bytes_split in E as [EH E]; [|done..].
  apply u64_bytes_split in E as [ET E]; [|done..].
  apply app_split in E as [EM E]; [|congruence].
  apply app_split in E as [ES E]; [|congruence].
  apply app_split in E as [ER E]; [|congruence].
  apply app_split in E as [EB E]; [|unfold Uint64ToBytes, Uint32ToBytes; by rewrite !length_be_bytes].
  apply app_inj_2 in E as [EW E]; [|unfold Uint64ToBytes; rewrite !length_app, !length_be_bytes; lia].
  apply u64_bytes_split in E as [EL E]; [|done..].
  apply u64_bytes_split in E as [EU E]; [|done..].
  apply app_split in E as [EF E]; [|congruence].
  apply be_bytes_inj in EB; [|machine_bounds; done..].
  apply Uint64ToBytes_inj in E; [|done..].
  apply big_Bytes_inj in EW. split; [|done].
  clear -EV EP EH ET EM ES ER EB EL EU EF E. destruct h1; cbn in *; subst; reflexivity.
Qed.

(** C15. A block hash binds the header: two headers with one hash agree on every
    field, the total work up to its spelling, or else the bytes that are hashed of
    the one and of the other are a SHA-256 collision. *)
Theorem header_hash_binding h1 h2 :
  header_ok h1 -> header_ok h2 -> Hdr.GetHash h1 = Hdr.GetHash h2 ->
  same_header h1 h2 \/ collision (Hdr.hash_input h1) (Hdr.hash_input h2).
Proof.
  intros H1 H2 E. unfold Hdr.GetHash in E. destruct (hash32_inj _ _ E) as [E'|Hb].
  - left. exact (header_input_inj h1 h2 H1 H2 E').
  - right. exact Hb.
Qed.

(** ** Transactions *)

Definition with_Code (code : list Instruction) (t : Tx.Transaction) : Tx.Transaction :=
  Tx.MkTx (Tx.From t) (Tx.To t) (Tx.Amount t) (Tx.Signature t) (Tx.Nonce t) (Tx.Timestamp t)
    (Tx.ChainID t) code (Tx.GasLimit t) (Tx.GasPrice t) (Tx.Data t).

Definition with_Data (d : bytes) (t : Tx.Transaction) : Tx.Transaction :=
  Tx.MkTx (Tx.From t) (Tx.To t) (Tx.Amount t) (Tx.Signature t) (Tx.Nonce t) (Tx.Timestamp t)
    (Tx.ChainID t) (Tx.Instructions t) (Tx.GasLimit t) (Tx.GasPrice t) d.

Record tx_ok (t : Tx.Transaction) : Prop := {
  ok_From : length (Tx.From t) = 32%nat;
  ok_To : length (Tx.To t) = 32%nat;
  ok_Amount : is_u64 (Tx.Amount t);
  ok_TxNonce : is_u64 (Tx.Nonce t);
  ok_TxTimestamp : is_u64 (Tx.Timestamp t);
  ok_ChainID : is_u64 (Tx.ChainID t);
  ok_TxGasLimit : is_u64 (Tx.GasLimit t);
  ok_GasPrice : is_u64 (Tx.GasPrice t)
}.

Lemma tx_input_inj t1 t2 :
  tx_ok t1 -> tx_ok t2 -> Tx.Instructions t1 = [] -> Tx.Instructions t2 = [] ->
  Tx.hash_input t1 = Tx.hash_input t2 ->
  t1 = Tx.MkTx (Tx.From t2) (Tx.To t2) (Tx.Amount t2) (Tx.Signature t1) (Tx.Nonce t2) (Tx.Timestamp t2)
         (Tx.ChainID t2) [] (Tx.GasLimit t2) (Tx.GasPrice t2) (Tx.Data t2).
Proof.
  intros [] [] I1 I2 E. unfold Tx.hash_input in E. rewrite I1, I2 in E.
  apply app_split in E as [EF E]; [|congruence].
  apply app_split in E as [ET E]; [|congruence].
  apply u64_bytes_split in E as [EA E]; [|done..].
  apply u64_bytes_split in E as [EN E]; [|done..].
  apply u64_bytes_split in E as [ES E]; [|done..].
  apply u64_bytes_split in E as [EC E]; [|done..].
  apply u64_bytes_split in E as [EL E]; [|done..].
  apply u64_bytes_split in E as [EP E]; [|done..].
  clear -I1 EF ET EA EN ES EC EL EP E. destruct t1; cbn in *; subst; reflexivity.
Qed.

(** Between transactions without code the hash binds every field but the
    signature, which it does not cover. *)
Theorem transfer_hash_binding t1 t2 :
  tx_ok t1 -> tx_ok t2 -> Tx.Instructions t1 = [] -> Tx.Instructions t2 = [] ->
  Tx.GetHash t1 = Tx.GetHash t2 ->
  t1 = Tx.MkTx (Tx.From t2) (Tx.To t2) (Tx.Amount t2) (Tx.Signature t1) (Tx.Nonce t2) (Tx.Timestamp t2)
         (Tx.ChainID t2) [] (Tx.GasLimit t2) (Tx.GasPrice t2) (Tx.Data t2)
  \/ collision (Tx.hash_input t1) (Tx.hash_input t2).
Proof.
  intros H1 H2 I1 I2 E. unfold Tx.GetHash in E. destruct (hash32_inj _ _ E) as [E'|Hb].
  - left. exact (tx_input_inj t1 t2 H1 H2 I1 I2 E').
  - right. exact Hb.
Qed.

(** The bytes of [PUSH v; TSXDATA] are those of [PUSH v1]: the opcode byte of
    TSXDATA is the digit one. *)
Lemma code_bytes_merge pre post v :
  Code.code_bytes (pre ++ [MakePushInstruction v; MakeInstruction (opcode TSXDATA)] ++ post)
  = Code.code_bytes (pre ++ [MakePushInstruction (v +:+ "1")] ++ post).
Proof.
  unfold Code.code_bytes. rewrite !map_app, !concat_app. f_equal. f_equal. simpl.
  rewrite app_nil_r. f_equal. unfold bytes_of_string.
  induction v as [|c v IH]; simpl; [done|]. by f_equal.
Qed.

(** The hash a sender signs does not determine the transaction, without any
    collision of SHA-256: a deployment has the hash of the transaction without
    code whose data starts with the code hash, and the hash of the deployment
    of another, equally valid program. *)
Theorem transaction_hash_ambiguous t pre post v :
  Tx.Instructions t = pre ++ [MakePushInstruction v; MakeInstruction (opcode TSXDATA)] ++ post ->
  Tx.GetHash (with_Code [] (with_Data (Code.ComputeCodeHash (Tx.Instructions t) ++ Tx.Data t) t)) = Tx.GetHash t
  /\ Tx.GetHash (with_Code (pre ++ [MakePushInstruction (v +:+ "1")] ++ post) t) = Tx.GetHash t.
Proof.
  intros Hi. assert (Tx.Instructions t <> []) as Hne.
  { rewrite Hi. by destruct pre. }
  split.
  - unfold Tx.GetHash, Tx.hash_input. simpl. by destruct (Tx.Instructions t).
  - unfold Tx.GetHash, Tx.hash_input, Code.ComputeCodeHash. simpl. rewrite Hi.
    pose proof (code_bytes_merge pre post v) as E.
    destruct pre as [|i pre]; cbn [app] in *; by rewrite E.
Qed.

(** ** Witnesses *)

Definition demo_tx (n : Z) (code : list Instruction) : Tx.Transaction :=
  Tx.MkTx FirstUser PublicKey_zero 5 (replicate 64 zero) n 1704067200 1 code 50000 1 [].

Definition demo_header (w : string) : BlockHeader :=
  MkHeader 1 Hash32_zero 3 1704067300 7 Hash32_zero Hash32_zero Hash32_zero 0x1f00ffff w 8000000 0 FirstUser.

Lemma demo_tx_ok n code : is_u64 n -> tx_ok (demo_tx n code).
Proof. intros Hn. split; simpl; try done; machine_bounds; lia. Qed.

Lemma demo_header_ok w : header_ok (demo_header w).
Proof. split; simpl; try done; machine_bounds; lia. Qed.

(** The signature is not hashed: two lists that differ in one. *)
Definition resigned (t : Tx.Transaction) : Tx.Transaction := Tx.with_Signature (replicate 64 "s"%char) t.

Lemma merkle_binding_witness :
  let txs1 := [demo_tx 1 []; demo_tx 2 []; demo_tx 3 []] in
  let txs2 := [demo_tx 1 []; resigned (demo_tx 2 []); demo_tx 3 []] in
  txs1 <> txs2 /\ (map Tx.hash_input txs1 = map Tx.hash_input txs2 \/ collision_in (messages txs1) (messages txs2)).
Proof.
  intros txs1 txs2. split; [discriminate|].
  apply (merkle_binding txs1 txs2); reflexivity.
Defined.

Lemma merkle_duplicate_last_witness :
  MerkleTransactions ([demo_tx 1 []; demo_tx 2 []] ++ [demo_tx 3 []])
  = MerkleTransactions ([demo_tx 1 []; demo_tx 2 []] ++ [demo_tx 3 []; demo_tx 3 []]).
Proof. apply (merkle_duplicate_last [demo_tx 1 []; demo_tx 2 []] (demo_tx 3 [])); [discriminate | by exists 1%nat]. Defined.

Lemma roots_order_independent_witness :
  let m := {[FirstUser := Acct.fresh FirstUser 10; PublicKey_zero := Acct.fresh PublicKey_zero 20]} in
  let st := {["k"%string := "v"%string; "a"%string := "b"%string]} in
  ComputeStateRoot [FirstUser; PublicKey_zero] m = ComputeStateRoot [PublicKey_zero; FirstUser] m
  /\ ComputeStorageRoot ["k"; "a"]%string st = ComputeStorageRoot ["a"; "k"]%string st.
Proof.
  intros m st.
  apply (roots_order_independent m [FirstUser; PublicKey_zero] [PublicKey_zero; FirstUser] st
           ["k"; "a"]%string ["a"; "k"]%string);
    [by repeat constructor | constructor | constructor].
Defined.

Lemma header_hash_binding_witness :
  same_header (demo_header "42") (demo_header "042")
  \/ collision (Hdr.hash_input (demo_header "42")) (Hdr.hash_input (demo_header "042")).
Proof.
  apply (header_hash_binding (demo_header "42") (demo_header "042"));
    [apply demo_header_ok | apply demo_header_ok | vm_compute; reflexivity].
Defined.

Lemma transfer_hash_binding_witness :
  demo_tx 1 [] = Tx.MkTx FirstUser PublicKey_zero 5 (replicate 64 zero) 1 1704067200 1 [] 50000 1 []
  \/ collision (Tx.hash_input (demo_tx 1 [])) (Tx.hash_input (resigned (demo_tx 1 []))).
Proof.
  apply (transfer_hash_binding (demo_tx 1 []) (resigned (demo_tx 1 [])));
    [apply demo_tx_ok; machine_bounds; lia | split; simpl; try done; machine_bounds; lia | done | done | reflexivity].
Defined.

Lemma transaction_hash_ambiguous_witness :
  let p := [MakePushInstruction "0x1"; MakeInstruction (opcode TSXDATA); MakeInstruction (opcode STOP)] in
  let q := [MakePushInstruction "0x11"; MakeInstruction (opcode STOP)] in
  p <> q /\ Forall (fun i => ValidateInstruction i = Ok ()) (p ++ q)
  /\ Tx.GetHash (demo_tx 1 q) = Tx.GetHash (demo_tx 1 p).
Proof.
  intros p q. split; [discriminate|]. split; [repeat constructor|].
  apply (transaction_hash_ambiguous (demo_tx 1 p) [] [MakeInstruction (opcode STOP)] "0x1"). reflexivity.
Defined.

End LedgerSpec.
