(* ===== verification/Work.v ===== *)
(** * Work, difficulty and the genesis block (src/blockchain/work.go, difficulty.go, genesis.go)

    Cumulative work as decimal strings, the retargeting rule, the proof-of-work
    test and the block every chain starts from. *)

From S2P Require Import Prelude GoLib Config Utils Bytecode Sha256 Ledger.

Module Work.
Import Convert Blk.

(** ** work.go *)

Definition maxTarget : Z := 0x00000000FFFF0000000000000000000000000000000000000000000000000000.

Definition two256 : Z := Z.shiftl 1 256.

Definition CalculateBlockWork (difficulty : Z) : Z :=
  if difficulty =? 0 then 0
  else
    let target := big_Div maxTarget (i64 difficulty) in
    big_Div two256 (target + 1).

(** The receiver of [SetString] is a fresh zero; an empty string is skipped. *)
Definition AddWork (work1Str work2Str : string) : string :=
  let work1 := if String.eqb work1Str "" then 0 else (big_SetString work1Str 10).1 in
  let work2 := if String.eqb work2Str "" then 0 else (big_SetString work2Str 10).1 in
  dec (work1 + work2).

Definition CalculateBlockWorkFromBits (targetBits : Z) : string :=
  dec (big_Div two256 (CompactToBig targetBits + 1)).

Definition CompareWork (work1Str work2Str : string) : Z :=
  big_Cmp (big_SetString work1Str 10).1 (big_SetString work2Str 10).1.

(** ** difficulty.go *)

(** [blocks[i].Header], with the panics of the index and of a nil block. *)
Definition block_header (blocks : list (option Block)) (i : Z) : go Hdr.BlockHeader :=
  if i <? 0 then Panic IndexOutOfRange
  else match blocks !! Z.to_nat i with
       | None => Panic IndexOutOfRange
       | Some None => Panic NilDereference
       | Some (Some b) => Ret (Header b)
       end.

(** The time the last period took, between a quarter and four times the planned one. *)
Definition clamp_timespan (actualTimespan : Z) : Z :=
  let t := if actualTimespan <? TargetTimespan / MaxAdjustmentFactor
           then TargetTimespan / MaxAdjustmentFactor else actualTimespan in
  if TargetTimespan * MaxAdjustmentFactor <? t then TargetTimespan * MaxAdjustmentFactor else t.

Definition GetTargetBits (height : Z) (blocks : list (option Block)) : go Z :=
  if (height =? 0) || (len blocks =? 0) then Ret GetTargetCompact
  else if negb (Z.rem height RecalculationFrequency =? 0) then
    h ← block_header blocks (len blocks - 1); Ret (Hdr.Bits h)
  else
    firstBlock ← match blocks !! Z.to_nat (len blocks - RecalculationFrequency) with
                 | Some b => if len blocks <? RecalculationFrequency then Panic IndexOutOfRange else Ret b
                 | None => Panic IndexOutOfRange
                 end;
    lastHeader ← block_header blocks (len blocks - 1);
    firstHeader ← match firstBlock with Some b => Ret (Header b) | None => Panic NilDereference end;
    let actualTimespan :=
      clamp_timespan (i64 (u64 (Hdr.Timestamp lastHeader - Hdr.Timestamp firstHeader))) in
    let currentTarget := CompactToBig (Hdr.Bits lastHeader) in
    let newTarget := big_Div (currentTarget * actualTimespan) TargetTimespan in
    let maxTarget := CompactToBig GetTargetCompact in
    let newTarget := if 0 <? big_Cmp newTarget maxTarget then maxTarget else newTarget in
    Ret (BigToCompact newTarget).

Definition GetBlockWork (targetBits : Z) : Z :=
  big_Div two256 (CompactToBig targetBits + 1).

Definition BlockHashMeetsDifficulty (hash : Hash32) (targetBits : Z) : bool :=
  big_Cmp (big_SetBytes hash) (CompactToBig targetBits) <=? 0.

(** ** genesis.go *)

Definition genesisCoinbase : Tx.Transaction :=
  Tx.MkTx PublicKey_zero FirstUser (10 * AUG) (replicate 64 zero) 0 1704067200 1 [] 0 0 [].

Definition genesis_template : Hdr.BlockHeader :=
  {| Hdr.Version := 1; Hdr.PreviousHash := Hash32_zero; Hdr.Height := 0;
     Hdr.Timestamp := 1609459200; Hdr.Nonce := 0;
     Hdr.MerkleRoot := copy_into 32 (Tx.GetHash genesisCoinbase);
     Hdr.StateRoot := Hash32_zero; Hdr.ReceiptRoot := Hash32_zero;
     Hdr.Bits := GetTargetCompact; Hdr.TotalWork := "1"; Hdr.GasLimit := 8000000;
     Hdr.GasUsed := 0; Hdr.Beneficiary := PublicKey_zero |}.

(** The mining loop of [init]: the first of the [n] nonces from [nonce] on whose
    hash is at most the target. *)
Fixpoint genesis_search (n : nat) (nonce : Z) : option Z :=
  match n with
  | O => None
  | S n' =>
      let hash := Hdr.GetHash (Hdr.with_Nonce nonce genesis_template) in
      if big_Cmp (big_SetBytes hash) (CompactToBig (Hdr.Bits genesis_template)) <=? 0
      then Some nonce
      else genesis_search n' (nonce + 1)
  end.

#[global] Opaque genesis_search.

(** The number of nonces tried, and the nonce used when none of them fits. *)
Definition genesis_tries : nat := Z.to_nat (1000000 - 25000).

Definition genesis_nonce : Z := default 25992 (genesis_search genesis_tries 25000).

#[global] Opaque genesis_tries genesis_nonce.

Definition genesis_header : Hdr.BlockHeader := Hdr.with_Nonce genesis_nonce genesis_template.

Definition GenesisBlock : Block := MkBlock genesis_header [genesisCoinbase].

(** ** Lemmas *)

Lemma work_of_dec a : (big_SetString (dec a) 10).1 = a.
Proof. unfold dec. by rewrite SetString_Text. Qed.

Lemma dec_not_empty a : String.eqb (dec a) "" = false.
Proof.
  apply String.eqb_neq. intros E. pose proof (SetString_Text 10 a ltac:(lia)) as H.
  unfold dec in E. rewrite E in H. discriminate.
Qed.

Lemma AddWork_dec a b : AddWork (dec a) (dec b) = dec (a + b).
Proof. unfold AddWork. by rewrite !dec_not_empty, !work_of_dec. Qed.

Lemma CompactToBig_nonneg bits : 0 <= bits -> 0 <= CompactToBig bits.
Proof.
  intros H. unfold CompactToBig.
  assert (0 <= Z.land bits 0x7fffff < 2 ^ 63) as Hm.
  { change 0x7fffff with (Z.ones 23). rewrite Z.land_ones by lia.
    pose proof (Z.mod_pos_bound bits (2 ^ 23)). machine_bounds. lia. }
  rewrite i64_small by (machine_bounds; lia).
  destruct (3 <? _); [apply Z.shiftl_nonneg | apply Z.shiftr_nonneg]; lia.
Qed.

Lemma GetBlockWork_div bits :
  0 <= bits -> GetBlockWork bits = 2 ^ 256 / (CompactToBig bits + 1).
Proof.
  intros H. pose proof (CompactToBig_nonneg bits H). unfold GetBlockWork, big_Div.
  rewrite Z.sgn_pos, Z.abs_eq by lia. change two256 with (2 ^ 256). lia.
Qed.

(** The strings compare as the numbers they denote, and the work of a chain is
    the sum of the work of its blocks: decimal addition and comparison refine
    the integers. *)
Theorem work_strings_refine a b :
  AddWork (dec a) (dec b) = dec (a + b)
  /\ CompareWork (dec a) (dec b) = big_Cmp a b
  /\ (forall bits, CalculateBlockWorkFromBits bits = dec (GetBlockWork bits)).
Proof.
  split; [apply AddWork_dec|]. split; [|done]. unfold CompareWork. by rewrite !work_of_dec.
Qed.

(** A harder target never counts for less work. *)
Theorem GetBlockWork_antitone bits1 bits2 :
  0 <= bits1 -> 0 <= bits2 -> CompactToBig bits1 <= CompactToBig bits2 ->
  0 <= GetBlockWork bits2 <= GetBlockWork bits1.
Proof.
  intros H1 H2 Hle. pose proof (CompactToBig_nonneg bits1 H1). pose proof (CompactToBig_nonneg bits2 H2).
  rewrite !GetBlockWork_div by done. split.
  - apply Z.div_pos; lia.
  - apply Z.div_le_compat_l; lia.
Qed.

Lemma clamp_timespan_range t :
  TargetTimespan / 4 <= clamp_timespan t <= TargetTimespan * 4.
Proof.
  unfold clamp_timespan, MaxAdjustmentFactor. change TargetTimespan with 1209600.
  change (1209600 / 4) with 302400.
  destruct (Z.ltb_spec t 302400); destruct (Z.ltb_spec (1209600 * 4) 302400);
    destruct (Z.ltb_spec (1209600 * 4) t); lia.
Qed.

(** What the retargeting branch computes. *)
Lemma GetTargetBits_retarget height blocks fb lb :
  height <> 0 -> Z.rem height RecalculationFrequency = 0 ->
  RecalculationFrequency <= len blocks ->
  blocks !! Z.to_nat (len blocks - RecalculationFrequency) = Some (Some fb) ->
  blocks !! Z.to_nat (len blocks - 1) = Some (Some lb) ->
  GetTargetBits height blocks =
    Ret (BigToCompact (Z.min (CompactToBig GetTargetCompact)
      (CompactToBig (Hdr.Bits (Header lb))
        * clamp_timespan (i64 (u64 (Hdr.Timestamp (Header lb) - Hdr.Timestamp (Header fb))))
        / TargetTimespan))).
Proof.
  intros Hh Hr Hl Hf Hb. unfold GetTargetBits. change RecalculationFrequency with 2016 in *.
  rewrite (proj2 (Z.eqb_neq _ _) Hh), (proj2 (Z.eqb_neq (len blocks) 0)) by lia. cbn [orb].
  rewrite Hr. cbn [Z.eqb negb]. rewrite Hf, (proj2 (Z.ltb_ge _ _)) by lia. cbn [mbind go_bind].
  unfold block_header. rewrite (proj2 (Z.ltb_ge (len blocks - 1) 0)), Hb by lia. cbn [mbind go_bind].
  unfold big_Div at 1. rewrite Z.sgn_pos, (Z.abs_eq TargetTimespan), Z.mul_1_l by done.
  f_equal. f_equal. unfold big_Div. rewrite Z.sgn_pos, (Z.abs_eq TargetTimespan), Z.mul_1_l by done.
  match goal with |- (if 0 <? big_Cmp ?a ?b then _ else _) = _ => generalize a b end.
  intros a b. unfold big_Cmp. destruct (Z.compare_spec a b); simpl; lia.
Qed.

(** C28. A retarget never makes the target easier than the limit or more than four
    times the current one, and never harder than a quarter of it (or the limit),
    up to the 2^-15 that the compact encoding drops. *)
Theorem GetTargetBits_bounded height blocks fb lb :
  height <> 0 -> Z.rem height RecalculationFrequency = 0 ->
  RecalculationFrequency <= len blocks ->
  blocks !! Z.to_nat (len blocks - RecalculationFrequency) = Some (Some fb) ->
  blocks !! Z.to_nat (len blocks - 1) = Some (Some lb) ->
  let current := CompactToBig (Hdr.Bits (Header lb)) in
  let limit := CompactToBig GetTargetCompact in
  4 <= current ->
  exists bits, GetTargetBits height blocks = Ret bits
    /\ CompactToBig bits <= Z.min limit (4 * current)
    /\ 2 ^ 15 * Z.min limit (current / 4) < (2 ^ 15 + 1) * CompactToBig bits.
Proof.
  intros Hh Hr Hl Hf Hb current limit Hc.
  rewrite (GetTargetBits_retarget height blocks fb lb) by done. fold current limit.
  set (ts := clamp_timespan _). pose proof (clamp_timespan_range
    (i64 (u64 (Hdr.Timestamp (Header lb) - Hdr.Timestamp (Header fb))))) as Ht. fold ts in Ht. clearbody ts.
  change TargetTimespan with 1209600 in *. change (1209600 / 4) with 302400 in Ht.
  set (new := current * ts / 1209600).
  assert (current / 4 <= new <= 4 * current) as Hn.
  { unfold new. split.
    - replace (current / 4) with (current * 302400 / 1209600).
      + apply Z.div_le_mono; [lia|]. apply Z.mul_le_mono_nonneg_l; lia.
      + change 1209600 with (4 * 302400). apply Z.div_mul_cancel_r; lia.
    - apply Z.div_le_upper_bound; [lia|]. transitivity (current * (1209600 * 4)); [|lia].
      apply Z.mul_le_mono_nonneg_l; lia. }
  assert (1 <= current / 4) by (apply Z.div_le_lower_bound; lia).
  assert (0 < limit < 256 ^ 250) as Hlim by (vm_compute; split; reflexivity).
  clearbody new limit. clear -Hn H Hlim.
  destruct (BigToCompact_truncates (Z.min limit new) ltac:(lia)) as [T1 T2].
  eexists. split; [reflexivity|]. lia.
Qed.

(** ** The genesis block *)

#[local] Transparent genesis_search.

Lemma genesis_search_meets n start k :
  start <= k < start + Z.of_nat n ->
  BlockHashMeetsDifficulty (Hdr.GetHash (Hdr.with_Nonce k genesis_template)) (Hdr.Bits genesis_template) = true ->
  exists m, genesis_search n start = Some m /\ start <= m < start + Z.of_nat n
    /\ BlockHashMeetsDifficulty (Hdr.GetHash (Hdr.with_Nonce m genesis_template)) (Hdr.Bits genesis_template) = true.
Proof.
  revert start. induction n as [|n IH]; intros start Hk Hm; [lia|].
  cbn [genesis_search]. fold (BlockHashMeetsDifficulty
    (Hdr.GetHash (Hdr.with_Nonce start genesis_template)) (Hdr.Bits genesis_template)).
  destruct (BlockHashMeetsDifficulty (Hdr.GetHash (Hdr.with_Nonce start genesis_template)) _) eqn:E.
  - exists start. split; [done|]. split; [lia | done].
  - destruct (Z.eq_dec start k) as [->|Hne]; [congruence|].
    destruct (IH (start + 1)) as (m & -> & Hr & Hmm); [lia | done |].
    exists m. split; [done|]. split; [lia | done].
Qed.

#[global] Opaque genesis_search.

(** Nonce 100916 is among those the search tries, and its hash meets the target. *)
Lemma genesis_known_nonce :
  BlockHashMeetsDifficulty (Hdr.GetHash (Hdr.with_Nonce 100916 genesis_template)) (Hdr.Bits genesis_template) = true.
Proof. vm_compute. reflexivity. Qed.

#[local] Transparent genesis_tries genesis_nonce.

Lemma genesis_tries_count : Z.of_nat genesis_tries = 975000.
Proof. unfold genesis_tries. rewrite Z2Nat.id; lia. Qed.

#[global] Opaque genesis_tries.

Lemma genesis_nonce_range : 25000 <= genesis_nonce < 1000000.
Proof.
  destruct (genesis_search_meets genesis_tries 25000 100916) as (m & E & Hm & _);
    [rewrite genesis_tries_count; lia | apply genesis_known_nonce |].
  rewrite genesis_tries_count in Hm. unfold genesis_nonce. rewrite E. simpl. lia.
Qed.

Lemma genesis_merkle n :
  Merkle.MerkleTransactions [genesisCoinbase] = Hdr.MerkleRoot (Hdr.with_Nonce n genesis_template).
Proof. vm_compute. reflexivity. Qed.

Lemma genesis_meets :
  BlockHashMeetsDifficulty (GetHash GenesisBlock) (Hdr.Bits (Header GenesisBlock)) = true.
Proof.
  destruct (genesis_search_meets genesis_tries 25000 100916) as (m & E & _ & Hm);
    [rewrite genesis_tries_count; lia | apply genesis_known_nonce |].
  unfold GetHash, GenesisBlock, genesis_header, genesis_nonce. cbn [Header].
  rewrite E. exact Hm.
Qed.

(** The genesis search succeeds within its bound (the fallback nonce is never
    used), so the genesis header carries a valid proof of work and its Merkle
    root is that of its coinbase. *)
Theorem genesis_block_valid :
  BlockHashMeetsDifficulty (GetHash GenesisBlock) (Hdr.Bits (Header GenesisBlock)) = true
  /\ 25000 <= Hdr.Nonce (Header GenesisBlock) < 1000000
  /\ Merkle.MerkleTransactions (Transactions GenesisBlock) = Hdr.MerkleRoot (Header GenesisBlock).
Proof.
  split; [exact genesis_meets|]. split; [apply genesis_nonce_range | exact (genesis_merkle genesis_nonce)].
Qed.

#[global] Opaque genesis_nonce.

(** ** Witnesses *)

Definition demo_block : Block :=
  MkBlock (Hdr.MkHeader 1 Hash32_zero 7 1704067300 0 Hash32_zero Hash32_zero Hash32_zero 0x1d00ffff "1"
             8000000 0 PublicKey_zero) [].

Lemma GetTargetBits_bounded_witness :
  exists bits, GetTargetBits 4032 (replicate 2016 (Some demo_block)) = Ret bits
    /\ CompactToBig bits <= Z.min (CompactToBig GetTargetCompact) (4 * CompactToBig 0x1d00ffff)
    /\ 2 ^ 15 * Z.min (CompactToBig GetTargetCompact) (CompactToBig 0x1d00ffff / 4)
       < (2 ^ 15 + 1) * CompactToBig bits.
Proof.
  apply (GetTargetBits_bounded 4032 (replicate 2016 (Some demo_block)) demo_block demo_block);
    vm_compute; done.
Defined.

Lemma GetBlockWork_antitone_witness :
  0 <= GetBlockWork 0x1f00ffff <= GetBlockWork 0x1d00ffff.
Proof. apply (GetBlockWork_antitone 0x1d00ffff 0x1f00ffff); vm_compute; discriminate. Defined.

End Work.
