(* ===== verification/Chain.v ===== *)
(** * The chain and the account store (src/blockchain/chain.go, account.go)

    Account states are shared through pointers: a map from addresses to
    [*AccountState] is a map to locations of a heap that several maps may
    share.  [view] reads a map through the heap.  Blocks and headers are not
    mutated once they are in a chain, so pointers to them are their values. *)

From S2P Require Import Prelude GoLib Config Utils Bytecode Sha256 Ledger Work.

(** ** Pointers to accounts *)

Module Heap.
Import Acct.

Abbreviation loc := nat.
Abbreviation heap := (list AccountState).
Abbreviation accounts := (gmap PublicKey loc).

(** [&AccountState{...}] *)
Definition alloc (a : AccountState) (h : heap) : loc * heap := (length h, h ++ [a]).

Definition deref (h : heap) (l : loc) : go AccountState :=
  match h !! l with Some a => Ret a | None => Panic NilDereference end.

Definition assign (l : loc) (a : AccountState) (h : heap) : heap := <[l := a]> h.

(** A map read through the heap. *)
Definition view (h : heap) (m : accounts) : gmap PublicKey AccountState := omap (fun l => h !! l) m.

(** Every pointer is valid and no two addresses share one. *)
Record wf (h : heap) (m : accounts) : Prop := {
  wf_valid : forall k l, m !! k = Some l -> (l < length h)%nat;
  wf_inj : forall k1 k2 l, m !! k1 = Some l -> m !! k2 = Some l -> k1 = k2
}.

(** Copy the accounts of a list of entries with [f], each into a cell of its own. *)
Fixpoint copy_entries (f : AccountState -> AccountState) (entries : list (PublicKey * loc))
    (result : accounts) (h : heap) : go (accounts * heap) :=
  match entries with
  | [] => Ret (result, h)
  | (k, l) :: rest =>
      v ← deref h l;
      let '(l', h') := alloc (f v) h in
      copy_entries f rest (<[k := l']> result) h'
  end.

(** Everything is copied, the slices and maps by value. *)
Definition copy_account (v : AccountState) : AccountState :=
  MkAccount (Address v) (Balance v) (Nonce v) (Instructions v) (Persistent v) (StorageRoot v)
    (CodeHash v) (DeploymentTsxHash v) (DeploymentBlockHash v).

Definition DeepCopyAccountStates (original : accounts) (h : heap) : go (accounts * heap) :=
  copy_entries copy_account (map_to_list original) ∅ h.

End Heap.

(** ** The chain *)

Module Chain.
Import Heap Blk.

Record Chain := MkChain {
  Blocks : list (option Block);
  BlockIndex : gmap Hash32 Block;
  Headers : gmap Hash32 Hdr.BlockHeader;
  AccountStates : accounts;
  Tip : option Block
}.

Definition GetBlock (c : Chain) (hash : Hash32) : option Block := BlockIndex c !! hash.

Definition GetHeader (c : Chain) (hash : Hash32) : option Hdr.BlockHeader := Headers c !! hash.

Definition GetBlockAtHeight (c : Chain) (height : Z) : option Block :=
  if u64 (len (Blocks c)) <=? height then None
  else match Blocks c !! Z.to_nat height with Some b => b | None => None end.

Definition AddHeader (header : Hdr.BlockHeader) (c : Chain) : Chain :=
  MkChain (Blocks c) (BlockIndex c) (<[Hdr.GetHash header := header]> (Headers c)) (AccountStates c) (Tip c).

(** [for uint64(len(c.Blocks)) <= height { append(c.Blocks, nil) }] *)
Definition grow (blocks : list (option Block)) (height : Z) : list (option Block) :=
  blocks ++ replicate (Z.to_nat (height + 1 - len blocks)) None.

Definition AddBlock (block : Block) (c : Chain) : Chain :=
  let hash := Hdr.GetHash (Header block) in
  let height := Hdr.Height (Header block) in
  let c := MkChain (Blocks c) (<[hash := block]> (BlockIndex c)) (Headers c) (AccountStates c) (Tip c) in
  let c := AddHeader (Header block) c in
  let blocks := <[Z.to_nat height := Some block]> (grow (Blocks c) height) in
  let tip := match Tip c with
             | None => Some block
             | Some t => if Hdr.Height (Header t) <? height then Some block else Some t
             end in
  MkChain blocks (BlockIndex c) (Headers c) (AccountStates c) tip.

Definition GetTip (c : Chain) : option Block := Tip c.

Definition GetTipHash (c : Chain) : Hash32 :=
  match Tip c with None => Hash32_zero | Some t => Hdr.GetHash (Header t) end.

(** The returned map is new, the pointers in it are shared. *)
Definition GetAccountStates (c : Chain) : accounts := AccountStates c.

Definition SetAccountStates (states : accounts) (c : Chain) : Chain :=
  MkChain (Blocks c) (BlockIndex c) (Headers c) states (Tip c).

Definition GetBlockByHash (c : Chain) (hash : Hash32) : option Block * bool :=
  let block := GetBlock c hash in (block, bool_decide (is_Some block)).

Definition NewChain : Chain :=
  let genesisHash := Hdr.GetHash (Header Work.GenesisBlock) in
  MkChain [] {[genesisHash := Work.GenesisBlock]} {[genesisHash := Header Work.GenesisBlock]} ∅ None.

End Chain.

(** ** Lemmas on views *)

Module HeapSpec.
Import Heap Acct.

Lemma lookup_view h m k : view h m !! k = (l ← m !! k; h !! l).
Proof. unfold view. rewrite lookup_omap. done. Qed.

(** Cells above the old heap do not change a map that points below them. *)
Lemma view_app h h' m : (forall k l, m !! k = Some l -> (l < length h)%nat) -> view (h ++ h') m = view h m.
Proof.
  intros Hv. apply map_eq. intros k. rewrite !lookup_view.
  destruct (m !! k) as [l|] eqn:E; [|done]. simpl. by rewrite lookup_app_l by (by eapply Hv).
Qed.

Lemma wf_app h h' m : wf h m -> wf (h ++ h') m.
Proof.
  intros [Hv Hi]. split; [|done]. intros k l Hk. rewrite length_app. specialize (Hv k l Hk). lia.
Qed.

(** Assigning through a pointer changes one address of the view. *)
Lemma view_assign h m k l a :
  wf h m -> m !! k = Some l -> view (assign l a h) m = <[k := a]> (view h m).
Proof.
  intros [Hv Hi] Hk. apply map_eq. intros k'. rewrite lookup_view. unfold assign.
  destruct (decide (k' = k)) as [->|Hne].
  - rewrite Hk, lookup_insert_eq. simpl. rewrite list_lookup_insert_eq; [done|]. by eapply Hv.
  - rewrite lookup_insert_ne, lookup_view by done. destruct (m !! k') as [l'|] eqn:E; [|done]. simpl.
    rewrite list_lookup_insert_ne; [done|]. intros ->. apply Hne. by eapply Hi.
Qed.

Lemma wf_assign h m l a : wf h m -> wf (assign l a h) m.
Proof. intros [Hv Hi]. split; [|done]. intros k l' Hk. unfold assign. rewrite length_insert. eauto. Qed.

(** Allocating an account under a new or an old key. *)
Lemma view_alloc h m k a :
  wf h m -> view (h ++ [a]) (<[k := length h]> m) = <[k := a]> (view h m)
            /\ wf (h ++ [a]) (<[k := length h]> m).
Proof.
  intros Hw. pose proof Hw as [Hv Hi]. split; [|split].
  - apply map_eq. intros k'. rewrite lookup_view. destruct (decide (k' = k)) as [->|Hne].
    + rewrite !lookup_insert_eq. simpl. by rewrite list_lookup_middle.
    + rewrite !lookup_insert_ne by done. rewrite <- lookup_view, view_app by done. done.
  - intros k' l Hk'. rewrite length_app. simpl.
    destruct (decide (k' = k)) as [->|Hne]; simplify_map_eq; [lia|]. specialize (Hv k' l ltac:(done)). lia.
  - intros k1 k2 l H1 H2. destruct (decide (k1 = k)) as [->|N1], (decide (k2 = k)) as [->|N2];
      simplify_map_eq; try done; try (exfalso; eapply Nat.lt_irrefl, Hv; eassumption).
    by eapply Hi.
Qed.

Lemma deref_view h m k l : m !! k = Some l -> (l < length h)%nat ->
  exists a, deref h l = Ret a /\ view h m !! k = Some a.
Proof.
  intros Hk Hl. destruct (lookup_lt_is_Some_2 h l Hl) as [a Ha]. exists a.
  unfold deref. rewrite lookup_view, Hk, Ha. done.
Qed.

(** ** Copies *)

Lemma copy_entries_spec f entries result h m :
  wf h m -> wf h result -> NoDup entries.*1 ->
  (forall k l, (k, l) ∈ entries -> m !! k = Some l) ->
  exists result' h', copy_entries f entries result h = Ret (result', h ++ h')
    /\ wf (h ++ h') result'
    /\ (forall k l, result' !! k = Some l -> result !! k = Some l \/ (length h <= l)%nat)
    /\ view (h ++ h') result' = map_imap (fun k _ => f <$> view h m !! k) (list_to_map entries) ∪ view h result.
Proof.
  intros Hm. revert result h Hm. induction entries as [|[k l] entries IH]; intros result h Hm Hr Hnd Hin.
  - exists result, []. rewrite app_nil_r. cbn [copy_entries]. split_and!; [done | done | auto |].
    simpl. rewrite map_imap_empty, map_empty_union. done.
  - cbn [copy_entries]. pose proof (Hin k l ltac:(left)) as Hk.
    destruct (deref_view h m k l Hk (wf_valid _ _ Hm k l Hk)) as (a & -> & Ha).
    cbn [mbind go_bind alloc]. destruct (view_alloc h result k (f a) Hr) as [Hv Hw].
    inversion_clear Hnd as [|? ? Hnk Hnd'].
    destruct (IH (<[k := length h]> result) (h ++ [f a])) as (result' & h' & -> & Hw' & Hloc & Hview);
      [by apply wf_app | done | done | intros; apply Hin; by right |].
    exists result', ([f a] ++ h'). rewrite app_assoc. split_and!; [done | done | |].
    + intros k' l' Hl'. destruct (Hloc k' l' Hl') as [H|H]; [|rewrite length_app in H; right; lia].
      destruct (decide (k' = k)) as [->|]; simplify_map_eq; [right; lia | by left].
    + rewrite Hview, Hv, view_app by (apply (wf_valid _ _ Hm)). rewrite list_to_map_cons.
      apply map_eq. intros k'. rewrite !lookup_union, !map_lookup_imap.
      destruct (decide (k' = k)) as [->|Hne].
      * rewrite not_elem_of_list_to_map_1 by done. simpl. rewrite !lookup_insert_eq. simpl.
        rewrite Ha. simpl. by destruct (view h result !! k).
      * rewrite !lookup_insert_ne by done. done.
Qed.

(** Copying a map gives a well-formed map of new cells whose view is the copied
    view, whatever the order of the copies, and leaves the old cells alone. *)
Lemma copy_map_spec f h m :
  wf h m ->
  exists m' h', copy_entries f (map_to_list m) ∅ h = Ret (m', h ++ h')
    /\ wf (h ++ h') m' /\ view (h ++ h') m' = f <$> view h m
    /\ (forall k l, m' !! k = Some l -> (length h <= l)%nat).
Proof.
  intros Hm. destruct (copy_entries_spec f (map_to_list m) ∅ h m) as (m' & h' & -> & Hw & Hl & Hv).
  - done.
  - split; intros *; by rewrite lookup_empty.
  - apply NoDup_fst_map_to_list.
  - intros k l Hkl. by apply elem_of_map_to_list.
  - exists m', h'. split_and!; [done | done | | intros k l Hk; destruct (Hl k l Hk) as [H|H]; [by rewrite lookup_empty in H | done]].
    rewrite Hv, list_to_map_to_list. apply map_eq. intros k.
    rewrite lookup_union, map_lookup_imap, lookup_fmap, lookup_view, lookup_view, lookup_empty.
    destruct (m !! k) as [l|]; simpl; [|done]. by destruct (h !! l).
Qed.

End HeapSpec.

(** ** The invariant of a chain *)

Module ChainSpec.
Import Heap Chain Blk.

Abbreviation height b := (Hdr.Height (Header b)).

(** Both indices are keyed by hash; the block stored at a height has that
    height and is indexed; the height index ends at the tip. *)
Record chain_ok (c : Chain) : Prop := {
  ok_index : forall k b, BlockIndex c !! k = Some b -> k = Blk.GetHash b /\ is_Some (Headers c !! k);
  ok_headers : forall k hd, Headers c !! k = Some hd -> k = Hdr.GetHash hd;
  ok_blocks : forall i b, Blocks c !! i = Some (Some b) ->
                height b = Z.of_nat i /\ is_Some (BlockIndex c !! Blk.GetHash b);
  ok_tip : match Tip c with
           | None => Blocks c = []
           | Some t => len (Blocks c) = height t + 1 /\ is_Some (BlockIndex c !! Blk.GetHash t)
           end
}.

(** The operations that change a chain. *)
Inductive chain_step (c : Chain) : Chain -> Prop :=
  | step_AddHeader hd : chain_step c (AddHeader hd c)
  | step_AddBlock b : is_u64 (height b) -> chain_step c (AddBlock b c)
  | step_SetAccountStates m : chain_step c (SetAccountStates m c).

Inductive reachable : Chain -> Prop :=
  | reach_new : reachable NewChain
  | reach_step c c' : reachable c -> chain_step c c' -> reachable c'.

Lemma length_grow l h : 0 <= h -> len (grow l h) = Z.max (len l) (h + 1).
Proof. intros Hh. unfold grow, len. rewrite length_app, length_replicate. lia. Qed.

Lemma lookup_grow l h i b : grow l h !! i = Some (Some b) <-> l !! i = Some (Some b).
Proof.
  unfold grow. rewrite lookup_app. destruct (l !! i) as [o|] eqn:E; [done|]. simpl. split; [|done].
  intros H. apply lookup_replicate in H as [? _]. discriminate.
Qed.

Lemma insert_some_is_some {V} (m : gmap Hash32 V) k k' v : is_Some (m !! k) -> is_Some (<[k' := v]> m !! k).
Proof. intros H. rewrite lookup_insert_is_Some. destruct (decide (k' = k)); auto. Qed.

Lemma lookup_blocks_insert l h b i b' :
  0 <= h -> <[Z.to_nat h := Some b]> (grow l h) !! i = Some (Some b') ->
  (i = Z.to_nat h /\ b' = b) \/ (i <> Z.to_nat h /\ l !! i = Some (Some b')).
Proof.
  intros Hh H. destruct (decide (i = Z.to_nat h)) as [->|Hne].
  - left. split; [done|]. pose proof (length_grow l h Hh). unfold len in *.
    rewrite list_lookup_insert_eq in H by lia. by injection H.
  - right. split; [done|]. rewrite list_lookup_insert_ne in H by done. by apply lookup_grow in H.
Qed.

Lemma AddHeader_ok hd c : chain_ok c -> chain_ok (AddHeader hd c).
Proof.
  intros [H1 H2 H3 H4]. split; simpl; [| | done | done].
  - intros k b Hk. destruct (H1 k b Hk). split; [done|]. by apply insert_some_is_some.
  - intros k hd' Hk. apply lookup_insert_Some in Hk as [[<- <-]|[_ Hk]]; auto.
Qed.

Lemma AddBlock_ok b c : is_u64 (height b) -> chain_ok c -> chain_ok (AddBlock b c).
Proof.
  intros Hb [H1 H2 H3 H4]. split; simpl.
  - intros k b' Hk. apply lookup_insert_Some in Hk as [[<- <-]|[Hne Hk]].
    + split; [done|]. by rewrite lookup_insert_eq.
    + destruct (H1 k b' Hk). split; [done|]. by apply insert_some_is_some.
  - intros k hd Hk. apply lookup_insert_Some in Hk as [[<- <-]|[_ Hk]]; auto.
  - intros i b' Hi. apply lookup_blocks_insert in Hi as [[-> ->]|[_ Hi]]; [| |machine_bounds; lia].
    + split; [machine_bounds; lia|]. unfold GetHash. by rewrite lookup_insert_eq.
    + destruct (H3 i b' Hi). split; [done|]. by apply insert_some_is_some.
  - assert (forall n, len (<[Z.to_nat n := Some b]> (grow (Blocks c) (height b))) = Z.max (len (Blocks c)) (height b + 1)) as Hlen.
    { intros n. unfold len at 1. rewrite length_insert. apply length_grow. machine_bounds; lia. }
    assert (is_Some (<[Hdr.GetHash (Header b) := b]> (BlockIndex c) !! Blk.GetHash b)) as Hself.
    { unfold GetHash. by rewrite lookup_insert_eq. }
    destruct (Tip c) as [t|].
    + destruct H4 as [Hl Ht]. destruct (Z.ltb_spec (height t) (height b)).
      * split; [rewrite Hlen; lia | done].
      * split; [rewrite Hlen; lia | by apply insert_some_is_some].
    + split; [|done]. rewrite Hlen, H4. unfold len. simpl. machine_bounds; lia.
Qed.

Lemma NewChain_ok : chain_ok NewChain.
Proof.
  unfold NewChain. generalize Work.GenesisBlock as g. intros g. split; simpl; try done.
  - intros k b Hk. apply lookup_singleton_Some in Hk as [<- <-]. split; [done|]. by rewrite lookup_singleton_eq.
  - intros k b Hk. by apply lookup_singleton_Some in Hk as [<- <-].
Qed.

(** C30. Every chain that the operations can build satisfies the invariant. *)
Theorem reachable_chain_ok c : reachable c -> chain_ok c.
Proof.
  induction 1 as [|c c' _ IH Hs]; [apply NewChain_ok|]. destruct Hs.
  - by apply AddHeader_ok.
  - by apply AddBlock_ok.
  - destruct IH. by split.
Qed.

Lemma reachable_chain_ok_witness : chain_ok (AddBlock Work.demo_block NewChain).
Proof.
  apply (reachable_chain_ok (AddBlock Work.demo_block NewChain)).
  eapply reach_step; [apply reach_new|]. apply step_AddBlock. unfold is_u64. simpl. lia.
Defined.

(** After a block is added, it is found under its hash and at its height, and
    every other hash and height answers as before; the tip moves exactly when
    the block is higher. *)
Theorem AddBlock_lookup b c :
  is_u64 (height b) -> len (Blocks c) < 2 ^ 63 -> height b < 2 ^ 63 ->
  GetBlock (AddBlock b c) (Blk.GetHash b) = Some b
  /\ GetBlockAtHeight (AddBlock b c) (height b) = Some b
  /\ (forall k, k <> Blk.GetHash b -> GetBlock (AddBlock b c) k = GetBlock c k)
  /\ (forall n, 0 <= n -> n <> height b -> GetBlockAtHeight (AddBlock b c) n = GetBlockAtHeight c n)
  /\ GetTip (AddBlock b c) =
       match GetTip c with
       | Some t => if decide (height t < height b) then Some b else Some t
       | None => Some b
       end.
Proof.
  intros Hb Hlen Hh.
  set (l' := <[Z.to_nat (height b) := Some b]> (grow (Blocks c) (height b))).
  assert (len l' = Z.max (len (Blocks c)) (height b + 1)) as Hl.
  { unfold l', len at 1. rewrite length_insert. apply length_grow. machine_bounds; lia. }
  assert (0 <= len (Blocks c)) by (unfold len; lia).
  split_and!.
  - unfold GetBlock, GetHash. simpl. by rewrite lookup_insert_eq.
  - unfold GetBlockAtHeight. simpl. fold l'. rewrite u64_small, (proj2 (Z.leb_gt _ _)) by (machine_bounds; lia).
    unfold l'. rewrite list_lookup_insert_eq; [done|]. pose proof (length_grow (Blocks c) (height b)).
    unfold len in *. machine_bounds. lia.
  - intros k Hk. unfold GetBlock, GetHash in *. simpl. by rewrite lookup_insert_ne.
  - intros n Hn Hne. unfold GetBlockAtHeight. simpl. fold l'.
    rewrite !u64_small by (machine_bounds; lia).
    assert (l' !! Z.to_nat n = grow (Blocks c) (height b) !! Z.to_nat n) as E.
    { unfold l'. rewrite list_lookup_insert_ne; [done|]. machine_bounds. lia. }
    rewrite E. unfold grow. destruct (Z.leb_spec (len (Blocks c)) n) as [H1|H1].
    + destruct (Z.leb_spec (len l') n); [done|]. rewrite lookup_app_r by (unfold len in *; lia).
      destruct (replicate _ _ !! _) as [o|] eqn:Er; [|done]. by apply lookup_replicate in Er as [-> _].
    + rewrite (proj2 (Z.leb_gt _ _)) by lia. by rewrite lookup_app_l by (unfold len in *; lia).
  - unfold GetTip. simpl. destruct (Tip c) as [t|]; [|done].
    destruct (Z.ltb_spec (height t) (height b)); case_decide; try done; lia.
Qed.

Lemma AddBlock_lookup_witness :
  GetBlockAtHeight (AddBlock Work.demo_block NewChain) 7 = Some Work.demo_block
  /\ GetBlockAtHeight (AddBlock Work.demo_block NewChain) 3 = None.
Proof.
  destruct (AddBlock_lookup Work.demo_block NewChain) as (_ & H & _ & Hn & _);
    [split; [discriminate | reflexivity] | reflexivity | reflexivity |].
  split; [exact H|]. rewrite Hn by (discriminate || done). reflexivity.
Defined.

End ChainSpec.
