(* ===== verification/Validation.v ===== *)
(** * Validation and state transition (src/blockchain/validation.go)

    Header, block and transaction validation, and the application of
    transactions to the account store.  Every Go branch that returns an error
    is a constructor of an error type; [panic] and nil dereferences are [Panic].
    The signature check of crypto/ed25519 is a parameter ([Signatures]); the
    contract executor, which another package registers, is reached through the
    interface [ContractExecutor], as in the code. *)

From S2P Require Import Prelude GoLib Config Utils Bytecode Machine Sha256 Ledger Work Chain.

(** [ed25519.Verify(publicKey, message, sig)] *)
Class Signatures := { ed25519_Verify : bytes -> bytes -> bytes -> bool }.

Module Validation.
Import SafeMath Convert Heap Chain Blk.

(** An account map together with the heap its pointers live in. *)
Record world := MkWorld { accts : accounts; mem : heap }.

(** The interface the execution package implements: gas used, error, and the
    account map and heap afterwards. *)
Record ContractExecutor := {
  exec_error : Type;
  ExecuteTransaction : Tx.Transaction -> VM.BlockchainContext -> world -> go (world * (Z * option exec_error))
}.

(** ** What an executor promises

    Both entry points of the execution package keep the store well formed; they
    write only the recipient's account, never a nonce, and add at most the
    contract's address; they report at most the gas limit as used. *)

Record exec_frame (t : Tx.Transaction) (w w' : world) : Prop := {
  ef_wf : wf (mem w') (accts w');
  ef_len : (length (mem w) <= length (mem w'))%nat;
  ef_cells : forall l, (l < length (mem w))%nat -> accts w !! Tx.To t <> Some l -> mem w' !! l = mem w !! l;
  ef_nonce : forall l a, mem w !! l = Some a ->
               exists a', mem w' !! l = Some a' /\ Acct.Nonce a' = Acct.Nonce a;
  ef_keys : forall k, accts w' !! k = accts w !! k
              \/ (exists l a, accts w' !! k = Some l /\ (length (mem w) <= l)%nat
                    /\ view (mem w) (accts w) !! Tx.From t = Some a
                    /\ k = Merkle.GenerateContractAddress (Tx.From t) (Acct.Nonce a))
}.

Class LawfulExecutor (ex : ContractExecutor) : Prop := {
  exec_framed : forall t ctx w w' gas err,
    wf (mem w) (accts w) -> ExecuteTransaction ex t ctx w = Ret (w', (gas, err)) -> exec_frame t w w';
  exec_gas : forall t ctx w w' gas err,
    wf (mem w) (accts w) -> is_u64 (Tx.GasLimit t) ->
    ExecuteTransaction ex t ctx w = Ret (w', (gas, err)) -> 0 <= gas <= Tx.GasLimit t
}.

(** ** Headers *)

Inductive block_error :=
  | ErrDifficulty
  | ErrGenesisHeader
  | ErrTotalWork (got expected : string)
  | ErrMerkleRoot
  | ErrTxSignature (i : nat)
  | ErrGenesisParent
  | ErrGenesisTxCount
  | ErrGenesisFrom
  | ErrGenesisTo
  | ErrGenesisAmount
  | ErrMissingParent (hash : Hash32)
  | ErrSwitchChain (block ancestor : Block)
  | ErrTargetBits (got expected : Z)
  | ErrTimestamp.

Definition ValidateHeaderStructure (header : Hdr.BlockHeader) : res block_error unit :=
  if negb (Work.BlockHashMeetsDifficulty (Hdr.GetHash header) (Hdr.Bits header)) then Err ErrDifficulty
  else if (Hdr.Height header =? 0)
          && negb (bool_decide (Hdr.GetHash (Header Work.GenesisBlock) = Hdr.GetHash header))
  then Err ErrGenesisHeader
  else Ok ().

Definition ValidateHeaderTotalWork (header : Hdr.BlockHeader) (previousTotalWork : string)
    : res block_error unit :=
  ValidateHeaderStructure header ≫= fun _ =>
  if 0 <? Hdr.Height header then
    let expected := Work.AddWork previousTotalWork (Work.CalculateBlockWorkFromBits (Hdr.Bits header)) in
    if String.eqb (Hdr.TotalWork header) expected then Ok ()
    else Err (ErrTotalWork (Hdr.TotalWork header) expected)
  else Ok ().

(** One step of the header loop: link, height, structure, time. *)
Definition header_step (prev header : Hdr.BlockHeader) : bool :=
  bool_decide (Hdr.PreviousHash header = Hdr.GetHash prev)
  && (Hdr.Height header =? u64 (Hdr.Height prev + 1))
  && match ValidateHeaderStructure header with Ok _ => true | Err _ => false end
  && negb (Hdr.Timestamp header <=? Hdr.Timestamp prev).

Fixpoint header_loop (prev : Hdr.BlockHeader) (headers : list Hdr.BlockHeader) : bool :=
  match headers with
  | [] => true
  | h :: rest => header_step prev h && header_loop h rest
  end.

Definition ValidateHeaderChain (headers : list Hdr.BlockHeader) : bool :=
  match headers with [] => false | h :: rest => header_loop h rest end.

(** The loop of [ValidateHeaderChainWithWork]: [prev] is [headers[i-1]]. *)
Fixpoint header_work_loop (prev : option Hdr.BlockHeader) (currentTotalWork : string)
    (headers : list Hdr.BlockHeader) : bool :=
  match headers with
  | [] => true
  | h :: rest =>
      match ValidateHeaderTotalWork h currentTotalWork with Ok _ => true | Err _ => false end
      && match prev with
         | None => true
         | Some p =>
             bool_decide (Hdr.PreviousHash h = Hdr.GetHash p)
             && (Hdr.Height h =? u64 (Hdr.Height p + 1))
             && negb (Hdr.Timestamp h <=? Hdr.Timestamp p)
         end
      && header_work_loop (Some h) (Hdr.TotalWork h) rest
  end.

Definition ValidateHeaderChainWithWork (headers : list Hdr.BlockHeader) (startingTotalWork : string) : bool :=
  match headers with [] => false | _ => header_work_loop None startingTotalWork headers end.

Section Validate.
Context `{Signatures}.

(** ** Block structure *)

(** The signature loop from transaction [i] on; the first one is not checked. *)
Fixpoint check_signatures (i : nat) (txs : list Tx.Transaction) : res block_error unit :=
  match txs with
  | [] => Ok ()
  | tx :: rest =>
      if (0 <? i)%nat && negb (ed25519_Verify (Tx.From tx) (Tx.GetHash tx) (Tx.Signature tx))
      then Err (ErrTxSignature i)
      else check_signatures (S i) rest
  end.

Definition ValidateBlockStructure (block : Block) : res block_error unit :=
  ValidateHeaderStructure (Header block) ≫= fun _ =>
  if bool_decide (Merkle.MerkleTransactions (Transactions block) = Hdr.MerkleRoot (Header block))
  then check_signatures 0 (Transactions block)
  else Err ErrMerkleRoot.

(** The rules for the genesis block. *)
Definition validate_genesis (block : Block) : res block_error unit :=
  if negb (bool_decide (Hdr.PreviousHash (Header block) = Hash32_zero)) then Err ErrGenesisParent
  else match Transactions block with
       | [coinbase] =>
           if negb (bool_decide (Tx.From coinbase = PublicKey_zero)) then Err ErrGenesisFrom
           else if negb (bool_decide (Tx.To coinbase = FirstUser)) then Err ErrGenesisTo
           else if negb (Tx.Amount coinbase =? 10 * AUG) then Err ErrGenesisAmount
           else Ok ()
       | _ => Err ErrGenesisTxCount
       end.

Definition is_genesis (block : Block) : bool :=
  bool_decide (Hdr.GetHash (Header block) = Hdr.GetHash (Header Work.GenesisBlock)).

Definition validateBlockStructure (block : Block) (chain : Chain) : go (res block_error unit) :=
  let currentHeight := len (Blocks chain) in
  if is_genesis block then Ret (validate_genesis block)
  else
    match GetBlockByHash chain (Hdr.PreviousHash (Header block)) with
    | (Some prevBlock, true) =>
        let fork :=
          match Tip chain with
          | Some tip => negb (bool_decide (Hdr.GetHash (Header tip) = Hdr.PreviousHash (Header block)))
          | None => false
          end in
        if fork then Ret (Err (ErrSwitchChain block prevBlock))
        else if negb (Work.BlockHashMeetsDifficulty (Hdr.GetHash (Header block)) (Hdr.Bits (Header block)))
        then Ret (Err ErrDifficulty)
        else
          expectedBits ← Work.GetTargetBits currentHeight (Blocks chain);
          if negb (Hdr.Bits (Header block) =? expectedBits)
          then Ret (Err (ErrTargetBits (Hdr.Bits (Header block)) expectedBits))
          else if negb (bool_decide (Merkle.MerkleTransactions (Transactions block)
                                     = Hdr.MerkleRoot (Header block)))
          then Ret (Err ErrMerkleRoot)
          else if Hdr.Timestamp (Header block) <=? Hdr.Timestamp (Header prevBlock)
          then Ret (Err ErrTimestamp)
          else Ret (Ok ())
    | _ => Ret (Err (ErrMissingParent (Hdr.PreviousHash (Header block))))
    end.

(** ** Transactions *)

Inductive tx_error :=
  | ErrAmount (e : math_error)
  | ErrGasLimitAmount (e : math_error)
  | ErrGasPriceAmount (e : math_error)
  | ErrZeroGasLimit
  | ErrZeroGasPrice
  | ErrSignature
  | ErrNoSender
  | ErrGasCostOverflow
  | ErrTotalOverflow (e : math_error)
  | ErrFeeOverflow (e : math_error)
  | ErrInsufficientBalance (has needs : Z)
  | ErrNonce (expected got : Z).

Definition isCoinbase (tsx : Tx.Transaction) : bool := bool_decide (Tx.From tsx = PublicKey_zero).

Definition isContractDeployment (tsx : Tx.Transaction) : bool :=
  bool_decide (Tx.To tsx = PublicKey_zero) && (0 <? len (Tx.Instructions tsx)).

(** Amount, maximal gas cost and deployment fee, with every overflow check. *)
Definition total_cost (tsx : Tx.Transaction) : res tx_error Z :=
  let maxGasCost := u64 (Tx.GasLimit tsx * Tx.GasPrice tsx) in
  if negb (Tx.GasLimit tsx =? 0) && negb (maxGasCost / Tx.GasLimit tsx =? Tx.GasPrice tsx)
  then Err ErrGasCostOverflow
  else match SafeAdd (Tx.Amount tsx) maxGasCost with
       | Err e => Err (ErrTotalOverflow e)
       | Ok total =>
           if isContractDeployment tsx then
             match SafeAdd total ContractDeploymentFee with
             | Err e => Err (ErrFeeOverflow e)
             | Ok total => Ok total
             end
           else Ok total
       end.

(** The checks against the sender's account. *)
Definition check_sender (tsx : Tx.Transaction) (fromState : Acct.AccountState) : res tx_error unit :=
  total ← total_cost tsx;
  if Acct.Balance fromState <? total then Err (ErrInsufficientBalance (Acct.Balance fromState) total)
  else if negb (Tx.Nonce tsx =? u64 (Acct.Nonce fromState + 1))
  then Err (ErrNonce (u64 (Acct.Nonce fromState + 1)) (Tx.Nonce tsx))
  else Ok ().

Definition ValidateTransaction (tsx : Tx.Transaction) (w : world) : go (res tx_error unit) :=
  match ValidateAmount (Tx.Amount tsx), ValidateAmount (Tx.GasLimit tsx), ValidateAmount (Tx.GasPrice tsx) with
  | Err e, _, _ => Ret (Err (ErrAmount e))
  | _, Err e, _ => Ret (Err (ErrGasLimitAmount e))
  | _, _, Err e => Ret (Err (ErrGasPriceAmount e))
  | Ok _, Ok _, Ok _ =>
      if isCoinbase tsx then Ret (Ok ())
      else if Tx.GasLimit tsx =? 0 then Ret (Err ErrZeroGasLimit)
      else if Tx.GasPrice tsx =? 0 then Ret (Err ErrZeroGasPrice)
      else if negb (ed25519_Verify (Tx.From tsx) (Tx.GetHash tsx) (Tx.Signature tsx)) then Ret (Err ErrSignature)
      else match accts w !! Tx.From tsx with
           | None => Ret (Err ErrNoSender)
           | Some l => fromState ← deref (mem w) l; Ret (check_sender tsx fromState)
           end
  end.

Inductive apply_error :=
  | ApplyNoSender
  | ApplyInstruction (e : instr_error)
  | ApplyNoExecutor
  | ApplyExecution
  | ApplyGasLimit (used limit : Z).

Definition credit (l : loc) (amount : Z) (msg : string) (w : world) : go world :=
  toState ← deref (mem w) l;
  match SafeAdd (Acct.Balance toState) amount with
  | Err _ => Panic (ExplicitPanic msg)
  | Ok newBalance => Ret (MkWorld (accts w) (assign l (Acct.with_Balance newBalance toState) (mem w)))
  end.

(** [accountStates[to] = &AccountState{Balance: amount, Address: to}] *)
Definition new_account (to : PublicKey) (amount : Z) (w : world) : world :=
  let '(l, h) := alloc (Acct.fresh to amount) (mem w) in MkWorld (<[to := l]> (accts w)) h.

Definition apply_coinbase (tsx : Tx.Transaction) (w : world) : go world :=
  match accts w !! Tx.To tsx with
  | Some l => credit l (Tx.Amount tsx) "coinbase balance overflow" w
  | None => Ret (new_account (Tx.To tsx) (Tx.Amount tsx) w)
  end.

(** The context both branches build for the executor. *)
Definition block_context (tsx : Tx.Transaction) (contract deployer : PublicKey) : VM.BlockchainContext :=
  {| VM.BlockNumber := 1; VM.BlockHash := Hash32_zero; VM.LastBlockHash := Hash32_zero;
     VM.Timestamp := 1640995200; VM.Difficulty := 0x207fffff; VM.GasLimit := Tx.GasLimit tsx;
     VM.Coinbase := PublicKey_zero; VM.ChainID := 1; VM.Caller := Tx.From tsx;
     VM.Origin := Tx.From tsx; VM.GasPrice := Tx.GasPrice tsx; VM.CallValue := Tx.Amount tsx;
     VM.ContractAddress := contract; VM.TsxData := Tx.Data tsx; VM.Deployer := deployer;
     VM.DeploymentTime := 1640995200; VM.DeploymentGas := Tx.GasPrice tsx |}.

(** The first instruction that does not validate, if any. *)
Fixpoint invalid_instruction (l : list Instruction) : option instr_error :=
  match l with
  | [] => None
  | i :: rest => match ValidateInstruction i with Err e => Some e | Ok _ => invalid_instruction rest end
  end.

(** The end of both branches: the gas limit, then the sender pays and its nonce
    advances. *)
Definition settle (tsx : Tx.Transaction) (from : loc) (totalCostSoFar gasUsed : Z) (w : world)
    : go (world * (Z * option apply_error)) :=
  if Tx.GasLimit tsx <? gasUsed then Ret (w, (gasUsed, Some (ApplyGasLimit gasUsed (Tx.GasLimit tsx))))
  else
    let actualGasCost := u64 (gasUsed * Tx.GasPrice tsx) in
    match SafeAdd totalCostSoFar actualGasCost with
    | Err _ => Panic (ExplicitPanic "total cost with gas overflow during apply")
    | Ok totalCostSoFar =>
        fromState ← deref (mem w) from;
        match SafeSubtract (Acct.Balance fromState) totalCostSoFar with
        | Err _ => Panic (ExplicitPanic "sender balance underflow during apply")
        | Ok newFromBalance =>
            let fromState := Acct.with_Balance newFromBalance fromState in
            let fromState := Acct.with_Nonce (u64 (Acct.Nonce fromState + 1)) fromState in
            Ret (MkWorld (accts w) (assign from fromState (mem w)), (gasUsed, None))
        end
    end.

Section Apply.
Context (contractExecutor : option ContractExecutor).

(** Run the executor on a map of its own that shares the pointers; its entries
    are copied back only when it succeeds. *)
Definition run_executor (ex : ContractExecutor) (tsx : Tx.Transaction) (ctx : VM.BlockchainContext) (w : world)
    : go (world * option Z) :=
  x ← ExecuteTransaction ex tsx ctx w;
  let '(w', (gas, err)) := x in
  match err with
  | Some _ => Ret (MkWorld (accts w) (mem w'), None)
  | None => Ret (MkWorld (accts w' ∪ accts w) (mem w'), Some gas)
  end.

Definition apply_deployment (tsx : Tx.Transaction) (from : loc) (totalCostSoFar : Z) (w : world)
    : go (world * (Z * option apply_error)) :=
  fromState ← deref (mem w) from;
  let contractAddr := Merkle.GenerateContractAddress (Tx.From tsx) (Acct.Nonce fromState) in
  let gasUsed := u64 (GasContractDeploy + u64 (u64 (len (Tx.Data tsx)) * GasDataPerByte)) in
  match invalid_instruction (Tx.Instructions tsx) with
  | Some e => Ret (w, (gasUsed, Some (ApplyInstruction e)))
  | None =>
      match contractExecutor with
      | None => Ret (w, (gasUsed, Some ApplyNoExecutor))
      | Some ex =>
          x ← run_executor ex tsx (block_context tsx contractAddr (Tx.From tsx)) w;
          match x with
          | (w', None) => Ret (w', (gasUsed, Some ApplyExecution))
          | (w', Some executionGasUsed) => settle tsx from totalCostSoFar (u64 (gasUsed + executionGasUsed)) w'
          end
      end
  end.

(** The recipient's side of a transfer: the world and the gas used so far. *)
Definition transfer_to (tsx : Tx.Transaction) (gasUsed : Z) (w : world) : go (world * Z) :=
  match accts w !! Tx.To tsx with
  | None => Ret (new_account (Tx.To tsx) (Tx.Amount tsx) w, gasUsed)
  | Some l =>
      w1 ← credit l (Tx.Amount tsx) "recipient balance overflow during apply" w;
      toState ← deref (mem w1) l;
      match Acct.Instructions toState, contractExecutor with
      | _ :: _, Some ex =>
          x ← run_executor ex tsx (block_context tsx (Tx.To tsx) (Acct.Address toState)) w1;
          match x with
          | (w2, None) => Ret (w2, gasUsed)
          | (w2, Some contractGasUsed) => Ret (w2, u64 (gasUsed + contractGasUsed))
          end
      | _, _ => Ret (w1, gasUsed)
      end
  end.

Definition apply_transfer (tsx : Tx.Transaction) (from : loc) (totalCostSoFar : Z) (w : world)
    : go (world * (Z * option apply_error)) :=
  let gasUsed := u64 (GasTransfer + u64 (u64 (len (Tx.Data tsx)) * GasDataPerByte)) in
  x ← transfer_to tsx gasUsed w;
  let '(w', gasUsed) := x in
  settle tsx from totalCostSoFar gasUsed w'.

Definition ApplyTransaction (tsx : Tx.Transaction) (w : world) : go (world * (Z * option apply_error)) :=
  if isCoinbase tsx then
    w' ← apply_coinbase tsx w; Ret (w', (0, None))
  else
    match accts w !! Tx.From tsx with
    | None => Ret (w, (0, Some ApplyNoSender))
    | Some from =>
        if isContractDeployment tsx then
          match SafeAdd (Tx.Amount tsx) ContractDeploymentFee with
          | Err _ => Panic (ExplicitPanic "deployment fee overflow during apply")
          | Ok totalCostSoFar => apply_deployment tsx from totalCostSoFar w
          end
        else if negb (bool_decide (Tx.To tsx = PublicKey_zero)) then
          apply_transfer tsx from (Tx.Amount tsx) w
        else Ret (w, (GasTransfer, None))
    end.

Definition ValidateAndApplyTransaction (tsx : Tx.Transaction) (w : world) : go (world * bool) :=
  v ← ValidateTransaction tsx w;
  match v with
  | Err _ => Ret (w, false)
  | Ok _ =>
      x ← ApplyTransaction tsx w;
      let '(w', (_, err)) := x in
      Ret (w', match err with Some _ => false | None => true end)
  end.

(** ** Blocks *)

Inductive chain_error :=
  | StructureError (e : block_error)
  | TxValidation (i : nat) (e : tx_error)
  | TxExecution (i : nat) (e : apply_error)
  | WrongGasUsed (reported actual : Z)
  | BlockGasLimit (used limit : Z)
  | WrongCoinbase (amount expected : Z).

(** The copy [ValidateBlock] works on leaves out the two deployment hashes. *)
Definition shallow_copy (v : Acct.AccountState) : Acct.AccountState :=
  Acct.MkAccount (Acct.Address v) (Acct.Balance v) (Acct.Nonce v) (Acct.Instructions v)
    (Acct.Persistent v) (Acct.StorageRoot v) (Acct.CodeHash v) Hash32_zero Hash32_zero.

Definition copy_world (w : world) : go world :=
  x ← copy_entries shallow_copy (map_to_list (accts w)) ∅ (mem w); Ret (MkWorld x.1 x.2).

(** The transaction loop, from transaction [i] on. *)
Fixpoint apply_all (i : nat) (txs : list Tx.Transaction) (totalGasUsed totalGasFees : Z) (w : world)
    : go (world * res chain_error (Z * Z)) :=
  match txs with
  | [] => Ret (w, Ok (totalGasUsed, totalGasFees))
  | tsx :: rest =>
      v ← ValidateTransaction tsx w;
      match v with
      | Err e => Ret (w, Err (TxValidation i e))
      | Ok _ =>
          x ← ApplyTransaction tsx w;
          let '(w', (gasUsed, err)) := x in
          match err with
          | Some e => Ret (w', Err (TxExecution i e))
          | None =>
              if isCoinbase tsx then apply_all (S i) rest totalGasUsed totalGasFees w'
              else apply_all (S i) rest (u64 (totalGasUsed + gasUsed))
                     (u64 (totalGasFees + u64 (gasUsed * Tx.GasPrice tsx))) w'
          end
      end
  end.

(** The totals against the header, and the amount of the first transaction. *)
Definition check_totals (block : Block) (totalGasUsed totalGasFees : Z) : go (res chain_error unit) :=
  if negb (totalGasUsed =? Hdr.GasUsed (Header block))
  then Ret (Err (WrongGasUsed (Hdr.GasUsed (Header block)) totalGasUsed))
  else if Hdr.GasLimit (Header block) <? totalGasUsed
  then Ret (Err (BlockGasLimit totalGasUsed (Hdr.GasLimit (Header block))))
  else if is_genesis block then Ret (Ok ())
  else match Transactions block with
       | [] => Panic IndexOutOfRange
       | coinbase :: _ =>
           let expected := u64 (totalGasFees + BlockReward) in
           if negb (Tx.Amount coinbase =? expected) then Ret (Err (WrongCoinbase (Tx.Amount coinbase) expected))
           else Ret (Ok ())
       end.

(** The new account map, in a heap that extends the old one. *)
Definition ValidateBlock (block : Block) (chain : Chain) (h : heap) : go (heap * res chain_error accounts) :=
  v ← validateBlockStructure block chain;
  match v with
  | Err e => Ret (h, Err (StructureError e))
  | Ok _ =>
      w ← copy_world (MkWorld (AccountStates chain) h);
      x ← apply_all 0 (Transactions block) 0 0 w;
      match x with
      | (w', Err e) => Ret (mem w', Err e)
      | (w', Ok (totalGasUsed, totalGasFees)) =>
          t ← check_totals block totalGasUsed totalGasFees;
          Ret (mem w', match t with Err e => Err e | Ok _ => Ok (accts w') end)
      end
  end.

Definition ApplyBlock (block : Block) (newAccountStates : accounts) (chain : Chain) : Chain :=
  AddBlock block (SetAccountStates newAccountStates chain).

Definition ValidateAndApplyBlock (block : Block) (chain : Chain) (h : heap)
    : go (Chain * heap * option chain_error) :=
  x ← ValidateBlock block chain h;
  match x with
  | (h', Err e) => Ret (chain, h', Some e)
  | (h', Ok newAccountStates) => Ret (ApplyBlock block newAccountStates chain, h', None)
  end.

End Apply.
End Validate.
End Validation.
