(* ===== verification/ValidationSpec.v ===== *)
(** * Theorems about validation and the state transition

    Validation accepts exactly the affordable, correctly numbered, signed
    transactions; transfers move money without creating or losing it; an applied
    transaction cannot be replayed; a rejected block changes nothing; accepted
    header chains are linked and add up their work. *)

From S2P Require Import Prelude GoLib Config Utils Bytecode Machine Sha256 Ledger Work Chain Validation.

Module ValidationSpec.
Import SafeMath Convert Heap HeapSpec Chain Blk Validation.

(** ** Transactions of machine range *)

Record tx_u64 (t : Tx.Transaction) : Prop := {
  u_Amount : is_u64 (Tx.Amount t);
  u_GasLimit : is_u64 (Tx.GasLimit t);
  u_GasPrice : is_u64 (Tx.GasPrice t);
  u_Nonce : is_u64 (Tx.Nonce t)
}.

Definition account_u64 (a : Acct.AccountState) : Prop := is_u64 (Acct.Balance a) /\ is_u64 (Acct.Nonce a).

(** The account of an address, read through the heap. *)
Definition account (w : world) (k : PublicKey) : option Acct.AccountState := view (mem w) (accts w) !! k.

Definition world_wf (w : world) : Prop := wf (mem w) (accts w).

(** The exact cost a sender must be able to pay. *)
Definition fee (t : Tx.Transaction) : Z := if isContractDeployment t then ContractDeploymentFee else 0.
Definition max_cost (t : Tx.Transaction) : Z := Tx.Amount t + Tx.GasLimit t * Tx.GasPrice t + fee t.

(** The division test detects exactly the overflow of a product. *)
Lemma product_overflow x y :
  0 < x < 2 ^ 64 -> is_u64 y -> (u64 (x * y) / x =? y) = (x * y <? 2 ^ 64).
Proof.
  intros Hx Hy. unfold u64. pose proof (Z.mod_pos_bound (x * y) (2 ^ 64) ltac:(lia)) as Hm.
  destruct (Z.ltb_spec (x * y) (2 ^ 64)).
  - rewrite Z.mod_small by (machine_bounds; lia). rewrite Z.mul_comm, Z.div_mul by lia. apply Z.eqb_refl.
  - apply Z.eqb_neq. intros E. pose proof (Z.mul_div_le ((x * y) mod 2 ^ 64) x ltac:(lia)).
    rewrite E in *. lia.
Qed.

Lemma total_cost_spec t :
  tx_u64 t -> Tx.GasLimit t <> 0 ->
  match total_cost t with
  | Ok total => total = max_cost t /\ is_u64 total
  | Err _ => 2 ^ 64 <= max_cost t
  end.
Proof.
  intros [Ha Hl Hp _] Hne. unfold total_cost, max_cost, fee.
  rewrite (proj2 (Z.eqb_neq _ _) Hne). cbn [negb andb].
  rewrite product_overflow by (machine_bounds; lia || done).
  assert (0 <= Tx.GasLimit t * Tx.GasPrice t) by (apply Z.mul_nonneg_nonneg; machine_bounds; lia).
  assert (0 <= (if isContractDeployment t then ContractDeploymentFee else 0)) by (by destruct (isContractDeployment t)).
  destruct (Z.ltb_spec (Tx.GasLimit t * Tx.GasPrice t) (2 ^ 64)) as [Hlt|Hge]; cbn [negb].
  2: { machine_bounds. lia. }
  rewrite (u64_small (Tx.GasLimit t * Tx.GasPrice t)) by (machine_bounds; lia).
  rewrite SafeAdd_spec by (machine_bounds; lia || done).
  case_decide; [|lia]. destruct (isContractDeployment t); [|split; [lia | machine_bounds; lia]].
  rewrite SafeAdd_spec by (split; machine_bounds; unfold ContractDeploymentFee, AUG, Leaf; lia).
  case_decide; [split; [lia | machine_bounds; lia] | lia].
Qed.

Lemma check_sender_spec t a :
  tx_u64 t -> Tx.GasLimit t <> 0 -> account_u64 a ->
  check_sender t a = Ok () <->
  max_cost t <= Acct.Balance a /\ Tx.Nonce t = u64 (Acct.Nonce a + 1).
Proof.
  intros Ht Hl [Hb Hn]. unfold check_sender. pose proof (total_cost_spec t Ht Hl) as Hc.
  destruct (total_cost t) as [total|e]; cbn [mbind res_bind].
  - destruct Hc as [-> _]. destruct (Z.ltb_spec (Acct.Balance a) (max_cost t)).
    + split; [discriminate | lia].
    + destruct (Z.eqb_spec (Tx.Nonce t) (u64 (Acct.Nonce a + 1))); cbn [negb]; split; try done; intros; lia.
  - split; [discriminate|]. intros [? _]. machine_bounds. lia.
Qed.

(** ** Money *)

(** The sum of all balances. *)
Definition supply (v : gmap PublicKey Acct.AccountState) : Z :=
  map_fold (fun _ a sum => Acct.Balance a + sum) 0 v.

Definition balance_at (v : gmap PublicKey Acct.AccountState) (k : PublicKey) : Z :=
  match v !! k with Some a => Acct.Balance a | None => 0 end.

Lemma supply_insert_new v k a : v !! k = None -> supply (<[k := a]> v) = Acct.Balance a + supply v.
Proof. intros Hk. unfold supply. rewrite map_fold_insert_L; [done | intros; lia | done]. Qed.

Lemma supply_insert v k a : supply (<[k := a]> v) = supply v + Acct.Balance a - balance_at v k.
Proof.
  unfold balance_at. destruct (v !! k) as [b|] eqn:E; [|rewrite supply_insert_new by done; lia].
  rewrite <- (insert_delete_id v k b E) at 2. rewrite <- insert_delete_eq.
  rewrite !supply_insert_new by apply lookup_delete_eq. lia.
Qed.

(** No balance is negative. *)
Definition solvent (v : gmap PublicKey Acct.AccountState) : Prop :=
  map_Forall (fun _ a => account_u64 a) v.

Lemma supply_bounds v : solvent v -> 0 <= supply v /\ forall k, balance_at v k <= supply v.
Proof.
  intros Hs. induction v as [|k a v Hk IH] using map_ind.
  - unfold supply. rewrite map_fold_empty. split; [lia|]. intros k. unfold balance_at. by rewrite lookup_empty.
  - apply map_Forall_insert in Hs as [[Ha _] Hs]; [|done]. destruct (IH Hs) as [I1 I2].
    rewrite supply_insert_new by done. unfold is_u64 in Ha. split; [lia|]. intros k'.
    unfold balance_at in *. destruct (decide (k' = k)) as [->|Hne].
    + rewrite lookup_insert_eq. lia.
    + rewrite lookup_insert_ne by done. specialize (I2 k'). lia.
Qed.

(** ** The effect of the account operations on the view *)

Abbreviation wview w := (view (mem w) (accts w)).

Lemma credit_spec w k l a amount msg :
  world_wf w -> accts w !! k = Some l -> wview w !! k = Some a ->
  is_u64 (Acct.Balance a) -> is_u64 amount -> Acct.Balance a + amount < 2 ^ 64 ->
  exists w', credit l amount msg w = Ret w' /\ world_wf w' /\ accts w' = accts w
    /\ wview w' = <[k := Acct.with_Balance (Acct.Balance a + amount) a]> (wview w).
Proof.
  intros Hw Hk Ha Hb Hm Hs. unfold credit.
  destruct (deref_view _ _ _ _ Hk (wf_valid _ _ Hw _ _ Hk)) as (a' & -> & Ha'). cbn [mbind go_bind].
  rewrite Ha in Ha'. injection Ha' as <-. rewrite SafeAdd_spec by done. case_decide; [|done].
  eexists. split; [reflexivity|]. split_and!; [by apply wf_assign | done | by apply view_assign].
Qed.

Lemma new_account_spec w k amount :
  world_wf w ->
  world_wf (new_account k amount w) /\ wview (new_account k amount w) = <[k := Acct.fresh k amount]> (wview w)
  /\ accts (new_account k amount w) = <[k := length (mem w)]> (accts w).
Proof.
  intros Hw. destruct (view_alloc (mem w) (accts w) k (Acct.fresh k amount) Hw) as [Hv Hw']. done.
Qed.

(** The sender after paying [cost], with the next nonce. *)
Definition charged (cost : Z) (a : Acct.AccountState) : Acct.AccountState :=
  Acct.with_Nonce (u64 (Acct.Nonce a + 1)) (Acct.with_Balance (Acct.Balance a - cost) a).

Lemma settle_spec t from w a cost gas :
  world_wf w -> accts w !! Tx.From t = Some from -> wview w !! Tx.From t = Some a ->
  is_u64 (Acct.Balance a) -> is_u64 cost -> 0 <= gas <= Tx.GasLimit t -> 0 <= Tx.GasPrice t ->
  cost + gas * Tx.GasPrice t <= Acct.Balance a ->
  exists w', settle t from cost gas w = Ret (w', (gas, None)) /\ world_wf w' /\ accts w' = accts w
    /\ wview w' = <[Tx.From t := charged (cost + gas * Tx.GasPrice t) a]> (wview w).
Proof.
  intros Hw Hk Ha Hb Hc Hg Hp Hle. unfold settle. rewrite (proj2 (Z.ltb_ge _ _)) by lia.
  assert (0 <= gas * Tx.GasPrice t) by (apply Z.mul_nonneg_nonneg; lia).
  rewrite u64_small by (machine_bounds; lia). rewrite SafeAdd_spec by (machine_bounds; lia || done).
  case_decide; [|machine_bounds; lia].
  destruct (deref_view _ _ _ _ Hk (wf_valid _ _ Hw _ _ Hk)) as (a' & -> & Ha'). cbn [mbind go_bind].
  rewrite Ha in Ha'. injection Ha' as <-. rewrite SafeSubtract_spec by (machine_bounds; lia || done).
  case_decide; [|lia]. eexists. split; [reflexivity|].
  split_and!; [by apply wf_assign | done | by apply view_assign].
Qed.

(** ** Plain transfers *)

(** The gas of a transfer: a base and a price per byte of data. *)
Definition transfer_gas (t : Tx.Transaction) : Z := GasTransfer + len (Tx.Data t) * GasDataPerByte.

(** The specification of a transfer on a finite map of accounts. *)
Definition credited (t : Tx.Transaction) (v : gmap PublicKey Acct.AccountState) : gmap PublicKey Acct.AccountState :=
  <[Tx.To t := match v !! Tx.To t with
               | Some a => Acct.with_Balance (Acct.Balance a + Tx.Amount t) a
               | None => Acct.fresh (Tx.To t) (Tx.Amount t)
               end]> v.

Definition transfer_view (t : Tx.Transaction) (gas : Z) (v : gmap PublicKey Acct.AccountState)
    : gmap PublicKey Acct.AccountState :=
  alter (charged (Tx.Amount t + gas * Tx.GasPrice t)) (Tx.From t) (credited t v).

(** All branches of an accepted transfer, in the order of the code: the recipient is
    credited first, which panics when the balance does not fit; then the gas is
    held against the limit, and a transfer that exceeds it has failed with the
    recipient credited already; only then the sender pays. *)
Definition transfer_spec (t : Tx.Transaction) (v : gmap PublicKey Acct.AccountState)
    : go (gmap PublicKey Acct.AccountState * (Z * option apply_error)) :=
  if 2 ^ 64 <=? balance_at v (Tx.To t) + Tx.Amount t
  then Panic (ExplicitPanic "recipient balance overflow during apply")
  else if Tx.GasLimit t <? transfer_gas t
  then Ret (credited t v, (transfer_gas t, Some (ApplyGasLimit (transfer_gas t) (Tx.GasLimit t))))
  else Ret (transfer_view t (transfer_gas t) v, (transfer_gas t, None)).

(** An address at which no program runs when it is paid. *)
Definition no_contract (ex : option ContractExecutor) (v : gmap PublicKey Acct.AccountState) (k : PublicKey) : Prop :=
  ex = None \/ forall a, v !! k = Some a -> Acct.Instructions a = [].

(** A transfer that runs no contract. *)
Record plain (ex : option ContractExecutor) (t : Tx.Transaction) (w : world) : Prop := {
  pl_regular : isCoinbase t = false;
  pl_to : Tx.To t <> PublicKey_zero;
  pl_data : len (Tx.Data t) < 2 ^ 56;
  pl_code : no_contract ex (wview w) (Tx.To t)
}.

Section Spec.
Context `{Signatures}.

(** C3. Validation decides the specification: a transaction is accepted exactly when
    it is a coinbase, or it pays for gas, is signed by its sender, the sender
    exists, can pay amount, maximal gas cost and deployment fee (computed
    without overflow), and the nonce is the next one. *)
Theorem ValidateTransaction_spec t w :
  tx_u64 t -> world_wf w -> (forall k a, account w k = Some a -> account_u64 a) ->
  ValidateTransaction t w = Ret (Ok ()) <->
  isCoinbase t = true
  \/ (Tx.GasLimit t <> 0 /\ Tx.GasPrice t <> 0
      /\ ed25519_Verify (Tx.From t) (Tx.GetHash t) (Tx.Signature t) = true
      /\ exists a, account w (Tx.From t) = Some a
         /\ max_cost t <= Acct.Balance a /\ Tx.Nonce t = u64 (Acct.Nonce a + 1)).
Proof.
  intros Ht Hw Ha. pose proof Ht as [? ? ? ?]. unfold ValidateTransaction.
  rewrite !ValidateAmount_u64 by done. destruct (isCoinbase t); [split; auto|].
  destruct (Z.eqb_spec (Tx.GasLimit t) 0) as [E|El]; [split; [discriminate | intros [?|(?&_)]; done]|].
  destruct (Z.eqb_spec (Tx.GasPrice t) 0) as [E|Ep]; [split; [discriminate | intros [?|(_&?&_)]; done]|].
  destruct (ed25519_Verify _ _ _) eqn:Ev; cbn [negb].
  2: { split; [discriminate | intros [?|(_&_&?&_)]; done]. }
  unfold account in *. destruct (accts w !! Tx.From t) as [l|] eqn:El'.
  - destruct (deref_view (mem w) (accts w) _ l El' (wf_valid _ _ Hw _ _ El')) as (a & -> & Hv).
    cbn [mbind go_bind]. pose proof (check_sender_spec t a Ht El (Ha _ _ Hv)) as Hc. split.
    + intros [= E]. right. apply Hc in E as [? ?]. eauto 8.
    + intros [?|(_&_&_&a'&Ea&Hcost)]; [done|]. rewrite Hv in Ea. injection Ea as <-. f_equal. by apply Hc.
  - split; [discriminate|]. intros [?|(_&_&_&a'&Ea&_)]; [done|].
    rewrite lookup_view, El' in Ea. discriminate.
Qed.

Lemma transfer_gas_u64 t :
  len (Tx.Data t) < 2 ^ 56 ->
  u64 (GasTransfer + u64 (u64 (len (Tx.Data t)) * GasDataPerByte)) = transfer_gas t.
Proof.
  intros Hd. assert (0 <= len (Tx.Data t)) by (unfold len; lia).
  unfold transfer_gas, GasDataPerByte, GasTransfer. change (2 ^ 56) with 72057594037927936 in Hd.
  rewrite (u64_small (len _)), (u64_small (_ * 68)), u64_small by (machine_bounds; lia). done.
Qed.

(** The recipient's side of a plain transfer. *)
Lemma transfer_to_plain ex t w gas :
  plain ex t w -> world_wf w -> solvent (wview w) -> is_u64 (Tx.Amount t) ->
  balance_at (wview w) (Tx.To t) + Tx.Amount t < 2 ^ 64 ->
  exists w', transfer_to ex t gas w = Ret (w', gas) /\ world_wf w'
    /\ wview w' = credited t (wview w)
    /\ (forall k l, accts w !! k = Some l -> accts w' !! k = Some l).
Proof.
  intros [Hr Hto Hd Hc] Hw Hs Ha Hov. unfold transfer_to, credited.
  unfold balance_at in Hov. destruct (accts w !! Tx.To t) as [l|] eqn:El.
  - destruct (deref_view _ _ _ _ El (wf_valid _ _ Hw _ _ El)) as (a & _ & Hv). rewrite Hv in *.
    destruct (credit_spec w (Tx.To t) l a (Tx.Amount t) "recipient balance overflow during apply")
      as (w1 & -> & Hw1 & Hacc & Hview); [done | done | done | apply (Hs _ _ Hv) | done | done |].
    cbn [mbind go_bind].
    assert (accts w1 !! Tx.To t = Some l) as El1 by (by rewrite Hacc).
    destruct (deref_view _ _ _ _ El1 (wf_valid _ _ Hw1 _ _ El1)) as (a1 & -> & Hv1). cbn [mbind go_bind].
    rewrite Hview, lookup_insert_eq in Hv1. injection Hv1 as <-.
    exists w1. split_and!; [|done|done|by rewrite Hacc].
    destruct Hc as [->|Hc]; [by destruct (Acct.Instructions _)|].
    cbn [Acct.with_Balance Acct.Instructions]. by rewrite (Hc a Hv).
  - assert (wview w !! Tx.To t = None) as Hv by (by rewrite lookup_view, El). rewrite Hv in *.
    destruct (new_account_spec w (Tx.To t) (Tx.Amount t) Hw) as (Hw' & Hview & Hacc).
    eexists. split_and!; [reflexivity | done | by rewrite Hview |].
    intros k l' Hk. rewrite Hacc, lookup_insert_ne; [done|]. intros <-. congruence.
Qed.

Lemma credited_lookup t v k a :
  v !! k = Some a -> 0 <= Tx.Amount t ->
  exists a', credited t v !! k = Some a' /\ Acct.Balance a <= Acct.Balance a'
    /\ Acct.Nonce a' = Acct.Nonce a
    /\ Acct.Balance a' = Acct.Balance a + (if decide (k = Tx.To t) then Tx.Amount t else 0).
Proof.
  intros Hk Ha. unfold credited. case_decide as E.
  - subst k. rewrite Hk, lookup_insert_eq. eexists. split; [reflexivity|]. simpl. lia.
  - rewrite lookup_insert_ne by done. exists a. split; [done|]. lia.
Qed.

(** What an accepted transaction guarantees. *)
Lemma validated_sender t w :
  tx_u64 t -> world_wf w -> solvent (wview w) -> isCoinbase t = false ->
  ValidateTransaction t w = Ret (Ok ()) ->
  exists l a, accts w !! Tx.From t = Some l /\ wview w !! Tx.From t = Some a
    /\ max_cost t <= Acct.Balance a /\ Tx.Nonce t = u64 (Acct.Nonce a + 1).
Proof.
  intros [? ? ? ?] Hw Hs Hc. unfold ValidateTransaction. rewrite !ValidateAmount_u64, Hc by done.
  destruct (Z.eqb_spec (Tx.GasLimit t) 0) as [|Hl]; [discriminate|].
  destruct (_ =? 0); [discriminate|]. destruct (negb _); [discriminate|].
  destruct (accts w !! Tx.From t) as [l|] eqn:El; [|discriminate].
  destruct (deref_view _ _ _ _ El (wf_valid _ _ Hw _ _ El)) as (a & -> & Hv). cbn [mbind go_bind].
  intros [= E]. apply check_sender_spec in E as [? ?]; [eauto 8 | by split | done | apply (Hs _ _ Hv)].
Qed.

Lemma ApplyTransaction_plain ex t w :
  plain ex t w -> tx_u64 t -> world_wf w -> solvent (wview w) ->
  ValidateTransaction t w = Ret (Ok ()) ->
  balance_at (wview w) (Tx.To t) + Tx.Amount t < 2 ^ 64 -> transfer_gas t <= Tx.GasLimit t ->
  exists w', ApplyTransaction ex t w = Ret (w', (transfer_gas t, None))
    /\ world_wf w' /\ wview w' = transfer_view t (transfer_gas t) (wview w).
Proof.
  intros Hp Ht Hw Hs Hval Hov Hgas. pose proof Hp as [Hr Hto Hd Hc]. pose proof Ht as [Ha Hl Hpr Hn].
  destruct (validated_sender t w Ht Hw Hs Hr Hval) as (l & a & El & Ea & Hcost & Hnonce).
  assert (0 <= transfer_gas t) as Hg0 by (unfold transfer_gas, GasTransfer, GasDataPerByte, len; lia).
  unfold ApplyTransaction. rewrite Hr, El. unfold max_cost, fee in Hcost.
  assert (isContractDeployment t = false) as Hdep.
  { unfold isContractDeployment. by rewrite bool_decide_false. }
  rewrite Hdep, bool_decide_false by done. rewrite Hdep in Hcost. cbn [negb]. unfold apply_transfer.
  rewrite transfer_gas_u64 by done.
  destruct (transfer_to_plain ex t w (transfer_gas t)) as (w1 & -> & Hw1 & Hv1 & Hk1); [done..|].
  cbn [mbind go_bind].
  destruct (credited_lookup t (wview w) (Tx.From t) a Ea) as (a1 & Ea1 & Hb1 & Hn1 & Hbal1); [machine_bounds; lia|].
  assert (transfer_gas t * Tx.GasPrice t <= Tx.GasLimit t * Tx.GasPrice t) as Hmul.
  { apply Z.mul_le_mono_nonneg_r; machine_bounds; lia. }
  assert (is_u64 (Acct.Balance a1)) as Hu1.
  { destruct (Hs _ _ Ea) as [Hu _]. rewrite Hbal1. case_decide as E; [|machine_bounds; lia].
    rewrite E in Ea. unfold balance_at in Hov. rewrite Ea in Hov. machine_bounds. lia. }
  destruct (settle_spec t l w1 a1 (Tx.Amount t) (transfer_gas t)) as (w' & -> & Hw' & _ & Hv');
    [done | by apply Hk1 | by rewrite Hv1 | done | done | lia | machine_bounds; lia | lia |].
  exists w'. split_and!; [done | done |]. rewrite Hv', Hv1. unfold transfer_view.
  apply map_eq. intros k. destruct (decide (k = Tx.From t)) as [->|Hne].
  - by rewrite lookup_insert_eq, lookup_alter_eq, Ea1.
  - by rewrite lookup_insert_ne, lookup_alter_ne by done.
Qed.

(** A recipient that cannot hold the amount makes the node panic. *)
Lemma transfer_to_overflow ex t w gas :
  world_wf w -> solvent (wview w) -> is_u64 (Tx.Amount t) ->
  2 ^ 64 <= balance_at (wview w) (Tx.To t) + Tx.Amount t ->
  transfer_to ex t gas w = Panic (ExplicitPanic "recipient balance overflow during apply").
Proof.
  intros Hw Hs Ha Hov. unfold transfer_to, balance_at in *. rewrite lookup_view in Hov.
  destruct (accts w !! Tx.To t) as [l|] eqn:El; simpl in Hov; [|machine_bounds; lia].
  destruct (deref_view _ _ _ _ El (wf_valid _ _ Hw _ _ El)) as (a & Hd & Hv).
  pose proof Hv as Hv'. rewrite lookup_view, El in Hv'. simpl in Hv'. rewrite Hv' in Hov.
  unfold credit. rewrite Hd. cbn [mbind go_bind]. destruct (Hs _ _ Hv).
  rewrite SafeAdd_spec by done. by case_decide; [lia|].
Qed.

Lemma transfer_dispatch ex t w : plain ex t w -> forall l, accts w !! Tx.From t = Some l ->
  ApplyTransaction ex t w = apply_transfer ex t l (Tx.Amount t) w.
Proof.
  intros [Hr Hto _ _] l El. unfold ApplyTransaction, isContractDeployment. by rewrite Hr, El, !bool_decide_false.
Qed.

(** C5. Applying an accepted transfer to an address without code implements the
    specification on finite maps, on every branch: the recipient (new or not)
    gains the amount, the sender pays amount and gas and its nonce advances, every
    other account is untouched, and a transfer to oneself costs only the gas; a
    transfer whose gas exceeds its limit fails with only the recipient credited,
    and one whose recipient cannot hold the amount panics. *)
Theorem transfer_refines_spec ex t w :
  plain ex t w -> tx_u64 t -> world_wf w -> solvent (wview w) ->
  ValidateTransaction t w = Ret (Ok ()) ->
  match transfer_spec t (wview w) with
  | Panic k => ApplyTransaction ex t w = Panic k
  | Ret (v', r) => exists w', ApplyTransaction ex t w = Ret (w', r) /\ world_wf w' /\ wview w' = v'
  end.
Proof.
  intros Hp Ht Hw Hs Hval. pose proof Hp as [Hr _ Hd _].
  destruct (validated_sender t w Ht Hw Hs Hr Hval) as (l & _ & El & _). unfold transfer_spec.
  destruct (Z.leb_spec (2 ^ 64) (balance_at (wview w) (Tx.To t) + Tx.Amount t)) as [Hov|Hov].
  { rewrite (transfer_dispatch ex t w Hp l El). unfold apply_transfer.
    by rewrite transfer_to_overflow by (done || apply Ht). }
  destruct (Z.ltb_spec (Tx.GasLimit t) (transfer_gas t)) as [Hg|Hg]; [|by apply ApplyTransaction_plain].
  rewrite (transfer_dispatch ex t w Hp l El). unfold apply_transfer. rewrite transfer_gas_u64 by done.
  destruct (transfer_to_plain ex t w (transfer_gas t)) as (w1 & -> & Hw1 & Hv1 & _); [done.. | apply Ht | done |].
  exists w1. cbn [mbind go_bind]. unfold settle. by rewrite (proj2 (Z.ltb_lt _ _)).
Qed.

(** ** Conservation *)

Lemma supply_credited t v : supply (credited t v) = supply v + Tx.Amount t.
Proof.
  unfold credited. rewrite supply_insert. unfold balance_at. destruct (v !! Tx.To t); simpl; lia.
Qed.

Lemma supply_alter f k v a :
  v !! k = Some a -> supply (alter f k v) = supply v + Acct.Balance (f a) - Acct.Balance a.
Proof.
  intros Hk. assert (alter f k v = <[k := f a]> v) as ->.
  { apply map_eq. intros k'. destruct (decide (k' = k)) as [->|].
    - by rewrite lookup_alter_eq, lookup_insert_eq, Hk.
    - by rewrite lookup_alter_ne, lookup_insert_ne. }
  rewrite supply_insert. unfold balance_at. by rewrite Hk.
Qed.

Lemma supply_transfer t gas v a :
  v !! Tx.From t = Some a -> 0 <= Tx.Amount t ->
  supply (transfer_view t gas v) = supply v - gas * Tx.GasPrice t.
Proof.
  intros Ha Hm. destruct (credited_lookup t v _ a Ha Hm) as (a' & Ha' & _).
  unfold transfer_view. rewrite (supply_alter _ _ _ a' Ha'), supply_credited. simpl. lia.
Qed.


Lemma transfer_view_lookup t gas v k b :
  transfer_view t gas v !! k = Some b ->
  exists c, credited t v !! k = Some c
    /\ b = if decide (k = Tx.From t) then charged (Tx.Amount t + gas * Tx.GasPrice t) c else c.
Proof.
  unfold transfer_view. case_decide as E.
  - subst. rewrite lookup_alter_eq. destruct (credited t v !! _); [|discriminate]. intros [= <-]. eauto.
  - rewrite lookup_alter_ne by done. eauto.
Qed.

Lemma credited_inv t v k c :
  credited t v !! k = Some c ->
  (exists a, v !! k = Some a /\ (c = a \/ c = Acct.with_Balance (Acct.Balance a + Tx.Amount t) a /\ k = Tx.To t))
  \/ c = Acct.fresh (Tx.To t) (Tx.Amount t).
Proof.
  unfold credited. destruct (decide (k = Tx.To t)) as [->|Hne].
  - rewrite lookup_insert_eq. intros [= <-]. destruct (v !! Tx.To t) as [a|]; [left; eauto | by right].
  - rewrite lookup_insert_ne by done. intros Hc. left. eauto.
Qed.

(** Neither a coinbase nor a payment puts code anywhere. *)
Lemma no_contract_credited ex t v k : no_contract ex v k -> no_contract ex (credited t v) k.
Proof.
  intros [He|Hn]; [by left|right]. intros c Hc.
  destruct (credited_inv _ _ _ _ Hc) as [(a & Ha & [->|[-> _]])| ->]; [exact (Hn _ Ha) | exact (Hn _ Ha) | done].
Qed.

Lemma no_contract_transfer ex t gas v k : no_contract ex v k -> no_contract ex (transfer_view t gas v) k.
Proof.
  intros [He|Hn]%(no_contract_credited ex t); [by left|right]. intros b Hb.
  destruct (transfer_view_lookup _ _ _ _ _ Hb) as (c & Hc & ->). apply Hn in Hc. by case_decide.
Qed.

(** Payments to addresses without code. *)
Definition code_free (ex : option ContractExecutor) (v : gmap PublicKey Acct.AccountState) (txs : list Tx.Transaction) : Prop :=
  Forall (fun t => no_contract ex v (Tx.To t)) txs.

Lemma solvent_credited t v :
  solvent v -> is_u64 (Tx.Amount t) -> balance_at v (Tx.To t) + Tx.Amount t < 2 ^ 64 -> solvent (credited t v).
Proof.
  intros Hs Ha Hov k c Hc. destruct (credited_inv _ _ _ _ Hc) as [(a & Ea & [->|[-> ->]])| ->].
  - exact (Hs _ _ Ea).
  - destruct (Hs _ _ Ea) as [? ?]. unfold balance_at in Hov. rewrite Ea in Hov.
    split; simpl; [machine_bounds; lia | done].
  - split; simpl; [done | machine_bounds; lia].
Qed.

Lemma solvent_transfer t gas v a :
  solvent v -> is_u64 (Tx.Amount t) -> balance_at v (Tx.To t) + Tx.Amount t < 2 ^ 64 ->
  v !! Tx.From t = Some a -> 0 <= gas * Tx.GasPrice t ->
  Tx.Amount t + gas * Tx.GasPrice t <= Acct.Balance a -> solvent (transfer_view t gas v).
Proof.
  intros Hs Ha Hov Ea Hg Hle k b Hb. destruct (transfer_view_lookup _ _ _ _ _ Hb) as (c & Hc & ->).
  pose proof (solvent_credited t v Hs Ha Hov k c Hc) as [Hcb Hcn]. case_decide as E; [|by split].
  subst k. destruct (credited_lookup t v _ a Ea) as (c' & Ec' & Hge & _); [machine_bounds; lia|].
  rewrite Hc in Ec'. injection Ec' as <-. split; simpl; [machine_bounds; lia | apply u64_range].
Qed.

(** A regular transaction of the conservation theorem: a payment to an account. *)
Record payment (t : Tx.Transaction) : Prop := {
  pay_u64 : tx_u64 t;
  pay_regular : isCoinbase t = false;
  pay_to : Tx.To t <> PublicKey_zero;
  pay_data : len (Tx.Data t) < 2 ^ 56
}.

Lemma payment_plain ex t w : payment t -> no_contract ex (wview w) (Tx.To t) -> plain ex t w.
Proof. intros [] Hn. by split. Qed.

(** A payment that was applied without an error did what the specification says. *)
Lemma ApplyTransaction_payment_inv ex t w w' gas :
  payment t -> world_wf w -> solvent (wview w) -> no_contract ex (wview w) (Tx.To t) ->
  ValidateTransaction t w = Ret (Ok ()) -> ApplyTransaction ex t w = Ret (w', (gas, None)) ->
  gas = transfer_gas t /\ gas <= Tx.GasLimit t /\ world_wf w'
    /\ balance_at (wview w) (Tx.To t) + Tx.Amount t < 2 ^ 64
    /\ wview w' = transfer_view t gas (wview w).
Proof.
  intros Hp Hw Hs Hn Hval Happ. pose proof Hp as [Ht Hr Hto Hd].
  pose proof (payment_plain ex t w Hp Hn) as Hpl.
  destruct (validated_sender t w Ht Hw Hs Hr Hval) as (l & a & El & Ea & Hcost & _).
  pose proof (transfer_dispatch ex t w Hpl l El) as E.
  destruct (Z.lt_ge_cases (balance_at (wview w) (Tx.To t) + Tx.Amount t) (2 ^ 64)) as [Hov|Hov].
  - destruct (Z.le_gt_cases (transfer_gas t) (Tx.GasLimit t)) as [Hg|Hg].
    + destruct (ApplyTransaction_plain ex t w Hpl Ht Hw Hs Hval Hov Hg) as (w1 & E1 & Hw1 & Hv1).
      rewrite E1 in Happ. injection Happ as <- <-. done.
    + exfalso. rewrite E in Happ. unfold apply_transfer in Happ. rewrite transfer_gas_u64 in Happ by done.
      destruct (transfer_to_plain ex t w (transfer_gas t)) as (w1 & E1 & _); try done; [apply Ht|].
      rewrite E1 in Happ. cbn [mbind go_bind] in Happ. unfold settle in Happ.
      rewrite (proj2 (Z.ltb_lt _ _)) in Happ by lia. discriminate.
  - exfalso. rewrite E in Happ. unfold apply_transfer in Happ.
    rewrite transfer_to_overflow in Happ by (done || apply Ht). discriminate.
Qed.

(** The result of a payment keeps every invariant, and the sender's fee leaves
    the accounts. *)
Lemma payment_preserves ex t w w' gas :
  payment t -> world_wf w -> solvent (wview w) -> no_contract ex (wview w) (Tx.To t) ->
  ValidateTransaction t w = Ret (Ok ()) -> ApplyTransaction ex t w = Ret (w', (gas, None)) ->
  world_wf w' /\ solvent (wview w') /\ (forall k, no_contract ex (wview w) k -> no_contract ex (wview w') k)
  /\ 0 <= gas * Tx.GasPrice t <= supply (wview w)
  /\ supply (wview w') = supply (wview w) - gas * Tx.GasPrice t.
Proof.
  intros Hp Hw Hs Hn Hval Happ. pose proof Hp as [Ht Hr Hto Hd]. pose proof Ht as [Ha Hl Hpr _].
  destruct (ApplyTransaction_payment_inv ex t w w' gas Hp Hw Hs Hn Hval Happ) as (Hg & Hgl & Hw' & Hov & Hv).
  destruct (validated_sender t w Ht Hw Hs Hr Hval) as (l & a & El & Ea & Hcost & _).
  assert (0 <= gas * Tx.GasPrice t) as H0.
  { apply Z.mul_nonneg_nonneg; [subst gas|machine_bounds; lia].
    unfold transfer_gas, GasTransfer, GasDataPerByte, len. lia. }
  assert (gas * Tx.GasPrice t <= Tx.GasLimit t * Tx.GasPrice t) as H1.
  { apply Z.mul_le_mono_nonneg_r; machine_bounds; lia. }
  assert (0 <= fee t) as Hf by (unfold fee; by destruct (isContractDeployment t)).
  unfold max_cost in Hcost. destruct (supply_bounds _ Hs) as [_ Hb].
  specialize (Hb (Tx.From t)). unfold balance_at in Hb. rewrite Ea in Hb.
  assert (0 <= Tx.Amount t) by (machine_bounds; lia).
  rewrite Hv. split_and!; [done | | intros k; by apply no_contract_transfer | lia | lia | by apply (supply_transfer _ _ _ a)].
  apply solvent_transfer with a; try done. lia.
Qed.

(** The totals of a run of payments: gas fees leave the accounts and are all
    counted, without wrapping. *)
Lemma apply_all_payments ex txs i g f w w' g' f' :
  Forall payment txs -> world_wf w -> solvent (wview w) -> code_free ex (wview w) txs ->
  0 <= f -> f + supply (wview w) < 2 ^ 64 ->
  apply_all ex i txs g f w = Ret (w', Ok (g', f')) ->
  supply (wview w') + f' = supply (wview w) + f /\ f <= f' /\ world_wf w' /\ solvent (wview w').
Proof.
  intros Hp. revert i g f w. induction Hp as [|t txs Ht _ IH]; intros i g f w Hw Hs Hn Hf Hb; cbn [apply_all].
  - intros [= -> -> ->]. split; [done|]. split; [lia|]. done.
  - intros E. apply go_bind_ret_inv in E as (v & Hval & E). destruct v as [[]|e]; [|discriminate].
    apply go_bind_ret_inv in E as ([w1 [gas err]] & Happ & E). destruct err; [discriminate|].
    rewrite (pay_regular _ Ht) in E.
    inversion_clear Hn as [|? ? Hn0 Hn'].
    destruct (payment_preserves ex t w w1 gas Ht Hw Hs Hn0 Hval Happ) as (Hw1 & Hs1 & Hn1 & Hfee & Hsup).
    rewrite (u64_small (gas * _)) in E by (machine_bounds; lia).
    rewrite (u64_small (f + _)) in E by (machine_bounds; lia).
    destruct (IH (S i) (u64 (g + gas)) (f + gas * Tx.GasPrice t) w1) as (I1 & I2 & I3 & I4);
      [done | done | | lia | lia | done |].
    { eapply Forall_impl; [exact Hn' | intros t'; apply Hn1]. }
    split; [lia|]. split; [lia|]. done.
Qed.

Lemma apply_coinbase_spec ex t w :
  isCoinbase t = true -> tx_u64 t -> world_wf w -> solvent (wview w) ->
  supply (wview w) + Tx.Amount t < 2 ^ 64 ->
  exists w', ApplyTransaction ex t w = Ret (w', (0, None)) /\ world_wf w'
    /\ wview w' = credited t (wview w) /\ solvent (wview w').
Proof.
  intros Hc [Ha _ _ _] Hw Hs Hsup. unfold ApplyTransaction, apply_coinbase. rewrite Hc.
  destruct (supply_bounds _ Hs) as [_ Hb]. specialize (Hb (Tx.To t)).
  assert (solvent (credited t (wview w))) as Hs'.
  { apply solvent_credited; [done | done | lia]. }
  destruct (accts w !! Tx.To t) as [l|] eqn:El.
  - destruct (deref_view _ _ _ _ El (wf_valid _ _ Hw _ _ El)) as (a & _ & Hv).
    unfold balance_at in Hb. rewrite Hv in Hb.
    destruct (credit_spec w (Tx.To t) l a (Tx.Amount t) "coinbase balance overflow")
      as (w1 & -> & Hw1 & _ & Hview); [done | done | done | apply (Hs _ _ Hv) | done | lia |].
    assert (wview w1 = credited t (wview w)) as E by (rewrite Hview; unfold credited; by rewrite Hv).
    exists w1. rewrite E. done.
  - assert (wview w !! Tx.To t = None) as Hv by (by rewrite lookup_view, El).
    destruct (new_account_spec w (Tx.To t) (Tx.Amount t) Hw) as (Hw1 & Hview & _).
    assert (wview (new_account (Tx.To t) (Tx.Amount t) w) = credited t (wview w)) as E.
    { rewrite Hview. unfold credited. by rewrite Hv. }
    eexists. split; [reflexivity|]. rewrite E. done.
Qed.

Lemma supply_fmap f v : (forall a, Acct.Balance (f a) = Acct.Balance a) -> supply (f <$> v) = supply v.
Proof.
  intros Hf. induction v as [|k a v Hk IH] using map_ind; [by rewrite fmap_empty|].
  rewrite fmap_insert, !supply_insert_new, IH, Hf by (rewrite ?lookup_fmap, ?Hk; done). done.
Qed.

Lemma copy_world_spec w :
  world_wf w ->
  exists w' ext, copy_world w = Ret w' /\ mem w' = mem w ++ ext /\ world_wf w'
    /\ wview w' = shallow_copy <$> wview w
    /\ (forall k l, accts w' !! k = Some l -> (length (mem w) <= l)%nat).
Proof.
  intros Hw. destruct (copy_map_spec shallow_copy (mem w) (accts w) Hw) as (m' & h' & E & Hw' & Hv & Hl).
  exists (MkWorld m' (mem w ++ h')), h'. unfold copy_world. rewrite E. done.
Qed.

Lemma shallow_copy_invariants ex v txs :
  solvent v -> code_free ex v txs ->
  solvent (shallow_copy <$> v) /\ code_free ex (shallow_copy <$> v) txs /\ supply (shallow_copy <$> v) = supply v.
Proof.
  intros Hs Hn. split_and!; [| | by apply supply_fmap].
  - intros k a Hk. apply lookup_fmap_Some in Hk as (b & <- & Hb). exact (Hs _ _ Hb).
  - eapply Forall_impl; [exact Hn|]. intros t [He|Hc]; [by left|right].
    intros a Ha. apply lookup_fmap_Some in Ha as (b & <- & Hb). exact (Hc _ Hb).
Qed.

(** What a successful block validation went through. *)
Lemma ValidateBlock_inv ex b chain h h' m' :
  ValidateBlock ex b chain h = Ret (h', Ok m') ->
  exists w w' g f, validateBlockStructure b chain = Ret (Ok ())
    /\ copy_world (MkWorld (AccountStates chain) h) = Ret w
    /\ apply_all ex 0 (Transactions b) 0 0 w = Ret (w', Ok (g, f))
    /\ check_totals b g f = Ret (Ok ()) /\ h' = mem w' /\ m' = accts w'.
Proof.
  unfold ValidateBlock. intros E. apply go_bind_ret_inv in E as (v & Hv & E). destruct v as [[]|]; [|discriminate].
  apply go_bind_ret_inv in E as (w & Hw & E). apply go_bind_ret_inv in E as ([w' r] & Ha & E).
  destruct r as [[g f]|]; [|discriminate]. apply go_bind_ret_inv in E as (t & Ht & E).
  destruct t as [[]|]; [|discriminate]. injection E as <- <-. eauto 12.
Qed.

(** The converse: the phases of a successful validation compose. *)
Lemma ValidateBlock_intro ex b chain h w w' g f :
  validateBlockStructure b chain = Ret (Ok ()) ->
  copy_world (MkWorld (AccountStates chain) h) = Ret w ->
  apply_all ex 0 (Transactions b) 0 0 w = Ret (w', Ok (g, f)) ->
  check_totals b g f = Ret (Ok ()) -> ValidateBlock ex b chain h = Ret (mem w', Ok (accts w')).
Proof.
  intros H1 H2 H3 H4. unfold ValidateBlock. rewrite H1. cbn [mbind go_bind]. rewrite H2.
  cbn [mbind go_bind]. rewrite H3. cbn [mbind go_bind]. by rewrite H4.
Qed.

(** C1. The coinbase and the payments of a block create exactly the block reward: after
    a block whose first transaction is the coinbase and whose others are payments
    to addresses without code is accepted, the sum of all balances has grown by
    the reward, every gas fee having gone to the coinbase.  (The sum has to leave
    room for the coinbase below 2^64.  A payment to a contract does create money:
    [Execution.contract_call_credits_twice].) *)
Theorem block_mints_reward ex b chain h h' m' cb rest :
  let v := view h (AccountStates chain) in
  ValidateBlock ex b chain h = Ret (h', Ok m') ->
  is_genesis b = false -> Transactions b = cb :: rest ->
  isCoinbase cb = true -> tx_u64 cb -> Forall payment rest ->
  wf h (AccountStates chain) -> solvent v -> code_free ex v rest ->
  supply v + Tx.Amount cb + BlockReward < 2 ^ 64 ->
  supply (view h' m') = supply v + BlockReward.
Proof.
  intros v E Hg Htx Hcb Hu Hpay Hwf Hs Hn Hsup.
  destruct (ValidateBlock_inv ex b chain h h' m' E) as (w & w' & g & f & _ & Hcopy & Hall & Htot & -> & ->).
  destruct (copy_world_spec (MkWorld (AccountStates chain) h) Hwf) as (w0 & ext & Hcopy' & _ & Hw0 & Hv0 & _).
  rewrite Hcopy in Hcopy'. injection Hcopy' as <-. cbn [mem accts] in Hv0. fold v in Hv0.
  destruct (shallow_copy_invariants ex v rest Hs Hn) as (Hs0 & Hn0 & Hsup0). rewrite <- Hv0 in Hs0, Hn0, Hsup0.
  assert (0 <= BlockReward) by (vm_compute; discriminate).
  rewrite Htx in Hall. cbn [apply_all] in Hall.
  apply go_bind_ret_inv in Hall as (r & _ & Hall). destruct r as [[]|]; [|discriminate].
  destruct (apply_coinbase_spec ex cb w) as (w1 & E1 & Hw1 & Hv1 & Hs1); [done..|lia|].
  assert (code_free ex (wview w1) rest) as Hn1.
  { rewrite Hv1. eapply Forall_impl; [exact Hn0|]. intros t. apply no_contract_credited. }
  rewrite E1 in Hall. cbn [mbind go_bind] in Hall. rewrite Hcb in Hall.
  pose proof (supply_credited cb (wview w)) as Hsc. rewrite <- Hv1 in Hsc.
  destruct (apply_all_payments ex rest 1 0 0 w1 w' g f) as (Hf & Hf0 & _ & Hs'); [done..|lia|lia|done|].
  unfold check_totals in Htot. rewrite Hg, Htx in Htot.
  destruct (negb _); [discriminate|]. destruct (_ <? _); [discriminate|].
  destruct (supply_bounds _ Hs') as [Hpos _].
  rewrite u64_small in Htot by (machine_bounds; lia).
  destruct (Z.eqb_spec (Tx.Amount cb) (f + BlockReward)); [|discriminate]. lia.
Qed.

(** ** Against the executor's interface *)

Section Executor.
Context (ex : option ContractExecutor).
Hypothesis lawful : forall e, ex = Some e -> LawfulExecutor e.

Lemma frame_union t w w' : exec_frame t w w' -> accts w' ∪ accts w = accts w'.
Proof using.
  intros Hf. apply map_eq. intros k. rewrite lookup_union.
  destruct (ef_keys _ _ _ Hf k) as [E|(l & a & E & _)].
  - rewrite E. by destruct (accts w !! k).
  - rewrite E. by destruct (accts w !! k).
Qed.

(** A failed execution also keeps to the frame: the map is dropped, the heap stays. *)
Lemma frame_drop t w w' : world_wf w -> exec_frame t w w' -> exec_frame t w (MkWorld (accts w) (mem w')).
Proof using.
  intros [Hv Hi] [H1 H2 H3 H4 H5]. split; try done; [|by left].
  split; simpl; [|done]. intros k l Hk. specialize (Hv k l Hk). lia.
Qed.

Lemma run_executor_framed e t ctx w w' o :
  LawfulExecutor e -> world_wf w -> run_executor e t ctx w = Ret (w', o) -> exec_frame t w w'.
Proof using.
  intros He Hw E. unfold run_executor in E. apply go_bind_ret_inv in E as ([w1 [gas err]] & Hex & E).
  pose proof (exec_framed _ _ _ _ _ _ Hw Hex) as Hf. destruct err; injection E as <- <-.
  - by apply frame_drop.
  - rewrite (frame_union t w w1 Hf). by destruct w1.
Qed.

(** *** Isolation *)

(** The first [n] cells are [base] and no account of the map lives in them. *)
Record isolated (n : nat) (base : heap) (w : world) : Prop := {
  iso_base : take n (mem w) = base;
  iso_len : (n <= length (mem w))%nat;
  iso_above : forall k l, accts w !! k = Some l -> (n <= l)%nat;
  iso_wf : world_wf w
}.

Lemma isolated_assign n base w l a :
  isolated n base w -> (n <= l)%nat -> isolated n base (MkWorld (accts w) (assign l a (mem w))).
Proof using.
  intros [H1 H2 H3 H4] Hl. split; simpl; unfold assign.
  - by rewrite take_insert_ge.
  - by rewrite length_insert.
  - done.
  - by apply wf_assign.
Qed.

Lemma isolated_credit n base w k l amount msg w' :
  isolated n base w -> accts w !! k = Some l -> credit l amount msg w = Ret w' -> isolated n base w'.
Proof using.
  intros Hi Hk E. unfold credit in E. apply go_bind_ret_inv in E as (a & _ & E).
  destruct (SafeAdd _ _) as [c|]; [|discriminate]. injection E as <-.
  apply isolated_assign; [done | by eapply iso_above].
Qed.

Lemma isolated_new n base w k amount : isolated n base w -> isolated n base (new_account k amount w).
Proof using.
  intros [H1 H2 H3 H4]. destruct (new_account_spec w k amount H4) as (Hw & _ & Ha). split; [| | |done].
  - simpl. rewrite take_app_le by done. done.
  - simpl. rewrite length_app. lia.
  - intros k' l Hl. rewrite Ha in Hl. destruct (decide (k' = k)) as [->|Hne]; simplify_map_eq; [done|]. eauto.
Qed.

Lemma isolated_frame n base t w w' : isolated n base w -> exec_frame t w w' -> isolated n base w'.
Proof using.
  intros [H1 H2 H3 H4] [F1 F2 F3 F4 F5]. split; [| lia | | done].
  - rewrite <- H1. apply list_eq. intros i. destruct (decide (i < n)%nat) as [Hi|Hi].
    + rewrite !lookup_take_lt by done. apply F3; [lia|]. intros E. specialize (H3 _ _ E). lia.
    + rewrite !lookup_take_ge by lia. done.
  - intros k l Hl. destruct (F5 k) as [E|(l' & a & E & Hge & _)].
    + rewrite E in Hl. eauto.
    + rewrite E in Hl. injection Hl as <-. lia.
Qed.

Lemma isolated_settle n base t from cost gas w w' r :
  isolated n base w -> (n <= from)%nat -> settle t from cost gas w = Ret (w', r) -> isolated n base w'.
Proof using.
  intros Hi Hk. unfold settle. destruct (_ <? _); [by intros [= <- <-]|].
  destruct (SafeAdd _ _) as [c|]; [|discriminate]. intros E. apply go_bind_ret_inv in E as (a & _ & E).
  destruct (SafeSubtract _ _) as [b|]; [|discriminate]. injection E as <- <-. by apply isolated_assign.
Qed.

Lemma isolated_transfer_to n base t gas w w' g :
  isolated n base w -> transfer_to ex t gas w = Ret (w', g) -> isolated n base w'.
Proof.
  intros Hi. unfold transfer_to. destruct (accts w !! Tx.To t) as [l|] eqn:El.
  - intros E. apply go_bind_ret_inv in E as (w1 & Hc & E).
    pose proof (isolated_credit _ _ _ _ _ _ _ _ Hi El Hc) as Hi1.
    apply go_bind_ret_inv in E as (a & _ & E).
    destruct (Acct.Instructions a); [by injection E as <- <-|].
    destruct ex as [e|] eqn:Hex; [|by injection E as <- <-].
    apply go_bind_ret_inv in E as ([w2 o] & Hrun & E).
    pose proof (run_executor_framed e t _ w1 w2 o (lawful e eq_refl) (iso_wf _ _ _ Hi1) Hrun) as Hf.
    pose proof (isolated_frame _ _ _ _ _ Hi1 Hf). destruct o; by injection E as <- <-.
  - intros [= <- <-]. by apply isolated_new.
Qed.

Lemma isolated_deployment n base t from cost w w' r :
  isolated n base w -> (n <= from)%nat -> apply_deployment ex t from cost w = Ret (w', r) -> isolated n base w'.
Proof.
  intros Hi Hfrom E. unfold apply_deployment in E. apply go_bind_ret_inv in E as (a & _ & E).
  destruct (invalid_instruction _); [by injection E as <- <-|].
  destruct ex as [e|] eqn:Hex; [|by injection E as <- <-].
  apply go_bind_ret_inv in E as ([w2 o] & Hrun & E).
  pose proof (run_executor_framed e t _ w w2 o (lawful e eq_refl) (iso_wf _ _ _ Hi) Hrun) as Hf.
  pose proof (isolated_frame _ _ _ _ _ Hi Hf). destruct o; [by eapply isolated_settle | by injection E as <- <-].
Qed.

Lemma isolated_ApplyTransaction n base t w w' r :
  isolated n base w -> ApplyTransaction ex t w = Ret (w', r) -> isolated n base w'.
Proof.
  intros Hi. unfold ApplyTransaction. destruct (isCoinbase t).
  - intros E. apply go_bind_ret_inv in E as (w1 & Hc & E). injection E as <- <-. unfold apply_coinbase in Hc.
    destruct (accts w !! Tx.To t) as [l|] eqn:El; [by eapply isolated_credit|].
    injection Hc as <-. by apply isolated_new.
  - destruct (accts w !! Tx.From t) as [from|] eqn:El; [|by intros [= <- <-]].
    pose proof (iso_above _ _ _ Hi _ _ El) as Hfrom. destruct (isContractDeployment t).
    + destruct (SafeAdd _ _) as [c|]; [|discriminate]. by apply isolated_deployment.
    + destruct (negb _); [|by intros [= <- <-]]. unfold apply_transfer. intros E.
      apply go_bind_ret_inv in E as ([w1 g] & Ht & E).
      eapply isolated_settle; [by eapply isolated_transfer_to | done | exact E].
Qed.

Lemma isolated_apply_all n base txs i g f w w' r :
  isolated n base w -> apply_all ex i txs g f w = Ret (w', r) -> isolated n base w'.
Proof.
  revert i g f w. induction txs as [|t txs IH]; intros i g f w Hi; cbn [apply_all]; [by intros [= <- <-]|].
  intros E. apply go_bind_ret_inv in E as (v & _ & E). destruct v; [|by injection E as <- <-].
  apply go_bind_ret_inv in E as ([w1 [gas err]] & Happ & E).
  pose proof (isolated_ApplyTransaction _ _ _ _ _ _ Hi Happ) as Hi1.
  destruct err; [by injection E as <- <-|]. destruct (isCoinbase t); eapply IH; eassumption.
Qed.

(** Block validation does not touch the state it validates against: whatever
    the outcome and whatever the contracts do, the heap it returns extends the
    old one, so the accounts of the chain read as before, and the accounts of an
    accepted block live in new cells only. *)
Lemma ValidateBlock_isolated b chain h h' r :
  wf h (AccountStates chain) -> ValidateBlock ex b chain h = Ret (h', r) ->
  (exists ext, h' = h ++ ext)
  /\ view h' (AccountStates chain) = view h (AccountStates chain)
  /\ (forall m', r = Ok m' -> wf h' m' /\ forall k l, m' !! k = Some l -> (length h <= l)%nat).
Proof.
  intros Hwf E.
  assert (forall h2, take (length h) h2 = h -> (exists ext, h2 = h ++ ext)
            /\ view h2 (AccountStates chain) = view h (AccountStates chain)) as Hext.
  { intros h2 Ht. rewrite <- (take_drop (length h) h2), Ht. split; [by eexists|].
    apply view_app. exact (wf_valid _ _ Hwf). }
  unfold ValidateBlock in E. apply go_bind_ret_inv in E as (v & _ & E). destruct v.
  2: { injection E as <- <-. destruct (Hext h) as [X Y]; [by apply take_ge|]. done. }
  apply go_bind_ret_inv in E as (w & Hw & E). apply go_bind_ret_inv in E as ([w' x] & Hall & E).
  destruct (copy_world_spec (MkWorld (AccountStates chain) h) Hwf) as (w0 & ext & Hw' & Hm & Hwf0 & _ & Habove).
  rewrite Hw in Hw'. injection Hw' as <-. cbn [mem] in *.
  assert (isolated (length h) h w) as Hiso.
  { split; [| | done | done]; rewrite Hm; [by rewrite take_app_length | rewrite length_app; lia]. }
  pose proof (isolated_apply_all _ _ _ _ _ _ _ _ _ Hiso Hall) as [J1 J2 J3 J4].
  destruct (Hext (mem w') J1) as [X Y]. destruct x as [[g f]|e].
  - apply go_bind_ret_inv in E as (t & _ & E). injection E as <- <-. split_and!; [done | done |].
    intros m' Hr. destruct t; [|discriminate]. injection Hr as <-. by split.
  - injection E as <- <-. done.
Qed.


(** The frame of an execution keeps the sender's pointer, unless the new
    contract takes the sender's own address. *)
Definition own_address (t : Tx.Transaction) (w : world) : Prop :=
  exists a, account w (Tx.From t) = Some a
    /\ Tx.From t = Merkle.GenerateContractAddress (Tx.From t) (Acct.Nonce a).

Lemma frame_from t w w' l :
  exec_frame t w w' -> accts w !! Tx.From t = Some l ->
  accts w' !! Tx.From t = Some l \/ own_address t w.
Proof using.
  intros Hf Hl. destruct (ef_keys _ _ _ Hf (Tx.From t)) as [->|(l' & a & _ & _ & Ha & Ek)]; [by left|].
  right. by exists a.
Qed.

(** *** Replay *)

(** The sender's pointer and the nonce behind it. *)
Definition sender_nonce (t : Tx.Transaction) (from : loc) (n : Z) (w : world) : Prop :=
  accts w !! Tx.From t = Some from /\ exists a, mem w !! from = Some a /\ Acct.Nonce a = n.

Lemma sender_nonce_credit t from n w k l amount msg w' :
  sender_nonce t from n w -> accts w !! k = Some l -> credit l amount msg w = Ret w' -> sender_nonce t from n w'.
Proof using.
  intros [Hk (a & Ha & Hn)] Hl E. unfold credit in E. apply go_bind_ret_inv in E as (b & Hb & E).
  destruct (SafeAdd _ _) as [c|]; [|discriminate]. injection E as <-. split; [done|]. simpl. unfold assign.
  unfold deref in Hb. destruct (mem w !! l) as [b'|] eqn:El; [|discriminate]. injection Hb as <-.
  destruct (decide (l = from)) as [->|Hne].
  - rewrite list_lookup_insert_eq by (by eapply lookup_lt_Some). eexists. split; [done|]. simpl. congruence.
  - rewrite list_lookup_insert_ne by done. eauto.
Qed.

Lemma sender_nonce_new t from n w :
  sender_nonce t from n w -> accts w !! Tx.To t = None -> sender_nonce t from n (new_account (Tx.To t) (Tx.Amount t) w).
Proof using.
  intros [Hk (a & Ha & Hn)] Hto. split; simpl.
  - rewrite lookup_insert_ne; [done|]. congruence.
  - exists a. split; [|done]. by apply lookup_app_l_Some.
Qed.

Lemma sender_nonce_frame t from n w w' :
  sender_nonce t from n w -> exec_frame t w w' -> sender_nonce t from n w' \/ own_address t w.
Proof using.
  intros [Hk (a & Ha & Hn)] Hf. destruct (frame_from t w w' from Hf Hk) as [Hk'|]; [left | by right].
  split; [done|]. destruct (ef_nonce _ _ _ Hf from a Ha) as (a' & ? & ?). exists a'. split; [done | congruence].
Qed.

Lemma sender_nonce_settle t from n cost gas w w' g :
  sender_nonce t from n w -> settle t from cost gas w = Ret (w', (g, None)) -> sender_nonce t from (u64 (n + 1)) w'.
Proof using.
  intros [Hk (a & Ha & Hn)]. unfold settle. destruct (_ <? _); [discriminate|].
  destruct (SafeAdd _ _) as [c|]; [|discriminate]. unfold deref. rewrite Ha. cbn [mbind go_bind].
  destruct (SafeSubtract _ _) as [b|]; [|discriminate]. intros [= <- <-]. split; [done|].
  simpl. unfold assign. rewrite list_lookup_insert_eq by (by eapply lookup_lt_Some).
  eexists. split; [done|]. simpl. by rewrite Hn.
Qed.

(** A nonce is never its own successor. *)
Lemma nonce_successor n : is_u64 n -> u64 (n + 1) <> n.
Proof using.
  intros Hn E. destruct (decide (n + 1 < 2 ^ 64)) as [Hlt|Hge].
  - rewrite u64_small in E; machine_bounds; lia.
  - assert (n = 2 ^ 64 - 1) as -> by (machine_bounds; lia). discriminate E.
Qed.

Lemma own_address_credit t w k l amount msg w' from n :
  sender_nonce t from n w -> sender_nonce t from n w' ->
  credit l amount msg w = Ret w' -> accts w !! k = Some l -> own_address t w' -> own_address t w.
Proof using.
  intros [Hk (a & Ha & Hn)] [Hk' (a' & Ha' & Hn')] _ _ (b & Hb & E). unfold account in *.
  rewrite lookup_view, Hk' in Hb. simpl in Hb. assert (b = a') as -> by congruence.
  exists a. split; [unfold account; by rewrite lookup_view, Hk|]. rewrite Hn, <- Hn'. exact E.
Qed.

(** The state in which the sender is charged still has its old nonce. *)
Lemma transfer_to_sender t gas w w' g from n :
  world_wf w -> sender_nonce t from n w -> transfer_to ex t gas w = Ret (w', g) ->
  sender_nonce t from n w' \/ own_address t w.
Proof.
  intros Hw Hs. unfold transfer_to. destruct (accts w !! Tx.To t) as [l|] eqn:El.
  - intros E. apply go_bind_ret_inv in E as (w1 & Hc & E).
    pose proof (sender_nonce_credit _ _ _ _ _ _ _ _ _ Hs El Hc) as Hs1.
    assert (world_wf w1) as Hw1.
    { unfold credit in Hc. apply go_bind_ret_inv in Hc as (b & _ & Hc).
      destruct (SafeAdd _ _) as [c|]; [|discriminate]. injection Hc as <-. by apply wf_assign. }
    apply go_bind_ret_inv in E as (a & _ & E).
    destruct (Acct.Instructions a); [injection E as <- <-; by left|].
    destruct ex as [e|] eqn:Hex; [|injection E as <- <-; by left].
    apply go_bind_ret_inv in E as ([w2 o] & Hrun & E).
    pose proof (run_executor_framed e t _ w1 w2 o (lawful e eq_refl) Hw1 Hrun) as Hf.
    assert (w' = w2) as -> by (destruct o; by injection E).
    destruct (sender_nonce_frame _ _ _ _ _ Hs1 Hf) as [|Ho]; [by left | right].
    by eapply own_address_credit.
  - intros [= <- <-]. left. by apply sender_nonce_new.
Qed.

Lemma apply_sender t w w' g from n :
  world_wf w -> isCoinbase t = false -> (Tx.To t <> PublicKey_zero \/ isContractDeployment t = true) ->
  sender_nonce t from n w -> ApplyTransaction ex t w = Ret (w', (g, None)) ->
  sender_nonce t from (u64 (n + 1)) w' \/ own_address t w.
Proof.
  intros Hw Hc Hkind Hs. unfold ApplyTransaction. rewrite Hc, (proj1 Hs).
  destruct (isContractDeployment t) eqn:Hdep.
  - destruct (SafeAdd _ _) as [c|]; [|discriminate]. unfold apply_deployment. intros E.
    apply go_bind_ret_inv in E as (a & _ & E). destruct (invalid_instruction _); [discriminate|].
    destruct ex as [e|] eqn:Hex; [|discriminate]. apply go_bind_ret_inv in E as ([w2 o] & Hrun & E).
    pose proof (run_executor_framed e t _ w w2 o (lawful e eq_refl) Hw Hrun) as Hf.
    destruct o as [eg|]; [|discriminate].
    destruct (sender_nonce_frame _ _ _ _ _ Hs Hf) as [Hs2|]; [left | by right].
    by eapply sender_nonce_settle.
  - destruct Hkind as [Hto|]; [|done]. rewrite bool_decide_false by done. unfold apply_transfer. intros E.
    apply go_bind_ret_inv in E as ([w1 g1] & Ht & E).
    destruct (transfer_to_sender _ _ _ _ _ _ _ Hw Hs Ht) as [Hs1|]; [left | by right].
    by eapply sender_nonce_settle.
Qed.

(** C4. No replay: once a payment or a deployment has been applied, validation
    refuses it, whatever the contracts it ran did (short of a deployment whose
    generated address is the sender's own). *)
Theorem applied_transaction_not_replayable t w w' g :
  tx_u64 t -> world_wf w -> solvent (wview w) ->
  isCoinbase t = false -> (Tx.To t <> PublicKey_zero \/ isContractDeployment t = true) ->
  ~ own_address t w ->
  ValidateTransaction t w = Ret (Ok ()) -> ApplyTransaction ex t w = Ret (w', (g, None)) ->
  ValidateTransaction t w' <> Ret (Ok ()).
Proof.
  intros Ht Hw Hsol Hc Hkind Hown Hval Happ Hrep.
  destruct (validated_sender t w Ht Hw Hsol Hc Hval) as (from & a & Hk & Ha & _ & Hnonce).
  assert (sender_nonce t from (Acct.Nonce a) w) as Hs.
  { split; [done|]. rewrite lookup_view, Hk in Ha. exists a. by split. }
  destruct (apply_sender t w w' g from _ Hw Hc Hkind Hs Happ) as [[Hk' (a' & Ha' & Hn')]|]; [|done].
  revert Hrep. unfold ValidateTransaction. rewrite Hc, Hk'.
  repeat (destruct (ValidateAmount _); [|discriminate]). destruct (_ =? 0); [discriminate|].
  destruct (_ =? 0); [discriminate|]. destruct (negb _); [discriminate|].
  unfold deref. rewrite Ha'. cbn [mbind go_bind]. unfold check_sender.
  destruct (total_cost t) as [total|]; cbn [mbind res_bind]; [|discriminate].
  destruct (_ <? _); [discriminate|]. rewrite Hn', <- Hnonce, (proj2 (Z.eqb_neq _ _)); [discriminate|].
  intros E. symmetry in E. exact (nonce_successor _ (u_Nonce _ Ht) E).
Qed.

End Executor.

(** The exception: a transaction to the zero address without code is applied
    without charging its sender or advancing its nonce, so it stays valid for
    ever, while its gas is counted as used. *)
Theorem zero_address_replayable ex t w :
  isCoinbase t = false -> Tx.To t = PublicKey_zero -> Tx.Instructions t = [] ->
  is_Some (accts w !! Tx.From t) ->
  ApplyTransaction ex t w = Ret (w, (GasTransfer, None)).
Proof.
  intros Hc Hto Hi [l Hl]. unfold ApplyTransaction, isContractDeployment.
  by rewrite Hc, Hl, Hto, Hi, bool_decide_true by done.
Qed.

(** Any transaction from the zero address is a coinbase wherever it stands in a
    block: no signature, no balance and no limit on its amount, which it mints. *)
Theorem coinbase_mints_anywhere ex t w :
  isCoinbase t = true -> tx_u64 t -> world_wf w -> solvent (wview w) ->
  supply (wview w) + Tx.Amount t < 2 ^ 64 ->
  ValidateTransaction t w = Ret (Ok ())
  /\ exists w', ApplyTransaction ex t w = Ret (w', (0, None))
       /\ supply (wview w') = supply (wview w) + Tx.Amount t.
Proof.
  intros Hc Ht Hw Hs Hsup. split.
  - destruct Ht. unfold ValidateTransaction. by rewrite !ValidateAmount_u64, Hc by done.
  - destruct (apply_coinbase_spec ex t w) as (w' & E & _ & Hv & _); [done..|].
    exists w'. split; [done|]. by rewrite Hv, supply_credited.
Qed.

End Spec.

(** ** Header chains *)

Definition meets (h : Hdr.BlockHeader) : Prop :=
  Work.BlockHashMeetsDifficulty (Hdr.GetHash h) (Hdr.Bits h) = true.

Definition links (p h : Hdr.BlockHeader) : Prop :=
  Hdr.PreviousHash h = Hdr.GetHash p /\ Hdr.Height h = u64 (Hdr.Height p + 1)
  /\ Hdr.Timestamp p < Hdr.Timestamp h.

(** Consecutive headers are linked. *)
Definition linked (hs : list Hdr.BlockHeader) : Prop :=
  forall i p h, hs !! i = Some p -> hs !! S i = Some h -> links p h.

Lemma linked_cons p h hs : links p h -> linked (h :: hs) -> linked (p :: h :: hs).
Proof.
  intros Hl Hs [|i] p' h'; simpl; [by intros [= <-] [= <-] | apply (Hs i)].
Qed.

Lemma ValidateHeaderStructure_meets h : ValidateHeaderStructure h = Ok () -> meets h.
Proof. unfold ValidateHeaderStructure, meets. by destruct (Work.BlockHashMeetsDifficulty _ _). Qed.

Lemma ValidateHeaderStructure_height h : 0 < Hdr.Height h -> meets h -> ValidateHeaderStructure h = Ok ().
Proof.
  intros Hh Hm. unfold ValidateHeaderStructure. rewrite Hm, (proj2 (Z.eqb_neq _ _)) by lia. done.
Qed.

Lemma ok_match {E} (r : res E unit) : match r with Ok _ => true | Err _ => false end = true -> r = Ok ().
Proof. by destruct r as [[]|]. Qed.

Lemma header_loop_sound p hs : header_loop p hs = true -> linked (p :: hs) /\ Forall meets hs.
Proof.
  revert p. induction hs as [|h hs IH]; intros p; cbn [header_loop].
  - intros _. split; [intros [|i] ? ?; done | constructor].
  - unfold header_step. intros E. bool_to_prop.
    destruct (IH h) as [Hl Hm]; [done|]. split.
    + apply linked_cons; [by split_and! | done].
    + constructor; [|done]. by apply ValidateHeaderStructure_meets, ok_match.
Qed.

(** The work a list of headers adds. *)
Definition work_sum (hs : list Hdr.BlockHeader) : Z :=
  fold_right (fun h n => Work.GetBlockWork (Hdr.Bits h) + n) 0 hs.

Lemma ValidateHeaderTotalWork_inv h w :
  ValidateHeaderTotalWork h (dec w) = Ok () -> 0 < Hdr.Height h ->
  meets h /\ Hdr.TotalWork h = dec (w + Work.GetBlockWork (Hdr.Bits h)).
Proof.
  unfold ValidateHeaderTotalWork. intros E Hh. apply res_bind_ok_inv in E as ([] & Hs & E).
  split; [by apply ValidateHeaderStructure_meets|]. rewrite (proj2 (Z.ltb_lt _ _)) in E by done.
  destruct (String.eqb_spec (Hdr.TotalWork h) (Work.AddWork (dec w) (Work.CalculateBlockWorkFromBits (Hdr.Bits h))))
    as [E'|]; [|discriminate]. rewrite E'. apply Work.AddWork_dec.
Qed.

Lemma header_work_loop_sound hs prev w :
  Forall (fun h => 0 < Hdr.Height h) hs -> header_work_loop prev (dec w) hs = true ->
  Forall meets hs /\ linked hs
  /\ (forall p h, prev = Some p -> hs !! 0%nat = Some h -> links p h)
  /\ (forall h, last hs = Some h -> Hdr.TotalWork h = dec (w + work_sum hs)).
Proof.
  intros Hh. revert prev w. induction Hh as [|h hs Hpos Hrest IH]; intros prev w; cbn [header_work_loop].
  - intros _. split_and!; try done; by constructor.
  - intros E. bool_to_prop. apply ok_match in H.
    destruct (ValidateHeaderTotalWork_inv h w H Hpos) as [Hm Hw].
    rewrite Hw in H0. destruct (IH (Some h) (w + Work.GetBlockWork (Hdr.Bits h))) as (I1 & I2 & I3 & I4); [done|].
    split_and!.
    + by constructor.
    + destruct hs as [|h' hs]; [intros [|i] ? ?; done|]. apply linked_cons; [by apply I3 | done].
    + intros p h' -> [= <-]. bool_to_prop. by split_and!.
    + intros h'. destruct hs as [|h2 hs].
      * intros [= <-]. rewrite Hw. f_equal. simpl. lia.
      * intros Hl. rewrite (I4 h' Hl). f_equal. cbn [work_sum fold_right]. unfold work_sum. cbn [fold_right]. lia.
Qed.

(** C13. A header chain accepted with its work is a chain: every header meets its own
    target, consecutive headers are linked by hash, height and time, and the
    last header's total work is the starting work plus the work of every
    header. *)
Theorem ValidateHeaderChainWithWork_sound hs start :
  Forall (fun h => 0 < Hdr.Height h) hs -> ValidateHeaderChainWithWork hs (dec start) = true ->
  hs <> [] /\ Forall meets hs /\ linked hs
  /\ forall h, last hs = Some h -> Hdr.TotalWork h = dec (start + work_sum hs).
Proof.
  intros Hh E. destruct hs as [|h hs]; [discriminate|].
  destruct (header_work_loop_sound (h :: hs) None start Hh E) as (H1 & H2 & _ & H4). done.
Qed.

(** Without the work, the first header is taken on trust and everything after
    it is checked. *)
Lemma ValidateHeaderChain_sound hs :
  ValidateHeaderChain hs = true -> hs <> [] /\ linked hs /\ Forall meets (tail hs).
Proof. destruct hs as [|h rest]; [discriminate|]. intros E. by destruct (header_loop_sound h rest E). Qed.

(** ** Applying blocks *)

(** A hash above the genesis target is not the genesis hash. *)
Lemma not_genesis b :
  Work.BlockHashMeetsDifficulty (Blk.GetHash b) GetTargetCompact = false -> is_genesis b = false.
Proof.
  intros Hb. unfold is_genesis. apply bool_decide_eq_false. intros E.
  pose proof Work.genesis_meets as Hg. unfold Blk.GetHash in Hb, Hg. rewrite <- E in Hg.
  change (Hdr.Bits (Header Work.GenesisBlock)) with GetTargetCompact in Hg. congruence.
Qed.

(** C12. Accepted blocks extend the tip: the parent is known and, if there is a tip,
    is the tip; the proof of work meets the target the chain requires; the
    Merkle root is right; time moves on. *)
Theorem validateBlockStructure_extends_tip b chain :
  is_genesis b = false -> validateBlockStructure b chain = Ret (Ok ()) ->
  exists parent, GetBlock chain (Hdr.PreviousHash (Header b)) = Some parent
    /\ (forall tip, Tip chain = Some tip -> Blk.GetHash tip = Hdr.PreviousHash (Header b))
    /\ meets (Header b)
    /\ Work.GetTargetBits (len (Blocks chain)) (Blocks chain) = Ret (Hdr.Bits (Header b))
    /\ Merkle.MerkleTransactions (Transactions b) = Hdr.MerkleRoot (Header b)
    /\ Hdr.Timestamp (Header parent) < Hdr.Timestamp (Header b).
Proof.
  intros Hg. unfold validateBlockStructure. rewrite Hg. unfold GetBlockByHash.
  destruct (GetBlock chain _) as [parent|] eqn:Ep; [|discriminate].
  rewrite bool_decide_true by eauto. cbn iota.
  match goal with |- (if ?c then _ else _) = _ -> _ => destruct c eqn:Hfork end; [discriminate|].
  destruct (negb (Work.BlockHashMeetsDifficulty _ _)) eqn:Hpow; [discriminate|]. intros E.
  apply go_bind_ret_inv in E as (bits & Hbits & E).
  destruct (negb (_ =? bits)) eqn:Eb; [discriminate|].
  destruct (negb (bool_decide _)) eqn:Em; [discriminate|].
  destruct (_ <=? _) eqn:Et; [discriminate|]. bool_to_prop. exists parent.
  split_and!; [done | | done | congruence | done | done].
  intros tip Htip. rewrite Htip in Hfork. bool_to_prop. done.
Qed.

Section Apply.
Context `{Signatures} (ex : option ContractExecutor).
Hypothesis lawful : forall e, ex = Some e -> LawfulExecutor e.

(** Every account [m] points to reads the same in [h'] as in [h]. *)
Definition accounts_unchanged (h h' : heap) (m : accounts) : Prop := view h' m = view h m.

(** C2. Applying a block is all or nothing: an error leaves the chain and every
    account as they were; success adds the block, replaces the accounts by the
    validated ones, keeps the chain invariant, and the old accounts still read
    as before. *)
Theorem ValidateAndApplyBlock_atomic b chain h chain' h' err :
  wf h (AccountStates chain) -> ChainSpec.chain_ok chain -> is_u64 (Hdr.Height (Header b)) ->
  ValidateAndApplyBlock ex b chain h = Ret (chain', h', err) ->
  accounts_unchanged h h' (AccountStates chain)
  /\ wf h' (AccountStates chain') /\ ChainSpec.chain_ok chain'
  /\ match err with
     | Some e => chain' = chain /\ ValidateBlock ex b chain h = Ret (h', Err e)
     | None => GetBlock chain' (Blk.GetHash b) = Some b
               /\ ValidateBlock ex b chain h = Ret (h', Ok (AccountStates chain'))
     end.
Proof.
  intros Hwf Hok Hu E. unfold ValidateAndApplyBlock in E.
  apply go_bind_ret_inv in E as ([h1 r] & Hv & E).
  destruct (ValidateBlock_isolated ex lawful b chain h h1 r Hwf Hv) as ((ext & Hext) & Hview & Hnew).
  destruct r as [m|e]; injection E as <- <- <-.
  - destruct (Hnew m eq_refl) as [Hm _]. split_and!; try done.
    + apply ChainSpec.AddBlock_ok; [done|]. by destruct Hok.
    + unfold GetBlock, ApplyBlock. simpl. unfold GetHash. by rewrite lookup_insert_eq.
  - split_and!; try done. rewrite Hext. by apply wf_app.
Qed.

End Apply.
End ValidationSpec.
