(* ===== verification/Mempool.v ===== *)
(** * The transaction pool (src/node/mempool.go)

    Pending transactions in a heap ordered by gas price, with a map from
    transaction hashes to the same entries.  Entries are not changed once they
    are made, so a [*MempoolEntry] is its value.  A time is a number of
    nanoseconds and [time.Now()] an argument.  Go ranges over a map in no fixed
    order: an operation that does takes the order as an argument, and the
    theorems hold for every order.  Every method holds the pool's lock from
    beginning to end, so the operations are atomic. *)

From Stdlib Require Import Sorted.
From S2P Require Import Prelude GoLib Config Utils Bytecode GoHeap Ledger Chain Validation ValidationSpec.

Module Mempool.
Import Heap Validation.

Record MempoolEntry := MkEntry {
  Transaction : Tx.Transaction;
  AddedAt : Z;
  GasPrice : Z
}.

#[global] Instance MempoolEntry_inhabited : Inhabited MempoolEntry :=
  populate (MkEntry (Tx.MkTx [] [] 0 [] 0 0 0 [] 0 0 []) 0 0).

(** ** [GasPriceQueue] *)

Definition less (x y : MempoolEntry) : bool :=
  if negb (GasPrice x =? GasPrice y) then GasPrice y <? GasPrice x
  else AddedAt x <? AddedAt y.

(** ** [Mempool] *)

Record Mempool := MkPool {
  queue : list MempoolEntry;
  transactions : gmap Hash32 MempoolEntry
}.

Definition NewMempool : Mempool := MkPool (Init less []) ∅.

Definition Size (mp : Mempool) : Z := Z.of_nat (size (transactions mp)).

Definition IsFull (mp : Mempool) : bool := MempoolMaxSize <=? Size mp.

(** A map in some order of iteration. *)
Abbreviation order := (list (Hash32 * MempoolEntry)).

Definition rebuildHeap (o : order) (mp : Mempool) : Mempool :=
  MkPool (Init less o.*2) (transactions mp).

(** The linear search: the index of the lowest price so far, and the price. *)
Fixpoint lowest_loop (q : list MempoolEntry) (i : nat) (rest : list MempoolEntry)
    (lowestIdx : nat) (lowestGasPrice : Z) : nat :=
  match rest with
  | [] => lowestIdx
  | entry :: rest =>
      if (GasPrice entry <? lowestGasPrice)
         || ((GasPrice entry =? lowestGasPrice) && (AddedAt (q !!! lowestIdx) <? AddedAt entry))
      then lowest_loop q (S i) rest i (GasPrice entry)
      else lowest_loop q (S i) rest lowestIdx lowestGasPrice
  end.

Definition lowest (q : list MempoolEntry) : nat := lowest_loop q 0 q 0 (GasPrice (q !!! 0%nat)).

(** Drop the entry at index [i]: the last one takes its place. *)
Definition remove_at (i : nat) (q : list MempoolEntry) : list MempoolEntry :=
  let lastIdx := (length q - 1)%nat in
  if negb (i =? lastIdx)%nat then Fix less (take lastIdx (<[i := q !!! lastIdx]> q)) i
  else take lastIdx q.

Definition removeLowestGasPrice (mp : Mempool) : Mempool :=
  match queue mp with
  | [] => mp
  | q =>
      let lowestIdx := lowest q in
      let lowestEntry := q !!! lowestIdx in
      MkPool (remove_at lowestIdx q)
        (delete (Tx.GetHash (Transaction lowestEntry)) (transactions mp))
  end.

(** Both structures get the entry. *)
Definition add_entry (entry : MempoolEntry) (mp : Mempool) : Mempool :=
  MkPool (Push less entry (queue mp)) (<[Tx.GetHash (Transaction entry) := entry]> (transactions mp)).

Definition AddTransaction (now : Z) (tx : Tx.Transaction) (mp : Mempool) : Mempool * bool :=
  match transactions mp !! Tx.GetHash tx with
  | Some _ => (mp, false)
  | None =>
      let entry := MkEntry tx now (Tx.GasPrice tx) in
      if MempoolMaxSize <=? Size mp then
        match last (queue mp) with
        | Some lowestGasPriceEntry =>
            if Tx.GasPrice tx <=? GasPrice lowestGasPriceEntry then (mp, false)
            else (add_entry entry (removeLowestGasPrice mp), true)
        | None => (add_entry entry mp, true)
        end
      else (add_entry entry mp, true)
  end.

(** [range mp.transactions] with the deletion of the entries [bad] holds of;
    the map left and how many were removed. *)
Fixpoint sweep (bad : MempoolEntry -> go bool) (o : order) (m : gmap Hash32 MempoolEntry) (removed : Z)
    : go (gmap Hash32 MempoolEntry * Z) :=
  match o with
  | [] => Ret (m, removed)
  | (hash, entry) :: rest =>
      b ← bad entry;
      if (b : bool) then sweep bad rest (delete hash m) (removed + 1) else sweep bad rest m removed
  end.

(** Both sweeps end by rebuilding the heap when something was removed; [o1] is
    the order of the sweep and [o2] that of the rebuilding. *)
Definition sweep_pool (bad : MempoolEntry -> go bool) (o1 o2 : order) (mp : Mempool) : go (Mempool * Z) :=
  x ← sweep bad o1 (transactions mp) 0;
  let mp := MkPool (queue mp) x.1 in
  Ret (if 0 <? x.2 then rebuildHeap o2 mp else mp, x.2).

(** [now.Sub(t)] as a [time.Duration], which saturates. *)
Definition time_Sub (now t : Z) : Z := Z.max (- 2 ^ 63) (Z.min (2 ^ 63 - 1) (now - t)).

Definition expired (now : Z) (entry : MempoolEntry) : bool := MempoolMaxExpiry <? time_Sub now (AddedAt entry).

Definition cleanExpiredTransactions (now : Z) (o1 o2 : order) (mp : Mempool) : go (Mempool * Z) :=
  sweep_pool (fun entry => Ret (expired now entry)) o1 o2 mp.

(** The loop of [GetTransactions] on the copy of the queue. *)
Fixpoint pop_loop (count : nat) (tempQueue : list MempoolEntry) : go (list Tx.Transaction) :=
  match count, tempQueue with
  | O, _ | _, [] => Ret []
  | S count, _ =>
      x ← Pop less tempQueue;
      rest ← pop_loop count x.2;
      Ret (Transaction x.1 :: rest)
  end.

Definition GetTransactions (now limit : Z) (o1 o2 : order) (mp : Mempool) : go (Mempool * list Tx.Transaction) :=
  x ← cleanExpiredTransactions now o1 o2 mp;
  let mp := x.1 in
  let count := if len (queue mp) <? limit then len (queue mp) else limit in
  txs ← pop_loop (Z.to_nat count) (queue mp);
  Ret (mp, txs).

Fixpoint remove_loop (txs : list Tx.Transaction) (m : gmap Hash32 MempoolEntry) (removed : Z)
    : gmap Hash32 MempoolEntry * Z :=
  match txs with
  | [] => (m, removed)
  | tx :: rest =>
      match m !! Tx.GetHash tx with
      | Some _ => remove_loop rest (delete (Tx.GetHash tx) m) (removed + 1)
      | None => remove_loop rest m removed
      end
  end.

Definition RemoveTransactions (txs : list Tx.Transaction) (o : order) (mp : Mempool) : Mempool * Z :=
  let '(m, removed) := remove_loop txs (transactions mp) 0 in
  (rebuildHeap o (MkPool (queue mp) m), removed).

Definition invalid `{Signatures} (accountStates : world) (entry : MempoolEntry) : go bool :=
  r ← ValidateTransaction (Transaction entry) accountStates;
  Ret match r with Ok _ => false | Err _ => true end.

Definition RevalidateTransactions `{Signatures} (accountStates : world) (o1 o2 : order) (mp : Mempool)
    : go (Mempool * Z) :=
  sweep_pool (invalid accountStates) o1 o2 mp.

(** ** The priority order *)

Lemma less_asym x y : less x y = true -> less y x = false.
Proof. unfold less. destruct (Z.eqb_spec (GasPrice x) (GasPrice y)), (Z.eqb_spec (GasPrice y) (GasPrice x)); simpl; lia. Qed.

#[global] Instance priority_trans : Transitive (hle less).
Proof.
  intros x y z. unfold hle, less.
  destruct (Z.eqb_spec (GasPrice y) (GasPrice x)), (Z.eqb_spec (GasPrice z) (GasPrice y)),
    (Z.eqb_spec (GasPrice z) (GasPrice x)); simpl; lia.
Qed.

(** A greater priority is a higher price, or the same price and an earlier time. *)
Lemma hle_less x y : hle less x y <-> GasPrice y < GasPrice x \/ GasPrice x = GasPrice y /\ AddedAt x <= AddedAt y.
Proof. unfold hle, less. destruct (Z.eqb_spec (GasPrice y) (GasPrice x)); simpl; lia. Qed.

Lemma lowest_loop_spec q pre rest idx :
  q = pre ++ rest -> (idx < length q)%nat -> Forall (fun e => hle less e (q !!! idx)) pre ->
  let r := lowest_loop q (length pre) rest idx (GasPrice (q !!! idx)) in
  (r < length q)%nat /\ Forall (fun e => hle less e (q !!! r)) q.
Proof.
  revert pre idx. induction rest as [|e rest IH]; intros pre idx Hq Hi Hpre; simpl.
  - rewrite app_nil_r in Hq. by subst pre.
  - assert (q = (pre ++ [e]) ++ rest) as Hq' by (by rewrite <- app_assoc).
    assert (q !!! length pre = e) as He by (rewrite Hq; by apply list_lookup_total_middle).
    replace (S (length pre)) with (length (pre ++ [e])) by (rewrite length_app; simpl; lia).
    destruct (_ || _) eqn:E.
    + replace (GasPrice e) with (GasPrice (q !!! length pre)) by (by rewrite He). apply IH; [done|rewrite Hq, length_app; simpl; lia|]. rewrite He.
      apply Forall_app. split; [|repeat constructor; apply hle_less; lia].
      eapply Forall_impl; [exact Hpre|]. intros x Hx. simpl in Hx. trans (q !!! idx); [done|].
      apply hle_less. lia.
    + apply IH; [done|done|]. apply Forall_app. split; [done|]. repeat constructor. apply hle_less. lia.
Qed.

Lemma lowest_spec q : q <> [] -> (lowest q < length q)%nat /\ Forall (fun e => hle less e (q !!! lowest q)) q.
Proof.
  intros Hq. apply (lowest_loop_spec q [] q 0); [done| |by constructor].
  destruct q; [done|simpl; lia].
Qed.

Lemma remove_at_spec q i :
  heap_ordered less q -> (i < length q)%nat ->
  q ≡ₚ q !!! i :: remove_at i q /\ heap_ordered less (remove_at i q).
Proof.
  intros Hh Hi. unfold remove_at. destruct (Nat.eqb_spec i (length q - 1)) as [->|n]; simpl.
  - split; [|by apply heap_take]. rewrite Permutation_cons_append.
    rewrite <- take_S_r by (by apply list_lookup_lookup_total_lt). by rewrite take_ge by lia.
  - apply Fix_last; [exact less_asym|apply _|done|lia].
Qed.

(** ** The invariant *)

(** Every entry is stored under its hash with its price; the queue holds the
    same entries in heap order; the pool does not exceed its size. *)
Record pool_ok (mp : Mempool) : Prop := {
  ok_keys : map_Forall (fun k e => k = Tx.GetHash (Transaction e) /\ GasPrice e = Tx.GasPrice (Transaction e))
              (transactions mp);
  ok_queue : queue mp ≡ₚ (map_to_list (transactions mp)).*2;
  ok_heap : heap_ordered less (queue mp);
  ok_size : Size mp <= MempoolMaxSize
}.

Lemma NewMempool_ok : pool_ok NewMempool.
Proof. split; simpl; [done|by rewrite map_to_list_empty|apply Init_spec; [exact less_asym|apply _]|done]. Qed.

Lemma ok_length mp : pool_ok mp -> Size mp = len (queue mp).
Proof.
  intros [_ Hq _ _]. unfold Size, len. by rewrite Hq, length_fmap, length_map_to_list.
Qed.

Lemma ok_elem mp e : pool_ok mp -> e ∈ queue mp -> transactions mp !! Tx.GetHash (Transaction e) = Some e.
Proof.
  intros [Hk Hq _ _]. rewrite Hq, list_elem_of_fmap. intros ([k e'] & -> & He%elem_of_map_to_list).
  by destruct (Hk k e' He) as [-> _].
Qed.

(** A pool with fewer transactions and its heap rebuilt. *)
Lemma rebuild_ok mp q m o :
  pool_ok mp -> m ⊆ transactions mp -> o ≡ₚ map_to_list m -> pool_ok (rebuildHeap o (MkPool q m)).
Proof.
  intros [Hk _ _ Hs] Hm Ho. destruct (Init_spec less less_asym o.*2) as [Hp Hh]. split; simpl.
  - intros k e E. apply (Hk k e). by eapply lookup_weaken.
  - by rewrite Hp, Ho.
  - done.
  - unfold Size in *. simpl. apply map_subseteq_size in Hm. lia.
Qed.

Lemma removeLowest_ok mp : pool_ok mp -> queue mp <> [] ->
  exists e, e ∈ queue mp /\ Forall (fun e' => hle less e' e) (queue mp)
    /\ transactions (removeLowestGasPrice mp) = delete (Tx.GetHash (Transaction e)) (transactions mp)
    /\ pool_ok (removeLowestGasPrice mp) /\ Size (removeLowestGasPrice mp) = Size mp - 1.
Proof.
  intros Hok Hne. destruct (lowest_spec (queue mp) Hne) as [Hi Hlow].
  pose proof (ok_length mp Hok) as Hlen. pose proof Hok as [Hk Hq Hh Hs].
  destruct (remove_at_spec (queue mp) (lowest (queue mp)) Hh Hi) as [Hp Hh'].
  set (e := queue mp !!! lowest (queue mp)) in *.
  assert (e ∈ queue mp) as He by (rewrite Hp; left).
  pose proof (ok_elem mp e Hok He) as Hm.
  assert (removeLowestGasPrice mp = MkPool (remove_at (lowest (queue mp)) (queue mp))
            (delete (Tx.GetHash (Transaction e)) (transactions mp))) as ->.
  { unfold removeLowestGasPrice, e. by destruct (queue mp). }
  assert (Size (MkPool (remove_at (lowest (queue mp)) (queue mp))
            (delete (Tx.GetHash (Transaction e)) (transactions mp))) = Size mp - 1) as Hsz.
  { unfold Size. simpl. rewrite map_size_delete_Some by done. unfold Size, len in Hlen. lia. }
  exists e. split_and!; try done. split; simpl; [|  |done|lia].
  - by apply map_Forall_delete.
  - apply (Permutation_cons_inv (a := e)). rewrite <- Hp, Hq.
    by rewrite <- (map_to_list_delete _ _ _ Hm).
Qed.

Lemma add_entry_ok now tx mp :
  pool_ok mp -> transactions mp !! Tx.GetHash tx = None -> Size mp < MempoolMaxSize ->
  pool_ok (add_entry (MkEntry tx now (Tx.GasPrice tx)) mp).
Proof.
  intros [Hk Hq Hh Hs] Hn Hlt. set (e := MkEntry tx now (Tx.GasPrice tx)).
  destruct (Push_spec less less_asym e (queue mp) Hh) as [Hp Hh']. split; simpl.
  - apply map_Forall_insert_2; done.
  - by rewrite Hp, Hq, map_to_list_insert.
  - done.
  - unfold Size in *. simpl. rewrite map_size_insert_None by done. lia.
Qed.

(** ** Adding *)

(** What [AddTransaction] answers on a pool that keeps the invariant. *)
Definition add_result (now : Z) (tx : Tx.Transaction) (mp mp' : Mempool) (added : bool) : Prop :=
  let entry := MkEntry tx now (Tx.GasPrice tx) in
  let known := is_Some (transactions mp !! Tx.GetHash tx) in
  if added then
    ~ known
    /\ (Size mp < MempoolMaxSize /\ transactions mp' = <[Tx.GetHash tx := entry]> (transactions mp)
        \/ Size mp = MempoolMaxSize
           /\ exists e, e ∈ queue mp /\ Forall (fun e' => hle less e' e) (queue mp)
                /\ GasPrice e < Tx.GasPrice tx
                /\ transactions mp' = <[Tx.GetHash tx := entry]>
                                       (delete (Tx.GetHash (Transaction e)) (transactions mp)))
  else
    mp' = mp
    /\ (known \/ Size mp = MempoolMaxSize /\ exists e, last (queue mp) = Some e /\ Tx.GasPrice tx <= GasPrice e).

Lemma AddTransaction_ok now tx mp mp' added :
  pool_ok mp -> AddTransaction now tx mp = (mp', added) -> pool_ok mp' /\ add_result now tx mp mp' added.
Proof.
  intros Hok E. unfold AddTransaction in E. unfold add_result. pose proof (ok_size mp Hok) as Hs.
  destruct (transactions mp !! Tx.GetHash tx) eqn:Hn; [injection E as <- <-; eauto|].
  assert (~ is_Some (@None MempoolEntry)) as Hno by (by intros [? ?]).
  destruct (Z.leb_spec MempoolMaxSize (Size mp)) as [Hf|Hf].
  2: { injection E as <- <-. split; [by apply add_entry_ok|]. split; [done|]. by left. }
  assert (queue mp <> []) as Hne.
  { intros Hq. pose proof (ok_length mp Hok) as Hl. rewrite Hq in Hl. unfold MempoolMaxSize in Hf. unfold len in Hl. simpl in Hl. lia. }
  destruct (last (queue mp)) as [el|] eqn:Hl; [|by apply last_None in Hl].
  destruct (Z.leb_spec (Tx.GasPrice tx) (GasPrice el)) as [Hp|Hp]; injection E as <- <-.
  - split; [done|]. split; [done|]. right. split; [lia|eauto].
  - destruct (removeLowest_ok mp Hok Hne) as (e & He & Hlow & Ht & Hok' & Hs'). split.
    + apply add_entry_ok; [done| |lia]. rewrite Ht. by apply lookup_delete_None; right.
    + split; [done|]. right. split; [lia|]. exists e. split_and!; try done; [|simpl; by rewrite Ht].
      rewrite Forall_forall in Hlow. specialize (Hlow el (last_Some_elem_of _ _ Hl)).
      apply hle_less in Hlow. lia.
Qed.

(** ** Sweeping *)

Lemma sweep_ok bad f o m r :
  NoDup o.*1 -> (forall k e, (k, e) ∈ o -> m !! k = Some e /\ bad e = Ret (f e)) ->
  exists m', sweep bad o m r = Ret (m', r + (Z.of_nat (size m) - Z.of_nat (size m')))
    /\ forall k e, m' !! k = Some e <-> m !! k = Some e /\ ~ ((k, e) ∈ o /\ f e = true).
Proof.
  revert m r. induction o as [|[k e] o IH]; intros m r Hnd Hm; simpl.
  - exists m. split; [do 2 f_equal; lia|]. intros k e. split; [|tauto]. intros E. split; [done|]. by intros [?%elem_of_nil ?].
  - apply NoDup_cons in Hnd as [Hk Hnd]. destruct (Hm k e) as [Hke Hb]; [left|]. rewrite Hb. simpl.
    assert (forall k' e', (k', e') ∈ o -> k' <> k) as Hne.
    { intros k' e' He ->. apply Hk. apply list_elem_of_fmap. by exists (k, e'). }
    destruct (f e) eqn:Hf.
    + destruct (IH (delete k m) (r + 1) Hnd) as (m' & -> & Hm').
      { intros k' e' He. rewrite lookup_delete_ne by (symmetry; by eapply Hne). apply Hm. by right. }
      exists m'. split.
      { rewrite map_size_delete_Some by done. assert (size m <> 0)%nat by (rewrite map_size_ne_0_lookup; eauto).
        do 2 f_equal. lia. }
      intros k' e'. rewrite Hm', lookup_delete_Some, elem_of_cons. split.
      * intros [[? ?] Hno]. split; [done|]. intros [[E|?] ?]; [by simplify_eq|tauto].
      * intros [E Hno]. split; [split; [|done]|tauto]. intros ->. simplify_eq. apply Hno. auto.
    + destruct (IH m r Hnd) as (m' & -> & Hm'); [intros k' e' He; apply Hm; by right|].
      exists m'. split; [done|]. intros k' e'. rewrite Hm', elem_of_cons.
      split; (intros [? Hno]; split; [done|]); [|tauto]. intros [[E|?] ?]; [injection E as -> ->; congruence|tauto].
Qed.

Lemma sweep_filter bad f o m r :
  o ≡ₚ map_to_list m -> (forall k e, m !! k = Some e -> bad e = Ret (f e)) ->
  let m' := filter (fun kv => f kv.2 = false) m in
  sweep bad o m r = Ret (m', r + (Z.of_nat (size m) - Z.of_nat (size m'))).
Proof.
  intros Ho Hb m'. destruct (sweep_ok bad f o m r) as (m1 & -> & Hm1).
  - rewrite Ho. apply NoDup_fst_map_to_list.
  - intros k e. rewrite Ho, elem_of_map_to_list. eauto.
  - assert (m1 = m') as ->; [|done]. apply map_eq. intros k. apply option_eq. intros e.
    rewrite Hm1. unfold m'. rewrite map_lookup_filter_Some, Ho, elem_of_map_to_list. simpl.
    destruct (f e); intuition congruence.
Qed.

(** A sweep keeps the invariant and leaves exactly the entries that are not bad. *)
Lemma sweep_pool_ok bad f o1 o2 mp (m' := filter (fun kv => f kv.2 = false) (transactions mp)) :
  pool_ok mp -> (forall k e, transactions mp !! k = Some e -> bad e = Ret (f e)) ->
  o1 ≡ₚ map_to_list (transactions mp) -> o2 ≡ₚ map_to_list m' ->
  exists mp', sweep_pool bad o1 o2 mp = Ret (mp', Z.of_nat (size (transactions mp)) - Z.of_nat (size m'))
    /\ transactions mp' = m' /\ pool_ok mp'.
Proof.
  intros Hok Hb Ho1 Ho2. unfold sweep_pool. rewrite (sweep_filter bad f) by done. fold m'. simpl. rewrite Z.add_0_l.
  assert (m' ⊆ transactions mp) as Hsub by apply map_filter_subseteq.
  destruct (Z.ltb_spec 0 (Z.of_nat (size (transactions mp)) - Z.of_nat (size m'))); eexists; (split; [reflexivity|]).
  - split; [done|]. by eapply rebuild_ok.
  - simpl. split; [done|]. assert (m' = transactions mp) as -> by (apply map_subseteq_size_eq; [done|lia]).
    by destruct mp.
Qed.

(** ** Taking the best *)

(** [es] are the best of [es ++ rest], best first. *)
Definition best (es rest : list MempoolEntry) : Prop :=
  StronglySorted (hle less) es /\ forall e e', e ∈ es -> e' ∈ rest -> hle less e e'.

Lemma pop_loop_ok n q : heap_ordered less q ->
  exists es rest, pop_loop n q = Ret (map Transaction es) /\ q ≡ₚ es ++ rest
    /\ length es = (n `min` length q)%nat /\ best es rest.
Proof.
  revert q. induction n as [|n IH]; intros q Hh.
  { exists [], q. split_and!; [done|done|done|]. split; [constructor|]. by intros e e' ?%elem_of_nil. }
  destruct q as [|a q'] eqn:Eq.
  { exists [], []. split_and!; [done|done|done|]. split; [constructor|]. by intros e e' ?%elem_of_nil. }
  rewrite <- Eq in *. assert (q <> []) as Hne by (by rewrite Eq).
  destruct (Pop_spec less less_asym q Hh Hne) as (x & l & Hpop & Hperm & Hl & Hx).
  destruct (IH l Hl) as (es & rest & He & Hp & Hlen & Hs & Hr). rewrite Forall_forall in Hx.
  exists (x :: es), rest. split_and!.
  - assert (pop_loop (S n) q = (x ← Pop less q; rest ← pop_loop n x.2; Ret (Transaction x.1 :: rest))) as ->
      by (by rewrite Eq).
    rewrite Hpop. simpl. by rewrite He.
  - by rewrite Hperm, Hp.
  - rewrite Hperm. simpl. by rewrite Hlen.
  - split.
    + constructor; [done|]. apply Forall_forall. intros y Hy. apply Hx. rewrite Hp. apply elem_of_app. by left.
    + intros e e' [-> |He']%elem_of_cons Hrest; [apply Hx; rewrite Hp; apply elem_of_app; by right|eauto].
Qed.

(** The transactions that have not expired. *)
Definition live (now : Z) (mp : Mempool) : gmap Hash32 MempoolEntry :=
  filter (fun kv => expired now kv.2 = false) (transactions mp).

Lemma GetTransactions_ok now limit o1 o2 mp :
  pool_ok mp -> o1 ≡ₚ map_to_list (transactions mp) -> o2 ≡ₚ map_to_list (live now mp) ->
  exists mp' es rest,
    GetTransactions now limit o1 o2 mp = Ret (mp', map Transaction es)
    /\ pool_ok mp' /\ transactions mp' = live now mp
    /\ (map_to_list (live now mp)).*2 ≡ₚ es ++ rest
    /\ length es = (Z.to_nat limit `min` size (live now mp))%nat
    /\ best es rest.
Proof.
  intros Hok Ho1 Ho2. unfold GetTransactions, cleanExpiredTransactions.
  destruct (sweep_pool_ok (fun entry => Ret (expired now entry)) (expired now) o1 o2 mp)
    as (mp' & -> & Ht & Hok'); try done.
  simpl. destruct (pop_loop_ok (Z.to_nat (if len (queue mp') <? limit then len (queue mp') else limit)) (queue mp')
    (ok_heap _ Hok')) as (es & rest & -> & Hp & Hlen & Hb).
  exists mp', es, rest. split_and!; try done.
  - fold (live now mp) in Ht. rewrite <- Hp, (ok_queue _ Hok'). by rewrite Ht.
  - pose proof (ok_length _ Hok') as Hl. unfold Size in Hl. rewrite Ht in Hl. fold (live now mp) in Hl.
    unfold len in *. rewrite Hlen. destruct (Z.ltb_spec (Z.of_nat (length (queue mp'))) limit); lia.
Qed.

(** ** Removing *)

Definition without (txs : list Tx.Transaction) (m : gmap Hash32 MempoolEntry) : gmap Hash32 MempoolEntry :=
  filter (fun kv => kv.1 ∉ map Tx.GetHash txs) m.

Lemma remove_loop_ok txs m r :
  remove_loop txs m r = (without txs m, r + (Z.of_nat (size m) - Z.of_nat (size (without txs m)))).
Proof.
  revert m r. induction txs as [|tx txs IH]; intros m r; simpl.
  - assert (without [] m = m) as ->; [|f_equal; lia]. apply map_filter_id. intros k e _ Hk. by apply elem_of_nil in Hk.
  - assert (without (tx :: txs) m = without txs (delete (Tx.GetHash tx) m)) as ->.
    { apply map_eq. intros k. apply option_eq. intros e. unfold without.
      rewrite !map_lookup_filter_Some, lookup_delete_Some. simpl. rewrite elem_of_cons. intuition congruence. }
    destruct (m !! Tx.GetHash tx) as [e|] eqn:E; rewrite IH.
    + rewrite map_size_delete_Some by done.
      assert (size m <> 0)%nat by (apply map_size_ne_0_lookup; eauto). f_equal. lia.
    + by rewrite delete_id.
Qed.

Lemma RemoveTransactions_ok txs o mp :
  pool_ok mp -> o ≡ₚ map_to_list (without txs (transactions mp)) ->
  let '(mp', removed) := RemoveTransactions txs o mp in
  pool_ok mp' /\ transactions mp' = without txs (transactions mp) /\ removed = Size mp - Size mp'.
Proof.
  intros Hok Ho. unfold RemoveTransactions. rewrite remove_loop_ok. split_and!; try done.
  eapply rebuild_ok; [done| |done]. apply map_filter_subseteq.
Qed.

Section Revalidate.
Context `{Signatures}.

Lemma ValidateTransaction_returns t w : wf (mem w) (accts w) -> exists r, ValidateTransaction t w = Ret r.
Proof.
  intros Hw. unfold ValidateTransaction.
  destruct (SafeMath.ValidateAmount (Tx.Amount t)), (SafeMath.ValidateAmount (Tx.GasLimit t)), (SafeMath.ValidateAmount (Tx.GasPrice t)); eauto.
  destruct (isCoinbase t); [eauto|]. destruct (Tx.GasLimit t =? 0); [eauto|].
  destruct (Tx.GasPrice t =? 0); [eauto|]. destruct (negb _); [eauto|].
  destruct (accts w !! Tx.From t) as [l|] eqn:El; [|eauto].
  destruct (lookup_lt_is_Some_2 (mem w) l) as [st Ha]; [by eapply wf_valid|].
  unfold deref. rewrite Ha. simpl. eauto.
Qed.

Definition accepted (w : world) (e : MempoolEntry) : bool :=
  match ValidateTransaction (Transaction e) w with Ret (Ok _) => true | _ => false end.

Lemma RevalidateTransactions_ok w o1 o2 mp
    (m' := filter (fun kv => negb (accepted w kv.2) = false) (transactions mp)) :
  pool_ok mp -> wf (mem w) (accts w) -> o1 ≡ₚ map_to_list (transactions mp) -> o2 ≡ₚ map_to_list m' ->
  exists mp', RevalidateTransactions w o1 o2 mp = Ret (mp', Size mp - Size mp')
    /\ transactions mp' = m' /\ pool_ok mp'.
Proof.
  intros Hok Hw Ho1 Ho2.
  destruct (sweep_pool_ok (invalid w) (fun e => negb (accepted w e)) o1 o2 mp) as (mp' & E & Ht & Hok'); try done.
  - intros k e _. unfold invalid, accepted. destruct (ValidateTransaction_returns (Transaction e) w Hw) as [r ->].
    by destruct r.
  - exists mp'. unfold RevalidateTransactions, Size. rewrite E, Ht. done.
Qed.

(** ** The pool as a state machine *)

(** One call of a method, whatever the time, the arguments and the orders of
    iteration. *)
Inductive step : Mempool -> Mempool -> Prop :=
  | step_add now tx mp mp' added :
      AddTransaction now tx mp = (mp', added) -> step mp mp'
  | step_get now limit o1 o2 mp mp' txs :
      o1 ≡ₚ map_to_list (transactions mp) -> o2 ≡ₚ map_to_list (live now mp) ->
      GetTransactions now limit o1 o2 mp = Ret (mp', txs) -> step mp mp'
  | step_clean now o1 o2 mp mp' removed :
      o1 ≡ₚ map_to_list (transactions mp) -> o2 ≡ₚ map_to_list (live now mp) ->
      cleanExpiredTransactions now o1 o2 mp = Ret (mp', removed) -> step mp mp'
  | step_remove txs o mp mp' removed :
      o ≡ₚ map_to_list (without txs (transactions mp)) ->
      RemoveTransactions txs o mp = (mp', removed) -> step mp mp'
  | step_revalidate w o1 o2 mp mp' removed :
      wf (mem w) (accts w) -> o1 ≡ₚ map_to_list (transactions mp) ->
      o2 ≡ₚ map_to_list (filter (fun kv => negb (accepted w kv.2) = false) (transactions mp)) ->
      RevalidateTransactions w o1 o2 mp = Ret (mp', removed) -> step mp mp'.

Definition reachable (mp : Mempool) : Prop := rtc step NewMempool mp.

Lemma step_ok mp mp' : step mp mp' -> pool_ok mp -> pool_ok mp'.
Proof.
  intros Hs Hok. destruct Hs as [? ? ? ? ? E|now limit o1 o2 ? ? ? H1 H2 E|now o1 o2 ? ? ? H1 H2 E
    |txs o ? ? ? H1 E|w o1 o2 ? ? ? Hw H1 H2 E].
  - by eapply AddTransaction_ok in E as [? _].
  - destruct (GetTransactions_ok now limit o1 o2 mp Hok H1 H2) as (? & ? & ? & E' & ? & _).
    rewrite E in E'. by injection E' as -> _.
  - destruct (sweep_pool_ok (fun entry => Ret (expired now entry)) (expired now) o1 o2 mp) as (? & E' & _ & ?); try done.
    unfold cleanExpiredTransactions in E. rewrite E in E'. by injection E' as -> _.
  - pose proof (RemoveTransactions_ok txs o mp Hok H1) as Hr. rewrite E in Hr. by destruct Hr.
  - destruct (RevalidateTransactions_ok w o1 o2 mp Hok Hw H1 H2) as (? & E' & _ & ?).
    rewrite E in E'. by injection E' as -> _.
Qed.

Lemma reachable_ok mp : reachable mp -> pool_ok mp.
Proof.
  intros Hr. pose proof NewMempool_ok as H0. unfold reachable in Hr. induction Hr as [|x y z Hs _ IH]; [done|].
  apply IH. by eapply step_ok.
Qed.

(** ** Properties *)

(** C33. Whatever methods have been called, heap and map hold the same entries, each
    stored under the hash of its transaction, the heap is in order and the pool
    within its size; and [GetTransactions] and [RevalidateTransactions] do not panic on it. *)
Theorem reachable_pool_ok mp : reachable mp ->
  pool_ok mp
  /\ (forall now limit o1 o2, o1 ≡ₚ map_to_list (transactions mp) -> o2 ≡ₚ map_to_list (live now mp) ->
        returns (GetTransactions now limit o1 o2 mp) = true)
  /\ (forall w o1 o2, wf (mem w) (accts w) -> o1 ≡ₚ map_to_list (transactions mp) ->
        o2 ≡ₚ map_to_list (filter (fun kv => negb (accepted w kv.2) = false) (transactions mp)) ->
        returns (RevalidateTransactions w o1 o2 mp) = true).
Proof.
  intros Hr. apply reachable_ok in Hr as Hok. split_and!; [done| |].
  - intros now limit o1 o2 H1 H2. destruct (GetTransactions_ok now limit o1 o2 mp Hok H1 H2) as (? & ? & ? & -> & _).
    done.
  - intros w o1 o2 Hw H1 H2. by destruct (RevalidateTransactions_ok w o1 o2 mp Hok Hw H1 H2) as (? & -> & _).
Qed.

(** [RevalidateTransactions] keeps exactly the transactions that validate
    against the account states given, whatever the orders of iteration. *)
Theorem RevalidateTransactions_spec w o1 o2 mp :
  reachable mp -> wf (mem w) (accts w) -> o1 ≡ₚ map_to_list (transactions mp) ->
  o2 ≡ₚ map_to_list (filter (fun kv => negb (accepted w kv.2) = false) (transactions mp)) ->
  exists mp' removed, RevalidateTransactions w o1 o2 mp = Ret (mp', removed)
    /\ removed = Size mp - Size mp' /\ reachable mp'
    /\ forall k e, transactions mp' !! k = Some e <->
         transactions mp !! k = Some e /\ ValidateTransaction (Transaction e) w = Ret (Ok ()).
Proof.
  intros Hr Hw H1 H2. destruct (RevalidateTransactions_ok w o1 o2 mp) as (mp' & E & Ht & _); try done.
  { by apply reachable_ok. }
  exists mp', (Size mp - Size mp'). split_and!; try done.
  - eapply rtc_r; [done|]. by eapply step_revalidate.
  - intros k e. rewrite Ht, map_lookup_filter_Some. simpl. unfold accepted.
    split; intros [Hk He]; split; try done; [|by rewrite He].
    by destruct (ValidateTransaction _ _) as [[[]|]|].
Qed.

End Revalidate.

(** [AddTransaction] on every branch: a known transaction is refused; while
    there is room one is added; a full pool refuses one that does not pay more
    than the last entry of the heap array, and otherwise evicts an entry of
    lowest priority, which paid strictly less.  The invariant is kept. *)
Theorem AddTransaction_spec now tx mp mp' added :
  pool_ok mp -> AddTransaction now tx mp = (mp', added) -> pool_ok mp' /\ add_result now tx mp mp' added.
Proof. apply AddTransaction_ok. Qed.

(** C34. [GetTransactions] drops the expired transactions and returns the [limit]
    best of the others (all if there are fewer), ordered by price and then by
    age, whatever the orders of iteration. *)
Theorem GetTransactions_spec now limit o1 o2 mp :
  pool_ok mp -> o1 ≡ₚ map_to_list (transactions mp) -> o2 ≡ₚ map_to_list (live now mp) ->
  exists mp' es rest,
    GetTransactions now limit o1 o2 mp = Ret (mp', map Transaction es)
    /\ pool_ok mp' /\ transactions mp' = live now mp
    /\ (map_to_list (live now mp)).*2 ≡ₚ es ++ rest
    /\ length es = (Z.to_nat limit `min` size (live now mp))%nat
    /\ best es rest.
Proof. apply GetTransactions_ok. Qed.

(** The last entry of the heap array need not be the cheapest: a full pool may
    refuse a transaction that pays more than its cheapest one. *)
Theorem last_not_lowest tx :
  exists q e el, heap_ordered less q /\ e ∈ q /\ last q = Some el /\ GasPrice e < GasPrice el
    /\ q = Init less [MkEntry tx 0 9; MkEntry tx 0 1; MkEntry tx 0 5].
Proof.
  exists [MkEntry tx 0 9; MkEntry tx 0 1; MkEntry tx 0 5], (MkEntry tx 0 1), (MkEntry tx 0 5).
  assert ([MkEntry tx 0 9; MkEntry tx 0 1; MkEntry tx 0 5] = Init less [MkEntry tx 0 9; MkEntry tx 0 1; MkEntry tx 0 5])
    as E by done.
  split_and!; try done; [rewrite E; apply Init_spec; [exact less_asym|apply _]|set_solver].
Qed.

Theorem full_pool_refuses_better now tx mp e el :
  transactions mp !! Tx.GetHash tx = None -> Size mp = MempoolMaxSize ->
  e ∈ queue mp -> GasPrice e < Tx.GasPrice tx -> last (queue mp) = Some el -> Tx.GasPrice tx <= GasPrice el ->
  AddTransaction now tx mp = (mp, false).
Proof.
  intros Hn Hs _ _ Hl Hp. unfold AddTransaction. rewrite Hn, Hs, Hl. simpl.
  by destruct (Z.leb_spec (Tx.GasPrice tx) (GasPrice el)); [|lia].
Qed.

(** ** Witnesses *)

Definition payment (price : Z) : Tx.Transaction :=
  Tx.MkTx FirstUser FirstUser 10 [] 1 0 1 [] 21000 price [].

Definition pool1 : Mempool := (AddTransaction 5 (payment 7) NewMempool).1.

Lemma pool1_add : AddTransaction 5 (payment 7) NewMempool = (pool1, true).
Proof. unfold pool1, AddTransaction, NewMempool. simpl transactions. rewrite lookup_empty. done. Qed.

Lemma pool1_ok : pool_ok pool1.
Proof. eapply AddTransaction_ok; [apply NewMempool_ok|apply pool1_add]. Qed.

Definition accept_all : Signatures := {| ed25519_Verify := fun _ _ _ => true |}.

Lemma pool1_reachable : reachable (H := accept_all) pool1.
Proof. eapply rtc_once, step_add, pool1_add. Qed.

Definition empty_world : world := MkWorld ∅ [].

Lemma empty_world_wf : wf (mem empty_world) (accts empty_world).
Proof. by split. Qed.

Lemma reachable_pool_ok_witness : pool_ok pool1.
Proof. apply (reachable_pool_ok (H := accept_all)), pool1_reachable. Defined.

Lemma RevalidateTransactions_spec_witness :
  exists mp' removed, RevalidateTransactions (H := accept_all) empty_world (map_to_list (transactions pool1))
    (map_to_list (filter (fun kv => negb (accepted (H := accept_all) empty_world kv.2) = false) (transactions pool1))) pool1
    = Ret (mp', removed).
Proof.
  destruct (RevalidateTransactions_spec (H := accept_all) empty_world (map_to_list (transactions pool1))
    (map_to_list (filter (fun kv => negb (accepted (H := accept_all) empty_world kv.2) = false) (transactions pool1))) pool1)
    as (mp' & removed & E & _).
  - apply pool1_reachable.
  - apply empty_world_wf.
  - reflexivity.
  - reflexivity.
  - exists mp', removed. exact E.
Defined.

Lemma AddTransaction_spec_witness : pool_ok pool1 /\ add_result 5 (payment 7) NewMempool pool1 true.
Proof. apply (AddTransaction_spec 5 (payment 7) NewMempool); [apply NewMempool_ok|apply pool1_add]. Defined.

Lemma GetTransactions_spec_witness :
  exists mp' es rest,
    GetTransactions 6 3 (map_to_list (transactions pool1)) (map_to_list (live 6 pool1)) pool1
    = Ret (mp', map Transaction es) /\ best es rest.
Proof.
  destruct (GetTransactions_spec 6 3 (map_to_list (transactions pool1)) (map_to_list (live 6 pool1)) pool1)
    as (mp' & es & rest & E & _ & _ & _ & _ & Hb); [apply pool1_ok|reflexivity|reflexivity|].
  exists mp', es, rest. split; [exact E|exact Hb].
Defined.

End Mempool.
