(* ===== verification/Execution.v ===== *)
(** * Contract execution (src/execution/execution.go)

    The implementation of the [ContractExecutor] interface on top of the virtual
    machine, and the proof that it keeps the interface's promises, which the
    theorems about validation rely on. *)

From S2P Require Import Prelude GoLib Config Utils Bytecode Machine Interp Sha256 Ledger Work Chain Validation ValidationSpec.

Module Execution.
Import Heap HeapSpec Validation ValidationSpec.

Inductive execution_error :=
  | NoGasForInit
  | InitFailed (e : VM.avm_error)
  | NoRecipient.

(** [runtime.StartExecution()]; the loop's bound is never reached
    ([run_start]). *)
Definition run_code (r : VM.Runtime) : go (VM.Runtime * Z * option VM.avm_error) :=
  match Exec.StartExecution r with
  | Some x => x
  | None => Panic (ExplicitPanic "unreachable: metered execution does not run out of steps")
  end.

(** [err != nil && err != avm.ErrProgramStopped] *)
Definition is_failure (e : option VM.avm_error) : option VM.avm_error :=
  match e with
  | Some VM.ErrProgramStopped => None
  | e => e
  end.

Definition storage_root (p : gmap string string) : Hash32 :=
  Merkle.ComputeStorageRoot (Merkle.map_keys p) p.

Definition executeContractDeployment (tsx : Tx.Transaction) (ctx : VM.BlockchainContext) (w : world)
    : go (world * (Z * option execution_error)) :=
  fromState ← match accts w !! Tx.From tsx with
              | Some l => deref (mem w) l
              | None => Panic NilDereference
              end;
  let contractAddr := Merkle.GenerateContractAddress (Tx.From tsx) (Acct.Nonce fromState) in
  let contractState :=
    Acct.MkAccount contractAddr (Tx.Amount tsx) 0 (Tx.Instructions tsx) ∅ Hash32_zero
      (Code.ComputeCodeHash (Tx.Instructions tsx)) Hash32_zero Hash32_zero in
  let store st := let '(l, h) := alloc st (mem w) in MkWorld (<[contractAddr := l]> (accts w)) h in
  if 0 <? len (Tx.Instructions tsx) then
    let remainingGas := u64 (Tx.GasLimit tsx - 0) in
    if remainingGas =? 0 then Ret (w, (0, Some NoGasForInit))
    else
      x ← run_code (VM.NewRuntimeWithIC remainingGas (Tx.Instructions tsx) ctx 0);
      let '(runtime, initGasUsed, err) := x in
      let gasUsed := u64 (0 + initGasUsed) in
      match is_failure err with
      | Some e => Ret (w, (gasUsed, Some (InitFailed e)))
      | None =>
          let p := VM.Persistent runtime ∪ Acct.Persistent contractState in
          Ret (store (Acct.with_Storage p (storage_root p) contractState), (gasUsed, None))
      end
  else Ret (store contractState, (0, None)).

Definition executeContractCall (tsx : Tx.Transaction) (ctx : VM.BlockchainContext) (w : world)
    : go (world * (Z * option execution_error)) :=
  match accts w !! Tx.To tsx with
  | None => Ret (w, (0, Some NoRecipient))
  | Some l =>
      toState ← deref (mem w) l;
      let toState := Acct.with_Balance (u64 (Acct.Balance toState + Tx.Amount tsx)) toState in
      let put st := MkWorld (accts w) (assign l st (mem w)) in
      match Acct.Instructions toState with
      | [] => Ret (put toState, (0, None))
      | code =>
          let remainingGas := u64 (Tx.GasLimit tsx - 0) in
          if 0 <? remainingGas then
            let runtime := VM.NewRuntimeWithIC remainingGas code ctx 2 in
            let runtime := VM.with_Persistent (Acct.Persistent toState ∪ VM.Persistent runtime) runtime in
            x ← run_code runtime;
            let '(runtime, runtimeGasUsed, err) := x in
            let gasUsed := u64 (0 + runtimeGasUsed) in
            match is_failure err with
            | Some _ => Ret (put toState, (gasUsed, None))
            | None =>
                Ret (put (Acct.with_Storage (VM.Persistent runtime) (storage_root (VM.Persistent runtime)) toState),
                     (gasUsed, None))
            end
          else Ret (put toState, (0, None))
      end
  end.

(** [ExecutorImpl.ExecuteTransaction] *)
Definition execute_transaction (tsx : Tx.Transaction) (ctx : VM.BlockchainContext) (w : world)
    : go (world * (Z * option execution_error)) :=
  if 0 <? len (Tx.Instructions tsx) then executeContractDeployment tsx ctx w
  else executeContractCall tsx ctx w.

Definition ExecutorImpl : ContractExecutor :=
  {| exec_error := execution_error; ExecuteTransaction := execute_transaction |}.

(** ** The interface is met *)

(** The bound on the steps of the machine is never reached. *)
Lemma run_start r : is_u64 (VM.GasAvailable r) -> Exec.StartExecution r = Some (run_code r).
Proof. intros Hg. unfold run_code. by destruct (Exec.StartExecution_some r Hg) as [x ->]. Qed.

Lemma run_code_gas gas code ctx ic p r' used e :
  is_u64 gas -> run_code (VM.with_Persistent p (VM.NewRuntimeWithIC gas code ctx ic)) = Ret (r', used, e) ->
  0 <= used <= gas.
Proof.
  intros Hg E. pose proof (run_start (VM.with_Persistent p (VM.NewRuntimeWithIC gas code ctx ic)) Hg) as Hs.
  rewrite E in Hs. by apply Exec.StartExecution_account in Hs as [? _].
Qed.

Lemma frame_refl t w : world_wf w -> exec_frame t w w.
Proof. intros Hw. split; try done; eauto. Qed.

(** Writing the recipient's account, nonce kept. *)
Lemma frame_put t w l a a' :
  world_wf w -> accts w !! Tx.To t = Some l -> mem w !! l = Some a -> Acct.Nonce a' = Acct.Nonce a ->
  exec_frame t w (MkWorld (accts w) (assign l a' (mem w))).
Proof.
  intros Hw Hl Ha Hn. split; simpl; unfold assign.
  - by apply wf_assign.
  - by rewrite length_insert.
  - intros l' Hl' Hne. rewrite list_lookup_insert_ne; [done|]. congruence.
  - intros l' b Hb. destruct (decide (l' = l)) as [->|Hne].
    + rewrite list_lookup_insert_eq by (by eapply lookup_lt_Some). eexists. split; [done|]. congruence.
    + rewrite list_lookup_insert_ne by done. eauto.
  - by left.
Qed.

(** Adding the account of a new contract. *)
Lemma frame_store t w a st :
  world_wf w -> account w (Tx.From t) = Some a ->
  exec_frame t w
    (let '(l, h) := alloc st (mem w) in
     MkWorld (<[Merkle.GenerateContractAddress (Tx.From t) (Acct.Nonce a) := l]> (accts w)) h).
Proof.
  intros Hw Ha. set (k := Merkle.GenerateContractAddress (Tx.From t) (Acct.Nonce a)).
  destruct (view_alloc (mem w) (accts w) k st Hw) as [_ Hwf]. unfold alloc. split; simpl.
  - done.
  - rewrite length_app. lia.
  - intros l Hl _. by rewrite lookup_app_l.
  - intros l b Hb. exists b. split; [|done]. by apply lookup_app_l_Some.
  - intros k'. destruct (decide (k' = k)) as [->|Hne]; [right | left; by rewrite lookup_insert_ne].
    exists (length (mem w)), a. rewrite lookup_insert_eq. by split_and!.
Qed.

Lemma deployment_framed t ctx w w' gas err :
  world_wf w -> executeContractDeployment t ctx w = Ret (w', (gas, err)) ->
  exec_frame t w w' /\ (is_u64 (Tx.GasLimit t) -> 0 <= gas <= Tx.GasLimit t).
Proof.
  intros Hw E. unfold executeContractDeployment in E. apply go_bind_ret_inv in E as (a & Ha & E).
  assert (account w (Tx.From t) = Some a) as Hacc.
  { unfold account. rewrite lookup_view. destruct (accts w !! Tx.From t) as [l|]; [|discriminate]. simpl.
    unfold deref in Ha. destruct (mem w !! l); [congruence | discriminate]. }
  destruct (0 <? len _).
  - destruct (Z.eqb_spec (u64 (Tx.GasLimit t - 0)) 0).
    { injection E as <- <- <-. split; [by apply frame_refl | machine_bounds; lia]. }
    apply go_bind_ret_inv in E as ([[r used] e] & Hrun & E).
    assert (is_u64 (Tx.GasLimit t) -> 0 <= u64 (0 + used) <= Tx.GasLimit t) as Hgas.
    { intros Hg. rewrite Z.sub_0_r, (u64_small (Tx.GasLimit t)) in Hrun by done.
      change (VM.NewRuntimeWithIC _ _ _ _) with
        (VM.with_Persistent ∅ (VM.NewRuntimeWithIC (Tx.GasLimit t) (Tx.Instructions t) ctx 0)) in Hrun.
      apply run_code_gas in Hrun; [|done]. rewrite u64_small; machine_bounds; lia. }
    destruct (is_failure e); injection E as <- <- <-; (split; [|done]); [by apply frame_refl | by apply frame_store].
  - injection E as <- <- <-. split; [by apply frame_store | machine_bounds; lia].
Qed.

Lemma call_framed t ctx w w' gas err :
  world_wf w -> executeContractCall t ctx w = Ret (w', (gas, err)) ->
  exec_frame t w w' /\ (is_u64 (Tx.GasLimit t) -> 0 <= gas <= Tx.GasLimit t).
Proof.
  intros Hw E. unfold executeContractCall in E. destruct (accts w !! Tx.To t) as [l|] eqn:El.
  2: { injection E as <- <- <-. split; [by apply frame_refl | machine_bounds; lia]. }
  apply go_bind_ret_inv in E as (a & Ha & E). unfold deref in Ha.
  destruct (mem w !! l) as [a'|] eqn:Em; [|discriminate]. injection Ha as ->.
  assert (forall st, Acct.Nonce st = Acct.Nonce a -> exec_frame t w (MkWorld (accts w) (assign l st (mem w)))) as Hput.
  { intros st Hst. by eapply frame_put. }
  destruct (Acct.Instructions (Acct.with_Balance _ a)) as [|i code].
  { injection E as <- <- <-. split; [by apply Hput | machine_bounds; lia]. }
  destruct (0 <? _).
  2: { injection E as <- <- <-. split; [by apply Hput | machine_bounds; lia]. }
  apply go_bind_ret_inv in E as ([[r used] e] & Hrun & E).
  assert (is_u64 (Tx.GasLimit t) -> 0 <= u64 (0 + used) <= Tx.GasLimit t) as Hgas.
  { intros Hg. rewrite Z.sub_0_r, (u64_small (Tx.GasLimit t)) in Hrun by done.
    apply run_code_gas in Hrun; [|done]. rewrite u64_small; machine_bounds; lia. }
  destruct (is_failure e); injection E as <- <- <-; (split; [by apply Hput | done]).
Qed.

Lemma execute_framed t ctx w w' gas err :
  world_wf w -> execute_transaction t ctx w = Ret (w', (gas, err)) ->
  exec_frame t w w' /\ (is_u64 (Tx.GasLimit t) -> 0 <= gas <= Tx.GasLimit t).
Proof.
  unfold execute_transaction. destruct (0 <? _); [apply deployment_framed | apply call_framed].
Qed.

#[export] Instance ExecutorImpl_lawful : LawfulExecutor ExecutorImpl.
Proof.
  split; intros t ctx w w' gas err Hw.
  - intros E. by apply execute_framed in E as [? _].
  - intros Hg E. apply execute_framed in E as [_ H]; auto.
Qed.

(** C6. The executor refines the interface that validation is proved against: it
    writes only the recipient's account, never a nonce, adds at most the
    contract's own address, keeps the store well formed, and reports at most
    the gas limit. *)
Theorem ExecutorImpl_meets_interface : LawfulExecutor ExecutorImpl.
Proof. apply ExecutorImpl_lawful. Qed.

Lemma executeContractCall_credit t ctx w l a w' gas err :
  accts w !! Tx.To t = Some l -> mem w !! l = Some a ->
  executeContractCall t ctx w = Ret (w', (gas, err)) ->
  accts w' = accts w /\ err = None
  /\ exists a', mem w' !! l = Some a' /\ Acct.Balance a' = u64 (Acct.Balance a + Tx.Amount t).
Proof.
  intros Hl Ha E. unfold executeContractCall in E. rewrite Hl in E. unfold deref in E. rewrite Ha in E.
  cbn [mbind go_bind] in E.
  assert (forall st, assign l st (mem w) !! l = Some st) as Hput.
  { intros st. unfold assign. apply list_lookup_insert_eq. by eapply lookup_lt_Some. }
  assert (forall st g, Acct.Balance st = u64 (Acct.Balance a + Tx.Amount t) ->
    Ret (MkWorld (accts w) (assign l st (mem w)), (g, @None execution_error)) = Ret (w', (gas, err)) ->
    accts w' = accts w /\ err = None
    /\ exists a', mem w' !! l = Some a' /\ Acct.Balance a' = u64 (Acct.Balance a + Tx.Amount t)) as Hdone.
  { intros st g Hb [= <- <- <-]. split_and!; [done | done |]. exists st. split; [apply Hput | done]. }
  destruct (Acct.Instructions _); [by eapply Hdone, E|].
  destruct (0 <? _); [|by eapply Hdone, E].
  apply go_bind_ret_inv in E as ([[r used] e] & _ & E). destruct (is_failure e); by eapply Hdone, E.
Qed.

(** A payment to a contract is credited twice: once by the transfer and once by
    the executor, while the sender is charged once.  The second addition wraps. *)
Theorem contract_call_credits_twice t gas w w' g a :
  world_wf w -> Tx.Instructions t = [] -> account w (Tx.To t) = Some a -> Acct.Instructions a <> [] ->
  is_u64 (Acct.Balance a) -> is_u64 (Tx.Amount t) -> Acct.Balance a + Tx.Amount t < 2 ^ 64 ->
  transfer_to (Some ExecutorImpl) t gas w = Ret (w', g) ->
  exists a', account w' (Tx.To t) = Some a' /\ Acct.Balance a' = u64 (Acct.Balance a + Tx.Amount t + Tx.Amount t).
Proof.
  intros Hw Hi Ha Hc Hb Hm Hs. unfold transfer_to.
  destruct (accts w !! Tx.To t) as [l|] eqn:El.
  2: { unfold account in Ha. rewrite lookup_view, El in Ha. discriminate. }
  destruct (credit_spec w (Tx.To t) l a (Tx.Amount t) "recipient balance overflow during apply")
    as (w1 & -> & Hw1 & Hacc & Hview); [done..|]. cbn [mbind go_bind].
  assert (accts w1 !! Tx.To t = Some l) as El1 by (by rewrite Hacc).
  assert (mem w1 !! l = Some (Acct.with_Balance (Acct.Balance a + Tx.Amount t) a)) as Hm1.
  { pose proof (lookup_insert_eq (view (mem w) (accts w)) (Tx.To t) (Acct.with_Balance (Acct.Balance a + Tx.Amount t) a)) as Hx.
    rewrite <- Hview, lookup_view, El1 in Hx. exact Hx. }
  unfold deref. rewrite Hm1. cbn [mbind go_bind Acct.with_Balance Acct.Instructions].
  destruct (Acct.Instructions a) as [|i code] eqn:Ei; [done|]. intros E.
  apply go_bind_ret_inv in E as ([w2 o] & Hrun & E). assert (w' = w2) as -> by (destruct o; by injection E).
  unfold run_executor in Hrun. apply go_bind_ret_inv in Hrun as ([w3 [g3 err]] & Hex & Hrun).
  cbn [ExecuteTransaction ExecutorImpl] in Hex. unfold execute_transaction in Hex. rewrite Hi in Hex.
  cbn [len length Z.of_nat Z.ltb Z.compare] in Hex.
  destruct (executeContractCall_credit _ _ _ _ _ _ _ _ El1 Hm1 Hex) as (Hk3 & -> & a' & Ha' & Hb').
  injection Hrun as <- <-. exists a'. split; [|exact Hb'].
  unfold account. rewrite lookup_view. cbn [accts mem]. by rewrite Hk3, map_union_idemp, El1.
Qed.

End Execution.
