(* ===== verification/Mining.v ===== *)
(** * Block production (src/blockchain/mining.go)

    [NewBlock] executes the transactions on a copy of the state, checks the
    coinbase and searches for a nonce.  The clock is an argument. *)

From S2P Require Import Prelude GoLib Config Utils Bytecode Machine Sha256 Ledger Work Chain Validation ValidationSpec.

Module Mining.
Import SafeMath Convert Heap Chain Blk Validation.

Record BlockCreationParams := MkParams {
  Version : Z;
  PreviousHash : Hash32;
  Height : Z;
  PreviousWork : string;
  Coinbase : Tx.Transaction;
  Transactions : list Tx.Transaction;
  Timestamp : Z;
  TargetBits : Z;
  CurrentStates : accounts
}.

Inductive mining_error :=
  | FeesOverflow (e : math_error)
  | GasOverflow (e : math_error)
  | CoinbaseOverflow (e : math_error)
  | CoinbaseAmount (amount expected : Z)
  | TooMuchGas (used limit : Z)
  | NonceOverflow.

Definition blockGasLimit : Z := 8000000.

(** One round of the nonce loop. *)
Definition mine_round (header : Hdr.BlockHeader) (targetBits : Z) (nonce : Z) : Z + res mining_error Z :=
  if Work.BlockHashMeetsDifficulty (Hdr.GetHash (Hdr.with_Nonce nonce header)) targetBits then inr (Ok nonce)
  else
    let nonce := u64 (nonce + 1) in
    if nonce =? max_u64 then inr (Err NonceOverflow) else inl nonce.

(** The loop; [None] would mean it is still running after 2^64 rounds
    ([MineCorrectNonce_spec] excludes it). *)
Definition MineCorrectNonce (header : Hdr.BlockHeader) (targetBits : Z) : option (res mining_error Z) :=
  match iterate 64 (mine_round header targetBits) (Hdr.Nonce header) with
  | inr r => Some r
  | inl _ => None
  end.

Section NewBlock.
Context (contractExecutor : option ContractExecutor).

(** The execution loop: a failing transaction is skipped, with the changes it
    made to the state. *)
Fixpoint execute_all (txs : list Tx.Transaction) (gasFeeSum totalGasUsed : Z) (w : world)
    : go (res mining_error (Z * Z)) :=
  match txs with
  | [] => Ret (Ok (gasFeeSum, totalGasUsed))
  | tx :: rest =>
      if isCoinbase tx then execute_all rest gasFeeSum totalGasUsed w
      else
        x ← ApplyTransaction contractExecutor tx w;
        let '(w', (gasUsed, err)) := x in
        match err with
        | Some _ => execute_all rest gasFeeSum totalGasUsed w'
        | None =>
            match SafeAdd gasFeeSum (u64 (gasUsed * Tx.GasPrice tx)) with
            | Err e => Ret (Err (FeesOverflow e))
            | Ok gasFeeSum =>
                match SafeAdd totalGasUsed gasUsed with
                | Err e => Ret (Err (GasOverflow e))
                | Ok totalGasUsed => execute_all rest gasFeeSum totalGasUsed w'
                end
            end
        end
  end.

(** The header before mining. *)
Definition new_header (p : BlockCreationParams) (ts : Z) (tsxs : list Tx.Transaction) (totalGasUsed : Z)
    : Hdr.BlockHeader :=
  {| Hdr.Version := Version p; Hdr.PreviousHash := PreviousHash p; Hdr.Height := Height p;
     Hdr.Timestamp := ts; Hdr.Nonce := 0; Hdr.MerkleRoot := Merkle.MerkleTransactions tsxs;
     Hdr.StateRoot := Hash32_zero; Hdr.ReceiptRoot := Hash32_zero; Hdr.Bits := TargetBits p;
     Hdr.TotalWork := Work.AddWork (PreviousWork p) (dec (Work.GetBlockWork (TargetBits p)));
     Hdr.GasLimit := blockGasLimit; Hdr.GasUsed := totalGasUsed;
     Hdr.Beneficiary := Tx.To (Coinbase p) |}.

(** The checks after execution, and mining.  [None] as for [MineCorrectNonce]. *)
Definition finish_block (p : BlockCreationParams) (ts gasFeeSum totalGasUsed : Z) : option (res mining_error Block) :=
  let tsxs := Coinbase p :: Transactions p in
  match SafeAdd BlockReward gasFeeSum with
  | Err e => Some (Err (CoinbaseOverflow e))
  | Ok expected =>
      if negb (Tx.Amount (Coinbase p) =? expected)
      then Some (Err (CoinbaseAmount (Tx.Amount (Coinbase p)) expected))
      else if blockGasLimit <? totalGasUsed then Some (Err (TooMuchGas totalGasUsed blockGasLimit))
      else
        let header := new_header p ts tsxs totalGasUsed in
        match MineCorrectNonce header (TargetBits p) with
        | None => None
        | Some (Err e) => Some (Err e)
        | Some (Ok nonce) => Some (Ok (MkBlock (Hdr.with_Nonce nonce header) tsxs))
        end
  end.

Definition NewBlock (now : Z) (p : BlockCreationParams) (h : heap) : go (option (res mining_error Block)) :=
  let ts := if Timestamp p =? 0 then u64 now else Timestamp p in
  w ← copy_world (MkWorld (CurrentStates p) h);
  x ← execute_all (Transactions p) 0 0 w;
  match x with
  | Err e => Ret (Some (Err e))
  | Ok (gasFeeSum, totalGasUsed) => Ret (finish_block p ts gasFeeSum totalGasUsed)
  end.

End NewBlock.

(** ** The nonce search *)

Definition meets_at (header : Hdr.BlockHeader) (bits n : Z) : bool :=
  Work.BlockHashMeetsDifficulty (Hdr.GetHash (Hdr.with_Nonce n header)) bits.

(** Rounds from [n] pass the nonces from [n] on, none of which fits. *)
Lemma mine_rounds header bits k n n' :
  0 <= n < max_u64 -> rounds (mine_round header bits) k n n' ->
  n' = n + Z.of_nat k /\ n' < max_u64 /\ forall m, n <= m < n' -> meets_at header bits m = false.
Proof.
  intros Hn Hr. induction Hr as [|k n n1 n2 Hb _ IH]; [split; [lia|]; split; [lia|]; intros; lia|].
  unfold mine_round in Hb. fold (meets_at header bits n) in Hb.
  destruct (meets_at header bits n) eqn:Em; [discriminate|].
  rewrite u64_small in Hb by (machine_bounds; lia).
  destruct (Z.eqb_spec (n + 1) max_u64); [discriminate|]. injection Hb as <-.
  destruct IH as (-> & Hlt & Hall); [machine_bounds; lia|].
  split; [lia|]. split; [lia|]. intros m Hm. destruct (Z.eq_dec m n) as [->|]; [done|]. apply Hall. lia.
Qed.

(** The search ends: with the first nonce that meets the target, or, when none
    below 2^64 - 1 does, with the overflow error. *)
Lemma MineCorrectNonce_search header bits :
  0 <= Hdr.Nonce header < max_u64 ->
  match MineCorrectNonce header bits with
  | Some (Ok n) => Hdr.Nonce header <= n < max_u64 /\ meets_at header bits n = true
                   /\ forall m, Hdr.Nonce header <= m < n -> meets_at header bits m = false
  | Some (Err e) => e = NonceOverflow
                    /\ forall m, Hdr.Nonce header <= m < max_u64 -> meets_at header bits m = false
  | None => False
  end.
Proof.
  intros Hn. unfold MineCorrectNonce. pose proof (iterate_spec (mine_round header bits) 64 (Hdr.Nonce header)) as H.
  destruct (iterate 64 _ _) as [st|r].
  - destruct (mine_rounds _ _ _ _ _ Hn H) as (E & Hlt & _).
    assert (Z.of_nat (2 ^ 64) = 2 ^ 64) as E2 by (rewrite Nat2Z.inj_pow; done). rewrite E2 in E. machine_bounds. lia.
  - destruct H as (k & n & _ & Hr & Hb). destruct (mine_rounds _ _ _ _ _ Hn Hr) as (E & Hlt & Hall).
    unfold mine_round in Hb. fold (meets_at header bits n) in Hb. destruct (meets_at header bits n) eqn:Em.
    + injection Hb as <-. split; [lia|]. done.
    + rewrite u64_small in Hb by (machine_bounds; lia).
      destruct (Z.eqb_spec (n + 1) max_u64); [|discriminate]. injection Hb as <-. split; [done|].
      intros m Hm. destruct (Z.eq_dec m n) as [->|]; [done|]. apply Hall. lia.
Qed.

(** C31. The nonce search always ends: with the first nonce from the starting one
    whose hash meets the target, or, when none below 2^64 - 1 does, with the
    overflow error. *)
Theorem MineCorrectNonce_spec header bits :
  0 <= Hdr.Nonce header < max_u64 ->
  match MineCorrectNonce header bits with
  | Some (Ok n) => Hdr.Nonce header <= n < max_u64 /\ meets_at header bits n = true
                   /\ forall m, Hdr.Nonce header <= m < n -> meets_at header bits m = false
  | Some (Err e) => e = NonceOverflow
                    /\ forall m, Hdr.Nonce header <= m < max_u64 -> meets_at header bits m = false
  | None => False
  end.
Proof. apply MineCorrectNonce_search. Qed.

(** ** New blocks *)

(** A block that follows the tip and meets its own target is checked from its target on. *)
Lemma structure_from_target b chain parent :
  is_genesis b = false -> GetBlock chain (Hdr.PreviousHash (Header b)) = Some parent ->
  (forall tip, Tip chain = Some tip -> Blk.GetHash tip = Hdr.PreviousHash (Header b)) ->
  Work.BlockHashMeetsDifficulty (Hdr.GetHash (Header b)) (Hdr.Bits (Header b)) = true ->
  validateBlockStructure b chain =
    (expectedBits ← Work.GetTargetBits (len (Blocks chain)) (Blocks chain);
     if negb (Hdr.Bits (Header b) =? expectedBits) then Ret (Err (ErrTargetBits (Hdr.Bits (Header b)) expectedBits))
     else if negb (bool_decide (Merkle.MerkleTransactions (Blk.Transactions b) = Hdr.MerkleRoot (Header b)))
     then Ret (Err ErrMerkleRoot)
     else if Hdr.Timestamp (Header b) <=? Hdr.Timestamp (Header parent) then Ret (Err ErrTimestamp) else Ret (Ok ())).
Proof.
  intros Hg Hpar Htip Hm. unfold validateBlockStructure. rewrite Hg. unfold GetBlockByHash.
  rewrite Hpar, bool_decide_true by eauto. cbn iota.
  match goal with |- (if ?c then _ else _) = _ => assert (c = false) as -> end.
  { destruct (Tip chain) as [tip|]; [|done]. rewrite bool_decide_true; [done|]. by apply Htip. }
  by rewrite Hm.
Qed.

(** What a block needs to extend the tip of a chain. *)
Lemma structure_intro b chain parent :
  is_genesis b = false -> GetBlock chain (Hdr.PreviousHash (Header b)) = Some parent ->
  (forall tip, Tip chain = Some tip -> Blk.GetHash tip = Hdr.PreviousHash (Header b)) ->
  Work.BlockHashMeetsDifficulty (Hdr.GetHash (Header b)) (Hdr.Bits (Header b)) = true ->
  Work.GetTargetBits (len (Blocks chain)) (Blocks chain) = Ret (Hdr.Bits (Header b)) ->
  Merkle.MerkleTransactions (Blk.Transactions b) = Hdr.MerkleRoot (Header b) ->
  Hdr.Timestamp (Header parent) < Hdr.Timestamp (Header b) ->
  validateBlockStructure b chain = Ret (Ok ()).
Proof.
  intros Hg Hpar Htip Hm Hbits Hroot Hts. rewrite (structure_from_target b chain parent) by done.
  rewrite Hbits. cbn [mbind go_bind]. rewrite Z.eqb_refl. cbn [negb]. rewrite bool_decide_true by done. cbn [negb].
  by rewrite (proj2 (Z.leb_gt _ _)).
Qed.

(** Any other target than the required one is refused. *)
Lemma target_refused ex b chain parent h bits :
  is_genesis b = false -> GetBlock chain (Hdr.PreviousHash (Header b)) = Some parent ->
  (forall tip, Tip chain = Some tip -> Blk.GetHash tip = Hdr.PreviousHash (Header b)) ->
  Work.BlockHashMeetsDifficulty (Hdr.GetHash (Header b)) (Hdr.Bits (Header b)) = true ->
  Work.GetTargetBits (len (Blocks chain)) (Blocks chain) = Ret bits -> Hdr.Bits (Header b) <> bits ->
  forall `{Signatures}, ValidateBlock ex b chain h = Ret (h, Err (StructureError (ErrTargetBits (Hdr.Bits (Header b)) bits))).
Proof.
  intros Hg Hpar Htip Hm Hbits Hne Hsig. unfold ValidateBlock. rewrite (structure_from_target b chain parent) by done.
  rewrite Hbits. cbn [mbind go_bind]. by rewrite (proj2 (Z.eqb_neq _ _)).
Qed.

(** What a returned block consists of. *)
Lemma finish_block_inv p ts fees gas b :
  finish_block p ts fees gas = Some (Ok b) ->
  exists nonce, b = MkBlock (Hdr.with_Nonce nonce (new_header p ts (Coinbase p :: Transactions p) gas))
                      (Coinbase p :: Transactions p)
    /\ meets_at (new_header p ts (Coinbase p :: Transactions p) gas) (TargetBits p) nonce = true
    /\ gas <= blockGasLimit /\ SafeAdd BlockReward fees = Ok (Tx.Amount (Coinbase p)).
Proof.
  unfold finish_block. destruct (SafeAdd BlockReward fees) as [e|]; [|discriminate].
  destruct (Z.eqb_spec (Tx.Amount (Coinbase p)) e) as [->|]; cbn [negb]; [|discriminate].
  destruct (Z.ltb_spec blockGasLimit gas); [discriminate|].
  set (header := new_header _ _ _ _).
  pose proof (MineCorrectNonce_search header (TargetBits p)) as Hm.
  destruct (MineCorrectNonce header (TargetBits p)) as [[n|e']|]; try discriminate.
  intros [= <-]. destruct Hm as (_ & Hm & _); [simpl; machine_bounds; lia|]. eauto 8.
Qed.

(** A block the miner returns contains the coinbase and every transaction it was
    given, pays the coinbase the reward and the fees of the transactions that
    executed, and passes the structural validation of a chain whose tip it was
    built on, as well as the total-work check of its header. *)
Theorem NewBlock_valid_structure `{Signatures} ex now p h b chain parent prevWork :
  NewBlock ex now p h = Ret (Some (Ok b)) -> is_genesis b = false ->
  GetBlock chain (PreviousHash p) = Some parent ->
  (forall tip, Tip chain = Some tip -> Blk.GetHash tip = PreviousHash p) ->
  Work.GetTargetBits (len (Blocks chain)) (Blocks chain) = Ret (TargetBits p) ->
  Hdr.Timestamp (Header parent) < (if Timestamp p =? 0 then u64 now else Timestamp p) ->
  PreviousWork p = dec prevWork -> 0 < Height p ->
  Blk.Transactions b = Coinbase p :: Transactions p
  /\ Hdr.TotalWork (Header b) = dec (prevWork + Work.GetBlockWork (TargetBits p))
  /\ Hdr.GasUsed (Header b) <= blockGasLimit
  /\ validateBlockStructure b chain = Ret (Ok ())
  /\ ValidateHeaderTotalWork (Header b) (PreviousWork p) = Ok ().
Proof.
  intros E Hg Hpar Htip Hbits Hts Hwork Hh. unfold NewBlock in E.
  apply go_bind_ret_inv in E as (w & _ & E). apply go_bind_ret_inv in E as (x & _ & E).
  destruct x as [[fees gas]|]; [|discriminate]. injection E as E.
  apply finish_block_inv in E as (n & -> & Hm & Hgas & _).
  set (ts := if Timestamp p =? 0 then u64 now else Timestamp p) in *.
  assert (Work.AddWork (PreviousWork p) (dec (Work.GetBlockWork (TargetBits p)))
          = dec (prevWork + Work.GetBlockWork (TargetBits p))) as Hw by (rewrite Hwork; apply Work.AddWork_dec).
  unfold meets_at in Hm. split_and!; [done | exact Hw | done | |].
  - by apply (structure_intro _ chain parent).
  - unfold ValidateHeaderTotalWork, ValidateHeaderStructure. cbn [Header Hdr.Bits Hdr.Height Hdr.with_Nonce new_header].
    rewrite Hm. cbn [negb]. rewrite (proj2 (Z.eqb_neq _ _)) by lia. cbn [andb mbind res_bind].
    rewrite (proj2 (Z.ltb_lt _ _)) by done. cbn [Hdr.TotalWork].
    unfold Work.CalculateBlockWorkFromBits. fold (Work.GetBlockWork (TargetBits p)). by rewrite String.eqb_refl.
Qed.

(** ** Blocks with nothing but a coinbase *)

Import HeapSpec ValidationSpec.

Section Coinbase.
Context `{Signatures} (ex : option ContractExecutor).

(** A coinbase applies when the recipient's balance does not overflow. *)
Lemma coinbase_applies t w : isCoinbase t = true -> is_u64 (Tx.Amount t) -> world_wf w ->
  (forall a, wview w !! Tx.To t = Some a -> is_u64 (Acct.Balance a) /\ Acct.Balance a + Tx.Amount t < 2 ^ 64) ->
  exists w', ApplyTransaction ex t w = Ret (w', (0, None)) /\ wview w' = credited t (wview w).
Proof.
  intros Hc Ha Hw Hb. unfold ApplyTransaction, apply_coinbase. rewrite Hc. destruct (accts w !! Tx.To t) as [l|] eqn:El.
  - destruct (deref_view _ _ _ _ El (wf_valid _ _ Hw _ _ El)) as (a & _ & Hv). destruct (Hb a Hv) as [Hu Hs].
    destruct (credit_spec w (Tx.To t) l a (Tx.Amount t) "coinbase balance overflow" Hw El Hv Hu Ha Hs) as (w1 & -> & _ & _ & Hview).
    exists w1. split; [done|]. rewrite Hview. unfold credited. by rewrite Hv.
  - assert (wview w !! Tx.To t = None) as Hv by (by rewrite lookup_view, El).
    destruct (new_account_spec w (Tx.To t) (Tx.Amount t) Hw) as (_ & Hview & _). eexists. split; [reflexivity|].
    rewrite Hview. unfold credited. by rewrite Hv.
Qed.

(** A block that is well formed and has only a coinbase for the reward validates. *)
Lemma coinbase_block_validates b chain h coinbase :
  validateBlockStructure b chain = Ret (Ok ()) -> is_genesis b = false ->
  Blk.Transactions b = [coinbase] -> Hdr.GasUsed (Header b) = 0 -> 0 <= Hdr.GasLimit (Header b) ->
  isCoinbase coinbase = true -> Tx.Amount coinbase = BlockReward -> Tx.GasLimit coinbase = 0 -> Tx.GasPrice coinbase = 0 ->
  wf h (AccountStates chain) ->
  (forall a, view h (AccountStates chain) !! Tx.To coinbase = Some a ->
     is_u64 (Acct.Balance a) /\ Acct.Balance a + BlockReward < 2 ^ 64) ->
  exists h' newAccountStates, ValidateBlock ex b chain h = Ret (h', Ok newAccountStates) /\
    view h' newAccountStates = credited coinbase (shallow_copy <$> view h (AccountStates chain)).
Proof.
  intros Hstruct Hg Htx Hgas Hlim Hc Ha Hgl Hgp Hwf Hbal.
  assert (is_u64 BlockReward) as Hreward by (split; [done | reflexivity]).
  destruct (copy_world_spec (MkWorld (AccountStates chain) h) Hwf) as (w & ext & Hcopy & _ & Hww & Hview & _).
  destruct (coinbase_applies coinbase w) as (w' & Happ & Hview'); [done | by rewrite Ha | done | |].
  { rewrite Hview, Ha. intros a Hl. apply lookup_fmap_Some in Hl as (a0 & <- & Hl0). by apply (Hbal a0). }
  exists (mem w'), (accts w'). split; [|fold (wview w'); by rewrite Hview', Hview].
  apply (ValidateBlock_intro ex b chain h w w' 0 0 Hstruct Hcopy).
  - rewrite Htx. cbn [apply_all]. unfold ValidateTransaction. rewrite Ha, Hgl, Hgp, !ValidateAmount_u64 by done.
    rewrite Hc. cbn [mbind go_bind]. by rewrite Happ.
  - unfold check_totals. rewrite Hgas, Hg, Htx, Ha. rewrite (proj2 (Z.ltb_ge _ _)) by done. reflexivity.
Qed.

End Coinbase.

End Mining.
