(* ===== verification/TestChain.v ===== *)
(** * Chains for tests (src/testutils/blockchain.go)

    The helpers with which the repository builds headers, chains and forks that
    the node is to accept.  The clock is read once per header; signing is a
    parameter. *)

From S2P Require Import Prelude GoLib Config Utils Bytecode Sha256 Ledger Work Chain Validation ValidationSpec Mining.

Module TestChain.
Import Convert Heap HeapSpec Chain Blk Validation ValidationSpec.
#[local] Open Scope string_scope.
#[local] Open Scope Z_scope.

(** ** Transactions *)

Definition CreateCoinbaseTransaction (now : Z) (beneficiary : PublicKey) (blockHeight : Z) : Tx.Transaction :=
  Tx.MkTx PublicKey_zero beneficiary BlockReward (replicate 64 zero) 0 (u64 now) MainnetChainID [] 0 0 [].

Definition CreateTestTransaction (now : Z) (from to : PublicKey) (amount nonce : Z) : Tx.Transaction :=
  Tx.MkTx from to amount (replicate 64 zero) nonce (u64 now) TestnetChainID [] GasTransfer 1 [].

(** [copy(tx.Signature[:], signature)]: a shorter signature leaves the rest. *)
Definition SignTransaction (Sign : bytes -> bytes -> go bytes) (privKey : bytes) (tx : Tx.Transaction) : go Tx.Transaction :=
  signature ← Sign privKey (Tx.GetHash tx);
  Ret (Tx.with_Signature (take 64 signature ++ drop (length signature) (Tx.Signature tx))%list tx).

Fixpoint calculateGasUsed (txs : list Tx.Transaction) (total : Z) : Z :=
  match txs with
  | [] => total
  | tx :: txs =>
      if bool_decide (Tx.From tx = PublicKey_zero) then calculateGasUsed txs total
      else
        let total := u64 (total + GasTransfer) in
        let total := u64 (total + u64 (len (Tx.Data tx) * GasDataPerByte)) in
        calculateGasUsed txs total
  end.

(** The accounts are hashed in the order of the iteration over the map. *)
Definition calculateStateRoot (order : list (PublicKey * Acct.AccountState)) : Hash32 :=
  copy_into 32 (sha256 (concat (map (fun kv =>
    kv.1 ++ Uint64ToBytes (Acct.Balance kv.2) ++ Uint64ToBytes (Acct.Nonce kv.2)) order)))%list.

(** The gas of plain transactions, coinbases apart. *)
Definition gas_sum (txs : list Tx.Transaction) : Z :=
  fold_right (fun t n => (if isCoinbase t then 0 else transfer_gas t) + n) 0 txs.

(** ** Headers *)

(** [mineHeader]'s loop: [n] nonces are left below the limit. *)
Fixpoint mine_loop (n : nat) (header : Hdr.BlockHeader) : go Hdr.BlockHeader :=
  match n with
  | O => Panic (ExplicitPanic "Could not mine header within nonce limit")
  | S n' =>
      if Work.BlockHashMeetsDifficulty (Hdr.GetHash header) (Hdr.Bits header) then Ret header
      else mine_loop n' (Hdr.with_Nonce (u64 (Hdr.Nonce header + 1)) header)
  end.

Definition mineHeader (header : Hdr.BlockHeader) : go Hdr.BlockHeader :=
  mine_loop (Z.to_nat (1000000 - Hdr.Nonce header)) header.

(** [SetString] gives [nil] for a text that is no number, and [Add] panics on it. *)
Definition big_of (s : string) : go Z :=
  match big_SetString s 10 with
  | (n, true) => Ret n
  | (_, false) => Panic NilDereference
  end.

(** The header before it is mined. *)
Definition unmined (now : Z) (parent : option Hdr.BlockHeader) (txs : list Tx.Transaction) (parentWork : Z) : Hdr.BlockHeader :=
  let targetBits := GetTargetCompact in
  let timestamp := u64 now in
  let timestamp := match parent with
                   | Some p => if timestamp <=? Hdr.Timestamp p then u64 (Hdr.Timestamp p + 1) else timestamp
                   | None => timestamp
                   end in
  {| Hdr.Version := 1;
     Hdr.PreviousHash := match parent with Some p => Hdr.GetHash p | None => Hash32_zero end;
     Hdr.Height := match parent with Some p => u64 (Hdr.Height p + 1) | None => 0 end;
     Hdr.Timestamp := timestamp; Hdr.Nonce := 0;
     Hdr.MerkleRoot := Merkle.MerkleTransactions txs; Hdr.StateRoot := Hash32_zero; Hdr.ReceiptRoot := Hash32_zero;
     Hdr.Bits := targetBits;
     Hdr.TotalWork := dec (parentWork + (big_SetString (Work.CalculateBlockWorkFromBits targetBits) 10).1);
     Hdr.GasLimit := 1000000; Hdr.GasUsed := calculateGasUsed txs 0; Hdr.Beneficiary := FirstUser |}.

Definition CreateTestHeader (now : Z) (parent : option Hdr.BlockHeader) (txs : list Tx.Transaction) : go Hdr.BlockHeader :=
  parentWork ← match parent with Some p => big_of (Hdr.TotalWork p) | None => Ret 0 end;
  mineHeader (unmined now parent txs parentWork).

Definition CreateTestBlock (now : Z) (parent : option Hdr.BlockHeader) (txs : list Tx.Transaction) : go Block :=
  header ← CreateTestHeader now parent txs;
  Ret (MkBlock header txs).

(** ** Chains: [now] is the clock at each header *)

Fixpoint chain_loop (now : list Z) (currentParent : Hdr.BlockHeader) : go (list Hdr.BlockHeader) :=
  match now with
  | [] => Ret []
  | t :: now =>
      header ← CreateTestHeader t (Some currentParent) [];
      headers ← chain_loop now header;
      Ret (header :: headers)
  end.

Definition CreateTestChain (parent : option Hdr.BlockHeader) (now : list Z) : go (list Hdr.BlockHeader) :=
  chain_loop now (match parent with Some p => p | None => Header Work.GenesisBlock end).

Definition CreateTestFork (commonAncestor : option Hdr.BlockHeader) (nowA nowB : list Z)
    : go (list Hdr.BlockHeader * list Hdr.BlockHeader) :=
  chainA ← CreateTestChain commonAncestor nowA;
  chainB ← CreateTestChain commonAncestor nowB;
  Ret (chainA, chainB).

Definition with_TotalWork (w : string) (h : Hdr.BlockHeader) : Hdr.BlockHeader :=
  Hdr.MkHeader (Hdr.Version h) (Hdr.PreviousHash h) (Hdr.Height h) (Hdr.Timestamp h) (Hdr.Nonce h) (Hdr.MerkleRoot h)
    (Hdr.StateRoot h) (Hdr.ReceiptRoot h) (Hdr.Bits h) w (Hdr.GasLimit h) (Hdr.GasUsed h) (Hdr.Beneficiary h).

Definition CreateHigherWorkHeader (now : Z) (parent competingHeader : Hdr.BlockHeader) : go Hdr.BlockHeader :=
  header ← CreateTestHeader now (Some parent) [];
  competingWork ← big_of (Hdr.TotalWork competingHeader);
  parentWork ← big_of (Hdr.TotalWork parent);
  let extraWork := competingWork - parentWork + 1000 in
  currentWork ← big_of (Hdr.TotalWork header);
  let targetWork := parentWork + extraWork in
  Ret (if big_Cmp currentWork targetWork <? 0 then with_TotalWork (dec targetWork) header else header).

(** ** Gas *)

Lemma len_cons {A} (x : A) l : len (x :: l) = len l + 1.
Proof. unfold len. cbn [length]. lia. Qed.

Lemma len_nonneg {A} (l : list A) : 0 <= len l.
Proof. unfold len. lia. Qed.

Lemma gas_sum_nonneg txs : 0 <= gas_sum txs.
Proof.
  induction txs as [|t txs IH]; cbn [gas_sum fold_right]; [lia|]. fold (gas_sum txs).
  destruct (isCoinbase t); [lia|]. unfold transfer_gas, GasTransfer, GasDataPerByte, len. lia.
Qed.

(** The gas a test header claims is what [ApplyTransaction] charges for payments
    ([transfer_gas]), as long as the sum is a 64-bit number. *)
Theorem calculateGasUsed_payments txs : forall total, 0 <= total -> total + gas_sum txs < 2 ^ 64 ->
  calculateGasUsed txs total = total + gas_sum txs.
Proof.
  induction txs as [|t txs IH]; intros total H0 Hs; cbn [calculateGasUsed gas_sum fold_right] in *; [lia|].
  fold (gas_sum txs) in *. unfold isCoinbase in *. pose proof (gas_sum_nonneg txs).
  destruct (bool_decide (Tx.From t = PublicKey_zero)); [rewrite IH; lia|].
  unfold transfer_gas, GasTransfer, GasDataPerByte in *. pose proof (len_nonneg (Tx.Data t)).
  rewrite (u64_small (len (Tx.Data t) * _)), (u64_small (total + _)), u64_small by (machine_bounds; lia). rewrite IH; lia.
Qed.

(** ** Mined headers *)

Lemma with_Nonce_with n m h : Hdr.with_Nonce n (Hdr.with_Nonce m h) = Hdr.with_Nonce n h.
Proof. done. Qed.

Lemma mine_loop_ok n h h' : mine_loop n h = Ret h' -> meets h' /\ exists k, h' = Hdr.with_Nonce k h.
Proof.
  revert h. induction n as [|n IH]; intros h; cbn [mine_loop]; [done|].
  destruct (Work.BlockHashMeetsDifficulty _ _) eqn:Em.
  - intros E. assert (h' = h) as -> by congruence. split; [exact Em|]. exists (Hdr.Nonce h). by destruct h.
  - intros E. destruct (IH _ E) as (Hm & k & ->). split; [done|]. by exists k.
Qed.

Lemma mineHeader_ok h h' : mineHeader h = Ret h' -> meets h' /\ exists k, h' = Hdr.with_Nonce k h.
Proof. unfold mineHeader. apply mine_loop_ok. Qed.

Lemma big_of_dec n : big_of (dec n) = Ret n.
Proof. unfold big_of, dec. by rewrite SetString_Text. Qed.

Lemma block_work bits : (big_SetString (Work.CalculateBlockWorkFromBits bits) 10).1 = Work.GetBlockWork bits.
Proof. unfold Work.CalculateBlockWorkFromBits, Work.GetBlockWork. by rewrite Work.work_of_dec. Qed.

Lemma unmined_work now p txs w : Hdr.TotalWork (unmined now p txs w) = dec (w + Work.GetBlockWork GetTargetCompact).
Proof. unfold unmined. cbn [Hdr.TotalWork]. by rewrite block_work. Qed.

Lemma unmined_links now p txs w k : 0 <= Hdr.Height p < max_u64 -> 0 <= Hdr.Timestamp p < max_u64 ->
  links p (Hdr.with_Nonce k (unmined now (Some p) txs w))
  /\ Hdr.Height (unmined now (Some p) txs w) = Hdr.Height p + 1
  /\ Hdr.Timestamp (unmined now (Some p) txs w) = Z.max (u64 now) (Hdr.Timestamp p + 1).
Proof.
  intros Hh Ht. unfold links, unmined. cbn [Hdr.with_Nonce Hdr.PreviousHash Hdr.Height Hdr.Timestamp].
  rewrite (u64_small (Hdr.Timestamp p + 1)), (u64_small (Hdr.Height p + 1)) by (machine_bounds; lia).
  destruct (Z.leb_spec (u64 now) (Hdr.Timestamp p)); split_and!; (done || lia).
Qed.

Lemma CreateTestHeader_child now p txs h w :
  CreateTestHeader now (Some p) txs = Ret h -> Hdr.TotalWork p = dec w ->
  0 <= Hdr.Height p < max_u64 -> 0 <= Hdr.Timestamp p < max_u64 ->
  meets h /\ links p h /\ Hdr.Height h = Hdr.Height p + 1 /\ Hdr.Bits h = GetTargetCompact
  /\ (Hdr.MerkleRoot h = Merkle.MerkleTransactions txs /\ Hdr.GasUsed h = calculateGasUsed txs 0 /\ Hdr.GasLimit h = 1000000)
  /\ Hdr.TotalWork h = dec (w + Work.GetBlockWork GetTargetCompact)
  /\ Hdr.Timestamp h = Z.max (u64 now) (Hdr.Timestamp p + 1).
Proof.
  intros E Hw Hh Ht. apply go_bind_ret_inv in E as (w' & Ew & E). rewrite Hw, big_of_dec in Ew.
  assert (w' = w) as -> by congruence. apply mineHeader_ok in E as (Hm & k & ->).
  destruct (unmined_links now p txs w k Hh Ht) as (Hl & Hh' & Ht'). pose proof (unmined_work now (Some p) txs w) as Hw'.
  exact (conj Hm (conj Hl (conj Hh' (conj eq_refl (conj (conj eq_refl (conj eq_refl eq_refl)) (conj Hw' Ht')))))).
Qed.

Lemma child_validates p h w bits :
  meets h -> Hdr.Height h = Hdr.Height p + 1 -> 0 <= Hdr.Height p ->
  Hdr.TotalWork h = dec (w + Work.GetBlockWork bits) -> Hdr.Bits h = bits ->
  ValidateHeaderTotalWork h (dec w) = Ok ().
Proof.
  intros Hm Hh Hp Hw Hb. unfold ValidateHeaderTotalWork, ValidateHeaderStructure. rewrite Hm. cbn [negb].
  rewrite (proj2 (Z.eqb_neq _ _)) by lia. cbn [andb mbind res_bind]. rewrite (proj2 (Z.ltb_lt _ _)) by lia.
  rewrite Hb, Hw. unfold Work.CalculateBlockWorkFromBits. rewrite Work.AddWork_dec.
  fold (Work.GetBlockWork bits). by rewrite String.eqb_refl.
Qed.

(** A parent on which [n] headers can be built without wrapping around. *)
Record room (p : Hdr.BlockHeader) (w : Z) (now : list Z) : Prop := {
  room_work : Hdr.TotalWork p = dec w;
  room_height : 0 <= Hdr.Height p /\ Hdr.Height p + len now <= max_u64;
  room_time : 0 <= Hdr.Timestamp p /\ Hdr.Timestamp p + len now <= max_u64;
  room_clock : Forall (fun t => u64 t + len now <= max_u64) now
}.

Lemma room_child p w t now h : room p w (t :: now) -> CreateTestHeader t (Some p) [] = Ret h ->
  room h (w + Work.GetBlockWork GetTargetCompact) now /\ links p h /\ meets h
  /\ ValidateHeaderTotalWork h (dec w) = Ok ().
Proof.
  intros [Hw Hh Ht Hc] E. rewrite Forall_cons in Hc. destruct Hc as [Hc0 Hc]. rewrite !len_cons in *.
  pose proof (len_nonneg now). pose proof (u64_range t).
  destruct (CreateTestHeader_child t p [] h w E Hw) as (Hm & Hl & Hh' & Hb & _ & Hw' & Ht'); [lia|lia|].
  split_and!; [|done|done|apply (child_validates p h w GetTargetCompact); done || lia]. split; [done|lia|lia|].
  eapply Forall_impl; [exact Hc|]. intros x Hx. cbn beta in Hx. lia.
Qed.

Lemma chain_loop_ok now p w hs prev :
  chain_loop now p = Ret hs -> room p w now -> prev = None \/ prev = Some p ->
  header_work_loop prev (dec w) hs = true /\ length hs = length now /\ linked (p :: hs) /\ Forall meets hs
  /\ Hdr.TotalWork (default p (last hs)) = dec (w + len now * Work.GetBlockWork GetTargetCompact).
Proof.
  revert p w hs prev. induction now as [|t now IH]; intros p w hs prev E Hr Hp; cbn [chain_loop] in E.
  { assert (hs = []) as -> by congruence. destruct Hr as [Hw _ _ _]. split_and!; [done | done | by intros [|i] | constructor |].
    change (Hdr.TotalWork (default p (last []))) with (Hdr.TotalWork p). rewrite Hw. f_equal. change (len (@nil Z)) with 0. lia. }
  apply go_bind_ret_inv in E as (h & Eh & E). apply go_bind_ret_inv in E as (hs' & Ehs & E).
  assert (hs = h :: hs') as -> by congruence.
  destruct (room_child _ _ _ _ _ Hr Eh) as (Hr' & Hl & Hm & Hv).
  destruct (IH h _ hs' (Some h) Ehs Hr' (or_intror eq_refl)) as (H1 & H2 & H3 & H4 & H5).
  split_and!.
  - cbn [header_work_loop]. rewrite Hv. rewrite (room_work _ _ _ Hr'), H1, andb_true_r. cbn [andb].
    destruct Hl as (L1 & L2 & L3). destruct Hp as [->| ->]; [done|].
    rewrite bool_decide_true by done. rewrite L2, Z.eqb_refl. cbn [andb]. by rewrite (proj2 (Z.leb_gt _ _)).
  - cbn [length]. by rewrite H2.
  - by apply linked_cons.
  - by constructor.
  - rewrite len_cons. replace (default p (last (h :: hs'))) with (default h (last hs')).
    + rewrite H5. f_equal. lia.
    + destruct hs' as [|h2 hs']; [done|]. change (last (h :: h2 :: hs')) with (last (h2 :: hs')).
      destruct (last (h2 :: hs')) eqn:El; [done|]. by apply last_None in El.
Qed.

(** C27. The headers of a test chain are valid, as their comment says: the node's check of
    header chains accepts them from the parent's total work on, they are linked to
    the parent and to each other, and the work adds up. *)
Theorem CreateTestChain_validates p w now hs :
  CreateTestChain (Some p) now = Ret hs -> room p w now -> now <> [] ->
  ValidateHeaderChainWithWork hs (Hdr.TotalWork p) = true /\ length hs = length now /\ linked (p :: hs)
  /\ Forall meets hs /\ Hdr.TotalWork (default p (last hs)) = dec (w + len now * Work.GetBlockWork GetTargetCompact).
Proof.
  intros E Hr Hn. destruct (chain_loop_ok now p w hs None E Hr (or_introl eq_refl)) as (H1 & H2 & H3).
  split_and!; try apply H3; [|done]. unfold ValidateHeaderChainWithWork. rewrite (room_work _ _ _ Hr).
  destruct hs; [|done]. by destruct now.
Qed.

(** ** Forks *)

Lemma chain_loop_prefix l1 l2 p hs :
  chain_loop (l1 ++ l2)%list p = Ret hs -> exists hs1 hs2, chain_loop l1 p = Ret hs1 /\ hs = (hs1 ++ hs2)%list.
Proof.
  revert p hs. induction l1 as [|t l1 IH]; intros p hs E; [by exists [], hs|].
  change ((t :: l1) ++ l2)%list with (t :: (l1 ++ l2))%list in E. cbn [chain_loop] in E |- *.
  apply go_bind_ret_inv in E as (h & Eh & E). apply go_bind_ret_inv in E as (hs' & Ehs & E).
  assert (hs = h :: hs') as -> by congruence. destruct (IH h hs' Ehs) as (hs1 & hs2 & E1 & ->).
  exists (h :: hs1), hs2. split; [|done]. rewrite Eh. cbn [mbind go_bind]. by rewrite E1.
Qed.

(** Nothing but the clock tells the branches of a fork apart: when it reads the same
    at their first headers, one branch begins with the other, and there is no fork. *)
Theorem CreateTestFork_same_clock commonAncestor nowA more chainA chainB :
  CreateTestFork commonAncestor nowA (nowA ++ more) = Ret (chainA, chainB) -> chainA `prefix_of` chainB.
Proof.
  intros E. apply go_bind_ret_inv in E as (cA & EA & E). apply go_bind_ret_inv in E as (cB & EB & E).
  assert (cA = chainA /\ cB = chainB) as [-> ->] by (split; congruence).
  destruct (chain_loop_prefix _ _ _ _ EB) as (hs1 & hs2 & E1 & ->).
  assert (chainA = hs1) as -> by (unfold CreateTestChain in EA; congruence). by exists hs2.
Qed.

Lemma CompareWork_dec a b : Work.CompareWork (dec a) (dec b) = big_Cmp a b.
Proof. unfold Work.CompareWork. by rewrite !Work.work_of_dec. Qed.

(** A header of higher work does claim strictly more than its competitor.  When the
    work of its block is not enough for that, the claim is raised after the header
    was mined, and the node's check of the total work refuses it. *)
Theorem CreateHigherWorkHeader_spec now p competing h w cw :
  CreateHigherWorkHeader now p competing = Ret h ->
  Hdr.TotalWork p = dec w -> Hdr.TotalWork competing = dec cw ->
  0 <= Hdr.Height p < max_u64 -> 0 <= Hdr.Timestamp p < max_u64 ->
  Work.CompareWork (Hdr.TotalWork h) (Hdr.TotalWork competing) = 1
  /\ (ValidateHeaderTotalWork h (Hdr.TotalWork p) = Ok () <-> cw + 1000 <= w + Work.GetBlockWork GetTargetCompact).
Proof.
  intros E Hw Hc Hh Ht. unfold CreateHigherWorkHeader in E. apply go_bind_ret_inv in E as (h0 & E0 & E).
  destruct (CreateTestHeader_child now p [] h0 w E0 Hw Hh Ht) as (Hm & _ & Hh0 & Hb & _ & Hw0 & _).
  rewrite Hc, Hw, Hw0, !big_of_dec in E. cbn [mbind go_bind] in E. rewrite Hc, Hw.
  revert Hw0 Hb E. generalize GetTargetCompact. intros bits Hw0 Hb E.
  replace (w + (cw - w + 1000)) with (cw + 1000) in E by lia. apply Ret_inj in E.
  pose proof (Z.compare_spec (w + Work.GetBlockWork bits) (cw + 1000)) as Hs. unfold big_Cmp in E.
  destruct (decide (cw + 1000 <= w + Work.GetBlockWork bits)) as [Hle|Hlt].
  - assert (h = h0) as ->. { rewrite <- E. destruct Hs; [done | lia | done]. }
    rewrite Hw0, CompareWork_dec. split; [unfold big_Cmp; by rewrite (proj2 (Z.compare_gt_iff _ _)) by lia|].
    split; [done|]. intros _. apply (child_validates p h0 w bits); done || lia.
  - assert (h = with_TotalWork (dec (cw + 1000)) h0) as ->. { rewrite <- E. destruct Hs; [lia | done | lia]. }
    cbn [Hdr.TotalWork with_TotalWork]. rewrite CompareWork_dec.
    split; [unfold big_Cmp; by rewrite (proj2 (Z.compare_gt_iff _ _)) by lia|].
    split; [|done]. intros Hv. apply ValidateHeaderTotalWork_inv in Hv as [_ Hv]; [|cbn; lia].
    cbn [Hdr.TotalWork Hdr.Bits with_TotalWork] in Hv. apply dec_inj in Hv. rewrite Hb in Hv. lia.
Qed.

(** ** Blocks *)

Lemma CreateTestBlock_structure now parent chain txs b w :
  CreateTestBlock now (Some (Header parent)) txs = Ret b -> Hdr.TotalWork (Header parent) = dec w ->
  0 <= Hdr.Height (Header parent) < max_u64 -> 0 <= Hdr.Timestamp (Header parent) < max_u64 ->
  Tip chain = Some parent -> Chain.GetBlock chain (Blk.GetHash parent) = Some parent ->
  Work.GetTargetBits (len (Blocks chain)) (Blocks chain) = Ret GetTargetCompact ->
  is_genesis b = false -> validateBlockStructure b chain = Ret (Ok ()).
Proof.
  intros E Hw Hh Ht Htip Hpar Hbits Hg. apply go_bind_ret_inv in E as (h & Eh & E). apply Ret_inj in E as <-.
  destruct (CreateTestHeader_child _ _ _ _ _ Eh Hw Hh Ht) as (Hm & (Hp & _ & Hts) & _ & Hb & (Hroot & _) & _).
  apply (Mining.structure_intro _ chain parent Hg); cbn [Header Transactions]; rewrite ?Hp, ?Hb, ?Hroot; try done.
  - intros tip Hx. rewrite Htip in Hx. assert (tip = parent) as -> by congruence. done.
  - unfold meets in Hm. by rewrite Hb in Hm.
Qed.

(** A test block with nothing but the coinbase passes full validation on the chain of
    its parent, as its comment says (unless its hash happens to be the genesis
    hash), and pays the reward. *)
Theorem CreateTestBlock_validates `{Signatures} ex now now' beneficiary blockHeight parent chain h b w
    (coinbase := CreateCoinbaseTransaction now' beneficiary blockHeight) :
  CreateTestBlock now (Some (Header parent)) [coinbase] = Ret b -> Hdr.TotalWork (Header parent) = dec w ->
  0 <= Hdr.Height (Header parent) < max_u64 -> 0 <= Hdr.Timestamp (Header parent) < max_u64 ->
  Tip chain = Some parent -> GetBlock chain (Blk.GetHash parent) = Some parent ->
  Work.GetTargetBits (len (Blocks chain)) (Blocks chain) = Ret GetTargetCompact ->
  wf h (AccountStates chain) ->
  (forall a, view h (AccountStates chain) !! beneficiary = Some a ->
     is_u64 (Acct.Balance a) /\ Acct.Balance a + BlockReward < 2 ^ 64) ->
  is_genesis b = true \/
  exists h' newAccountStates, ValidateBlock ex b chain h = Ret (h', Ok newAccountStates) /\
    view h' newAccountStates = credited coinbase (shallow_copy <$> view h (AccountStates chain)).
Proof.
  intros E Hw Hh Ht Htip Hpar Hbits Hwf Hbal. destruct (is_genesis b) eqn:Hg; [by left|right].
  pose proof (CreateTestBlock_structure _ _ _ _ _ _ E Hw Hh Ht Htip Hpar Hbits Hg) as Hs.
  apply go_bind_ret_inv in E as (hd & Eh & E). apply Ret_inj in E as <-.
  destruct (CreateTestHeader_child _ _ _ _ _ Eh Hw Hh Ht) as (_ & _ & _ & _ & (_ & Hgas & Hlim) & _).
  apply (Mining.coinbase_block_validates ex _ chain h coinbase Hs Hg); try done; cbn [Header].
  by rewrite Hlim.
Qed.

(** Without a transaction the same block makes the validation panic. *)
Theorem empty_test_block_panics `{Signatures} ex now parent chain h b w :
  CreateTestBlock now (Some (Header parent)) [] = Ret b -> Hdr.TotalWork (Header parent) = dec w ->
  0 <= Hdr.Height (Header parent) < max_u64 -> 0 <= Hdr.Timestamp (Header parent) < max_u64 ->
  Tip chain = Some parent -> GetBlock chain (Blk.GetHash parent) = Some parent ->
  Work.GetTargetBits (len (Blocks chain)) (Blocks chain) = Ret GetTargetCompact ->
  wf h (AccountStates chain) -> is_genesis b = false ->
  ValidateBlock ex b chain h = Panic IndexOutOfRange.
Proof.
  intros E Hw Hh Ht Htip Hpar Hbits Hwf Hg.
  pose proof (CreateTestBlock_structure _ _ _ _ _ _ E Hw Hh Ht Htip Hpar Hbits Hg) as Hs.
  apply go_bind_ret_inv in E as (hd & Eh & E). apply Ret_inj in E as <-.
  destruct (CreateTestHeader_child _ _ _ _ _ Eh Hw Hh Ht) as (_ & _ & _ & _ & (_ & Hgas & Hlim) & _).
  destruct (copy_world_spec (MkWorld (AccountStates chain) h) Hwf) as (w1 & ext & Hcopy & _).
  unfold ValidateBlock. rewrite Hs. cbn [mbind go_bind]. rewrite Hcopy. cbn [mbind go_bind Transactions apply_all].
  unfold check_totals. rewrite Hg. cbn [Header Transactions]. by rewrite Hgas, Hlim.
Qed.

End TestChain.
