(* ===== verification/Node.v ===== *)
(** * The node (src/node: node.go, header_processing.go, orphans.go, tasks.go,
    getters.go, and the chain set-up of lifecycle.go)

    A node keeps several chains, keyed by the hash of their tip, indices of all
    headers and blocks, headers whose parent is unknown, and which chain is the
    current one.  A [*Chain] is a location of [store], because several keys and
    several goroutines may hold the same chain.

    [ProcessHeader] stops where the code waits for blocks from its peers: it
    leaves an [awaiting] in the node, which stands for the goroutine that holds
    the header lock, and [resume] continues with what the peers sent.  Goroutines
    that are started are recorded in [spawned] and run later, in any order
    ([step]).  What peers send, the clock and the orders of map iteration are
    arguments.  Locks only make the pieces between two waits atomic; logging is
    left out. *)

From stdpp Require Import sorting.
From S2P Require Import Prelude GoLib Config Utils Bytecode Ledger Work Chain Validation Mempool.

Module Node.
Import Heap Chain Blk Validation.

(** ** State *)

Abbreviation chain_ptr := nat.

(** [go func() ...]: the goroutines the node starts. *)
Inductive task :=
  | TaskHeader (header : Hdr.BlockHeader)
  | TaskFetchFork (header : Hdr.BlockHeader) (missingBlocks : list Hash32) (sourceChain : chain_ptr)
  | TaskFetchParent (header : Hdr.BlockHeader)
  | TaskFetchParentBlock (header : Hdr.BlockHeader).

(** Where [ProcessHeader] waits for the answer to [RequestBlocks]. *)
Inductive awaiting :=
  | AwaitCurrent (header : Hdr.BlockHeader) (blockHash : Hash32) (parentChain : chain_ptr) (parentChainTip : Hash32)
  | AwaitCandidate (headersToFetch : list Hash32) (parentChain : chain_ptr) (parentChainTip : Hash32).

Record Node := MkNode {
  mem : heap;
  store : list Chain;
  chains : gmap Hash32 chain_ptr;
  currentChainTip : Hash32;
  headersMap : gmap Hash32 Hdr.BlockHeader;
  blocksMap : gmap Hash32 Block;
  orphanHeaders : gmap Hash32 (list Hdr.BlockHeader);
  submittedBlocks : gmap Hash32 Block;
  pool : Mempool.Mempool;
  processing : option awaiting;
  spawned : list task
}.

Definition with_mem v n := MkNode v (store n) (chains n) (currentChainTip n) (headersMap n) (blocksMap n)
  (orphanHeaders n) (submittedBlocks n) (pool n) (processing n) (spawned n).
Definition with_store v n := MkNode (mem n) v (chains n) (currentChainTip n) (headersMap n) (blocksMap n)
  (orphanHeaders n) (submittedBlocks n) (pool n) (processing n) (spawned n).
Definition with_chains v n := MkNode (mem n) (store n) v (currentChainTip n) (headersMap n) (blocksMap n)
  (orphanHeaders n) (submittedBlocks n) (pool n) (processing n) (spawned n).
Definition with_tip v n := MkNode (mem n) (store n) (chains n) v (headersMap n) (blocksMap n)
  (orphanHeaders n) (submittedBlocks n) (pool n) (processing n) (spawned n).
Definition with_headersMap v n := MkNode (mem n) (store n) (chains n) (currentChainTip n) v (blocksMap n)
  (orphanHeaders n) (submittedBlocks n) (pool n) (processing n) (spawned n).
Definition with_blocksMap v n := MkNode (mem n) (store n) (chains n) (currentChainTip n) (headersMap n) v
  (orphanHeaders n) (submittedBlocks n) (pool n) (processing n) (spawned n).
Definition with_orphans v n := MkNode (mem n) (store n) (chains n) (currentChainTip n) (headersMap n) (blocksMap n)
  v (submittedBlocks n) (pool n) (processing n) (spawned n).
Definition with_submitted v n := MkNode (mem n) (store n) (chains n) (currentChainTip n) (headersMap n) (blocksMap n)
  (orphanHeaders n) v (pool n) (processing n) (spawned n).
Definition with_pool v n := MkNode (mem n) (store n) (chains n) (currentChainTip n) (headersMap n) (blocksMap n)
  (orphanHeaders n) (submittedBlocks n) v (processing n) (spawned n).
Definition with_processing v n := MkNode (mem n) (store n) (chains n) (currentChainTip n) (headersMap n) (blocksMap n)
  (orphanHeaders n) (submittedBlocks n) (pool n) v (spawned n).
Definition with_spawned v n := MkNode (mem n) (store n) (chains n) (currentChainTip n) (headersMap n) (blocksMap n)
  (orphanHeaders n) (submittedBlocks n) (pool n) (processing n) v.

Definition genesisHash : Hash32 := Hdr.GetHash (Header Work.GenesisBlock).

(** The chains and indices [NewNode] starts with. *)
Definition NewNode : Node :=
  MkNode [] [AddBlock Work.GenesisBlock (AddHeader (Header Work.GenesisBlock) NewChain)]
    {[genesisHash := 0%nat]} genesisHash
    {[genesisHash := Header Work.GenesisBlock]} {[genesisHash := Work.GenesisBlock]}
    ∅ ∅ Mempool.NewMempool None [].

(** ** A monad for the methods *)

Inductive node_error :=
  | InvalidHeader (e : block_error)
  | ChainBuild (e : chain_error)
  | BlockRejected (e : chain_error)
  | TransactionInvalid (e : tx_error)
  | RejectedByPool
  | NoChainFor (hash : Hash32).

(** Results of a method: [None] when a walk over headers does not end. *)
Definition M (A : Type) : Type := Node -> option (go (Node * A)).

#[export] Instance M_ret : MRet M := fun A a n => Some (Ret (n, a)).

#[export] Instance M_bind : MBind M := fun A B f c n =>
  match c n with
  | Some (Ret (n', a)) => f a n'
  | Some (Panic k) => Some (Panic k)
  | None => None
  end.

Definition get : M Node := fun n => Some (Ret (n, n)).
Definition modify (f : Node -> Node) : M unit := fun n => Some (Ret (f n, ())).
Definition of_go {A} (c : go A) : M A := fun n => Some (a ← c; Ret (n, a)).
Definition of_fuel {A} (c : option A) : M A := fun n => a ← c; Some (Ret (n, a)).

(** [*p], [p.f(...)] and [&Chain{...}] for a chain pointer. *)
Definition chain_at (n : Node) (p : chain_ptr) : go Chain :=
  match store n !! p with Some c => Ret c | None => Panic NilDereference end.
Definition read_chain (p : chain_ptr) : M Chain := n ← get; of_go (chain_at n p).
Definition update_chain (p : chain_ptr) (f : Chain -> Chain) : M unit :=
  c ← read_chain p; modify (fun n => with_store (<[p := f c]> (store n)) n).
Definition new_chain (c : Chain) : M chain_ptr :=
  n ← get; modify (fun n => with_store (store n ++ [c]) n);; mret (length (store n)).

Definition spawn (t : task) : M unit := modify (fun n => with_spawned (spawned n ++ [t]) n).

(** The orders in which one call ranges over the chains and over a map of
    blocks. *)
Record Env := MkEnv {
  chain_order : gmap Hash32 chain_ptr -> list (Hash32 * chain_ptr);
  block_order : gmap Hash32 Block -> list (Hash32 * Block)
}.

Class LawfulEnv (env : Env) : Prop := {
  chain_order_perm : forall m, chain_order env m ≡ₚ map_to_list m;
  block_order_perm : forall m, block_order env m ≡ₚ map_to_list m
}.

(** ** getters.go *)

(** The current chain, if its key is set. *)
Definition current_chain (n : Node) : option Chain :=
  p ← chains n !! currentChainTip n; store n !! p.

Definition GetCurrentChain (n : Node) : option Block :=
  if bool_decide (currentChainTip n = Hash32_zero) then None
  else match current_chain n with None => None | Some c => GetTip c end.

Definition GetBlock (n : Node) (hash : Hash32) : option Block :=
  match submittedBlocks n !! hash with Some b => Some b | None => blocksMap n !! hash end.

Definition GetBlocks (n : Node) (hashes : list Hash32) : list Block := omap (GetBlock n) hashes.

Definition GetHeader (n : Node) (hash : Hash32) : option Hdr.BlockHeader := headersMap n !! hash.

Definition GetHeaders (n : Node) (hashes : list Hash32) : list Hdr.BlockHeader := omap (GetHeader n) hashes.

Definition GetBlockAtHeight (n : Node) (height : Z) : option Block :=
  if bool_decide (currentChainTip n = Hash32_zero) then None
  else match current_chain n with None => None | Some c => Chain.GetBlockAtHeight c height end.

(** Height, hash and total work of the head. *)
Definition no_head : Z * Hash32 * string := (0, Hash32_zero, "0"%string).

Definition GetChainHead (n : Node) : Z * Hash32 * string :=
  if bool_decide (currentChainTip n = Hash32_zero) then no_head
  else match current_chain n with
       | None => no_head
       | Some c =>
           match Tip c with
           | None => no_head
           | Some t => (Hdr.Height (Header t), Hdr.GetHash (Header t), Hdr.TotalWork (Header t))
           end
       end.

(** A copy whose maps are new; the accounts are shared. *)
Definition GetChain (n : Node) : Chain :=
  if bool_decide (currentChainTip n = Hash32_zero) then NewChain
  else match current_chain n with
       | None => NewChain
       | Some c => MkChain (Blocks c) (BlockIndex c) (Headers c) (GetAccountStates c) (Tip c)
       end.

Definition GetCandidateChains (n : Node) : gmap Hash32 chain_ptr := chains n.

(** ** orphans.go *)

Definition tryConnectOrphanChildren (parentHash : Hash32) : M unit :=
  modify (fun n => with_spawned (spawned n ++ map TaskHeader (default [] (orphanHeaders n !! parentHash))) n).

(** The smallest height of a tip, starting from 2^64 - 1. *)
Definition min_tip_height (n : Node) : Z :=
  foldr (fun kv m => match store n !! kv.2 ≫= Tip with
                     | Some t => if Hdr.Height (Header t) <? m then Hdr.Height (Header t) else m
                     | None => m
                     end) (2 ^ 64 - 1) (map_to_list (chains n)).

Definition cleanupStaleOrphans : M unit :=
  modify (fun n =>
    let minChainHeight := min_tip_height n in
    if minChainHeight =? 2 ^ 64 - 1 then n
    else with_orphans
      (omap (fun headerList =>
        match filter (fun header => minChainHeight <= Hdr.Height header) headerList with
        | [] => None
        | filteredHeaders => Some filteredHeaders
        end) (orphanHeaders n)) n).

(** Append a header to the orphans that wait for its parent. *)
Definition add_orphan (header : Hdr.BlockHeader) : M unit :=
  modify (fun n => with_orphans
    (<[Hdr.PreviousHash header := default [] (orphanHeaders n !! Hdr.PreviousHash header) ++ [header]]>
       (orphanHeaders n)) n).

Definition cleanupFailedHeader (header : Hdr.BlockHeader) (blockHash : Hash32) (parentChain : chain_ptr)
    (parentChainTip : Hash32) (restoreToOrphans : bool) : M unit :=
  update_chain parentChain (fun c =>
    MkChain (Blocks c) (BlockIndex c) (delete blockHash (Headers c)) (AccountStates c) (Tip c));;
  modify (fun n => with_headersMap (delete blockHash (headersMap n)) n);;
  modify (fun n => with_chains (<[parentChainTip := parentChain]> (delete blockHash (chains n))) n);;
  if restoreToOrphans then add_orphan header else mret ().

(** ** tasks.go *)

Definition cleanupCandidateChains : M unit :=
  n ← get;
  match current_chain n ≫= Tip with
  | None => mret ()
  | Some t =>
      let currentHeight := Hdr.Height (Header t) in
      let minHeight := if MaxCandidateChainDepthGap <? currentHeight
                       then currentHeight - MaxCandidateChainDepthGap else 0 in
      let stale kv := negb (bool_decide (kv.1 = currentChainTip n))
                      && match store n !! kv.2 ≫= Tip with
                         | Some t => Hdr.Height (Header t) <? minHeight
                         | None => false
                         end in
      modify (with_chains (filter (fun kv => stale kv = false) (chains n)));;
      cleanupStaleOrphans
  end.

(** ** header_processing.go *)

Definition has_header (n : Node) (hash : Hash32) (p : chain_ptr) : bool :=
  match store n !! p with Some c => bool_decide (is_Some (Chain.GetHeader c hash)) | None => false end.

Definition checkHeaderExists (n : Node) (blockHash : Hash32) : bool :=
  existsb (fun kv => has_header n blockHash kv.2) (map_to_list (chains n)).

(** At most one key is the previous hash; without the parent's header, or with
    the wrong total work, there is no result. *)
Definition findParentChain (n : Node) (header : Hdr.BlockHeader) : option (chain_ptr * Hash32) :=
  p ← chains n !! Hdr.PreviousHash header;
  c ← store n !! p;
  parentHeader ← Chain.GetHeader c (Hdr.PreviousHash header);
  match ValidateHeaderTotalWork header (Hdr.TotalWork parentHeader) with
  | Ok _ => Some (p, Hdr.PreviousHash header)
  | Err _ => None
  end.

(** The first chain, in the order of iteration, that has the block. *)
Fixpoint find_block (n : Node) (hash : Hash32) (o : list (Hash32 * chain_ptr)) : option (Block * chain_ptr) :=
  match o with
  | [] => None
  | (_, p) :: rest =>
      match store n !! p ≫= fun c => Chain.GetBlock c hash with
      | Some b => Some (b, p)
      | None => find_block n hash rest
      end
  end.

Definition findParentBlock (env : Env) (n : Node) (header : Hdr.BlockHeader) : option (Block * chain_ptr) :=
  find_block n (Hdr.PreviousHash header) (chain_order env (chains n)).

(** The walk down from the fork point: the hashes whose block is missing, and
    the blocks above the genesis block, lowest first. *)
Fixpoint fork_walk (fuel : nat) (n : Node) (currentHash : Hash32) (missingBlocks : list Hash32)
    (blocksToApply : list Block) : option (list Hash32 * list Block) :=
  match fuel with
  | O => None
  | S f =>
      if bool_decide (currentHash = genesisHash) then Some (missingBlocks, blocksToApply)
      else match GetHeader n currentHash with
           | None => Some (missingBlocks, blocksToApply)
           | Some h =>
               match GetBlock n currentHash with
               | None => fork_walk f n (Hdr.PreviousHash h) (missingBlocks ++ [currentHash]) blocksToApply
               | Some block => fork_walk f n (Hdr.PreviousHash h) missingBlocks (block :: blocksToApply)
               end
           end
  end.

(** The walk down a candidate to the first block its chain has: the hashes to
    fetch, lowest first. *)
Fixpoint candidate_walk (fuel : nat) (n : Node) (parentChain : Chain) (currentHash : Hash32)
    (headersToFetch : list Hash32) : option (list Hash32) :=
  match fuel with
  | O => None
  | S f =>
      match Chain.GetBlock parentChain currentHash with
      | Some _ => Some headersToFetch
      | None =>
          match headersMap n !! currentHash with
          | None => Some (currentHash :: headersToFetch)
          | Some h => candidate_walk f n parentChain (Hdr.PreviousHash h) (currentHash :: headersToFetch)
          end
      end
  end.

(** A walk visits a stored header at most once unless their hashes form a cycle. *)
Definition walk_fuel (n : Node) : nat := S (size (headersMap n)).

Section Process.
Context `{Signatures} (ex : option ContractExecutor).

Definition validate_block (block : Block) (c : Chain) : M (res chain_error accounts) :=
  n ← get;
  x ← of_go (ValidateBlock ex block c (mem n));
  modify (with_mem x.1);; mret x.2.

Fixpoint build_loop (blocks : list Block) (newChain : Chain) : M (res chain_error Chain) :=
  match blocks with
  | [] => mret (Ok newChain)
  | block :: rest =>
      r ← validate_block block newChain;
      match r with
      | Err e => mret (Err e)
      | Ok newAccountStates =>
          tryConnectOrphanChildren (Hdr.GetHash (Header block));;
          build_loop rest (ApplyBlock block newAccountStates newChain)
      end
  end.

Definition buildChainFromBlocks (blocks : list Block) : M (res chain_error Chain) := build_loop blocks NewChain.

(** No chain when blocks have to be fetched first. *)
Definition handleForkCreation (header : Hdr.BlockHeader) (parentBlock : Block) (sourceChain : chain_ptr)
    : M (res chain_error (option (chain_ptr * Hash32))) :=
  n ← get;
  let parentHash := Hdr.GetHash (Header parentBlock) in
  w ← of_fuel (fork_walk (walk_fuel n) n parentHash [] []);
  match w with
  | (_ :: _ as missingBlocks, _) => spawn (TaskFetchFork header missingBlocks sourceChain);; mret (Ok None)
  | ([], blocksToApply) =>
      r ← buildChainFromBlocks blocksToApply;
      match r with
      | Err e => mret (Err e)
      | Ok c =>
          p ← new_chain c;
          modify (fun n => with_chains (<[parentHash := p]> (chains n)) n);;
          mret (Ok (Some (p, parentHash)))
      end
  end.

Definition handleOrphanHeader (header : Hdr.BlockHeader) : M unit :=
  add_orphan header;;
  n ← get;
  match GetHeader n (Hdr.PreviousHash header) with
  | None => spawn (TaskFetchParent header)
  | Some _ => mret ()
  end.

(** The first orphan with this hash leaves its list; an empty list leaves the map. *)
Fixpoint remove_first (hash : Hash32) (l : list Hdr.BlockHeader) : list Hdr.BlockHeader :=
  match l with
  | [] => []
  | h :: rest => if bool_decide (Hdr.GetHash h = hash) then rest else h :: remove_first hash rest
  end.

Definition remove_orphan (header : Hdr.BlockHeader) : M unit :=
  modify (fun n =>
    match orphanHeaders n !! Hdr.PreviousHash header with
    | None => n
    | Some l =>
        if existsb (fun h => bool_decide (Hdr.GetHash h = Hdr.GetHash header)) l then
          match remove_first (Hdr.GetHash header) l with
          | [] => with_orphans (delete (Hdr.PreviousHash header) (orphanHeaders n)) n
          | l' => with_orphans (<[Hdr.PreviousHash header := l']> (orphanHeaders n)) n
          end
        else n
    end).

Definition is_switch (e : chain_error) : bool :=
  match e with StructureError (ErrSwitchChain _ _) => true | _ => false end.

(** The current chain gets a new key, and loses the old one. *)
Definition move_tip (blockHash : Hash32) (parentChain : chain_ptr) (n : Node) : Node :=
  let oldTip := currentChainTip n in
  let n := with_tip blockHash (with_chains (<[blockHash := parentChain]> (chains n)) n) in
  if negb (bool_decide (oldTip = Hash32_zero)) && negb (bool_decide (oldTip = blockHash))
  then with_chains (delete oldTip (chains n)) n else n.

(** [handleCurrentChainExtension] once it has its blocks. *)
Definition extend_current (header : Hdr.BlockHeader) (blockHash : Hash32) (parentChain : chain_ptr)
    (parentChainTip : Hash32) (blocks : list Block) : M (option node_error) :=
  match blocks with
  | [] => mret None
  | block :: _ =>
      c ← read_chain parentChain;
      r ← validate_block block c;
      match r with
      | Err e =>
          cleanupFailedHeader header blockHash parentChain parentChainTip (negb (is_switch e));;
          mret (Some (BlockRejected e))
      | Ok newAccountStates =>
          update_chain parentChain (ApplyBlock block newAccountStates);;
          modify (fun n => with_blocksMap (<[blockHash := block]> (blocksMap n)) n);;
          modify (move_tip blockHash parentChain);;
          tryConnectOrphanChildren blockHash;;
          mret None
      end
  end.

(** Up to the request for the block, when the node does not have it. *)
Definition handleCurrentChainExtension (header : Hdr.BlockHeader) (blockHash : Hash32) (parentChain : chain_ptr)
    (parentChainTip : Hash32) : M (option node_error) :=
  n ← get;
  match GetBlock n blockHash with
  | Some localBlock => extend_current header blockHash parentChain parentChainTip [localBlock]
  | None =>
      modify (with_processing (Some (AwaitCurrent header blockHash parentChain parentChainTip)));; mret None
  end.

(** Up to the request for the blocks of a candidate with more work. *)
Definition handleCandidateChainExtension (header : Hdr.BlockHeader) (blockHash : Hash32) (parentChain : chain_ptr)
    (parentChainTip : Hash32) : M (option node_error) :=
  n ← get;
  match current_chain n ≫= Tip with
  | None => mret None
  | Some t =>
      if Work.CompareWork (Hdr.TotalWork header) (Hdr.TotalWork (Header t)) <=? 0 then mret None
      else
        c ← read_chain parentChain;
        headersToFetch ← of_fuel (candidate_walk (walk_fuel n) n c blockHash []);
        match headersToFetch with
        | [] => mret None
        | _ => modify (with_processing (Some (AwaitCandidate headersToFetch parentChain parentChainTip)));; mret None
        end
  end.

Definition handleChainExtension (header : Hdr.BlockHeader) (parentChain : chain_ptr) (parentChainTip : Hash32)
    : M (option node_error) :=
  let blockHash := Hdr.GetHash header in
  update_chain parentChain (AddHeader header);;
  modify (fun n => with_headersMap (<[blockHash := header]> (headersMap n)) n);;
  tryConnectOrphanChildren blockHash;;
  remove_orphan header;;
  modify (fun n => with_chains (<[blockHash := parentChain]> (delete parentChainTip (chains n))) n);;
  n ← get;
  if bool_decide (parentChainTip = currentChainTip n)
  then handleCurrentChainExtension header blockHash parentChain parentChainTip
  else handleCandidateChainExtension header blockHash parentChain parentChainTip.

(** [Node.ProcessHeader], to its end or to where it waits. *)
Definition ProcessHeader (env : Env) (header : Hdr.BlockHeader) : M (option node_error) :=
  match ValidateHeaderStructure header with
  | Err e => mret (Some (InvalidHeader e))
  | Ok _ =>
      n ← get;
      if checkHeaderExists n (Hdr.GetHash header) then mret None
      else match findParentChain n header with
           | Some (p, tip) => handleChainExtension header p tip
           | None =>
               match findParentBlock env n header with
               | Some (block, sourceChain) =>
                   r ← handleForkCreation header block sourceChain;
                   match r with
                   | Err e => mret (Some (ChainBuild e))
                   | Ok None => mret None
                   | Ok (Some (p, tip)) => handleChainExtension header p tip
                   end
               | None => handleOrphanHeader header;; mret None
               end
           end
  end.

(** ** Answers of peers *)

(** [None] when the wait timed out, otherwise the blocks of each message. *)
Abbreviation answer := (option (list (list Block))).

(** [blocksMap], then its values in the order of iteration. *)
Definition blocks_by_hash (msgs : list (list Block)) : gmap Hash32 Block :=
  foldl (fun m b => <[Blk.GetHash b := b]> m) ∅ (concat msgs).

Definition received (env : Env) (msgs : list (list Block)) : list Block :=
  (block_order env (blocks_by_hash msgs)).*2.

(** [sort.Slice] by height.  It is not stable, and the order it starts from is
    any order: a stable sort of some order is every result it can have. *)
Definition height_le (a b : Block) : Prop := Hdr.Height (Header a) <= Hdr.Height (Header b).

#[export] Instance height_le_dec a b : Decision (height_le a b) := Z_le_dec _ _.

Definition sort_by_height (blocks : list Block) : list Block := merge_sort height_le blocks.

(** The validation of a candidate on a chain of its own. *)
Fixpoint reorg_loop (blocks : list Block) (tempChain : Chain) : M (option Chain) :=
  match blocks with
  | [] => mret (Some tempChain)
  | block :: rest =>
      r ← validate_block block tempChain;
      match r with
      | Err _ => mret None
      | Ok newAccountStates => reorg_loop rest (AddBlock block (SetAccountStates newAccountStates tempChain))
      end
  end.

(** The accounts a candidate is validated from: the coins of the genesis block. *)
Definition genesis_states : M accounts :=
  n ← get;
  let '(l, h) := alloc (Acct.MkAccount PublicKey_zero (10 * AUG) 0 [] ∅ Hash32_zero Hash32_zero Hash32_zero Hash32_zero)
                   (mem n) in
  modify (with_mem h);; mret {[FirstUser := l]}.

Definition add_all (blocks : list Block) (c : Chain) : Chain := foldl (fun c b => AddBlock b c) c blocks.

Definition index_headers (blocks : list Block) (m : gmap Hash32 Hdr.BlockHeader) : gmap Hash32 Hdr.BlockHeader :=
  foldl (fun m b => <[Hdr.GetHash (Header b) := Header b]> m) m blocks.

Definition index_blocks (blocks : list Block) (m : gmap Hash32 Block) : gmap Hash32 Block :=
  foldl (fun m b => <[Hdr.GetHash (Header b) := b]> m) m blocks.

(** [blocks[len(blocks)-1]] *)
Definition last_block (blocks : list Block) : go Block :=
  match last blocks with Some b => Ret b | None => Panic IndexOutOfRange end.

(** The part under the chains lock: the candidate gets its blocks and becomes
    current when it still has more work. *)
Definition adopt (blocks : list Block) (finalAccountStates : accounts) (parentChain : chain_ptr)
    (parentChainTip : Hash32) : M unit :=
  n ← get;
  shouldReorg ← match current_chain n ≫= Tip with
                | None => mret false
                | Some t =>
                    b ← of_go (last_block blocks);
                    mret (0 <? Work.CompareWork (Hdr.TotalWork (Header b)) (Hdr.TotalWork (Header t)))
                end;
  update_chain parentChain (fun c => AddBlock Work.GenesisBlock (AddHeader (Header Work.GenesisBlock) c));;
  update_chain parentChain (fun c => foldl (fun c b => AddHeader (Header b) c) c blocks);;
  modify (fun n => with_headersMap (index_headers blocks (headersMap n)) n);;
  update_chain parentChain (add_all blocks);;
  modify (fun n => with_blocksMap (index_blocks blocks (blocksMap n)) n);;
  modify (fun n => with_spawned (spawned n ++ concat (map (fun b =>
    map TaskHeader (default [] (orphanHeaders n !! Hdr.GetHash (Header b)))) blocks)) n);;
  update_chain parentChain (SetAccountStates finalAccountStates);;
  b ← of_go (last_block blocks);
  let newTipHash := Hdr.GetHash (Header b) in
  modify (fun n => with_chains (<[newTipHash := parentChain]> (chains n)) n);;
  if (shouldReorg : bool) then modify (with_tip newTipHash);; cleanupCandidateChains
  else modify (fun n => with_chains (delete parentChainTip (chains n)) n).

(** [handleCandidateChainExtension] after the wait.  The node gives the accounts
    of the last block validated; without a block it has panicked before. *)
Definition reorganise (env : Env) (parentChain : chain_ptr) (parentChainTip : Hash32) (a : answer)
    : M (option node_error) :=
  match a with
  | None | Some [] => mret None
  | Some msgs =>
      let blocks := sort_by_height (received env msgs) in
      genesisStates ← genesis_states;
      r ← reorg_loop blocks (SetAccountStates genesisStates NewChain);
      match r with
      | None => mret None
      | Some tempChain => adopt blocks (AccountStates tempChain) parentChain parentChainTip;; mret None
      end
  end.

(** The rest of [ProcessHeader] after the wait. *)
Definition resume (env : Env) (k : awaiting) (a : answer) : M (option node_error) :=
  modify (with_processing None);;
  match k with
  | AwaitCurrent header blockHash parentChain parentChainTip =>
      extend_current header blockHash parentChain parentChainTip (received env (default [] a))
  | AwaitCandidate _ parentChain parentChainTip => reorganise env parentChain parentChainTip a
  end.

(** [fetchMissingBlocksForFork] after its wait: the blocks enter the source
    chain, and the header is processed again. *)
Definition finish_fetch_fork (env : Env) (header : Hdr.BlockHeader) (sourceChain : chain_ptr) (a : answer) : M unit :=
  match a with
  | None | Some [] => mret ()
  | Some msgs => update_chain sourceChain (add_all (received env msgs));; spawn (TaskHeader header)
  end.

(** [fetchParentForOrphan] after its first wait, with the parent's header:
    process it and ask for its block. *)
Definition finish_fetch_parent (env : Env) (header parentHeader : Hdr.BlockHeader) : M unit :=
  ProcessHeader env parentHeader;; spawn (TaskFetchParentBlock header).

(** After its second wait: the first block received enters every chain that has
    the parent's header. *)
Definition add_to_chains (hash : Hash32) (block : Block) : M unit :=
  modify (fun n => with_store
    (imap (fun p c => if existsb (fun kv => (kv.2 =? p)%nat) (map_to_list (chains n))
                         && bool_decide (is_Some (Chain.GetHeader c hash))
                      then AddBlock block c else c) (store n)) n).

Definition finish_fetch_parent_block (header : Hdr.BlockHeader) (a : answer) : M unit :=
  match a with
  | Some ((block :: _) :: _) => add_to_chains (Hdr.PreviousHash header) block
  | _ => mret ()
  end.

(** ** node.go *)

Definition ProcessTransaction (now : Z) (tx : Tx.Transaction) : M (option node_error) :=
  n ← get;
  let states := if bool_decide (currentChainTip n = Hash32_zero) then ∅
                else match current_chain n with Some c => GetAccountStates c | None => ∅ end in
  r ← of_go (ValidateTransaction tx (MkWorld states (mem n)));
  match r with
  | Err e => mret (Some (TransactionInvalid e))
  | Ok _ =>
      let '(mp, added) := Mempool.AddTransaction now tx (pool n) in
      modify (with_pool mp);;
      mret (if added then None else Some RejectedByPool)
  end.

Definition StoreBlock (block : Block) : M unit :=
  modify (fun n => with_submitted (<[Hdr.GetHash (Header block) := block]> (submittedBlocks n)) n).

(** The first chain, in the order of iteration, with the parent's header. *)
Definition AddBlockDirectly (env : Env) (block : Block) : M (option node_error) :=
  n ← get;
  let blockHash := Hdr.GetHash (Header block) in
  let previous := Hdr.PreviousHash (Header block) in
  match List.find (fun kv => has_header n previous kv.2) (chain_order env (chains n)) with
  | None => mret (Some (NoChainFor previous))
  | Some (_, p) =>
      update_chain p (fun c => AddBlock block (AddHeader (Header block) c));;
      modify (fun n => with_headersMap (<[blockHash := Header block]> (headersMap n)) n);;
      modify (fun n => with_blocksMap (<[blockHash := block]> (blocksMap n)) n);;
      modify (fun n => with_chains (<[blockHash := p]> (delete previous (chains n))) n);;
      modify (fun n => if bool_decide (previous = currentChainTip n) || bool_decide (currentChainTip n = Hash32_zero)
                       then with_tip blockHash n else n);;
      mret None
  end.

(** ** The node as a state machine *)

(** One atomic piece of a method or of a goroutine, for some order of iteration,
    some answer of the peers and some time; the header lock is free when a
    header is taken up. *)
Inductive step (n : Node) : Node -> Prop :=
  | step_header env header n' r : LawfulEnv env -> processing n = None ->
      ProcessHeader env header n = Some (Ret (n', r)) -> step n n'
  | step_resume env k a n' r : LawfulEnv env -> processing n = Some k ->
      Forall (Forall (fun b => is_u64 (Hdr.Height (Header b)))) (default [] a) ->
      resume env k a n = Some (Ret (n', r)) -> step n n'
  | step_task env l header l' n' r : LawfulEnv env -> processing n = None ->
      spawned n = l ++ TaskHeader header :: l' ->
      ProcessHeader env header (with_spawned (l ++ l') n) = Some (Ret (n', r)) -> step n n'
  | step_fetch_fork env l header missing p l' a n' : LawfulEnv env ->
      spawned n = l ++ TaskFetchFork header missing p :: l' ->
      Forall (Forall (fun b => is_u64 (Hdr.Height (Header b)))) (default [] a) ->
      finish_fetch_fork env header p a (with_spawned (l ++ l') n) = Some (Ret (n', ())) -> step n n'
  | step_fetch_parent env l header parent l' n' : LawfulEnv env -> processing n = None ->
      spawned n = l ++ TaskFetchParent header :: l' ->
      finish_fetch_parent env header parent (with_spawned (l ++ l') n) = Some (Ret (n', ())) -> step n n'
  | step_fetch_parent_block l header l' a n' :
      spawned n = l ++ TaskFetchParentBlock header :: l' ->
      Forall (Forall (fun b => is_u64 (Hdr.Height (Header b)))) (default [] a) ->
      finish_fetch_parent_block header a (with_spawned (l ++ l') n) = Some (Ret (n', ())) -> step n n'
  | step_timeout l t l' :
      spawned n = l ++ t :: l' -> (forall header, t <> TaskHeader header) -> step n (with_spawned (l ++ l') n)
  | step_transaction now tx n' r :
      ProcessTransaction now tx n = Some (Ret (n', r)) -> step n n'
  | step_store block n' : is_u64 (Hdr.Height (Header block)) ->
      StoreBlock block n = Some (Ret (n', ())) -> step n n'
  | step_direct env block n' r : LawfulEnv env -> is_u64 (Hdr.Height (Header block)) ->
      AddBlockDirectly env block n = Some (Ret (n', r)) -> step n n'.

Definition reachable (n : Node) : Prop := rtc step NewNode n.

End Process.
End Node.
