(* ===== verification/NodeSpec.v ===== *)
(** * Properties of the node

    The invariant of every reachable node, what can change which chain is current,
    and what goes wrong when peers answer late, too little or too much. *)

From Stdlib Require Import Sorted.
From stdpp Require Import sorting.
From S2P Require Import Prelude GoLib Config Utils Bytecode Ledger Work Chain Validation ValidationSpec Mempool Node.

Module NodeSpec.
Import Heap Chain ChainSpec Blk Validation ValidationSpec Node.
#[local] Abbreviation mem := Node.mem.
#[local] Abbreviation GetBlock := Node.GetBlock.
#[local] Abbreviation reachable := Node.reachable.

Implicit Types n : Node.

(** ** The invariant *)

(** A chain whose header map may lack headers of its blocks: a failed header is
    deleted without regard to its block. *)
Definition full_headers (c : Chain) : Chain :=
  MkChain (Blocks c) (BlockIndex c) ((Header <$> BlockIndex c) ∪ Headers c) (AccountStates c) (Tip c).

Record chain_wf (h : heap) (c : Chain) : Prop := {
  cw_full : chain_ok (full_headers c);
  cw_headers : map_Forall (fun k hd => k = Hdr.GetHash hd) (Headers c);
  cw_accounts : wf h (AccountStates c)
}.

Definition pointer_ok n (p : chain_ptr) : Prop := (p < length (store n))%nat.

Definition task_ok n (t : task) : Prop :=
  match t with TaskFetchFork _ _ p => pointer_ok n p | _ => True end.

Definition awaiting_ok n (k : awaiting) : Prop :=
  match k with
  | AwaitCurrent header blockHash p _ => blockHash = Hdr.GetHash header /\ pointer_ok n p
  | AwaitCandidate _ p _ => pointer_ok n p
  end.

(** Every pointer is valid, every chain is indexed consistently and its accounts
    are its own, the indices are keyed by hash, orphans by parent, and the pool
    keeps its invariant. *)
Record node_ok n : Prop := {
  ok_chains : map_Forall (fun _ p => pointer_ok n p) (chains n);
  ok_store : Forall (chain_wf (mem n)) (store n);
  ok_headersMap : map_Forall (fun k h => k = Hdr.GetHash h) (headersMap n);
  ok_blocksMap : map_Forall (fun _ b => is_u64 (height b)) (blocksMap n);
  ok_submitted : map_Forall (fun k b => k = Blk.GetHash b /\ is_u64 (height b)) (submittedBlocks n);
  ok_orphans : map_Forall (fun k l => l <> [] /\ Forall (fun h => Hdr.PreviousHash h = k) l) (orphanHeaders n);
  ok_pool : Mempool.pool_ok (pool n);
  ok_processing : match processing n with None => True | Some k => awaiting_ok n k end;
  ok_spawned : Forall (task_ok n) (spawned n)
}.

(** [n'] comes after [n]: it is well formed, no chain has gone and accounts
    were only added; and the same chain is current. *)
Record evolves n n' : Prop := {
  ev_ok : node_ok n';
  ev_len : (length (store n) <= length (store n'))%nat;
  ev_mem : mem n `prefix_of` mem n'
}.

Record evolves_tip n n' : Prop := {
  evt_evolves : evolves n n';
  evt_tip : currentChainTip n' = currentChainTip n
}.

Lemma evolves_trans n1 n2 n3 : evolves n1 n2 -> evolves n2 n3 -> evolves n1 n3.
Proof. intros [? ? ?] [? ? ?]. split; [done|lia|by etrans]. Qed.

Lemma evolves_tip_trans n1 n2 n3 : evolves_tip n1 n2 -> evolves_tip n2 n3 -> evolves_tip n1 n3.
Proof. intros [? ?] [? ?]. split; [by eapply evolves_trans|congruence]. Qed.

Lemma evolves_tip_refl n : node_ok n -> evolves_tip n n.
Proof. intros Hn. split; [split; [done|lia|done]|done]. Qed.

Lemma evt_ok n n' : evolves_tip n n' -> node_ok n'.
Proof. by intros [[? _ _] _]. Qed.

(** Inversion of a bind. *)
Lemma M_bind_inv {A B} (f : A -> M B) (m : M A) n n' b :
  (m ≫= f) n = Some (Ret (n', b)) ->
  exists n1 a, m n = Some (Ret (n1, a)) /\ f a n1 = Some (Ret (n', b)).
Proof. unfold mbind, M_bind. destruct (m n) as [[[n1 a]|k]|]; [eauto|discriminate|discriminate]. Qed.

Lemma M_ret_inv {A} (a : A) n n' b : (mret a : M A) n = Some (Ret (n', b)) -> n' = n /\ b = a.
Proof. intros E. by injection E. Qed.

Lemma modify_inv f n n' b : modify f n = Some (Ret (n', b)) -> n' = f n.
Proof. intros E. by injection E. Qed.

Lemma of_go_inv {A} (c : go A) n n' a : of_go c n = Some (Ret (n', a)) -> n' = n /\ c = Ret a.
Proof. unfold of_go. destruct c; intros E; simplify_eq/=. done. Qed.

Lemma of_fuel_inv {A} (c : option A) n n' a : of_fuel c n = Some (Ret (n', a)) -> n' = n /\ c = Some a.
Proof. unfold of_fuel. destruct c; intros E; simplify_eq/=. done. Qed.

Lemma get_inv n n' a : get n = Some (Ret (n', a)) -> n' = n /\ a = n.
Proof. intros E. by injection E. Qed.

(** Running a bind whose first part is known. *)
Lemma M_bind_run {A B} (f : A -> M B) (m : M A) n n1 a :
  m n = Some (Ret (n1, a)) -> (m ≫= f) n = f a n1.
Proof. intros E. unfold mbind, M_bind. by rewrite E. Qed.

Lemma update_chain_eq p f n c : store n !! p = Some c ->
  update_chain p f n = Some (Ret (with_store (<[p := f c]> (store n)) n, ())).
Proof.
  intros Hc. unfold update_chain, read_chain, mbind, M_bind, get, of_go, modify, chain_at. by rewrite Hc.
Qed.

Lemma update_chain_total p f n : is_Some (store n !! p) ->
  exists n', update_chain p f n = Some (Ret (n', ())) /\ is_Some (store n' !! p).
Proof.
  intros [c Hc]. eexists. split; [by apply update_chain_eq|]. simpl.
  rewrite list_lookup_insert_eq; [done|by eapply lookup_lt_Some].
Qed.

(** Take a run of a method apart. *)
Ltac run_inv H :=
  repeat match type of H with
  | (_ ≫= _) _ = Some (Ret _) =>
      let n1 := fresh "n" in let a := fresh "a" in let H1 := fresh "Hrun" in
      apply M_bind_inv in H as (n1 & a & H1 & H); run_inv H1
  | get _ = _ => apply get_inv in H as [-> ->]
  | modify _ _ = _ => apply modify_inv in H as ->
  | of_go _ _ = _ => apply of_go_inv in H as [-> H]
  | of_fuel _ _ = _ => apply of_fuel_inv in H as [-> H]
  | mret _ _ = _ => apply M_ret_inv in H as [-> ->]
  end.

(** ** One field changes *)

Lemma pointers_later n n' p : (length (store n) <= length (store n'))%nat -> pointer_ok n p -> pointer_ok n' p.
Proof. unfold pointer_ok. lia. Qed.

Lemma task_later n n' t : (length (store n) <= length (store n'))%nat -> task_ok n t -> task_ok n' t.
Proof. destruct t; simpl; eauto using pointers_later. Qed.

Lemma awaiting_later n n' k : (length (store n) <= length (store n'))%nat -> awaiting_ok n k -> awaiting_ok n' k.
Proof. destruct k; simpl; intuition eauto using pointers_later. Qed.

Lemma chain_wf_app h h' c : chain_wf h c -> chain_wf (h ++ h') c.
Proof. intros [? ? ?]. split; [done|done|by apply HeapSpec.wf_app]. Qed.

Lemma set_store n v :
  node_ok n -> (length (store n) <= length v)%nat -> Forall (chain_wf (mem n)) v -> evolves_tip n (with_store v n).
Proof.
  intros [H1 H2 H3 H4 H5 H6 H7 H8 H9] Hl Hv. split; [|done]. split; [|done|done]. split; try done; simpl.
  - eapply map_Forall_impl; [exact H1|]. intros k p. by apply pointers_later.
  - destruct (processing n); [|done]. by eapply awaiting_later.
  - eapply Forall_impl; [exact H9|]. intros t. by apply task_later.
Qed.

Lemma set_mem n ext : node_ok n -> evolves_tip n (with_mem (mem n ++ ext) n).
Proof.
  intros [H1 H2 H3 H4 H5 H6 H7 H8 H9]. split; [|done]. split; [|done|by apply prefix_app_r]. split; try done; simpl.
  eapply Forall_impl; [exact H2|]. intros c. apply chain_wf_app.
Qed.

Ltac one_field := split; [split; simpl; [split; simpl; done|lia|done]|done].

Lemma set_chains n v : node_ok n -> map_Forall (fun _ p => pointer_ok n p) v -> evolves_tip n (with_chains v n).
Proof. intros [? ? ? ? ? ? ? ? ?] ?. one_field. Qed.

Lemma set_headersMap n v : node_ok n -> map_Forall (fun k h => k = Hdr.GetHash h) v -> evolves_tip n (with_headersMap v n).
Proof. intros [? ? ? ? ? ? ? ? ?] ?. one_field. Qed.

Lemma set_blocksMap n v : node_ok n -> map_Forall (fun _ b => is_u64 (height b)) v -> evolves_tip n (with_blocksMap v n).
Proof. intros [? ? ? ? ? ? ? ? ?] ?. one_field. Qed.

Lemma set_submitted n v : node_ok n -> map_Forall (fun k b => k = Blk.GetHash b /\ is_u64 (height b)) v ->
  evolves_tip n (with_submitted v n).
Proof. intros [? ? ? ? ? ? ? ? ?] ?. one_field. Qed.

Lemma set_orphans n v : node_ok n ->
  map_Forall (fun k l => l <> [] /\ Forall (fun h => Hdr.PreviousHash h = k) l) v -> evolves_tip n (with_orphans v n).
Proof. intros [? ? ? ? ? ? ? ? ?] ?. one_field. Qed.

Lemma set_pool n v : node_ok n -> Mempool.pool_ok v -> evolves_tip n (with_pool v n).
Proof. intros [? ? ? ? ? ? ? ? ?] ?. one_field. Qed.

Lemma set_processing n v : node_ok n -> match v with None => True | Some k => awaiting_ok n k end ->
  evolves_tip n (with_processing v n).
Proof. intros [? ? ? ? ? ? ? ? ?] ?. one_field. Qed.

Lemma set_spawned n v : node_ok n -> Forall (task_ok n) v -> evolves_tip n (with_spawned v n).
Proof. intros [? ? ? ? ? ? ? ? ?] ?. one_field. Qed.

Lemma set_tip n v : node_ok n -> evolves n (with_tip v n).
Proof. intros [? ? ? ? ? ? ? ? ?]. split; simpl; [split; simpl; done|lia|done]. Qed.

(** ** Chains *)

(** Only the header map changes. *)
Definition with_Headers (v : gmap Hash32 Hdr.BlockHeader) (c : Chain) : Chain :=
  MkChain (Blocks c) (BlockIndex c) v (AccountStates c) (Tip c).

Lemma with_Headers_wf h v c :
  chain_wf h c -> map_Forall (fun k hd => k = Hdr.GetHash hd) v -> chain_wf h (with_Headers v c).
Proof.
  intros [[H1 H2 H3 H4] Hk Hw] Hv. split; [|done|done]. split; simpl; try done.
  - intros k b Hb. destruct (H1 k b Hb) as [-> _]. split; [done|].
    rewrite lookup_union, lookup_fmap, Hb. by destruct (v !! _).
  - intros k hd. rewrite lookup_union_Some_raw, lookup_fmap. intros [Hb|[_ Hb]]; [|by apply Hv].
    destruct (BlockIndex c !! k) as [b|] eqn:E; simplify_eq/=. by destruct (H1 k b E).
Qed.

Lemma chain_ok_wf h c : chain_ok c -> wf h (AccountStates c) -> chain_wf h c.
Proof.
  intros [H1 H2 H3 H4] Hw. split; [split; simpl; try done|exact H2|done].
  - intros k b Hk. destruct (H1 k b Hk) as [-> _]. split; [done|].
    rewrite lookup_union, lookup_fmap, Hk. by destruct (Headers c !! _).
  - intros k hd. rewrite lookup_union_Some_raw, lookup_fmap. intros [Hk|[_ Hk]]; [|by apply H2].
    destruct (BlockIndex c !! k) as [b|] eqn:E; simplify_eq/=. by destruct (H1 k b E).
Qed.

Lemma full_AddBlock b c : full_headers (AddBlock b c) = AddBlock b (full_headers c).
Proof.
  unfold full_headers, AddBlock, AddHeader. cbn [Blocks BlockIndex Headers AccountStates Tip]. f_equal.
  rewrite fmap_insert. apply map_eq. intros k. destruct (decide (k = Hdr.GetHash (Header b))) as [->|n].
  - by rewrite lookup_insert_eq, lookup_union, !lookup_insert_eq.
  - by rewrite lookup_insert_ne, !lookup_union, !lookup_insert_ne by done.
Qed.

Lemma AddHeader_wf h hd c : chain_wf h c -> chain_wf h (AddHeader hd c).
Proof. intros Hc. apply with_Headers_wf; [done|]. by apply map_Forall_insert_2, Hc. Qed.

Lemma AddBlock_wf h b c : is_u64 (height b) -> chain_wf h c -> chain_wf h (AddBlock b c).
Proof.
  intros Hb [H1 H2 H3]. split; [|by apply map_Forall_insert_2|done]. rewrite full_AddBlock. by apply AddBlock_ok.
Qed.

Lemma SetAccountStates_wf h m c : wf h m -> chain_wf h c -> chain_wf h (SetAccountStates m c).
Proof. intros Hm [[] ? ?]. by split. Qed.

Lemma add_all_wf h bs c : Forall (fun b => is_u64 (height b)) bs -> chain_wf h c -> chain_wf h (add_all bs c).
Proof.
  intros Hb. unfold add_all. revert c. induction Hb as [|b bs Hb _ IH]; intros c Hc; simpl; [done|].
  by apply IH, AddBlock_wf.
Qed.

Lemma add_headers_wf h bs c : chain_wf h c -> chain_wf h (foldl (fun c b => AddHeader (Header b) c) c bs).
Proof. revert c. induction bs as [|b bs IH]; intros c Hc; simpl; [done|]. by apply IH, AddHeader_wf. Qed.

Lemma empty_wf h : wf h (∅ : accounts).
Proof. split; intros *; by rewrite lookup_empty. Qed.

Lemma NewChain_wf h : chain_wf h NewChain.
Proof. apply chain_ok_wf; [apply NewChain_ok|apply empty_wf]. Qed.

(** ** Pieces of methods *)

Lemma read_chain_inv p n n' c : node_ok n -> read_chain p n = Some (Ret (n', c)) ->
  n' = n /\ store n !! p = Some c /\ chain_wf (mem n) c /\ pointer_ok n p.
Proof.
  intros Hok E. unfold read_chain in E. run_inv E. unfold chain_at in E.
  destruct (store n !! p) as [c'|] eqn:Ep; simplify_eq. split_and!; try done.
  - eapply Forall_lookup_1; [apply Hok|done].
  - by eapply lookup_lt_Some.
Qed.

Lemma update_chain_inv p f n n' u : node_ok n ->
  (forall c, store n !! p = Some c -> chain_wf (mem n) c -> chain_wf (mem n) (f c)) ->
  update_chain p f n = Some (Ret (n', u)) ->
  exists c, store n !! p = Some c /\ n' = with_store (<[p := f c]> (store n)) n /\ evolves_tip n n'.
Proof.
  intros Hok Hf E. unfold update_chain in E. run_inv E. apply read_chain_inv in Hrun as (-> & Hp & Hc & Hlt); [|done].
  exists a. split_and!; [done|done|]. apply set_store; [done|by rewrite length_insert|].
  apply Forall_insert; [apply Hok|auto].
Qed.

Lemma spawn_inv t n n' u : node_ok n -> task_ok n t -> spawn t n = Some (Ret (n', u)) -> evolves_tip n n'.
Proof. intros Hok Ht E. apply modify_inv in E as ->. apply set_spawned; [done|]. apply Forall_app_2; [apply Hok|by constructor]. Qed.

Lemma spawn_headers_ok n l : node_ok n -> Forall (task_ok n) (spawned n ++ map TaskHeader l).
Proof. intros Hok. apply Forall_app_2; [apply Hok|]. apply Forall_map, Forall_true. done. Qed.

Lemma tryConnect_inv hash n n' u : node_ok n -> tryConnectOrphanChildren hash n = Some (Ret (n', u)) -> evolves_tip n n'.
Proof. intros Hok E. apply modify_inv in E as ->. apply set_spawned; [done|]. by apply spawn_headers_ok. Qed.

Lemma new_chain_inv c n n' p : node_ok n -> chain_wf (mem n) c -> new_chain c n = Some (Ret (n', p)) ->
  evolves_tip n n' /\ pointer_ok n' p.
Proof.
  intros Hok Hc E. unfold new_chain in E. run_inv E. split.
  - apply set_store; [done|rewrite length_app; lia|]. apply Forall_app_2; [apply Hok|by constructor].
  - unfold pointer_ok. simpl. rewrite length_app. simpl. lia.
Qed.

(** The orphans that wait for a hash have it as their parent. *)
Lemma orphans_lookup n k : node_ok n ->
  Forall (fun h => Hdr.PreviousHash h = k) (default [] (orphanHeaders n !! k)).
Proof.
  intros Hok. destruct (orphanHeaders n !! k) as [l|] eqn:E; simpl; [|done].
  by destruct (ok_orphans n Hok k l E).
Qed.

Lemma add_orphan_inv header n n' u : node_ok n -> add_orphan header n = Some (Ret (n', u)) -> evolves_tip n n'.
Proof.
  intros Hok E. apply modify_inv in E as ->. apply set_orphans; [done|].
  apply map_Forall_insert_2; [|apply Hok]. split; [by intros [_ ?]%app_eq_nil|].
  apply Forall_app_2; [by apply orphans_lookup|by constructor].
Qed.

Lemma remove_first_sub hash l : Forall (fun h => h ∈ l) (remove_first hash l).
Proof.
  induction l as [|h l IH]; simpl; [done|]. case_bool_decide.
  - apply Forall_forall. intros x Hx. by right.
  - constructor; [by left|]. eapply Forall_impl; [exact IH|]. intros x Hx. by right.
Qed.

Lemma remove_orphan_inv header n n' u : node_ok n -> remove_orphan header n = Some (Ret (n', u)) -> evolves_tip n n'.
Proof.
  intros Hok E. apply modify_inv in E as ->. cbv beta zeta.
  destruct (orphanHeaders n !! Hdr.PreviousHash header) as [l|] eqn:El; [|by apply evolves_tip_refl].
  destruct (existsb _ l); [|by apply evolves_tip_refl].
  destruct (ok_orphans n Hok _ _ El) as [_ Hl].
  pose proof (remove_first_sub (Hdr.GetHash header) l) as Hsub.
  destruct (remove_first (Hdr.GetHash header) l) as [|h l'].
  - apply set_orphans; [done|]. apply map_Forall_delete, Hok.
  - apply set_orphans; [done|]. apply map_Forall_insert_2; [|apply Hok]. split; [done|].
    eapply Forall_impl; [exact Hsub|]. intros x Hx. by eapply Forall_forall in Hl.
Qed.

Lemma cleanupStaleOrphans_inv n n' u : node_ok n -> cleanupStaleOrphans n = Some (Ret (n', u)) -> evolves_tip n n'.
Proof.
  intros Hok E. apply modify_inv in E as ->. cbv beta zeta.
  destruct (min_tip_height n =? 2 ^ 64 - 1); [by apply evolves_tip_refl|]. apply set_orphans; [done|].
  intros k l. rewrite lookup_omap. destruct (orphanHeaders n !! k) as [l0|] eqn:El; [|done]. simpl.
  destruct (ok_orphans n Hok k l0 El) as [_ Hl].
  assert (Forall (fun h => Hdr.PreviousHash h = k) (filter (fun header => min_tip_height n <= Hdr.Height header) l0)) as Hf.
  { apply Forall_forall. intros x [_ Hx]%list_elem_of_filter. by eapply Forall_forall in Hl. }
  destruct (filter _ l0); intros E; simplify_eq. done.
Qed.

Lemma cleanupFailedHeader_inv header hash p tip restore n n' u :
  node_ok n -> cleanupFailedHeader header hash p tip restore n = Some (Ret (n', u)) -> evolves_tip n n'.
Proof.
  intros Hok E. unfold cleanupFailedHeader in E. run_inv E.
  apply update_chain_inv in Hrun as (c & Hp & _ & H1); [|done|].
  2: { intros c _ Hc. apply (with_Headers_wf _ (delete hash (Headers c))); [done|]. apply map_Forall_delete, Hc. }
  pose proof (evt_evolves _ _ H1) as [Hok1 Hl _].
  assert (evolves_tip n0 (with_headersMap (delete hash (headersMap n0)) n0)) as H2.
  { apply set_headersMap; [done|]. apply map_Forall_delete, Hok1. }
  set (n2 := with_headersMap _ n0) in *. pose proof (evt_evolves _ _ H2) as [Hok2 _ _].
  assert (evolves_tip n2 (with_chains (<[tip := p]> (delete hash (chains n2))) n2)) as H3.
  { apply set_chains; [done|]. apply map_Forall_insert_2; [|apply map_Forall_delete, Hok2].
    apply lookup_lt_Some in Hp. unfold pointer_ok, n2. simpl. lia. }
  set (n3 := with_chains _ n2) in *. pose proof (evt_evolves _ _ H3) as [Hok3 _ _].
  pose proof (evolves_tip_trans _ _ _ (evolves_tip_trans _ _ _ H1 H2) H3) as H123.
  destruct restore; [|run_inv E; done].
  eapply evolves_tip_trans; [done|]. by eapply add_orphan_inv.
Qed.

Lemma cleanupCandidateChains_inv n n' u : node_ok n -> cleanupCandidateChains n = Some (Ret (n', u)) -> evolves_tip n n'.
Proof.
  intros Hok E. unfold cleanupCandidateChains in E. run_inv E.
  destruct (current_chain n ≫= Tip); run_inv E; [|by apply evolves_tip_refl].
  eapply evolves_tip_trans; [|eapply cleanupStaleOrphans_inv; [|done]]; [|eapply evt_ok];
    apply set_chains; try done; intros k p [Hk _]%map_lookup_filter_Some; by eapply Hok.
Qed.

Section Process.
Context `{Signatures} (ex : option ContractExecutor).
Hypothesis lawful : forall e, ex = Some e -> LawfulExecutor e.

Lemma validate_block_inv b c n n' r :
  node_ok n -> chain_wf (mem n) c -> validate_block ex b c n = Some (Ret (n', r)) ->
  exists ext, n' = with_mem (mem n ++ ext) n /\ evolves_tip n n'
    /\ ValidateBlock ex b c (mem n) = Ret (mem n', r)
    /\ match r with Ok m => wf (mem n') m | Err _ => True end.
Proof.
  intros Hok Hc E. unfold validate_block in E. run_inv E.
  match goal with Hv : ValidateBlock _ _ _ _ = Ret ?x |- _ => destruct x as [h r]; rename Hv into Hval end. simpl in *.
  destruct (ValidateBlock_isolated ex lawful b c (mem n) h r (cw_accounts _ _ Hc) Hval) as ((ext & ->) & _ & Hm).
  exists ext. split_and!; [done|by apply set_mem|done|]. destruct r as [m|]; [|done]. by destruct (Hm m eq_refl).
Qed.

Lemma ApplyBlock_wf h b m c : is_u64 (height b) -> wf h m -> chain_wf h c -> chain_wf h (ApplyBlock b m c).
Proof. intros Hb Hm Hc. by apply AddBlock_wf, SetAccountStates_wf. Qed.

(** The blocks validate one after the other, each on the chain of the blocks
    before it and with the accounts they left. *)
Inductive validates (h : heap) (c : Chain) : list Block -> heap -> Chain -> Prop :=
  | validates_nil : validates h c [] h c
  | validates_cons b bs h1 m h2 c2 :
      ValidateBlock ex b c h = Ret (h1, Ok m) ->
      validates h1 (AddBlock b (SetAccountStates m c)) bs h2 c2 -> validates h c (b :: bs) h2 c2.

(** The blocks a node has by hash stay the same. *)
Definition same_blocks n n' : Prop := submittedBlocks n' = submittedBlocks n /\ blocksMap n' = blocksMap n.

Lemma same_blocks_GetBlock n n' k : same_blocks n n' -> GetBlock n' k = GetBlock n k.
Proof. intros [H1 H2]. unfold GetBlock. by rewrite H1, H2. Qed.

Lemma build_loop_inv bs c n n' r :
  node_ok n -> chain_wf (mem n) c -> Forall (fun b => is_u64 (height b)) bs ->
  build_loop ex bs c n = Some (Ret (n', r)) ->
  evolves_tip n n' /\ same_blocks n n'
  /\ match r with Ok c' => chain_wf (mem n') c' /\ validates (mem n) c bs (mem n') c' | Err _ => True end.
Proof.
  intros Hok Hc Hbs. revert c n Hok Hc. induction Hbs as [|b bs Hb _ IH]; intros c n Hok Hc E; simpl in E.
  - run_inv E. split_and!; [by apply evolves_tip_refl|done|done|constructor].
  - run_inv E. apply validate_block_inv in Hrun as (ext & -> & H1 & Hval & Hm); [|done|done].
    pose proof (ev_ok _ _ (evt_evolves _ _ H1)) as Hok1. destruct a as [m|e]; run_inv E; [|by split].
    apply tryConnect_inv in Hrun as H2; [|done]. apply modify_inv in Hrun as ->.
    pose proof (evt_evolves _ _ H2) as [Hok2 _ _].
    edestruct IH as (H3 & H4 & Hr); [exact Hok2| |exact E|].
    { apply ApplyBlock_wf; [done|done|]. by apply chain_wf_app. }
    split; [eapply evolves_tip_trans; [exact H1|by eapply evolves_tip_trans]|]. split; [exact H4|].
    destruct r as [c'|]; [|done]. destruct Hr as [Hr1 Hr2]. split; [done|]. by econstructor.
Qed.

Lemma GetBlock_u64 n k b : node_ok n -> GetBlock n k = Some b -> is_u64 (height b).
Proof.
  intros Hok. unfold GetBlock. destruct (submittedBlocks n !! k) as [b'|] eqn:E.
  - intros ?. simplify_eq. by destruct (ok_submitted n Hok k b E).
  - apply Hok.
Qed.

Lemma fork_walk_u64 f n k missing bs missing' bs' :
  node_ok n -> Forall (fun b => is_u64 (height b)) bs -> fork_walk f n k missing bs = Some (missing', bs') ->
  Forall (fun b => is_u64 (height b)) bs'.
Proof.
  intros Hok. revert k missing bs. induction f as [|f IH]; intros k missing bs Hbs E; simpl in E; [done|].
  case_bool_decide; [by simplify_eq|]. destruct (GetHeader n k) as [hd|]; [|by simplify_eq].
  destruct (GetBlock n k) as [b|] eqn:Eb; (eapply IH; [|exact E]); [|done].
  constructor; [by eapply GetBlock_u64|done].
Qed.

Lemma evolves_tip_pointer n n' p : evolves_tip n n' -> pointer_ok n p -> pointer_ok n' p.
Proof. intros [[_ Hl _] _]. by apply pointers_later. Qed.

Lemma handleForkCreation_inv header parent src n n' r :
  node_ok n -> pointer_ok n src -> handleForkCreation ex header parent src n = Some (Ret (n', r)) ->
  evolves_tip n n'
  /\ match r with
     | Ok (Some (p, tip)) => pointer_ok n' p /\ same_blocks n n' /\ tip = Hdr.GetHash (Header parent)
         /\ exists bs c, validates (mem n) NewChain bs (mem n') c /\ store n' !! p = Some c
     | _ => True
     end.
Proof.
  intros Hok Hsrc E. unfold handleForkCreation in E. run_inv E.
  match goal with Hw : fork_walk _ _ _ _ _ = Some ?x |- _ => destruct x as [missing bs]; rename Hw into Hwalk end.
  apply (fork_walk_u64 _ _ _ _ _ _ _ Hok) in Hwalk; [|done].
  destruct missing as [|k missing]; run_inv E.
  - apply build_loop_inv in Hrun as (H1 & Hsame & Hc); [|done|apply NewChain_wf|done].
    match goal with r : res chain_error Chain |- _ => destruct r as [c|e] end; run_inv E; [|by split].
    destruct Hc as [Hc Hval].
    apply new_chain_inv in Hrun as H2'; [|by eapply evt_ok|done]. destruct H2' as [H2 Hp].
    assert (evolves_tip n1 (with_chains (<[Hdr.GetHash (Header parent):=a]> (chains n1)) n1)) as H3.
    { apply set_chains; [by eapply evt_ok|]. apply map_Forall_insert_2; [done|]. by apply evt_ok in H2 as []. }
    split; [eapply evolves_tip_trans; [exact H1|]; by eapply evolves_tip_trans|].
    split; [by eapply evolves_tip_pointer|]. unfold new_chain in Hrun. run_inv Hrun. split; [done|]. split; [done|].
    exists bs, c. split; [exact Hval|]. simpl. by apply list_lookup_middle.
  - split; [|done]. eapply spawn_inv; [done| |exact Hrun]. done.
Qed.

Lemma handleOrphanHeader_inv header n n' u :
  node_ok n -> handleOrphanHeader header n = Some (Ret (n', u)) -> evolves_tip n n'.
Proof.
  intros Hok E. unfold handleOrphanHeader in E. run_inv E. apply add_orphan_inv in Hrun; [|done].
  destruct (GetHeader _ _); run_inv E; [done|]. eapply evolves_tip_trans; [exact Hrun|].
  eapply spawn_inv; [by eapply evt_ok| |exact E]. done.
Qed.

(** The chain [c] that a header extends, the block that is to extend it, and the
    accounts of the moment it is validated on it: after the wait, the chain that was
    waited for and the first block received; at once, the current chain with the
    header added and the block the node has for it; or the same on a chain built anew
    from validated blocks, when the header's total work kept it off the current one. *)
Inductive base n (header : Hdr.BlockHeader) : Block -> Chain -> heap -> Prop :=
  | base_waited env p tip a block blocks c : LawfulEnv env ->
      processing n = Some (AwaitCurrent header (Hdr.GetHash header) p tip) ->
      received env (default [] a) = block :: blocks -> store n !! p = Some c ->
      base n header block c (mem n)
  | base_current block c :
      Hdr.PreviousHash header = currentChainTip n -> current_chain n = Some c ->
      GetBlock n (Hdr.GetHash header) = Some block ->
      base n header block (AddHeader header c) (mem n)
  | base_rebuilt block bs c h :
      Hdr.PreviousHash header = currentChainTip n -> validates (mem n) NewChain bs h c ->
      GetBlock n (Hdr.GetHash header) = Some block ->
      base n header block (AddHeader header c) h.

(** The current chain of [n'] is [c] with a block applied that was validated on it,
    with the accounts of that validation, under the key [hash]. *)
Definition applied block c h hash n' : Prop :=
  exists m, ValidateBlock ex block c h = Ret (mem n', Ok m)
    /\ currentChainTip n' = hash /\ current_chain n' = Some (ApplyBlock block m c).

Definition extended n n' : Prop :=
  exists header block c h, base n header block c h /\ applied block c h (Hdr.GetHash header) n'.

Lemma move_tip_spec hash p n : node_ok n -> pointer_ok n p ->
  evolves n (move_tip hash p n) /\ currentChainTip (move_tip hash p n) = hash
  /\ current_chain (move_tip hash p n) = store n !! p /\ mem (move_tip hash p n) = mem n.
Proof.
  intros Hok Hp. set (n1 := with_chains (<[hash := p]> (chains n)) n).
  assert (evolves_tip n n1) as H1 by (apply set_chains; [done|]; by apply map_Forall_insert_2, Hok).
  pose proof (set_tip n1 hash (evt_ok _ _ H1)) as H2. set (n2 := with_tip hash n1) in *.
  assert (current_chain n2 = store n !! p) as Hcur by (unfold current_chain, n2, n1; simpl; by rewrite lookup_insert_eq).
  unfold move_tip. fold n1 n2. destruct (_ && _) eqn:Eb.
  - split_and!; try done.
    + eapply evolves_trans; [apply evt_evolves; exact H1|]. eapply evolves_trans; [exact H2|].
      apply evt_evolves, set_chains; [by apply H2|]. apply map_Forall_delete, H2.
    + rewrite <- Hcur. unfold current_chain. simpl. rewrite lookup_delete_ne; [done|].
      apply andb_true_iff in Eb as [_ Eb]. apply negb_true_iff, bool_decide_eq_false in Eb. done.
  - split_and!; try done. eapply evolves_trans; [apply evt_evolves; exact H1|done].
Qed.

Lemma extend_current_inv header hash p tip bs n n' r :
  node_ok n -> Forall (fun b => is_u64 (height b)) bs ->
  extend_current ex header hash p tip bs n = Some (Ret (n', r)) ->
  evolves n n' /\ (currentChainTip n' = currentChainTip n
    \/ exists block rest c, bs = block :: rest /\ store n !! p = Some c /\ applied block c (mem n) hash n').
Proof.
  intros Hok Hbs E. destruct bs as [|b bs]; simpl in E.
  { run_inv E. apply evolves_tip_refl in Hok as []. eauto. }
  apply Forall_cons in Hbs as [Hb _]. run_inv E.
  apply read_chain_inv in Hrun as (-> & Hp & Hc & Hlt); [|done].
  apply validate_block_inv in Hrun0 as (ext & -> & H1 & Hval & Hm); [|done|done].
  pose proof (evt_ok _ _ H1) as Hok1. destruct a0 as [m|e]; run_inv E.
  2: { apply cleanupFailedHeader_inv in Hrun; [|done].
       pose proof (evolves_tip_trans _ _ _ H1 Hrun) as []. eauto. }
  apply update_chain_inv in Hrun as (c & Hp' & -> & H2); [|done|intros; by apply ApplyBlock_wf].
  simpl in Hp'. rewrite Hp in Hp'. injection Hp' as <-.
  set (n2 := with_store _ _) in *. pose proof (evt_ok _ _ H2) as Hok2.
  assert (evolves_tip n2 (with_blocksMap (<[hash:=b]> (blocksMap n2)) n2)) as H3.
  { apply set_blocksMap; [done|]. apply map_Forall_insert_2; [done|apply Hok2]. }
  set (n3 := with_blocksMap _ n2) in *. pose proof (evt_ok _ _ H3) as Hok3.
  assert (pointer_ok n3 p) as Hp3 by (unfold pointer_ok, n3, n2; simpl; by rewrite length_insert).
  destruct (move_tip_spec hash p n3 Hok3 Hp3) as (H4 & Htip & Hcur & Hmem).
  assert (store n3 !! p = Some (ApplyBlock b m a)) as Hst.
  { unfold n3, n2. simpl. apply list_lookup_insert_eq. exact Hlt. }
  rewrite Hst in Hcur. pose proof (ev_ok _ _ H4) as Hok4. set (n4 := move_tip hash p n3) in *. clearbody n4.
  match goal with Ht : tryConnectOrphanChildren _ _ = _ |- _ => rename Ht into Htry end.
  apply tryConnect_inv in Htry as H5; [|done]. apply modify_inv in Htry as ->.
  split.
  - eapply evolves_trans; [apply evt_evolves; exact H1|]. eapply evolves_trans; [apply evt_evolves; exact H2|].
    eapply evolves_trans; [apply evt_evolves; exact H3|]. eapply evolves_trans; [exact H4|by apply evt_evolves].
  - right. exists b, bs, a. split_and!; [done|done|]. exists m. split_and!; [|done|done]. simpl. by rewrite Hmem.
Qed.

Lemma handleCurrentChainExtension_inv header p tip n n' r :
  node_ok n -> pointer_ok n p ->
  handleCurrentChainExtension ex header (Hdr.GetHash header) p tip n = Some (Ret (n', r)) ->
  evolves n n' /\ (currentChainTip n' = currentChainTip n
    \/ exists block c, GetBlock n (Hdr.GetHash header) = Some block /\ store n !! p = Some c
         /\ applied block c (mem n) (Hdr.GetHash header) n').
Proof.
  intros Hok Hp E. unfold handleCurrentChainExtension in E. run_inv E.
  destruct (GetBlock n (Hdr.GetHash header)) as [b|] eqn:Eb.
  - apply extend_current_inv in E as [H1 H2]; [|done|by repeat constructor; eapply GetBlock_u64].
    split; [done|]. destruct H2 as [H2|(? & ? & c & [= <- <-] & Hc & H2)]; [by left|right; by exists b, c].
  - run_inv E. assert (evolves_tip n (with_processing (Some (AwaitCurrent header (Hdr.GetHash header) p tip)) n)) as []
      by (by apply set_processing). split; [done|by left].
Qed.

Lemma handleCandidateChainExtension_inv header hash p tip n n' r :
  node_ok n -> pointer_ok n p -> handleCandidateChainExtension header hash p tip n = Some (Ret (n', r)) ->
  evolves_tip n n'.
Proof.
  intros Hok Hp E. unfold handleCandidateChainExtension in E. run_inv E.
  destruct (current_chain n ≫= Tip) as [t|]; [|run_inv E; by apply evolves_tip_refl].
  destruct (_ <=? 0); [run_inv E; by apply evolves_tip_refl|]. run_inv E.
  apply read_chain_inv in Hrun as (-> & _); [|done].
  destruct a0; run_inv E; [by apply evolves_tip_refl|]. by apply set_processing.
Qed.

Lemma remove_orphan_keeps header n n' u : remove_orphan header n = Some (Ret (n', u)) ->
  mem n' = mem n /\ store n' = store n /\ same_blocks n n'.
Proof.
  intros E. apply modify_inv in E as ->. destruct (orphanHeaders n !! _); [|done].
  destruct (existsb _ _); [|done]. by destruct (remove_first _ _).
Qed.

Lemma handleChainExtension_inv header p tip n n' r :
  node_ok n -> pointer_ok n p -> handleChainExtension ex header p tip n = Some (Ret (n', r)) ->
  evolves n n' /\ (currentChainTip n' = currentChainTip n
    \/ exists block c, tip = currentChainTip n /\ GetBlock n (Hdr.GetHash header) = Some block
         /\ store n !! p = Some c /\ applied block (AddHeader header c) (mem n) (Hdr.GetHash header) n').
Proof.
  intros Hok Hp E. unfold handleChainExtension in E. run_inv E.
  apply update_chain_inv in Hrun as (c & Hc & En0 & H1); [|done|intros; by apply AddHeader_wf].
  assert (evolves_tip n0 (with_headersMap (<[Hdr.GetHash header:=header]> (headersMap n0)) n0)) as H2.
  { apply set_headersMap; [by eapply evt_ok|]. apply map_Forall_insert_2; [done|]. by apply evt_ok in H1 as []. }
  pose proof (evolves_tip_trans _ _ _ H1 H2) as H12. clear H2.
  match goal with Ht : tryConnectOrphanChildren _ _ = _ |- _ => pose proof Ht as Hn1; apply modify_inv in Hn1;
    apply tryConnect_inv in Ht; [|by eapply evt_ok]; pose proof (evolves_tip_trans _ _ _ H12 Ht) as H13; clear Ht end.
  match goal with Ht : remove_orphan _ _ = _ |- _ => pose proof (remove_orphan_keeps _ _ _ _ Ht) as Hn2;
    apply remove_orphan_inv in Ht; [|by eapply evt_ok]; pose proof (evolves_tip_trans _ _ _ H13 Ht) as H14; clear Ht end.
  assert (evolves_tip n2 (with_chains (<[Hdr.GetHash header:=p]> (delete tip (chains n2))) n2)) as H5.
  { pose proof (evt_ok _ _ H14) as Hok3. apply set_chains; [done|].
    apply map_Forall_insert_2; [by eapply evolves_tip_pointer|]. apply map_Forall_delete, Hok3. }
  pose proof (evolves_tip_trans _ _ _ H14 H5) as H15. set (n5 := with_chains _ n2) in *.
  pose proof (evt_ok _ _ H15) as Hok5. pose proof (evolves_tip_pointer _ _ _ H15 Hp) as Hp5.
  assert (mem n5 = mem n /\ store n5 = <[p := AddHeader header c]> (store n) /\ same_blocks n n5) as (Hm & Hs & Hg).
  { destruct Hn2 as (Hm & Hs & Hg). unfold n5. subst n1 n0. done. }
  pose proof (evt_tip _ _ H15) as Htip. case_bool_decide as Hcur.
  - apply handleCurrentChainExtension_inv in E as [H6 H7]; [|done|done].
    split; [eapply evolves_trans; [apply H15|done]|]. destruct H7 as [H7|(block & c' & Hb & Hc' & H7)]; [left; congruence|right].
    rewrite (same_blocks_GetBlock _ _ _ Hg) in Hb. rewrite Hs, list_lookup_insert_eq in Hc' by done.
    injection Hc' as <-. rewrite Hm in H7. exists block, c. split_and!; try done. congruence.
  - apply handleCandidateChainExtension_inv in E; [|done|done].
    pose proof (evolves_tip_trans _ _ _ H15 E) as []. auto.
Qed.

Lemma findParentChain_current n header p tip :
  node_ok n -> findParentChain n header = Some (p, tip) ->
  pointer_ok n p /\ tip = Hdr.PreviousHash header /\ chains n !! tip = Some p.
Proof.
  intros Hok E. unfold findParentChain in E. destruct (chains n !! _) as [p'|] eqn:Ep; [|done]. simpl in E.
  destruct (store n !! p') as [c|]; [|done]. simpl in E.
  destruct (Chain.GetHeader c _); [|done]. simpl in E. destruct (ValidateHeaderTotalWork _ _); [|done].
  injection E as <- <-. split_and!; [by eapply ok_chains|done|done].
Qed.

Lemma find_block_inv n hash o b p : node_ok n -> find_block n hash o = Some (b, p) ->
  pointer_ok n p /\ Hdr.GetHash (Header b) = hash.
Proof.
  intros Hok. induction o as [|[k q] o IH]; simpl; [done|].
  destruct (store n !! q) as [c|] eqn:Eq; simpl; [|done].
  destruct (Chain.GetBlock c hash) as [b'|] eqn:Eb; [|done]. intros E. injection E as <- <-.
  split; [by eapply lookup_lt_Some|]. pose proof (Forall_lookup_1 _ _ _ _ (ok_store n Hok) Eq) as [Hc _ _].
  by destruct (ok_index _ Hc _ _ Eb) as [-> _].
Qed.

Lemma ProcessHeader_inv env header n n' r :
  node_ok n -> ProcessHeader ex env header n = Some (Ret (n', r)) ->
  evolves n n' /\ (currentChainTip n' = currentChainTip n \/ extended n n').
Proof.
  intros Hok E. unfold ProcessHeader in E.
  assert (evolves n n /\ (currentChainTip n = currentChainTip n \/ extended n n)) as Hrefl
    by (split; [by apply evolves_tip_refl in Hok as []|by left]).
  destruct (ValidateHeaderStructure header); [|by run_inv E]. run_inv E.
  destruct (checkHeaderExists n _); [by run_inv E|].
  destruct (findParentChain n header) as [[p tip]|] eqn:Ep.
  { apply findParentChain_current in Ep as (Hp & Htip & Hch); [|done].
    apply handleChainExtension_inv in E as [H1 H2]; [|done|done]. split; [done|].
    destruct H2 as [H2|(block & c & Hcur & Hb & Hc & H2)]; [by left|right]. exists header, block, (AddHeader header c), (mem n).
    split; [|done]. apply base_current; [congruence| |done]. unfold current_chain. by rewrite <- Hcur, Hch. }
  destruct (findParentBlock env n header) as [[b src]|] eqn:Eb; run_inv E.
  - apply find_block_inv in Eb as [Hp Hhash]; [|done]. apply handleForkCreation_inv in Hrun as [H1 Hr]; [|done|done].
    match goal with x : res chain_error _ |- _ => destruct x as [[[p tip]|]|e] end; run_inv E;
      [|split; [apply H1|left; apply H1]..].
    destruct Hr as (Hp' & Hsame & -> & bs & c & Hval & Hc).
    apply handleChainExtension_inv in E as [H2 H3]; [|by eapply evt_ok|done].
    split; [eapply evolves_trans; [apply H1|done]|].
    destruct H3 as [H3|(block & c' & Hcur & Hb & Hc' & H3)]; [left; by rewrite H3, (evt_tip _ _ H1)|right].
    rewrite Hc in Hc'. injection Hc' as <-. exists header, block, (AddHeader header c), (mem n0). split; [|done].
    eapply base_rebuilt; [|exact Hval|]; [by rewrite <- Hhash, Hcur, (evt_tip _ _ H1)|].
    by rewrite <- (same_blocks_GetBlock _ _ _ Hsame).
  - apply handleOrphanHeader_inv in Hrun; [|done]. split; [apply Hrun|left; apply Hrun].
Qed.

(** ** Reorganisation *)

Lemma reorg_loop_inv bs c n n' r :
  node_ok n -> chain_wf (mem n) c -> Forall (fun b => is_u64 (height b)) bs ->
  reorg_loop ex bs c n = Some (Ret (n', r)) ->
  evolves_tip n n' /\ n' = with_mem (mem n') n
  /\ match r with
     | Some c' => validates (mem n) c bs (mem n') c' /\ chain_wf (mem n') c'
     | None => True
     end.
Proof.
  intros Hok Hc Hbs. revert c n Hok Hc. induction Hbs as [|b bs Hb _ IH]; intros c n Hok Hc E; simpl in E.
  - run_inv E. split_and!; [by apply evolves_tip_refl|by destruct n|constructor|done].
  - run_inv E. apply validate_block_inv in Hrun as (ext & -> & H1 & Hval & Hm); [|done|done].
    pose proof (evt_ok _ _ H1) as Hok1. destruct a as [m|e]; run_inv E; [|done].
    edestruct IH as (H2 & Hn & Hr); [exact Hok1| |exact E|].
    { apply AddBlock_wf, SetAccountStates_wf; [done|done|by apply chain_wf_app]. }
    split_and!; [by eapply evolves_tip_trans|rewrite Hn; by destruct n|].
    destruct r as [c'|]; [|done]. destruct Hr as [Hr ?]. split; [|done]. by econstructor.
Qed.

Lemma genesis_u64 : is_u64 (height Work.GenesisBlock).
Proof. unfold is_u64, Work.GenesisBlock, Work.genesis_header. cbn -[Z.pow]. lia. Qed.

Lemma index_headers_ok bs m : map_Forall (fun k h => k = Hdr.GetHash h) m ->
  map_Forall (fun k h => k = Hdr.GetHash h) (index_headers bs m).
Proof. unfold index_headers. revert m. induction bs as [|b bs IH]; intros m Hm; [done|]. by apply IH, map_Forall_insert_2. Qed.

Lemma index_blocks_ok bs m : Forall (fun b => is_u64 (height b)) bs -> map_Forall (fun _ b => is_u64 (height b)) m ->
  map_Forall (fun _ b => is_u64 (height b)) (index_blocks bs m).
Proof.
  unfold index_blocks. intros Hb. revert m. induction Hb as [|b bs Hb _ IH]; intros m Hm; [done|].
  by apply IH, map_Forall_insert_2.
Qed.

Lemma filter_current f n :
  (forall p, f (currentChainTip n, p) = false) ->
  current_chain (with_chains (filter (fun kv => f kv = false) (chains n)) n) = current_chain n.
Proof.
  intros Hf. unfold current_chain. simpl. f_equal. destruct (chains n !! currentChainTip n) as [p|] eqn:Ep.
  - by apply map_lookup_filter_Some.
  - apply map_lookup_filter_None. by left.
Qed.

Lemma cleanupCandidateChains_current n n' u : cleanupCandidateChains n = Some (Ret (n', u)) ->
  current_chain n' = current_chain n /\ mem n' = mem n.
Proof.
  intros E. unfold cleanupCandidateChains in E. run_inv E.
  destruct (current_chain n ≫= Tip); run_inv E; [|done].
  apply modify_inv in E as ->. cbv beta zeta.
  match goal with |- context [min_tip_height ?n1 =? _] => set (n2 := n1) end.
  split; [|by destruct (_ =? _)]. trans (current_chain n2); [by destruct (_ =? _)|].
  apply filter_current. intros p. by rewrite bool_decide_eq_true_2.
Qed.

(** [update_chain] with the chain it leaves. *)
Lemma update_chain_at p f n n' u : node_ok n ->
  (forall c, chain_wf (mem n) c -> chain_wf (mem n) (f c)) ->
  update_chain p f n = Some (Ret (n', u)) ->
  evolves_tip n n' /\ mem n' = mem n /\ chains n' = chains n
  /\ exists c, store n !! p = Some c /\ store n' !! p = Some (f c).
Proof.
  intros Hok Hf E. apply update_chain_inv in E as (c & Hp & -> & He); [|done|auto].
  split_and!; try done. exists c. split; [done|]. simpl. apply list_lookup_insert_eq. by eapply lookup_lt_Some.
Qed.

(** A candidate once adopted: its chain with the genesis block, the headers and the
    blocks fetched, and the accounts validation left. *)
Definition adopted bs (final : accounts) c : Chain :=
  SetAccountStates final (add_all bs
    (foldl (fun c b => AddHeader (Header b) c) (AddBlock Work.GenesisBlock (AddHeader (Header Work.GenesisBlock) c)) bs)).

(** What the lock-holding part does to the candidate before it chooses: it is
    stored under its new tip, with its blocks and the validated accounts. *)
Lemma adopt_prefix bs final p n n1 n2 n3 n4 (u1 u2 u3 u4 : unit) spawned' :
  node_ok n -> Forall (fun b => is_u64 (height b)) bs -> wf (mem n) final ->
  update_chain p (fun c => AddBlock Work.GenesisBlock (AddHeader (Header Work.GenesisBlock) c)) n = Some (Ret (n1, u1)) ->
  update_chain p (fun c => foldl (fun c b => AddHeader (Header b) c) c bs) n1 = Some (Ret (n2, u2)) ->
  update_chain p (add_all bs) (with_headersMap (index_headers bs (headersMap n2)) n2) = Some (Ret (n3, u3)) ->
  (forall m, Forall (task_ok m) (spawned n3) -> Forall (task_ok m) spawned') ->
  update_chain p (SetAccountStates final)
    (with_spawned spawned' (with_blocksMap (index_blocks bs (blocksMap n3)) n3)) = Some (Ret (n4, u4)) ->
  evolves_tip n n4 /\ mem n4 = mem n /\ pointer_ok n4 p
  /\ exists c, store n !! p = Some c /\ store n4 !! p = Some (adopted bs final c).
Proof.
  intros Hok Hbs Hfin E1 E2 E3 Hsp E4.
  apply update_chain_at in E1 as (H1 & Hm1 & _ & c & Hc0 & Hc1); [|done|].
  2: { intros c Hc. apply AddBlock_wf, AddHeader_wf; [apply genesis_u64|done]. }
  apply update_chain_at in E2 as (H2 & Hm2 & _ & c2 & Hc1' & Hc2); [|by eapply evt_ok|intros; by apply add_headers_wf].
  pose proof (evolves_tip_trans _ _ _ H1 H2) as H12. pose proof (evt_ok _ _ H12) as Hok2.
  assert (evolves_tip n2 (with_headersMap (index_headers bs (headersMap n2)) n2)) as H3.
  { apply set_headersMap; [done|]. apply index_headers_ok, Hok2. }
  pose proof (evolves_tip_trans _ _ _ H12 H3) as H13.
  apply update_chain_at in E3 as (H4 & Hm4 & _ & c3 & Hc2' & Hc3); [|by eapply evt_ok|intros; by apply add_all_wf].
  pose proof (evolves_tip_trans _ _ _ H13 H4) as H14. pose proof (evt_ok _ _ H14) as Hok4.
  assert (evolves_tip n3 (with_blocksMap (index_blocks bs (blocksMap n3)) n3)) as H5.
  { apply set_blocksMap; [done|]. apply index_blocks_ok; [done|apply Hok4]. }
  set (n3' := with_blocksMap _ n3) in *.
  assert (evolves_tip n3' (with_spawned spawned' n3')) as H6.
  { apply set_spawned; [by eapply evt_ok|]. apply Hsp, Hok4. }
  pose proof (evolves_tip_trans _ _ _ (evolves_tip_trans _ _ _ H14 H5) H6) as H16.
  apply update_chain_at in E4 as (H7 & Hm7 & _ & c4 & Hc3' & Hc4); [|by eapply evt_ok|].
  2: { intros c' Hc. apply SetAccountStates_wf; [|done]. unfold n3'. simpl. rewrite Hm4. simpl. by rewrite Hm2, Hm1. }
  split_and!.
  - by eapply evolves_tip_trans.
  - rewrite Hm7. unfold n3'. simpl. rewrite Hm4. simpl. by rewrite Hm2, Hm1.
  - by eapply lookup_lt_Some.
  - exists c. split; [done|]. rewrite Hc4. cbn [Node.store with_spawned with_blocksMap with_headersMap] in Hc3', Hc2'.
    unfold n3' in Hc3'. cbn [Node.store with_spawned with_blocksMap with_headersMap] in Hc3'. unfold adopted. congruence.
Qed.

(** The current chain of [n'] is the candidate at [p] with the blocks [bs] and the
    accounts [final]: it had more work than the tip of the current chain of [n]. *)
Definition chosen (p : chain_ptr) (bs : list Block) (final : accounts) n n' : Prop :=
  exists t b c, current_chain n ≫= Tip = Some t /\ last bs = Some b
    /\ 0 < Work.CompareWork (Hdr.TotalWork (Header b)) (Hdr.TotalWork (Header t))
    /\ currentChainTip n' = Hdr.GetHash (Header b)
    /\ store n !! p = Some c /\ current_chain n' = Some (adopted bs final c).

Lemma spawned_children_ok (orphans : gmap Hash32 (list Hdr.BlockHeader)) bs n (l : list task) :
  Forall (task_ok n) l ->
  Forall (task_ok n) (l ++ concat (map (fun b => map TaskHeader (default [] (orphans !! Hdr.GetHash (Header b)))) bs)).
Proof.
  intros Hl. apply Forall_app_2; [done|]. apply Forall_concat, Forall_map, Forall_true. intros b.
  by apply Forall_map, Forall_true.
Qed.

Lemma adopt_inv bs final p tip n n' u :
  node_ok n -> Forall (fun b => is_u64 (height b)) bs -> wf (mem n) final ->
  adopt bs final p tip n = Some (Ret (n', u)) ->
  evolves n n' /\ mem n' = mem n /\ (currentChainTip n' = currentChainTip n \/ chosen p bs final n n').
Proof.
  intros Hok Hbs Hfin E. unfold adopt in E.
  apply M_bind_inv in E as (n0 & x & Hx & E). apply get_inv in Hx as [-> ->].
  apply M_bind_inv in E as (n0 & should & Hs & E).
  assert (n0 = n /\ (should = true -> exists t b, current_chain n ≫= Tip = Some t /\ last bs = Some b
            /\ 0 < Work.CompareWork (Hdr.TotalWork (Header b)) (Hdr.TotalWork (Header t)))) as [-> Hshould].
  { destruct (current_chain n ≫= Tip) as [t|]; run_inv Hs; [|done].
    unfold last_block in *. destruct (last bs) as [b'|]; simplify_eq. split; [done|].
    intros Ht. eexists t, _. split_and!; try done. lia. }
  clear Hs. run_inv E.
  match goal with Hl : last_block bs = Ret ?x |- _ => rename x into b; unfold last_block in Hl;
    destruct (last bs) as [b0|] eqn:Hb; [injection Hl as ->|discriminate] end.
  edestruct (adopt_prefix bs final p) as (H1 & Hm1 & Hp1 & c & Hc0 & Hc);
    [exact Hok|exact Hbs|exact Hfin|exact Hrun|exact Hrun0|exact Hrun1| |exact Hrun2|].
  { intros m Hm. by apply (spawned_children_ok (orphanHeaders n2)). }
  clear Hrun Hrun0 Hrun1 Hrun2. pose proof (evt_ok _ _ H1) as Hok3.
  assert (evolves_tip n3 (with_chains (<[Hdr.GetHash (Header b):=p]> (chains n3)) n3)) as H2.
  { apply set_chains; [done|]. by apply map_Forall_insert_2, Hok3. }
  set (n4 := with_chains _ n3) in *. pose proof (evolves_tip_trans _ _ _ H1 H2) as H12.
  pose proof (evt_ok _ _ H2) as Hok4. destruct should; run_inv E.
  - pose proof (set_tip n4 (Hdr.GetHash (Header b)) Hok4) as H3. set (n5 := with_tip _ n4) in *.
    apply cleanupCandidateChains_inv in E as H4; [|apply H3].
    apply cleanupCandidateChains_current in E as [Hcur Hm5].
    split_and!; [|by rewrite Hm5|right].
    + eapply evolves_trans; [apply H12|]. eapply evolves_trans; [exact H3|apply H4].
    + destruct (Hshould eq_refl) as (t & b' & Ht & Hb' & Hw). simplify_eq. exists t, b', c.
      split_and!; try done; [by rewrite (evt_tip _ _ H4)|]. rewrite Hcur.
      unfold current_chain, n5, n4. simpl. by rewrite lookup_insert_eq.
  - assert (evolves_tip n4 (with_chains (delete tip (chains n4)) n4)) as H3.
    { apply set_chains; [done|]. apply map_Forall_delete, Hok4. }
    pose proof (evolves_tip_trans _ _ _ H12 H3) as []. split_and!; [done|done|by left].
Qed.

#[export] Instance height_le_trans : Transitive height_le.
Proof. unfold height_le. intros a b c. lia. Qed.

#[export] Instance height_le_total : Total height_le.
Proof. unfold height_le. intros a b. lia. Qed.

Abbreviation answer_ok a := (Forall (Forall (fun b => is_u64 (height b))) (default [] a)).

Lemma received_u64 env msgs : LawfulEnv env -> Forall (Forall (fun b => is_u64 (height b))) msgs ->
  Forall (fun b => is_u64 (height b)) (received env msgs).
Proof.
  intros Henv Hm. unfold received.
  assert (map_Forall (fun _ b => is_u64 (height b)) (blocks_by_hash msgs)) as Hb.
  { unfold blocks_by_hash. apply Forall_concat in Hm. revert Hm. generalize (concat msgs) as l.
    assert (map_Forall (fun _ b => is_u64 (height b)) (∅ : gmap Hash32 Block)) as H0 by apply map_Forall_empty.
    revert H0. generalize (∅ : gmap Hash32 Block) as m. intros m Hm l Hl. revert m Hm.
    induction Hl as [|b l Hb _ IH]; intros m Hm; simpl; [done|]. by apply IH, map_Forall_insert_2. }
  apply Forall_fmap, Forall_forall. intros [k b] Hkb. rewrite block_order_perm in Hkb.
  apply elem_of_map_to_list in Hkb. by apply (Hb k).
Qed.

(** The account the genesis coins are given to. *)
Definition genesis_account : Acct.AccountState :=
  Acct.MkAccount PublicKey_zero (10 * AUG) 0 [] ∅ Hash32_zero Hash32_zero Hash32_zero Hash32_zero.

(** The current chain of [n'] is the candidate at [p]: of the blocks received, sorted
    by height, the last has more work than the tip of the current chain of [n]; they
    validate one after the other from the genesis block and its coins, which are
    allotted in the store for this; the candidate gets them and their accounts. *)
Definition reorganised env (p : chain_ptr) msgs n n' : Prop :=
  exists bs c, bs ≡ₚ received env msgs /\ StronglySorted height_le bs
    /\ validates (mem n ++ [genesis_account]) (SetAccountStates {[FirstUser := length (mem n)]} NewChain) bs (mem n') c
    /\ chosen p bs (AccountStates c) n n'.

Lemma reorganise_inv env p tip a n n' r :
  LawfulEnv env -> node_ok n -> answer_ok a ->
  reorganise ex env p tip a n = Some (Ret (n', r)) ->
  evolves n n' /\ (currentChainTip n' = currentChainTip n \/ reorganised env p (default [] a) n n').
Proof.
  intros Henv Hok Ha E.
  assert (evolves n n /\ (currentChainTip n = currentChainTip n \/ reorganised env p (default [] a) n n)) as Hrefl
    by (split; [by apply evolves_tip_refl in Hok as []|by left]).
  unfold reorganise in E. destruct a as [[|m msgs]|]; [by run_inv E| |by run_inv E].
  set (bs := sort_by_height (received env (m :: msgs))) in *.
  assert (Forall (fun b => is_u64 (height b)) bs) as Hbs.
  { unfold bs, sort_by_height. rewrite merge_sort_Permutation. by apply received_u64. }
  assert (StronglySorted height_le bs) as Hsort by (apply StronglySorted_merge_sort; apply _).
  assert (bs ≡ₚ received env (m :: msgs)) as Hperm by (apply merge_sort_Permutation).
  clearbody bs. apply M_bind_inv in E as (n1 & gs & Hgs & E). unfold genesis_states in Hgs.
  apply M_bind_inv in Hgs as (n0 & x & Hx & Hgs). apply get_inv in Hx as [-> ->]. simpl in Hgs. run_inv Hgs.
  fold genesis_account in *. set (n1 := with_mem _ n) in *.
  assert (evolves_tip n n1) as H1 by (by apply set_mem). pose proof (evt_ok _ _ H1) as Hok1.
  assert (wf (mem n1) ({[FirstUser := length (mem n)]} : accounts)) as Hw.
  { split.
    - intros k l [<- <-]%lookup_singleton_Some. simpl. rewrite length_app. simpl. lia.
    - intros k1 k2 l [<- _]%lookup_singleton_Some [<- _]%lookup_singleton_Some. done. }
  run_inv E. apply reorg_loop_inv in Hrun as (H2 & Hn2 & Hr); [|done|apply SetAccountStates_wf; [done|apply NewChain_wf]|done].
  pose proof (evolves_tip_trans _ _ _ H1 H2) as H12.
  match goal with x : option Chain |- _ => destruct x as [c|] end; run_inv E; [|destruct H12; auto].
  destruct Hr as [Hval Hc]. apply adopt_inv in Hrun as (H3 & Hm3 & Htip);
    [|by eapply evt_ok|done|by apply cw_accounts].
  split; [eapply evolves_trans; [apply H12|done]|].
  destruct Htip as [Htip|Hch]; [left; by rewrite Htip, (evt_tip _ _ H12)|right].
  exists bs, c. split_and!; try done.
  - by rewrite Hm3.
  - destruct Hch as (t & b & c' & Hcur & H4 & H5 & H6 & Hst & H7). rewrite Hn2 in Hcur, Hst. by exists t, b, c'.
Qed.

(** ** Every step *)

(** The step is the answer to a request for a candidate's blocks, and makes the
    candidate current. *)
Definition switched n n' : Prop :=
  exists env hashes p tip msgs, LawfulEnv env /\ processing n = Some (AwaitCandidate hashes p tip)
    /\ reorganised env p msgs n n'.

Lemma resume_inv env k a n n' r :
  LawfulEnv env -> node_ok n -> processing n = Some k -> answer_ok a ->
  resume ex env k a n = Some (Ret (n', r)) ->
  evolves n n' /\ (currentChainTip n' = currentChainTip n \/ extended n n' \/ switched n n').
Proof.
  intros Henv Hok Hk Ha E. unfold resume in E. run_inv E.
  assert (evolves_tip n (with_processing None n)) as H1 by (by apply set_processing).
  pose proof (evt_ok _ _ H1) as Hok1. pose proof (ok_processing n Hok) as Hw. rewrite Hk in Hw.
  destruct k as [header hash p tip|hashes p tip].
  - destruct Hw as [-> _]. apply extend_current_inv in E as [H2 Ht]; [|done|by apply received_u64].
    split; [eapply evolves_trans; [apply H1|done]|].
    destruct Ht as [Ht|(block & rest & c & Hr & Hc & Ht)]; [by left|right; left].
    exists header, block, c, (mem n). split; [|exact Ht]. by eapply base_waited.
  - apply reorganise_inv in E as [H2 Ht]; [|done..].
    split; [eapply evolves_trans; [apply H1|done]|]. destruct Ht as [Ht|Ht]; [by left|right; right].
    by exists env, hashes, p, tip, (default [] a).
Qed.

Lemma finish_fetch_fork_inv env header p a n n' u :
  LawfulEnv env -> node_ok n -> answer_ok a ->
  finish_fetch_fork env header p a n = Some (Ret (n', u)) -> evolves_tip n n'.
Proof.
  intros Henv Hok Ha E. unfold finish_fetch_fork in E.
  destruct a as [[|m msgs]|]; [run_inv E; by apply evolves_tip_refl| |run_inv E; by apply evolves_tip_refl].
  run_inv E. apply update_chain_at in Hrun as (H1 & _); [|done|].
  - eapply evolves_tip_trans; [exact H1|]. eapply spawn_inv; [by eapply evt_ok| |exact E]. done.
  - intros c Hc. apply add_all_wf; [by apply received_u64|done].
Qed.

Lemma finish_fetch_parent_block_inv header a n n' u :
  node_ok n -> answer_ok a -> finish_fetch_parent_block header a n = Some (Ret (n', u)) -> evolves_tip n n'.
Proof.
  intros Hok Ha E. unfold finish_fetch_parent_block in E.
  destruct a as [[|[|b bs] msgs]|]; try (run_inv E; by apply evolves_tip_refl).
  unfold add_to_chains in E. run_inv E. apply set_store; [done|by rewrite length_imap|].
  simpl in Ha. apply Forall_cons in Ha as [[Hb _]%Forall_cons _].
  apply Forall_lookup_2. intros i c. rewrite list_lookup_imap. destruct (store n !! i) as [c0|] eqn:Ec; [|done].
  intros E. simplify_eq/=. pose proof (Forall_lookup_1 _ _ _ _ (ok_store n Hok) Ec).
  destruct (_ && _); [by apply AddBlock_wf|done].
Qed.

Lemma ProcessTransaction_inv now tx n n' r :
  node_ok n -> ProcessTransaction now tx n = Some (Ret (n', r)) -> evolves_tip n n'.
Proof.
  intros Hok E. unfold ProcessTransaction in E. run_inv E.
  match goal with x : res tx_error _ |- _ => destruct x end; [|run_inv E; by apply evolves_tip_refl].
  destruct (Mempool.AddTransaction now tx (pool n)) as [mp added] eqn:Ea. run_inv E.
  apply set_pool; [done|]. by eapply Mempool.AddTransaction_ok in Ea as [? _]; [|apply Hok].
Qed.

Lemma StoreBlock_inv b n n' u :
  node_ok n -> is_u64 (height b) -> StoreBlock b n = Some (Ret (n', u)) -> evolves_tip n n'.
Proof.
  intros Hok Hb E. unfold StoreBlock in E. run_inv E. apply set_submitted; [done|].
  apply map_Forall_insert_2; [done|apply Hok].
Qed.

Lemma AddBlockDirectly_inv env b n n' r :
  node_ok n -> is_u64 (height b) -> AddBlockDirectly env b n = Some (Ret (n', r)) -> evolves n n'.
Proof.
  intros Hok Hb E. unfold AddBlockDirectly in E. run_inv E.
  destruct (List.find _ _) as [[k p]|]; [|run_inv E; by apply evolves_tip_refl in Hok as []].
  run_inv E. apply update_chain_at in Hrun as (H1 & _ & _ & c & Hp & Hp'); [|done|].
  2: { intros c Hc. by apply AddBlock_wf, AddHeader_wf. }
  match type of H1 with evolves_tip _ ?m => set (n1 := m) in * end. clearbody n1.
  assert (evolves_tip n1 (with_headersMap (<[Hdr.GetHash (Header b):=Header b]> (headersMap n1)) n1)) as H2.
  { apply set_headersMap; [by eapply evt_ok|]. apply map_Forall_insert_2; [done|]. by apply evt_ok in H1 as []. }
  set (n2 := with_headersMap _ n1) in *. pose proof (evt_ok _ _ H2) as Hok2.
  assert (evolves_tip n2 (with_blocksMap (<[Hdr.GetHash (Header b):=b]> (blocksMap n2)) n2)) as H3.
  { apply set_blocksMap; [done|]. by apply map_Forall_insert_2, Hok2. }
  set (n3 := with_blocksMap _ n2) in *. pose proof (evt_ok _ _ H3) as Hok3.
  assert (evolves_tip n3 (with_chains (<[Hdr.GetHash (Header b):=p]> (delete (Hdr.PreviousHash (Header b)) (chains n3))) n3))
    as H4.
  { apply set_chains; [done|]. apply map_Forall_insert_2; [by eapply lookup_lt_Some|]. apply map_Forall_delete, Hok3. }
  set (n4 := with_chains _ n3) in *.
  pose proof (evolves_tip_trans _ _ _ (evolves_tip_trans _ _ _ H1 H2) (evolves_tip_trans _ _ _ H3 H4)) as H14.
  destruct (_ || _); [|apply H14]. eapply evolves_trans; [apply H14|]. apply set_tip. by eapply evt_ok.
Qed.

(** A block of the test interface has been added. *)
Definition direct n n' : Prop :=
  exists env block r, AddBlockDirectly env block n = Some (Ret (n', r)).

Lemma drop_task n l t l' : node_ok n -> spawned n = l ++ t :: l' ->
  evolves_tip n (with_spawned (l ++ l') n) /\ task_ok n t.
Proof.
  intros Hok E. pose proof (ok_spawned n Hok) as Hs. rewrite E, Forall_app, Forall_cons in Hs.
  split; [apply set_spawned; [done|]; apply Forall_app_2; tauto|tauto].
Qed.

Lemma extended_later n1 n2 n3 : mem n3 = mem n2 -> currentChainTip n3 = currentChainTip n2 ->
  current_chain n3 = current_chain n2 -> extended n1 n2 -> extended n1 n3.
Proof.
  intros Hm Ht Hc (hd & b & c & h & Hb & m & Hv & Hk & Hcur). exists hd, b, c, h. split; [done|]. exists m. by rewrite Hm, Ht, Hc.
Qed.

(** The goroutine that is started leaves the list of those to start. *)
Lemma extended_spawned l n n' : extended (with_spawned l n) n' -> extended n n'.
Proof.
  intros (hd & b & c & h & Hb & Ha). exists hd, b, c, h. split; [|exact Ha].
  destruct Hb as [env p tip a b bs c H0 H1 H2 H3|b c H1 H2 H3|b bs c h H1 H2 H3].
  - exact (base_waited n hd env p tip a b bs c H0 H1 H2 H3).
  - exact (base_current n hd b c H1 H2 H3).
  - exact (base_rebuilt n hd b bs c h H1 H2 H3).
Qed.

Lemma node_step_ok n n' : node_ok n -> step ex n n' ->
  evolves n n' /\ (currentChainTip n' = currentChainTip n \/ extended n n' \/ switched n n' \/ direct n n').
Proof.
  intros Hok Hs. destruct Hs as [env header n' r Henv Hp E|env k a n' r Henv Hp Ha E|env l header l' n' r Henv Hp Hl E
    |env l header missing p l' a n' Henv Hl Ha E|env l header parent l' n' Henv Hp Hl E|l header l' a n' Hl Ha E
    |l t l' Hl Ht|now tx n' r E|b n' Hb E|env b n' r Henv Hb E].
  - apply ProcessHeader_inv in E as [H1 [H2|H2]]; auto.
  - apply resume_inv in E as [H1 [H2|[H2|H2]]]; auto.
  - destruct (drop_task n _ _ _ Hok Hl) as [H1 _]. apply ProcessHeader_inv in E as [H2 H3]; [|by eapply evt_ok].
    split; [eapply evolves_trans; [apply H1|done]|]. destruct H3 as [H3|H3]; [by left|right; left].
    by eapply extended_spawned.
  - destruct (drop_task n _ _ _ Hok Hl) as [H1 _].
    apply finish_fetch_fork_inv in E; [|done|by eapply evt_ok|done].
    pose proof (evolves_tip_trans _ _ _ H1 E) as []. auto.
  - destruct (drop_task n _ _ _ Hok Hl) as [H1 _]. unfold finish_fetch_parent in E. run_inv E.
    apply ProcessHeader_inv in Hrun as [H2 H3]; [|by eapply evt_ok].
    assert (evolves_tip n0 n') as H6 by (eapply spawn_inv; [apply H2| |exact E]; done).
    apply modify_inv in E as ->.
    split; [eapply evolves_trans; [apply H1|]; eapply evolves_trans; [exact H2|apply H6]|].
    destruct H3 as [H3|H3]; [by left|right; left]. eapply extended_later; [..|by eapply extended_spawned]; done.
  - destruct (drop_task n _ _ _ Hok Hl) as [H1 _].
    apply finish_fetch_parent_block_inv in E; [|by eapply evt_ok|done].
    pose proof (evolves_tip_trans _ _ _ H1 E) as []. auto.
  - destruct (drop_task n _ _ _ Hok Hl) as [[] _]. auto.
  - apply ProcessTransaction_inv in E as []; auto.
  - apply StoreBlock_inv in E as []; auto.
  - apply AddBlockDirectly_inv in E as H1; [|done|done]. split; [done|]. right; right; right. by exists env, b, r.
Qed.

Lemma NewNode_ok : node_ok NewNode.
Proof.
  unfold NewNode. split; simpl.
  - apply map_Forall_singleton. unfold pointer_ok. simpl. lia.
  - constructor; [|done]. apply AddBlock_wf, AddHeader_wf; [apply genesis_u64|apply NewChain_wf].
  - by apply map_Forall_singleton.
  - apply map_Forall_singleton, genesis_u64.
  - apply map_Forall_empty.
  - apply map_Forall_empty.
  - apply Mempool.NewMempool_ok.
  - done.
  - done.
Qed.

Lemma reachable_well_formed n : reachable ex n -> node_ok n.
Proof.
  unfold reachable. pose proof NewNode_ok as H0. revert H0. generalize NewNode as m. intros m H0 Hr.
  induction Hr as [|x y z Hs _ IH]; [done|]. apply IH. by eapply node_step_ok in Hs as [[] _].
Qed.

(** ** Walks over headers end *)

(** The stored headers have no cycle of parent hashes. *)
Definition acyclic (m : gmap Hash32 Hdr.BlockHeader) : Prop :=
  exists rank : Hash32 -> nat, forall k h, m !! k = Some h -> (rank (Hdr.PreviousHash h) < rank k)%nat.

(** How many stored headers a walk from [k] can meet. *)
Definition below (rank : Hash32 -> nat) (m : gmap Hash32 Hdr.BlockHeader) (k : Hash32) : nat :=
  size (filter (fun kv => (rank kv.1 <= rank k)%nat) m).

Lemma below_le rank m k : (below rank m k <= size m)%nat.
Proof. apply map_subseteq_size, map_filter_subseteq. Qed.

Lemma below_step rank m k h : m !! k = Some h -> (rank (Hdr.PreviousHash h) < rank k)%nat ->
  (below rank m (Hdr.PreviousHash h) < below rank m k)%nat.
Proof.
  intros Hk Hr. unfold below. set (f k' := filter (fun kv : Hash32 * Hdr.BlockHeader => (rank kv.1 <= rank k')%nat) m).
  assert (f k !! k = Some h) as Hin by (by apply map_lookup_filter_Some).
  assert (f (Hdr.PreviousHash h) ⊆ delete k (f k)) as Hsub.
  { apply map_subseteq_spec. intros k' h' [Hk' Hle]%map_lookup_filter_Some. simpl in Hle.
    apply lookup_delete_Some. split; [intros ->; lia|]. apply map_lookup_filter_Some. simpl. split; [done|lia]. }
  apply map_subseteq_size in Hsub. rewrite map_size_delete_Some in Hsub by done.
  assert (size (f k) <> 0)%nat by (apply map_size_ne_0_lookup; eauto).
  change (size (f (Hdr.PreviousHash h)) < size (f k))%nat. lia.
Qed.

Lemma fork_walk_ends rank n f k missing bs :
  (forall k h, headersMap n !! k = Some h -> (rank (Hdr.PreviousHash h) < rank k)%nat) ->
  (below rank (headersMap n) k < f)%nat -> is_Some (fork_walk f n k missing bs).
Proof.
  intros Hr. revert k missing bs. induction f as [|f IH]; intros k missing bs Hf; [lia|]. cbn [fork_walk].
  case_bool_decide; [done|]. unfold GetHeader. destruct (headersMap n !! k) as [h|] eqn:Eh; [|done].
  pose proof (below_step rank _ k h Eh (Hr k h Eh)). destruct (GetBlock n k); apply IH; lia.
Qed.

Lemma candidate_walk_ends rank n c f k hashes :
  (forall k h, headersMap n !! k = Some h -> (rank (Hdr.PreviousHash h) < rank k)%nat) ->
  (below rank (headersMap n) k < f)%nat -> is_Some (candidate_walk f n c k hashes).
Proof.
  intros Hr. revert k hashes. induction f as [|f IH]; intros k hashes Hf; [lia|]. cbn [candidate_walk].
  destruct (Chain.GetBlock c k); [done|]. destruct (headersMap n !! k) as [h|] eqn:Eh; [|done].
  pose proof (below_step rank _ k h Eh (Hr k h Eh)). apply IH. lia.
Qed.

(** A method that does not diverge from [n]. *)
Definition ends {A} (m : M A) n : Prop := m n <> None.

Lemma ends_bind {A B} (m : M A) (f : A -> M B) n :
  ends m n -> (forall n' a, m n = Some (Ret (n', a)) -> ends (f a) n') -> ends (m ≫= f) n.
Proof.
  unfold ends, mbind, M_bind. intros Hm Hf. destruct (m n) as [[[n' a]|k]|]; [|done|done]. by apply Hf.
Qed.

Lemma ends_fuel {A} (c : option A) n : is_Some c -> ends (of_fuel c) n.
Proof. intros [x ->]. done. Qed.

Lemma ends_go {A} (c : go A) n : ends (of_go c) n.
Proof. by destruct c. Qed.

Lemma ends_update_chain p f n : ends (update_chain p f) n.
Proof.
  unfold update_chain, read_chain. apply ends_bind; [|done]. apply ends_bind; [done|].
  intros n' a E. apply ends_go.
Qed.

Lemma ends_validate b c n : ends (validate_block ex b c) n.
Proof.
  unfold validate_block. apply ends_bind; [done|]. intros n' a _.
  apply ends_bind; [apply ends_go|]. intros n'' x _. by apply ends_bind.
Qed.

Lemma ends_build bs c n : ends (build_loop ex bs c) n.
Proof.
  revert c n. induction bs as [|b bs IH]; intros c n; [done|]. cbn [build_loop].
  apply ends_bind; [apply ends_validate|]. intros n' [m|e] _; [|done]. apply ends_bind; [done|].
  intros. apply IH.
Qed.

Lemma ends_cleanupFailed header hash p tip restore n : ends (cleanupFailedHeader header hash p tip restore) n.
Proof.
  unfold cleanupFailedHeader. apply ends_bind; [apply ends_update_chain|]. intros n1 _ _.
  apply ends_bind; [done|]. intros n2 _ _. apply ends_bind; [done|]. intros n3 _ _. by destruct restore.
Qed.

Lemma ends_extend_current header hash p tip bs n : ends (extend_current ex header hash p tip bs) n.
Proof.
  destruct bs as [|b bs]; [done|]. cbn [extend_current].
  apply ends_bind; [unfold read_chain; apply ends_bind; [done|]; intros; apply ends_go|]. intros n1 c _.
  apply ends_bind; [apply ends_validate|]. intros n2 [m|e] _.
  - apply ends_bind; [apply ends_update_chain|]. intros n3 _ _. by repeat (apply ends_bind; [done|]; intros).
  - apply ends_bind; [apply ends_cleanupFailed|done].
Qed.

(** The header index is changed by few pieces. *)
Lemma update_chain_run p f n n' u : update_chain p f n = Some (Ret (n', u)) ->
  exists c, store n !! p = Some c /\ n' = with_store (<[p := f c]> (store n)) n.
Proof.
  intros E. unfold update_chain, read_chain in E. run_inv E. unfold chain_at in *.
  destruct (store n !! p) as [c|]; simplify_eq. eauto.
Qed.

Lemma remove_orphan_headersMap header n n' u : remove_orphan header n = Some (Ret (n', u)) -> headersMap n' = headersMap n.
Proof.
  intros E. apply modify_inv in E as ->. cbv beta zeta.
  destruct (orphanHeaders n !! _); [|done]. destruct (existsb _ _); [|done]. by destruct (remove_first _ _).
Qed.

Lemma build_loop_headersMap bs c n n' r : build_loop ex bs c n = Some (Ret (n', r)) -> headersMap n' = headersMap n.
Proof.
  revert c n. induction bs as [|b bs IH]; intros c n E; cbn [build_loop] in E; run_inv E; [done|].
  unfold validate_block in Hrun. run_inv Hrun.
  match goal with x : res chain_error accounts |- _ => destruct x | |- _ => idtac end.
  all: repeat match type of E with (match ?x with Ok _ => _ | Err _ => _ end) _ = _ => destruct x end; run_inv E; try done.
  apply modify_inv in Hrun as ->. by apply IH in E.
Qed.

Lemma handleForkCreation_headersMap header b src n n' r :
  handleForkCreation ex header b src n = Some (Ret (n', r)) -> headersMap n' = headersMap n.
Proof.
  intros E. unfold handleForkCreation in E. run_inv E.
  match goal with w : (list Hash32 * list Block)%type |- _ => destruct w as [[|k l] bs] end; run_inv E.
  - match goal with Hb : buildChainFromBlocks _ _ _ = _ |- _ => apply build_loop_headersMap in Hb end.
    match goal with x : res chain_error Chain |- _ => destruct x end; run_inv E; [|done].
    match goal with Hc : new_chain _ _ = _ |- _ => unfold new_chain in Hc; run_inv Hc end. done.
  - match goal with Hs : spawn _ _ = _ |- _ => by apply modify_inv in Hs as -> end.
Qed.

Lemma ends_chain_extension header p tip n :
  acyclic (<[Hdr.GetHash header := header]> (headersMap n)) -> ends (handleChainExtension ex header p tip) n.
Proof.
  intros [rank Hr]. unfold handleChainExtension. apply ends_bind; [apply ends_update_chain|]. intros n1 ? E1.
  apply update_chain_run in E1 as (c & _ & ->). apply ends_bind; [done|]. intros n2 ? E2. apply modify_inv in E2 as ->.
  apply ends_bind; [done|]. intros n3 ? E3. apply modify_inv in E3 as ->.
  apply ends_bind; [done|]. intros n4 ? E4. apply remove_orphan_headersMap in E4. simpl in E4.
  apply ends_bind; [done|]. intros n5 ? E5. apply modify_inv in E5 as ->. apply ends_bind; [done|].
  intros n6 m E6. apply get_inv in E6 as [-> ->]. case_bool_decide.
  - unfold handleCurrentChainExtension. apply ends_bind; [done|]. intros n7 m E7. apply get_inv in E7 as [-> ->].
    destruct (GetBlock _ _); [apply ends_extend_current|done].
  - unfold handleCandidateChainExtension. apply ends_bind; [done|]. intros n7 m E7. apply get_inv in E7 as [-> ->].
    destruct (current_chain _ ≫= Tip); [|done]. destruct (_ <=? 0); [done|].
    apply ends_bind; [unfold read_chain; apply ends_bind; [done|]; intros; apply ends_go|].
    intros n8 c8 E8. unfold read_chain in E8. run_inv E8. apply ends_bind; [|by intros ? [] _].
    apply ends_fuel, (candidate_walk_ends rank); simpl; rewrite ?E4; [exact Hr|].
    unfold walk_fuel. simpl. rewrite E4. pose proof (below_le rank (<[Hdr.GetHash header:=header]> (headersMap n)) (Hdr.GetHash header)). lia.
Qed.

Lemma ends_ProcessHeader env header n :
  acyclic (headersMap n) -> acyclic (<[Hdr.GetHash header := header]> (headersMap n)) ->
  ends (ProcessHeader ex env header) n.
Proof.
  intros Ha Ha'. unfold ProcessHeader. destruct (ValidateHeaderStructure header); [|done].
  apply ends_bind; [done|]. intros n1 m E1. apply get_inv in E1 as [-> ->].
  destruct (checkHeaderExists _ _); [done|]. destruct (findParentChain _ _) as [[p tip]|]; [by apply ends_chain_extension|].
  destruct (findParentBlock _ _ _) as [[b src]|]; apply ends_bind.
  - unfold handleForkCreation. apply ends_bind; [done|]. intros n2 m E2. apply get_inv in E2 as [-> ->].
    apply ends_bind.
    + destruct Ha as [rank Hr]. apply ends_fuel, (fork_walk_ends rank); [exact Hr|].
      unfold walk_fuel. pose proof (below_le rank (headersMap n) (Hdr.GetHash (Header b))). lia.
    + intros n3 [[|k l] bs] _; [|done]. apply ends_bind; [apply ends_build|]. intros n4 [c|e] _; [|done].
      by repeat (apply ends_bind; [done|]; intros).
  - intros n2 r E2. apply handleForkCreation_headersMap in E2.
    destruct r as [[[p tip]|]|e]; [|done|done]. apply ends_chain_extension. by rewrite E2.
  - unfold handleOrphanHeader. apply ends_bind; [done|]. intros. apply ends_bind; [done|]. intros n3 m E3.
    by destruct (GetHeader _ _).
  - done.
Qed.

(** ** Properties *)

(** A header without a known parent is kept, and its parent asked for. *)
Lemma orphan_kept env header n (prev := Hdr.PreviousHash header) :
  ValidateHeaderStructure header = Ok () -> checkHeaderExists n (Hdr.GetHash header) = false ->
  chains n !! prev = None -> findParentBlock env n header = None -> GetHeader n prev = None ->
  ProcessHeader ex env header n =
    Some (Ret (with_spawned (spawned n ++ [TaskFetchParent header])
                (with_orphans (<[prev := default [] (orphanHeaders n !! prev) ++ [header]]> (orphanHeaders n)) n), None)).
Proof.
  intros Hv Hx Hc Hb Hh. unfold ProcessHeader. rewrite Hv. erewrite M_bind_run by reflexivity. rewrite Hx.
  unfold findParentChain. fold prev. rewrite Hc. cbn [mbind option_bind]. rewrite Hb.
  unfold handleOrphanHeader, add_orphan. unfold mbind at 2, M_bind at 2. unfold modify at 1. cbv beta iota.
  unfold mbind, M_bind, modify, get, mret, M_ret, spawn. cbv beta iota. fold prev.
  match goal with |- context [GetHeader ?m prev] => change (GetHeader m prev) with (GetHeader n prev) end.
  rewrite Hh. reflexivity.
Qed.

(** C17. Whatever headers, blocks, transactions and answers a node receives, and in
    whatever order its goroutines run: no chain pointer dangles; every chain is
    indexed consistently and owns its accounts; the index of headers and the index of
    submitted blocks are keyed by hash, and the waiting orphans by their parent; the
    pool keeps its invariant; and a step only adds account objects to the store. *)
Theorem reachable_node_ok n n' : reachable ex n -> step ex n n' -> node_ok n' /\ mem n `prefix_of` mem n'.
Proof.
  intros Hr Hs. apply reachable_well_formed in Hr as Hok. by destruct (node_step_ok n n' Hok Hs) as [[] _].
Qed.

Lemma validates_from_genesis h m b bs h' c :
  validates h (SetAccountStates m NewChain) (b :: bs) h' c ->
  is_genesis b = true \/ Hdr.PreviousHash (Header b) = genesisHash.
Proof.
  intros Hv. inversion_clear Hv as [|? ? h1 m1 ? ? Hval _]. unfold ValidateBlock in Hval.
  apply go_bind_ret_inv in Hval as (v & Hs & Hval). unfold validateBlockStructure in Hs.
  destruct (is_genesis b) eqn:Eg; [by left|right].
  unfold GetBlockByHash, Chain.GetBlock in Hs. simpl in Hs.
  destruct (decide (Hdr.PreviousHash (Header b) = genesisHash)) as [|Hne]; [done|exfalso].
  rewrite lookup_singleton_ne in Hs by (symmetry; exact Hne). cbn in Hs. injection Hs as <-.
  discriminate Hval.
Qed.

(** C16. How a step can change which chain is current, and under which key.  Either the
    key stays.  Or a block validated on the chain of the header that is taken up is
    applied to it, with the accounts of that validation, and the header's hash is the
    new key: the chain that was waited for (the block is the first received, whatever
    its hash), the current chain of the moment, or one rebuilt from validated blocks
    ([base]).  Or the answer to a request for the blocks
    of a candidate has arrived: the last by height has strictly more work than the
    current tip, they validate one after the other from the genesis block and its
    coins, and the candidate with them and with their accounts is current.  The calls
    of the test interface are the exception. *)
Theorem fork_choice_sound n n' : node_ok n -> step ex n n' ->
  currentChainTip n' = currentChainTip n
  \/ (exists header block c h m, base n header block c h
        /\ ValidateBlock ex block c h = Ret (mem n', Ok m)
        /\ currentChainTip n' = Hdr.GetHash header /\ current_chain n' = Some (ApplyBlock block m c))
  \/ (exists env hashes p tip0 msgs t first bs tip candidate c,
        LawfulEnv env /\ processing n = Some (AwaitCandidate hashes p tip0) /\ store n !! p = Some candidate
        /\ first :: bs ≡ₚ received env msgs /\ StronglySorted height_le (first :: bs)
        /\ (is_genesis first = true \/ Hdr.PreviousHash (Header first) = genesisHash)
        /\ current_chain n ≫= Tip = Some t /\ last (first :: bs) = Some tip
        /\ 0 < Work.CompareWork (Hdr.TotalWork (Header tip)) (Hdr.TotalWork (Header t))
        /\ validates (mem n ++ [genesis_account]) (SetAccountStates {[FirstUser := length (mem n)]} NewChain)
             (first :: bs) (mem n') c
        /\ currentChainTip n' = Hdr.GetHash (Header tip)
        /\ current_chain n' = Some (adopted (first :: bs) (AccountStates c) candidate))
  \/ direct n n'.
Proof.
  intros Hok Hs. destruct (node_step_ok n n' Hok Hs) as [_ [H1|[H1|[H1|H1]]]]; [by left| | |by right; right; right].
  - right; left. destruct H1 as (hd & b & c & h & Hb & m & Hv & Hk & Hc). by exists hd, b, c, h, m.
  - right; right; left. destruct H1 as (env & hashes & p & tip0 & msgs & Henv & Hp & bs & c & Hperm & Hsort & Hv
      & t & tip & c' & Ht & Hlast & Hw & Htip & Hst & Hc).
    destruct bs as [|first bs]; [done|].
    exists env, hashes, p, tip0, msgs, t, first, bs, tip, c', c. split_and!; try done. by eapply validates_from_genesis.
Qed.

(** C18. Processing a header ends, unless the hashes of the stored headers form a
    cycle: the walks over ancestors are the only unbounded loops. *)
Theorem ProcessHeader_terminates env header n :
  acyclic (headersMap n) -> acyclic (<[Hdr.GetHash header := header]> (headersMap n)) ->
  exists r, ProcessHeader ex env header n = Some r.
Proof.
  intros H1 H2. pose proof (ends_ProcessHeader env header n H1 H2) as He. unfold ends in He.
  destruct (ProcessHeader ex env header n); [eauto|done].
Qed.

(** The node waits for the block of a header that extends the current chain. *)
Lemma chain_extension_waits header p c n (hash := Hdr.GetHash header) :
  store n !! p = Some c -> GetBlock n hash = None ->
  exists n1, handleChainExtension ex header p (currentChainTip n) n = Some (Ret (n1, None))
    /\ processing n1 = Some (AwaitCurrent header hash p (currentChainTip n))
    /\ currentChainTip n1 = currentChainTip n
    /\ chains n1 = <[hash := p]> (delete (currentChainTip n) (chains n))
    /\ store n1 = <[p := AddHeader header c]> (store n) /\ mem n1 = mem n /\ submittedBlocks n1 = submittedBlocks n.
Proof.
  intros Hc Hb. unfold handleChainExtension. fold hash. erewrite M_bind_run by (by apply update_chain_eq).
  do 2 erewrite M_bind_run by reflexivity. unfold remove_orphan. erewrite M_bind_run by reflexivity. cbv beta.
  match goal with |- context [match orphanHeaders ?m !! _ with _ => _ end] => set (n2 := m) end.
  match goal with |- context [mbind _ _ ?m] => set (n3 := m) end.
  assert (chains n3 = chains n /\ currentChainTip n3 = currentChainTip n /\ GetBlock n3 hash = None
    /\ store n3 = <[p := AddHeader header c]> (store n) /\ mem n3 = mem n /\ submittedBlocks n3 = submittedBlocks n)
    as (H1 & H2 & H3 & H4 & H5 & H6).
  { unfold n3. destruct (orphanHeaders n2 !! _); [|done]. destruct (existsb _ _); [|done]. by destruct (remove_first _ _). }
  clearbody n3. do 2 erewrite M_bind_run by reflexivity. cbn [currentChainTip with_chains].
  rewrite H2, bool_decide_eq_true_2 by done. unfold handleCurrentChainExtension. erewrite M_bind_run by reflexivity.
  change (GetBlock (with_chains _ n3) hash) with (GetBlock n3 hash). rewrite H3. erewrite M_bind_run by reflexivity.
  eexists. split; [reflexivity|]. simpl. by rewrite H1, H4, H5, H6.
Qed.

Lemma extension_waits env header p n (hash := Hdr.GetHash header) :
  ValidateHeaderStructure header = Ok () -> checkHeaderExists n hash = false ->
  findParentChain n header = Some (p, currentChainTip n) -> GetBlock n hash = None ->
  exists n1, ProcessHeader ex env header n = Some (Ret (n1, None))
    /\ processing n1 = Some (AwaitCurrent header hash p (currentChainTip n))
    /\ currentChainTip n1 = currentChainTip n
    /\ chains n1 = <[hash := p]> (delete (currentChainTip n) (chains n))
    /\ (forall c, store n !! p = Some c -> store n1 !! p = Some (AddHeader header c))
    /\ mem n1 = mem n /\ submittedBlocks n1 = submittedBlocks n.
Proof.
  intros Hv Hx Hp Hb. assert (exists c, store n !! p = Some c) as [c Hc].
  { unfold findParentChain in Hp. destruct (chains n !! _) as [q|]; [|done]. simpl in Hp.
    destruct (store n !! q) as [c|] eqn:Eq; [|done]. simpl in Hp.
    destruct (Chain.GetHeader c _); [|done]. simpl in Hp. destruct (ValidateHeaderTotalWork _ _); [|done].
    injection Hp as <- _. eauto. }
  unfold ProcessHeader. rewrite Hv. erewrite M_bind_run by reflexivity. fold hash. rewrite Hx, Hp.
  destruct (chain_extension_waits header p c n Hc Hb) as (n1 & E & Hk & Ht & Hch & Hs & Hm & Hsb).
  exists n1. split_and!; try done. intros c' Hc'. rewrite Hs. simplify_eq. apply list_lookup_insert_eq. by eapply lookup_lt_Some.
Qed.

Lemma received_nil env msgs : LawfulEnv env -> concat msgs = [] -> received env msgs = [].
Proof.
  intros Henv Hm. unfold received, blocks_by_hash. rewrite Hm. simpl.
  pose proof (block_order_perm ∅) as Hp. rewrite map_to_list_empty in Hp.
  by apply Permutation_nil_r in Hp as ->.
Qed.

(** However many peers answer with a block, and whichever have nothing: the block is
    received once. *)
Lemma received_copies env b msgs k : LawfulEnv env -> concat msgs = replicate (S k) b -> received env msgs = [b].
Proof.
  intros Henv Hm. unfold received, blocks_by_hash. rewrite Hm.
  assert (foldl (fun m b => <[Blk.GetHash b := b]> m) ∅ (replicate (S k) b) = ({[Blk.GetHash b := b]} : gmap Hash32 Block)) as ->.
  { clear Hm. induction k as [|k IH]; [done|]. replace (S (S k)) with (S k + 1)%nat by lia.
    rewrite replicate_add, foldl_app, IH. simpl. apply insert_singleton_eq. }
  pose proof (block_order_perm {[Blk.GetHash b := b]}) as Hp. rewrite map_to_list_singleton in Hp.
  apply Permutation_singleton_r in Hp as ->. done.
Qed.

Lemma received_one env b : LawfulEnv env -> received env [[b]] = [b].
Proof. intros Henv. by apply (received_copies env b _ 0). Qed.

Lemma read_chain_eq p n c : store n !! p = Some c -> read_chain p n = Some (Ret (n, c)).
Proof. intros Hc. unfold read_chain, mbind, M_bind, get, of_go, chain_at. by rewrite Hc. Qed.

Lemma validate_block_eq b c n h r : ValidateBlock ex b c (mem n) = Ret (h, r) ->
  validate_block ex b c n = Some (Ret (with_mem h n, r)).
Proof. intros Hv. unfold validate_block, mbind, M_bind, get, of_go, modify. by rewrite Hv. Qed.

(** The other way: with the block, and the block valid on the current chain, the
    node appends it and its chain has a new tip. *)
Lemma resume_adopts env header p c b h newAccountStates n (hash := Hdr.GetHash header) tip msgs :
  LawfulEnv env -> received env msgs = [b] -> Header b = header -> store n !! p = Some c -> submittedBlocks n !! hash = None ->
  ValidateBlock ex b c (mem n) = Ret (h, Ok newAccountStates) ->
  (forall t, Tip c = Some t -> height t < height b) -> hash <> Hash32_zero ->
  exists n', resume ex env (AwaitCurrent header hash p tip) (Some msgs) n = Some (Ret (n', None))
    /\ currentChainTip n' = hash /\ GetCurrentChain n' = Some b /\ GetBlock n' hash = Some b
    /\ mem n' = h /\ AccountStates (GetChain n') = newAccountStates.
Proof.
  intros Henv Hr Hh Hc Hs Hv Ht Hz. unfold resume. erewrite M_bind_run by reflexivity. cbv beta iota.
  change (default [] (Some msgs)) with msgs. rewrite Hr. unfold extend_current.
  set (n0 := with_processing None n). erewrite M_bind_run by (by apply (read_chain_eq p n0 c)).
  erewrite M_bind_run by (by apply (validate_block_eq b c n0 h (Ok newAccountStates))). cbv beta iota.
  erewrite M_bind_run by (by apply (update_chain_eq _ _ _ c)). do 3 erewrite M_bind_run by reflexivity.
  eexists. split; [reflexivity|]. set (c' := ApplyBlock b newAccountStates c).
  match goal with |- currentChainTip ?m = _ /\ _ => set (n1 := m) end.
  assert (currentChainTip n1 = hash /\ chains n1 !! hash = Some p /\ store n1 !! p = Some c' /\ mem n1 = h /\ GetBlock n1 hash = Some b)
    as (H1 & H2 & H3 & H4 & H5).
  { unfold n1, move_tip. cbn [currentChainTip with_blocksMap with_store with_mem with_processing n0].
    destruct (negb _ && negb _) eqn:Eo; cbn [currentChainTip chains store Node.mem submittedBlocks blocksMap with_spawned with_tip
      with_chains with_blocksMap with_store with_mem with_processing n0]; split_and!; try done.
    2,5: apply list_lookup_insert_eq; by eapply lookup_lt_Some.
    - apply andb_true_iff in Eo as [_ Eo%negb_true_iff%bool_decide_eq_false]. by rewrite lookup_delete_ne, lookup_insert_eq.
    - unfold GetBlock, Node.GetBlock. cbn [submittedBlocks blocksMap with_spawned with_tip with_chains with_blocksMap with_store
        with_mem with_processing n0]. by rewrite Hs, lookup_insert_eq.
    - by rewrite lookup_insert_eq.
    - unfold GetBlock, Node.GetBlock. cbn [submittedBlocks blocksMap with_spawned with_tip with_chains with_blocksMap with_store
        with_mem with_processing n0]. by rewrite Hs, lookup_insert_eq. }
  assert (current_chain n1 = Some c') as Hcur by (unfold current_chain; rewrite H1, H2; exact H3).
  clearbody n1. unfold GetCurrentChain, GetChain. rewrite H1, Hcur, bool_decide_eq_false_2 by done.
  split_and!; try done. unfold GetTip, c', ApplyBlock, AddBlock, SetAccountStates. cbn [Tip AddHeader].
  destruct (Tip c) as [t|]; [|done]. specialize (Ht t eq_refl). unfold height in Ht.
  match goal with |- (if ?x then _ else _) = _ => replace x with true by (symmetry; by apply Z.ltb_lt) end. done.
Qed.

(** C19. A header that extends the current chain, whose block no peer delivers in
    time, leaves the node without a current chain: the chain has its new key and
    the tip the old one, so the node answers as if it had no blocks. *)
Theorem timeout_loses_current_chain env header p n (hash := Hdr.GetHash header) :
  LawfulEnv env -> ValidateHeaderStructure header = Ok () -> checkHeaderExists n hash = false ->
  findParentChain n header = Some (p, currentChainTip n) -> GetBlock n hash = None -> hash <> currentChainTip n ->
  exists n1 k n2,
    ProcessHeader ex env header n = Some (Ret (n1, None)) /\ processing n1 = Some k
    /\ resume ex env k None n1 = Some (Ret (n2, None))
    /\ currentChainTip n2 = currentChainTip n
    /\ GetCurrentChain n2 = None /\ GetChainHead n2 = no_head /\ GetChain n2 = NewChain
    /\ forall height, Node.GetBlockAtHeight n2 height = None.
Proof.
  intros Henv Hv Hx Hp Hb Hne. destruct (extension_waits env header p n Hv Hx Hp Hb) as (n1 & E1 & Hk & Ht & Hc & _).
  exists n1, (AwaitCurrent header hash p (currentChainTip n)), (with_processing None n1).
  assert (current_chain (with_processing None n1) = None) as Hcur.
  { unfold current_chain. simpl. by rewrite Hc, Ht, lookup_insert_ne, lookup_delete_eq by done. }
  split; [done|]. split; [done|]. split.
  { unfold resume. erewrite M_bind_run by reflexivity. by rewrite received_nil. }
  unfold GetCurrentChain, GetChainHead, GetChain, Node.GetBlockAtHeight. rewrite Hcur. simpl.
  split_and!; [done|by case_bool_decide..|]. intros. by case_bool_decide.
Qed.

(** C20. An answer without blocks to the request of a candidate ends the node: it
    indexes the last block of an empty slice. *)
Theorem empty_answer_panics env hashes p tip n c :
  LawfulEnv env -> store n !! p = Some c ->
  resume ex env (AwaitCandidate hashes p tip) (Some [[]]) n = Some (Panic IndexOutOfRange).
Proof.
  intros Henv Hc. unfold resume. erewrite M_bind_run by reflexivity. cbn [reorganise].
  rewrite received_nil by done. unfold genesis_states. erewrite M_bind_run by reflexivity.
  change (sort_by_height []) with (@nil Block). cbn [reorg_loop]. erewrite M_bind_run by reflexivity. cbv iota.
  match goal with |- (_ ≫= _) ?m = _ => set (n1 := m) end. assert (store n1 !! p = Some c) as Hc1 by done. clearbody n1.
  unfold mbind at 1, M_bind at 1. assert (forall fin, adopt [] fin p tip n1 = Some (Panic IndexOutOfRange)) as Ha; [|by rewrite Ha].
  intros fin. unfold adopt. erewrite M_bind_run by reflexivity.
  destruct (current_chain n1 ≫= Tip) as [t|]; [done|]. erewrite M_bind_run by reflexivity.
  assert (is_Some (store n1 !! p)) as Hs by (by eexists).
  edestruct (update_chain_total p) as (n2 & E2 & Hs2); [exact Hs|]. erewrite M_bind_run by exact E2.
  edestruct (update_chain_total p) as (n3 & E3 & Hs3); [exact Hs2|]. erewrite M_bind_run by exact E3.
  erewrite M_bind_run by reflexivity.
  edestruct (update_chain_total p) as (n4 & E4 & Hs4); [|erewrite M_bind_run by exact E4]; [exact Hs3|].
  do 2 erewrite M_bind_run by reflexivity.
  edestruct (update_chain_total p) as (n5 & E5 & Hs5); [|erewrite M_bind_run by exact E5]; [exact Hs4|]. done.
Qed.

(** A block fetched for a fork becomes the tip of the chain it is fetched for if
    it is higher, without validation and without its effect on the accounts. *)
Theorem fetched_block_moves_tip env header p n c b t :
  LawfulEnv env -> store n !! p = Some c -> Tip c = Some t -> height t < height b ->
  exists n' c', finish_fetch_fork env header p (Some [[b]]) n = Some (Ret (n', ()))
    /\ store n' !! p = Some c' /\ Tip c' = Some b /\ AccountStates c' = AccountStates c.
Proof.
  intros Henv Hc Ht Hlt. unfold finish_fetch_fork.
  rewrite received_one by done. erewrite M_bind_run by (by apply update_chain_eq). eexists _, (AddBlock b c). split; [reflexivity|].
  split; [simpl; apply list_lookup_insert_eq; by eapply lookup_lt_Some|]. split; [|done].
  unfold AddBlock. simpl. rewrite Ht. by rewrite (proj2 (Z.ltb_lt _ _)).
Qed.

(** *** A new node *)

Definition genesis_chain : Chain := AddBlock Work.GenesisBlock (AddHeader (Header Work.GenesisBlock) NewChain).

Lemma new_store : store NewNode !! 0%nat = Some genesis_chain.
Proof. reflexivity. Qed.

Lemma new_chains : chains NewNode = {[genesisHash := 0%nat]}.
Proof. reflexivity. Qed.

Lemma genesis_header hash :
  Chain.GetHeader genesis_chain hash = if decide (hash = genesisHash) then Some (Header Work.GenesisBlock) else None.
Proof.
  unfold genesis_chain, Chain.GetHeader, AddBlock, AddHeader, NewChain, genesisHash. cbn [Headers].
  generalize (Header Work.GenesisBlock). intros g. generalize (Hdr.GetHash g). intros k.
  case_decide as E; [rewrite E; apply lookup_insert_eq|].
  rewrite !lookup_insert_ne by (by apply not_eq_sym). by apply lookup_singleton_ne, not_eq_sym.
Qed.

(** A hash short of the work of the genesis block is another. *)
Lemma hash_not_genesis hash :
  Work.BlockHashMeetsDifficulty hash Config.GetTargetCompact = false -> hash <> genesisHash.
Proof.
  intros Hf E. pose proof Work.genesis_meets as Hm. unfold Blk.GetHash in Hm. fold genesisHash in Hm.
  rewrite <- E in Hm. change (Hdr.Bits (Header Work.GenesisBlock)) with Config.GetTargetCompact in Hm. congruence.
Qed.

Lemma GetBlock_added b c : Chain.GetBlock (AddBlock b c) (Hdr.GetHash (Header b)) = Some b.
Proof. apply lookup_insert_eq. Qed.

Lemma genesis_block : Chain.GetBlock genesis_chain genesisHash = Some Work.GenesisBlock.
Proof. exact (GetBlock_added Work.GenesisBlock (AddHeader (Header Work.GenesisBlock) NewChain)). Qed.

Lemma new_knows_genesis hash : hash <> genesisHash -> checkHeaderExists NewNode hash = false.
Proof.
  intros Hne. unfold checkHeaderExists. rewrite new_chains, map_to_list_singleton. cbn [existsb snd].
  unfold has_header. rewrite new_store, genesis_header, decide_False by done. done.
Qed.

Lemma not_stored n k b hash :
  submittedBlocks n = ∅ -> blocksMap n = {[k := b]} -> hash <> k -> GetBlock n hash = None.
Proof.
  intros Hs Hb Hne. unfold GetBlock. rewrite Hs, lookup_empty, Hb. by apply lookup_singleton_ne, not_eq_sym.
Qed.

Lemma wrong_work_no_parent_chain n header p c h :
  chains n !! Hdr.PreviousHash header = Some p -> store n !! p = Some c ->
  Chain.GetHeader c (Hdr.PreviousHash header) = Some h -> ValidateHeaderTotalWork header (Hdr.TotalWork h) <> Ok () ->
  findParentChain n header = None.
Proof.
  intros Hp Hc Hh Hw. unfold findParentChain. rewrite Hp. cbn [mbind option_bind]. rewrite Hc. cbn [mbind option_bind].
  rewrite Hh. cbn [mbind option_bind]. by destruct (ValidateHeaderTotalWork _ _) as [[]|].
Qed.

Lemma findParentChain_intro n header p c h :
  chains n !! Hdr.PreviousHash header = Some p -> store n !! p = Some c ->
  Chain.GetHeader c (Hdr.PreviousHash header) = Some h -> ValidateHeaderTotalWork header (Hdr.TotalWork h) = Ok () ->
  findParentChain n header = Some (p, Hdr.PreviousHash header).
Proof.
  intros Hp Hc Hh Hw. unfold findParentChain. rewrite Hp. cbn [mbind option_bind]. rewrite Hc. cbn [mbind option_bind].
  rewrite Hh. cbn [mbind option_bind]. by rewrite Hw.
Qed.

Lemma genesis_pointer : chains NewNode !! genesisHash = Some 0%nat.
Proof. rewrite new_chains. apply lookup_singleton_eq. Qed.

Lemma genesis_header_known : Chain.GetHeader genesis_chain genesisHash = Some (Header Work.GenesisBlock).
Proof. rewrite genesis_header. by apply decide_True. Qed.

Lemma new_parent_chain header :
  Hdr.PreviousHash header = genesisHash ->
  ValidateHeaderTotalWork header (Hdr.TotalWork (Header Work.GenesisBlock)) <> Ok () ->
  findParentChain NewNode header = None.
Proof.
  intros Hp. apply (wrong_work_no_parent_chain NewNode header 0 genesis_chain); [|exact new_store|]; rewrite Hp.
  - exact genesis_pointer.
  - exact genesis_header_known.
Qed.

Lemma new_parent_block env header :
  LawfulEnv env -> Hdr.PreviousHash header = genesisHash ->
  findParentBlock env NewNode header = Some (Work.GenesisBlock, 0%nat).
Proof.
  intros Henv Hp. unfold findParentBlock. rewrite Hp. pose proof (chain_order_perm (chains NewNode)) as Ho.
  rewrite new_chains, map_to_list_singleton in Ho. apply Permutation_singleton_r in Ho.
  rewrite new_chains, Ho. cbn [find_block]. rewrite new_store. cbn [mbind option_bind]. by rewrite genesis_block.
Qed.

(** On a new node a header on the genesis block is taken for an extension of the
    current chain whatever total work it claims: where the check of the total
    work fails, the fork path rebuilds the chain and goes on without the check. *)
Theorem wrong_work_extends_genesis env header :
  LawfulEnv env -> ValidateHeaderStructure header = Ok () -> Hdr.PreviousHash header = genesisHash ->
  Hdr.GetHash header <> genesisHash ->
  ValidateHeaderTotalWork header (Hdr.TotalWork (Header Work.GenesisBlock)) <> Ok () ->
  exists n1 p, ProcessHeader ex env header NewNode = Some (Ret (n1, None))
    /\ processing n1 = Some (AwaitCurrent header (Hdr.GetHash header) p genesisHash).
Proof.
  intros Henv Hv Hprev Hne Hw. unfold ProcessHeader. rewrite Hv. erewrite M_bind_run by reflexivity.
  rewrite new_knows_genesis, new_parent_chain, new_parent_block by done.
  set (n1 := with_chains (<[genesisHash := 1%nat]> (chains NewNode)) (with_store [genesis_chain; NewChain] NewNode)).
  assert (handleForkCreation ex header Work.GenesisBlock 0 NewNode = Some (Ret (n1, Ok (Some (1%nat, genesisHash))))) as Hf.
  { unfold handleForkCreation. erewrite M_bind_run by reflexivity. fold genesisHash.
    assert (fork_walk (walk_fuel NewNode) NewNode genesisHash [] [] = Some ([], [])) as ->.
    { unfold walk_fuel. cbn [fork_walk]. by rewrite bool_decide_eq_true_2. }
    do 2 (erewrite M_bind_run by reflexivity; cbv beta iota). do 2 erewrite M_bind_run by reflexivity. reflexivity. }
  erewrite M_bind_run by exact Hf. cbv iota beta.
  pose proof (not_stored n1 genesisHash Work.GenesisBlock (Hdr.GetHash header) eq_refl eq_refl Hne) as Hb.
  destruct (chain_extension_waits header 1 NewChain n1 eq_refl Hb) as (n2 & E2 & Hk & _).
  change (currentChainTip n1) with genesisHash in E2, Hk. exists n2, 1%nat. split; [exact E2 | exact Hk].
Qed.

(** The genesis coins are on no account of a new node's chain, while a candidate
    is validated with them: every transfer of their owner is refused before the
    first reorganisation. *)
Theorem fresh_node_has_no_accounts :
  exists c, current_chain NewNode = Some c /\ AccountStates c = ∅ /\ Tip c = Some Work.GenesisBlock.
Proof.
  eexists. unfold current_chain, NewNode. cbn [chains currentChainTip store]. rewrite lookup_singleton_eq. simpl.
  split_and!; reflexivity.
Qed.

End Process.
End NodeSpec.
