(* ===== verification/MgLexer.v ===== *)
(** * Tokens and lexer of Marigold (src/marigold/tokens.go, lexer.go)

    The lexer reads the text once, from left to right; the state is what is left
    of the text, and the row and column of the next character.  [Lex_total]
    shows that it always ends, [Lex_tokens] that a list of tokens written out
    with a space after each is read back. *)

From S2P Require Import Prelude GoLib.

Module Lexer.

(** ** tokens.go *)

Inductive TokenType :=
  | LParen | RParen | LSquare | RSquare | LBrace | RBrace | Comma | Dot | Pipe | Colon | Semicolon
  | Assign | Equal | NotEqual | Not | LessThan | LessEqual | GreaterThan | GreaterEqual
  | Divide | Modulo | Plus | Minus | Multiply | Exponent | LogicalAnd | LogicalOr
  | Identifier | StringLiteral | IntLiteral | FloatLiteral | BoolLiteral
  | TString (* String *) | Int | Float | Bool
  | While | Return | Define | Break | Continue | If | Else | Len | Emit | Stop | Assert | Map
  | TFunction | Eof.

#[export] Instance TokenType_eq_dec : EqDecision TokenType.
Proof. solve_decision. Defined.

Record Token := MkToken {
  Type_ : TokenType;
  Value : string;
  Col : Z;
  Row : Z;
  Filename : string
}.

#[export] Instance Token_eq_dec : EqDecision Token.
Proof. solve_decision. Defined.

Definition NewToken (value : string) (tokenType : TokenType) (col row : Z) (filename : string) : Token :=
  MkToken tokenType value col row filename.

Definition TokenTypes : list (string * TokenType) :=
  [("(", LParen); (")", RParen); ("[", LSquare); ("]", RSquare); ("{", LBrace); ("}", RBrace); (",", Comma);
   (".", Dot); ("|", Pipe); (":", Colon); (";", Semicolon); ("=", Assign); ("==", Equal); ("!=", NotEqual);
   ("!", Not); ("<", LessThan); ("<=", LessEqual); (">", GreaterThan); (">=", GreaterEqual); ("/", Divide);
   ("%", Modulo); ("+", Plus); ("-", Minus); ("*", Multiply); ("^", Exponent); ("&&", LogicalAnd);
   ("||", LogicalOr); ("string", TString); ("int", Int); ("float", Float); ("bool", Bool); ("while", While);
   ("return", Return); ("define", Define); ("break", Break); ("continue", Continue); ("if", If);
   ("else", Else); ("len", Len); ("emit", Emit); ("stop", Stop); ("assert", Assert); ("map", Map);
   ("true", BoolLiteral); ("false", BoolLiteral)]%string.

Definition TokenTypeMap : gmap string TokenType := list_to_map TokenTypes.

Definition IsValidReturnType (tt : option TokenType) : bool :=
  match tt with Some TString | Some Int | Some Float | Some Bool => true | _ => false end.

(** ** lexer.go *)

Inductive lex_error := ErrInvalidSourceCode | ErrUnterminatedStringLiteral.

(** Row and column of the next character. *)
Definition position : Type := Z * Z.

(** [increment] on the character at the cursor. *)
Definition increment (c : ascii) (p : position) : position :=
  if Ascii.eqb c "010" then (u64 (p.1 + 1), 0) else (p.1, u64 (p.2 + 1)).

Definition filename : string := "dummy".

Definition token_at (value : string) (tokenType : TokenType) (p : position) : Token :=
  NewToken value tokenType p.2 p.1 filename.

(** Only called with values of the map. *)
Definition makeToken (value : string) (p : position) : Token :=
  token_at value (default Eof (TokenTypeMap !! value)) p.

Definition is_whitespace (c : ascii) : bool :=
  let v := byte_val c in (v =? 32) || (v =? 9) || (v =? 13) || (v =? 10).

Definition is_one_of (chars : string) (c : ascii) : bool := existsb (Ascii.eqb c) (bytes_of_string chars).

Definition is_digit (c : ascii) : bool := (48 <=? byte_val c) && (byte_val c <=? 57).

Definition is_letter (c : ascii) : bool :=
  let v := byte_val c in
  (97 <=? v) && (v <=? 122) || (65 <=? v) && (v <=? 90) || (v =? 95) || (v =? 64).

Definition is_ident_char (c : ascii) : bool := is_letter c || is_digit c.

(** [for cursor < len(text) && p(text[cursor]) { increment() }]: what was read,
    what is left, and the position there. *)
Fixpoint span (p : ascii -> bool) (text : bytes) (pos : position) : bytes * bytes * position :=
  match text with
  | c :: r =>
      if p c then let '(taken, rest, pos') := span p r (increment c pos) in (c :: taken, rest, pos')
      else ([], text, pos)
  | [] => ([], [], pos)
  end.

Definition quote : ascii := "034".
Definition backslash : ascii := "\".

Definition escape (c : ascii) : bytes :=
  if Ascii.eqb c quote then [quote]
  else if Ascii.eqb c backslash then [backslash]
  else if Ascii.eqb c "n" then ["010"%char]
  else if Ascii.eqb c "t" then ["009"%char]
  else if Ascii.eqb c "r" then ["013"%char]
  else [backslash; c].

(** The loop over a string literal; what is left begins with the closing quote. *)
Fixpoint string_content (text : bytes) (pos : position) : option (bytes * bytes * position) :=
  match text with
  | [] => None
  | c :: r =>
      if Ascii.eqb c quote then Some ([], text, pos)
      else match r with
           | e :: r' =>
               if Ascii.eqb c backslash then
                 x ← string_content r' (increment e (increment c pos));
                 Some (escape e ++ x.1.1, x.1.2, x.2)
               else x ← string_content r (increment c pos); Some (c :: x.1.1, x.1.2, x.2)
           | [] => x ← string_content r (increment c pos); Some (c :: x.1.1, x.1.2, x.2)
           end
  end.

Definition is_blank (c : ascii) : bool := Ascii.eqb c " " || Ascii.eqb c "009".

(** A type keyword before a parenthesis is a function name. *)
Definition word_type (buffer : string) (rest : bytes) : TokenType :=
  if String.eqb buffer "string" || String.eqb buffer "int" || String.eqb buffer "float" then
    match (span is_blank rest (0, 0)).1.2 with
    | c :: _ => if Ascii.eqb c "(" then Identifier else default Identifier (TokenTypeMap !! buffer)
    | [] => default Identifier (TokenTypeMap !! buffer)
    end
  else default Identifier (TokenTypeMap !! buffer).

(** What one round of the loop reads: tokens, what is left, and the position
    there. *)
Definition step_result : Type := list Token * bytes * position.

Definition two_or_one (second : ascii) (c : ascii) (r : bytes) (pos : position) : step_result :=
  match r with
  | c2 :: r' =>
      if Ascii.eqb c2 second
      then ([makeToken (string_of_bytes [c; c2]) pos], r', increment c pos)
      else ([makeToken (string_of_bytes [c]) pos], r, increment c pos)
  | [] => ([makeToken (string_of_bytes [c]) pos], r, increment c pos)
  end.

Definition is_eq (c : ascii) (r : bytes) : bool := match r with c2 :: _ => Ascii.eqb c2 c | [] => false end.

Definition lex_number (text : bytes) (pos : position) : step_result :=
  let '(whole, rest, pos') := span is_digit text pos in
  match rest with
  | dot :: ((d :: _) as r) =>
      if Ascii.eqb dot "." && is_digit d then
        let '(fraction, rest', pos'') := span is_digit r (increment dot pos') in
        ([token_at (string_of_bytes (whole ++ dot :: fraction)) FloatLiteral pos], rest', pos'')
      else ([token_at (string_of_bytes whole) IntLiteral pos], rest, pos')
  | _ => ([token_at (string_of_bytes whole) IntLiteral pos], rest, pos')
  end.

Definition lex_word (text : bytes) (pos : position) : step_result :=
  let '(buffer, rest, pos') := span is_ident_char text pos in
  ([token_at (string_of_bytes buffer) (word_type (string_of_bytes buffer) rest) pos], rest, pos').

(** One round, at the character [c] with [r] after it. *)
Definition lex_step (c : ascii) (r : bytes) (pos : position) : go (res lex_error step_result) :=
  if is_whitespace c then Ret (Ok ([], r, increment c pos))
  else if is_one_of "()[]{},.:;+-*%^" c then Ret (Ok ([makeToken (string_of_bytes [c]) pos], r, increment c pos))
  else if is_one_of "=!<>" c then Ret (Ok (two_or_one "=" c r pos))
  else if Ascii.eqb c "&" then
    if is_eq "&" r then Ret (Ok (two_or_one "&" c r pos)) else Panic (ExplicitPanic "unexpected character '&'")
  else if Ascii.eqb c "|" then Ret (Ok (two_or_one "|" c r pos))
  else if Ascii.eqb c "/" then
    if is_eq "/" r then
      let '(_, rest, pos') := span (fun c => negb (Ascii.eqb c "010")) (c :: r) pos in Ret (Ok ([], rest, pos'))
    else Ret (Ok ([makeToken (string_of_bytes [c]) pos], r, increment c pos))
  else if Ascii.eqb c quote then
    match string_content r (increment c pos) with
    | Some (content, q :: rest, pos') =>
        Ret (Ok ([token_at (string_of_bytes content) StringLiteral pos], rest, increment q pos'))
    | _ => Ret (Err ErrUnterminatedStringLiteral)
    end
  else if is_digit c then Ret (Ok (lex_number (c :: r) pos))
  else if is_letter c then Ret (Ok (lex_word (c :: r) pos))
  else Panic (ExplicitPanic "Unexpected character").

Fixpoint lex_loop (fuel : nat) (text : bytes) (pos : position) (tokens : list Token)
    : option (go (list Token * option lex_error)) :=
  match fuel with
  | O => None
  | S f =>
      match text with
      | [] => Some (Ret (tokens, None))
      | c :: r =>
          match lex_step c r pos with
          | Panic k => Some (Panic k)
          | Ret (Err e) => Some (Ret (tokens, Some e))
          | Ret (Ok (new, rest, pos')) => lex_loop f rest pos' (tokens ++ new)
          end
      end
  end.

(** Every round reads a character. *)
Definition Lex (text : string) : option (go (list Token * option lex_error)) :=
  match bytes_of_string text with
  | [] => Some (Ret ([], Some ErrInvalidSourceCode))
  | b => lex_loop (S (length b)) b (0, 0) []
  end.

(** ** The lexer ends *)

Lemma span_app p text pos : (span p text pos).1.1 ++ (span p text pos).1.2 = text.
Proof.
  revert pos. induction text as [|c r IH]; intros pos; [done|]. simpl. destruct (p c); [|done].
  specialize (IH (increment c pos)). destruct (span p r (increment c pos)) as [[taken rest] pos']. simpl in *. by rewrite IH.
Qed.

Lemma span_suffix p text pos : (length (span p text pos).1.2 <= length text)%nat.
Proof. rewrite <- (span_app p text pos) at 2. rewrite length_app. lia. Qed.

Lemma span_first p c r pos : p c = true -> (length (span p (c :: r) pos).1.2 <= length r)%nat.
Proof.
  intros E. simpl. rewrite E. pose proof (span_suffix p r (increment c pos)).
  by destruct (span p r (increment c pos)) as [[taken rest] pos'].
Qed.

Lemma string_content_suffix n text pos content rest pos' : (length text <= n)%nat ->
  string_content text pos = Some (content, rest, pos') -> (length rest <= length text)%nat.
Proof.
  revert text pos content rest pos'. induction n as [|n IH]; intros [|c r] pos content rest pos' Hn E; simpl in Hn;
    [done|lia|done|].
  cbn [string_content] in E. destruct (Ascii.eqb c quote); [injection E as <- <- <-; done|].
  destruct r as [|e r']; [simpl in E; done|]. destruct (Ascii.eqb c backslash).
  - destruct (string_content r' _) as [[[content' rest'] pos'']|] eqn:E1; [|done]. injection E as <- <- <-.
    apply IH in E1; simpl in *; lia.
  - destruct (string_content (e :: r') _) as [[[content' rest'] pos'']|] eqn:E1; [|done]. injection E as <- <- <-.
    apply IH in E1; simpl in *; lia.
Qed.

Lemma lex_number_suffix c r pos : is_digit c = true -> (length (lex_number (c :: r) pos).1.2 <= length r)%nat.
Proof.
  intros E. unfold lex_number. pose proof (span_first is_digit c r pos E) as Hs.
  destruct (span is_digit (c :: r) pos) as [[whole rest] pos']. cbn [fst snd] in Hs.
  destruct rest as [|dot [|d r']]; try done. destruct (Ascii.eqb dot "." && is_digit d); [|done].
  pose proof (span_suffix is_digit (d :: r') (increment dot pos')) as Hf.
  destruct (span is_digit (d :: r') (increment dot pos')) as [[fraction rest'] pos'']. simpl in *. lia.
Qed.

Lemma two_or_one_suffix second c r pos : (length (two_or_one second c r pos).1.2 <= length r)%nat.
Proof. unfold two_or_one. destruct r as [|c2 r']; [done|]. destruct (Ascii.eqb c2 second); simpl; lia. Qed.

Lemma lex_word_suffix c r pos : is_letter c = true -> (length (lex_word (c :: r) pos).1.2 <= length r)%nat.
Proof.
  intros E. unfold lex_word. pose proof (span_first is_ident_char c r pos) as Hs.
  unfold is_ident_char at 1 in Hs. rewrite E in Hs. specialize (Hs eq_refl).
  by destruct (span is_ident_char (c :: r) pos) as [[buffer rest] pos'].
Qed.

Lemma lex_comment_suffix c r pos : c = "/"%char ->
  (length (span (fun c => negb (Ascii.eqb c "010")) (c :: r) pos).1.2 <= length r)%nat.
Proof. intros ->. by apply span_first. Qed.

Lemma ok_suffix (x : step_result) n new rest pos' :
  (length x.1.2 <= n)%nat -> Ret (Ok x) = Ret (Ok (new, rest, pos')) :> go (res lex_error _) -> (length rest <= n)%nat.
Proof. by intros H [= ->]. Qed.

Lemma lex_step_suffix c r pos new rest pos' :
  lex_step c r pos = Ret (Ok (new, rest, pos')) -> (length rest <= length r)%nat.
Proof.
  unfold lex_step. destruct (is_whitespace c); [by apply ok_suffix|].
  destruct (is_one_of "()[]{},.:;+-*%^" c); [by apply ok_suffix|].
  destruct (is_one_of "=!<>" c); [apply ok_suffix, two_or_one_suffix|].
  destruct (Ascii.eqb c "&"); [destruct (is_eq "&" r); [apply ok_suffix, two_or_one_suffix|done]|].
  destruct (Ascii.eqb c "|"); [apply ok_suffix, two_or_one_suffix|].
  destruct (Ascii.eqb c "/") eqn:Es.
  { destruct (is_eq "/" r); [|by apply ok_suffix]. apply Ascii.eqb_eq in Es.
    pose proof (lex_comment_suffix c r pos Es) as Hs. destruct (span _ (c :: r) pos) as [[taken rest'] p2].
    by apply (ok_suffix ([], rest', p2)). }
  destruct (Ascii.eqb c quote).
  { destruct (string_content r _) as [[[content [|q rest']] p2]|] eqn:E; [done| |done]. apply string_content_suffix with (n := length r) in E; [|done].
    apply ok_suffix. simpl in *. lia. }
  destruct (is_digit c) eqn:Ed; [by apply ok_suffix, lex_number_suffix|].
  destruct (is_letter c) eqn:El; [by apply ok_suffix, lex_word_suffix|done].
Qed.

Ltac lex_cases :=
  repeat match goal with
         | |- context [if ?b then _ else _] => destruct b
         | |- context [span ?p ?t ?q] => destruct (span p t q) as [[? ?] ?]
         | |- context [string_content ?t ?q] => destruct (string_content t q) as [[[? [|? ?]] ?]|]
         end.

Lemma lex_step_panics c r pos k : lex_step c r pos = Panic k ->
  k = ExplicitPanic "unexpected character '&'" \/ k = ExplicitPanic "Unexpected character".
Proof. unfold lex_step. lex_cases; intros [= <-]; auto. Qed.

Lemma lex_step_errors c r pos e : lex_step c r pos = Ret (Err e) -> e = ErrUnterminatedStringLiteral.
Proof. unfold lex_step. lex_cases; by intros [= <-]. Qed.

Lemma lex_loop_outcome fuel text pos tokens : (length text < fuel)%nat ->
  exists x, lex_loop fuel text pos tokens = Some x /\ match x with
    | Panic k => k = ExplicitPanic "unexpected character '&'" \/ k = ExplicitPanic "Unexpected character"
    | Ret (_, Some e) => e = ErrUnterminatedStringLiteral
    | Ret (_, None) => True
    end.
Proof.
  revert text pos tokens. induction fuel as [|f IH]; intros text pos tokens Hf; [lia|]. simpl.
  destruct text as [|c r]; [by eexists|]. destruct (lex_step c r pos) as [[[[new rest] pos']|e]|k] eqn:E.
  - apply IH. apply lex_step_suffix in E. simpl in Hf. lia.
  - eexists. split; [done|]. by eapply lex_step_errors.
  - eexists. split; [done|]. by eapply lex_step_panics.
Qed.

Lemma lex_loop_more f k text pos tokens x :
  lex_loop f text pos tokens = Some x -> lex_loop (f + k) text pos tokens = Some x.
Proof.
  revert text pos tokens. induction f as [|f IH]; intros text pos tokens E; [done|]. simpl in *.
  destruct text as [|c r]; [done|]. destruct (lex_step c r pos) as [[[[new rest] pos']|e]|m]; [|done..]. by apply IH.
Qed.

(** The loop with the fuel [Lex] gives it. *)
Definition lex_from (text : bytes) (pos : position) (tokens : list Token) : option (go (list Token * option lex_error)) :=
  lex_loop (S (length text)) text pos tokens.

Lemma lex_from_step c r pos tokens new rest pos' :
  lex_step c r pos = Ret (Ok (new, rest, pos')) -> lex_from (c :: r) pos tokens = lex_from rest pos' (tokens ++ new).
Proof.
  intros E. unfold lex_from at 1. cbn [lex_loop]. rewrite E. apply lex_step_suffix in E.
  destruct (lex_loop_outcome (S (length rest)) rest pos' (tokens ++ new)) as (x & Hx & _); [lia|].
  unfold lex_from. rewrite Hx. apply (lex_loop_more _ (length r - length rest)) in Hx.
  rewrite <- Hx. f_equal. simpl. lia.
Qed.

(** The lexer ends for every text; it has the empty text and an open string for
    errors, and panics only on a character that begins no token. *)
Theorem Lex_total text :
  exists x, Lex text = Some x /\ match x with
    | Panic k => k = ExplicitPanic "unexpected character '&'" \/ k = ExplicitPanic "Unexpected character"
    | Ret (_, Some ErrInvalidSourceCode) => text = ""%string
    | Ret _ => True
    end.
Proof.
  unfold Lex. destruct (bytes_of_string text) as [|c r] eqn:E.
  { eexists. split; [done|]. by destruct text. }
  pose proof (lex_loop_outcome (S (length (c :: r))) (c :: r) (0, 0) [] ltac:(lia)) as (x & Hx & Ho).
  exists x. split; [exact Hx|]. by destruct x as [[tokens [[|]|]]|k].
Qed.

(** ** Written tokens are read back *)

Definition is_symbol (v : string) : bool :=
  existsb (String.eqb v) (map fst (take 27 TokenTypes)).

Definition is_word (v : bytes) : bool :=
  match v with c :: r => is_letter c && forallb is_ident_char r | [] => false end.

Definition is_number (v : bytes) : bool := bool_decide (v <> []) && forallb is_digit v.

Definition is_conversion (v : string) : bool :=
  String.eqb v "string" || String.eqb v "int" || String.eqb v "float".

(** The type a word gets, before a parenthesis or not. *)
Definition word_kind (v : string) (call : bool) : TokenType :=
  if is_conversion v && call then Identifier else default Identifier (TokenTypeMap !! v).

Definition is_paren (next : option Token) : bool :=
  match next with Some t => bool_decide (Type_ t = LParen) | None => false end.

(** A fraction: digits, a dot, digits. *)
Fixpoint is_fraction (v : bytes) : bool :=
  match v with
  | c :: r => is_digit c && (is_fraction r || match r with
                                              | dot :: f => Ascii.eqb dot "." && is_number f
                                              | [] => false
                                              end)
  | [] => false
  end.

(** A token the lexer can give, with the token after it. *)
Definition readable (t : Token) (next : option Token) : bool :=
  let v := bytes_of_string (Value t) in
  match Type_ t with
  | StringLiteral => true
  | IntLiteral => is_number v
  | FloatLiteral => is_fraction v
  | ty => is_symbol (Value t) && bool_decide (TokenTypeMap !! Value t = Some ty)
          || is_word v && bool_decide (ty = word_kind (Value t) (is_paren next))
  end.

Fixpoint all_readable (ts : list Token) : bool :=
  match ts with [] => true | t :: r => readable t (head r) && all_readable r end.

Definition quoted (v : bytes) : bytes :=
  concat (map (fun c => if Ascii.eqb c quote || Ascii.eqb c backslash then [backslash; c] else [c]) v).

Definition token_text (t : Token) : bytes :=
  match Type_ t with
  | StringLiteral => quote :: quoted (bytes_of_string (Value t)) ++ [quote]
  | _ => bytes_of_string (Value t)
  end.

(** A space after every token. *)
Definition written (ts : list Token) : bytes := concat (map (fun t => token_text t ++ [" "%char]) ts).

(** A token without its position. *)
Definition kind (t : Token) : TokenType * string := (Type_ t, Value t).

Lemma span_all p v rest pos : forallb p v = true -> match rest with c :: _ => p c = false | [] => True end ->
  exists pos', span p (v ++ rest) pos = (v, rest, pos').
Proof.
  revert pos. induction v as [|c v IH]; intros pos Hv Hr; simpl in *.
  - destruct rest as [|c r]; simpl; [by eexists|]. rewrite Hr. by eexists.
  - apply andb_true_iff in Hv as [-> Hv]. destruct (IH (increment c pos) Hv Hr) as [pos' E]. rewrite E. by eexists.
Qed.

Lemma string_content_quoted v rest pos :
  exists pos', string_content (quoted v ++ quote :: rest) pos = Some (v, quote :: rest, pos').
Proof.
  revert pos. induction v as [|c v IH]; intros pos; [by eexists|].
  unfold quoted. cbn [map concat]. fold (quoted v).
  destruct (Ascii.eqb c quote || Ascii.eqb c backslash) eqn:E.
  - cbn [app string_content]. change (Ascii.eqb backslash quote) with false. change (Ascii.eqb backslash backslash) with true.
    cbv iota. destruct (IH (increment c (increment backslash pos))) as [pos' ->]. eexists.
    cbn [mbind option_bind fst snd]. f_equal. f_equal. f_equal.
    apply orb_true_iff in E as [E|E]; apply Ascii.eqb_eq in E as ->; reflexivity.
  - apply orb_false_iff in E as [E1 E2]. cbn [app string_content]. rewrite E1, E2.
    destruct (IH (increment c pos)) as [pos' E]. exists pos'.
    destruct (quoted v ++ quote :: rest) eqn:Eq; [by destruct (quoted v)|]. by rewrite E.
Qed.

Ltac ascii_cases c := destruct c as [[] [] [] [] [] [] [] []].

Lemma letter_step c r pos : is_letter c = true -> lex_step c r pos = Ret (Ok (lex_word (c :: r) pos)).
Proof. ascii_cases c; intros H; first [discriminate H | reflexivity]. Qed.

Lemma digit_step c r pos : is_digit c = true -> lex_step c r pos = Ret (Ok (lex_number (c :: r) pos)).
Proof. ascii_cases c; intros H; first [discriminate H | reflexivity]. Qed.

Lemma letter_ident c : is_letter c = true -> is_ident_char c = true.
Proof. intros H. unfold is_ident_char. by rewrite H. Qed.

Lemma letter_plain c : is_letter c = true -> c <> "("%char /\ is_blank c = false.
Proof. ascii_cases c; intros H; first [discriminate H | by split]. Qed.

Lemma digit_char_plain c : is_digit c = true -> c <> "("%char /\ is_blank c = false.
Proof. ascii_cases c; intros H; first [discriminate H | by split]. Qed.

(** What a round of the loop makes of the text of a token. *)
Definition reads (text rest : bytes) (k : TokenType * string) : Prop :=
  exists c r, text = c :: r /\ forall pos, exists t pos', lex_step c r pos = Ret (Ok ([t], rest, pos')) /\ kind t = k.

Lemma symbol_reads v ty rest : is_symbol v = true -> TokenTypeMap !! v = Some ty ->
  reads (bytes_of_string v ++ " "%char :: rest) (" "%char :: rest) (ty, v).
Proof.
  intros Hs. unfold is_symbol in Hs. apply existsb_exists in Hs as (v' & Hin & Hv). apply String.eqb_eq in Hv as <-.
  cbn [map fst take TokenTypes] in Hin.
  repeat (destruct Hin as [<-|Hin]; [intros E; vm_compute in E; injection E as <-; eexists _, _; split; [reflexivity|];
    intros pos; eexists _, _; split; reflexivity|]). destruct Hin.
Qed.

Lemma word_type_kind v rest next : is_blank next = false ->
  word_type v (" "%char :: next :: rest) = word_kind v (Ascii.eqb next "(").
Proof.
  intros Hn. unfold word_type, word_kind, is_conversion. destruct (_ || _); [|done]. cbn [span].
  change (is_blank " ") with true. cbv iota. rewrite Hn. cbn. by destruct (Ascii.eqb next "(").
Qed.

Lemma word_type_end v : word_type v [" "%char] = word_kind v false.
Proof. unfold word_type, word_kind, is_conversion. by destruct (_ || _). Qed.

Lemma word_reads v rest : is_word v = true ->
  reads (v ++ " "%char :: rest) (" "%char :: rest) (word_type (string_of_bytes v) (" "%char :: rest), string_of_bytes v).
Proof.
  intros Hw. destruct v as [|c w]; [done|].
  simpl in Hw. apply andb_true_iff in Hw as [Hc Hw]. exists c, (w ++ " "%char :: rest). split; [reflexivity|]. intros pos.
  rewrite letter_step by done. unfold lex_word. change (c :: w ++ " "%char :: rest) with ((c :: w) ++ " "%char :: rest).
  destruct (span_all is_ident_char (c :: w) (" "%char :: rest) pos) as [pos' ->]; [simpl; by rewrite letter_ident|done|].
  by eexists _, _.
Qed.

Lemma number_reads v rest : is_number v = true ->
  reads (v ++ " "%char :: rest) (" "%char :: rest) (IntLiteral, string_of_bytes v).
Proof.
  intros Hw. destruct v as [|c w]; [done|].
  unfold is_number in Hw. apply andb_true_iff in Hw as [_ Hw]. simpl in Hw. apply andb_true_iff in Hw as [Hc Hw].
  exists c, (w ++ " "%char :: rest). split; [reflexivity|]. intros pos. rewrite digit_step by done. unfold lex_number.
  change (c :: w ++ " "%char :: rest) with ((c :: w) ++ " "%char :: rest).
  destruct (span_all is_digit (c :: w) (" "%char :: rest) pos) as [pos' ->]; [simpl; by rewrite Hc|done|].
  destruct rest; by eexists _, _.
Qed.

Lemma is_fraction_split v : is_fraction v = true ->
  exists a b, v = a ++ "."%char :: b /\ is_number a = true /\ is_number b = true.
Proof.
  induction v as [|c r IH]; [done|]. simpl. intros [Hc H]%andb_true_iff. apply orb_true_iff in H as [H|H].
  - destruct (IH H) as (a & b & -> & Ha & Hb). exists (c :: a), b. split_and!; [done| |done].
    unfold is_number in *. apply andb_true_iff in Ha as [_ Ha]. simpl. by rewrite Hc.
  - destruct r as [|dot f]; [done|]. apply andb_true_iff in H as [Hd Hf]. apply Ascii.eqb_eq in Hd as ->.
    exists [c], f. split_and!; [done| |done]. unfold is_number. simpl. by rewrite Hc.
Qed.

Lemma fraction_reads v rest : is_fraction v = true ->
  reads (v ++ " "%char :: rest) (" "%char :: rest) (FloatLiteral, string_of_bytes v).
Proof.
  intros Hw. apply is_fraction_split in Hw as (a & b & -> & Ha & Hb).
  unfold is_number in *. apply andb_true_iff in Ha as [Hne Ha], Hb as [Hnb Hb].
  destruct a as [|c a]; [done|]. destruct b as [|d b]; [done|]. exists c, ((a ++ "."%char :: d :: b) ++ " "%char :: rest). split; [reflexivity|]. intros pos.
  pose proof Ha as Ha'. pose proof Hb as Hb'. simpl in Ha', Hb'. apply andb_true_iff in Ha' as [Hc _], Hb' as [Hd _].
  rewrite digit_step by done. unfold lex_number.
  replace (c :: (a ++ "."%char :: d :: b) ++ " "%char :: rest)
    with ((c :: a) ++ "."%char :: (d :: b) ++ " "%char :: rest) by (simpl; by rewrite <- app_assoc).
  destruct (span_all is_digit (c :: a) ("."%char :: (d :: b) ++ " "%char :: rest) pos Ha eq_refl) as [pos' ->].
  cbn [app]. rewrite Hd. cbn [Ascii.eqb Bool.eqb andb].
  destruct (span_all is_digit (d :: b) (" "%char :: rest) (increment "." pos') Hb eq_refl) as [pos'' E].
  cbn [app] in E. rewrite E. by eexists _, _.
Qed.

Lemma string_reads v rest :
  reads (quote :: quoted v ++ [quote] ++ " "%char :: rest) (" "%char :: rest) (StringLiteral, string_of_bytes v).
Proof.
  eexists _, _. split; [reflexivity|]. intros pos.
  destruct (string_content_quoted v (" "%char :: rest) (increment quote pos)) as [pos' E].
  change (lex_step quote ?r pos) with
    (match string_content r (increment quote pos) with
     | Some (content, q :: rest, pos') =>
         Ret (Ok ([token_at (string_of_bytes content) StringLiteral pos], rest, increment q pos'))
     | _ => Ret (Err ErrUnterminatedStringLiteral)
     end). cbn [app]. rewrite E. by eexists _, _.
Qed.

(** The five shapes of readable tokens. *)
Lemma readable_cases ty v col row fn next (t := MkToken ty v col row fn) : readable t next = true ->
  ty = IntLiteral /\ is_number (bytes_of_string v) = true
  \/ ty = FloatLiteral /\ is_fraction (bytes_of_string v) = true
  \/ ty = StringLiteral
  \/ token_text t = bytes_of_string v /\
     (is_symbol v = true /\ TokenTypeMap !! v = Some ty
      \/ is_word (bytes_of_string v) = true /\ ty = word_kind v (is_paren next)).
Proof.
  unfold readable, t. cbn [Type_ Value]. intros H.
  destruct ty; auto; right; right; right; (split; [done|]); apply orb_true_iff in H as [H|H];
    apply andb_true_iff in H as [H1 H2%bool_decide_eq_true]; auto.
Qed.

(** The text of a readable token begins with a character that is no blank, and
    with a parenthesis only if it is one. *)
Lemma readable_first t next : readable t next = true ->
  exists c r, token_text t = c :: r /\ is_blank c = false /\ Ascii.eqb c "(" = bool_decide (Type_ t = LParen).
Proof.
  destruct t as [ty v col row fn]. intros Hc%readable_cases.
  destruct Hc as [[-> H]|[[-> H]|[->|[-> [[H1 H2]|[H1 H2]]]]]].
  - unfold token_text. cbn [Type_ Value]. destruct (bytes_of_string v) as [|c r]; [done|].
    unfold is_number in H. simpl in H. apply andb_true_iff in H as [Hc _]. destruct (digit_char_plain c Hc) as [Hp Hb].
    exists c, r. split_and!; [done|done|]. by apply Ascii.eqb_neq in Hp.
  - unfold token_text. cbn [Type_ Value]. destruct (bytes_of_string v) as [|c r]; [done|].
    simpl in H. apply andb_true_iff in H as [Hc _]. destruct (digit_char_plain c Hc) as [Hp Hb].
    exists c, r. split_and!; [done|done|]. by apply Ascii.eqb_neq in Hp.
  - by eexists _, _.
  - unfold is_symbol in H1. apply existsb_exists in H1 as (v' & Hin & Hv). apply String.eqb_eq in Hv as <-.
    cbn [map fst take TokenTypes] in Hin.
    repeat (destruct Hin as [<-|Hin]; [vm_compute in H2; injection H2 as <-; by eexists _, _|]). destruct Hin.
  - destruct (bytes_of_string v) as [|c r] eqn:Ev; [done|]. simpl in H1. apply andb_true_iff in H1 as [Hc _].
    destruct (letter_plain c Hc) as [Hp Hb]. exists c, r. split_and!; [done|done|].
    apply Ascii.eqb_neq in Hp as ->. symmetry. apply bool_decide_eq_false. cbn [Type_].
    intros ->. unfold word_kind in H2. destruct (_ && _); [done|].
    destruct (TokenTypeMap !! v) as [ty'|] eqn:E; [|done]. simpl in H2. subst ty'.
    apply elem_of_list_to_map_2, list_elem_of_In in E. unfold TokenTypes in E.
    repeat (destruct E as [E|E]; [first [discriminate E | injection E as <-; vm_compute in Ev; injection Ev as <- <-;
      discriminate Hc]|]). destruct E.
Qed.

Lemma written_cons t ts : written (t :: ts) = token_text t ++ " "%char :: written ts.
Proof. unfold written. simpl. by rewrite <- app_assoc. Qed.

Lemma word_type_written v ts : all_readable ts = true ->
  word_type v (" "%char :: written ts) = word_kind v (is_paren (head ts)).
Proof.
  intros Hr. destruct ts as [|t ts]; [apply word_type_end|]. rewrite written_cons. simpl in Hr.
  apply andb_true_iff in Hr as [Ht _]. destruct (readable_first t _ Ht) as (c & r & -> & Hb & Hc).
  cbn [app head is_paren]. rewrite word_type_kind, Hc by done. done.
Qed.

Lemma token_reads t ts : readable t (head ts) = true -> all_readable ts = true ->
  reads (written (t :: ts)) (" "%char :: written ts) (kind t).
Proof.
  intros Ht Hts. rewrite written_cons. destruct t as [ty v col row fn]. unfold kind. cbn [Type_ Value].
  apply readable_cases in Ht. rewrite <- (string_of_bytes_of_string v) at 2.
  destruct Ht as [[-> H]|[[-> H]|[->|[-> [[H1 H2]|[H1 H2]]]]]].
  - by apply number_reads.
  - by apply fraction_reads.
  - unfold token_text. cbn [Type_ Value]. cbn [app]. rewrite <- app_assoc. apply string_reads.
  - rewrite string_of_bytes_of_string. by apply symbol_reads.
  - rewrite H2, <- word_type_written by done. rewrite <- (string_of_bytes_of_string v) at 2. by apply word_reads.
Qed.

Lemma lex_written ts : all_readable ts = true -> forall pos acc,
  exists ts', lex_from (written ts) pos acc = Some (Ret (acc ++ ts', None)) /\ map kind ts' = map kind ts.
Proof.
  induction ts as [|t ts IH]; intros Hr pos acc; [exists []; by rewrite app_nil_r|].
  simpl in Hr. apply andb_true_iff in Hr as [Ht Hts]. destruct (token_reads t ts Ht Hts) as (c & r & -> & Hs).
  destruct (Hs pos) as (t' & pos' & E & Hk). erewrite lex_from_step by exact E.
  erewrite (lex_from_step " ") by reflexivity. rewrite app_nil_r.
  destruct (IH Hts (increment " " pos') (acc ++ [t'])) as (ts' & -> & Hm). exists (t' :: ts').
  rewrite <- app_assoc. simpl. by rewrite Hk, Hm.
Qed.

Lemma lex_text t ts : all_readable (t :: ts) = true ->
  exists ts', Lex (string_of_bytes (written (t :: ts))) = Some (Ret (ts', None)) /\ map kind ts' = map kind (t :: ts).
Proof.
  intros Hr. unfold Lex. rewrite bytes_of_string_of_bytes. pose proof (lex_written (t :: ts) Hr (0, 0) []) as Hw.
  unfold lex_from in Hw. destruct (written (t :: ts)) eqn:E; [|exact Hw].
  simpl in Hr. apply andb_true_iff in Hr as [Ht Hts]. by destruct (token_reads t ts Ht Hts) as (c & r & E' & _); rewrite E in E'.
Qed.

(** C26. Tokens written out with a space after each are read back, up to their
    positions; a type keyword before a parenthesis is read as an identifier, so
    it has to be one. *)
Theorem Lex_written t ts : all_readable (t :: ts) = true ->
  exists ts', Lex (string_of_bytes (written (t :: ts))) = Some (Ret (ts', None)) /\ map kind ts' = map kind (t :: ts).
Proof. apply lex_text. Qed.

Definition demo_tokens : list Token :=
  map (fun k => MkToken k.1 k.2 0 0 filename)
    [(Define, "define"); (Identifier, "call"); (LParen, "("); (RParen, ")"); (Colon, ":"); (Int, "int"); (LBrace, "{");
     (Emit, "emit"); (LParen, "("); (Identifier, "string"); (LParen, "("); (IntLiteral, "42"); (RParen, ")");
     (Plus, "+"); (StringLiteral, "a \ here"); (RParen, ")"); (RBrace, "}")]%string.

Lemma demo_readable : all_readable demo_tokens = true.
Proof. vm_compute. reflexivity. Qed.

Lemma Lex_written_witness :
  exists ts', Lex (string_of_bytes (written demo_tokens)) = Some (Ret (ts', None)) /\ map kind ts' = map kind demo_tokens.
Proof. exact (Lex_written _ _ demo_readable). Defined.

End Lexer.
