(* ===== verification/MgAst.v ===== *)
(** * Syntax trees and types of Marigold (src/marigold/ast.go, types.go,
    chainidents.go)

    Pointers that can be [nil] are options: the right operand of a unary or
    binary expression, the value of an assignment, the bounds of a slice, and a
    [Type].  The parser gives every block a new scope whose parent is the scope
    of the enclosing block, or the global one; a block carries its own variables
    and the parents are the enclosing blocks. *)

From S2P Require Import Prelude GoLib MgLexer.

#[local] Set Warnings "-register-all".

Module Mg.
Export Lexer.

(** ** types.go *)

Inductive Ty :=
  | SimpleType (Kind : string)
  | ArrayType (Size : Z) (ElementType : option Ty)
  | MapType (KeyType ValueType : option Ty).

(** The interface value [Type]: [None] is [nil], on which every method panics. *)
Abbreviation Type_t := (option Ty).

Definition IntType : Type_t := Some (SimpleType "int").
Definition FloatType : Type_t := Some (SimpleType "float").
Definition StringType : Type_t := Some (SimpleType "string").
Definition BoolType : Type_t := Some (SimpleType "bool").
Definition AnyType : Type_t := Some (SimpleType "any").

Definition NewArrayType (size : Z) (elementType : Type_t) : Type_t := Some (ArrayType size elementType).
Definition NewMapType (keyType valueType : Type_t) : Type_t := Some (MapType keyType valueType).

Definition TypeFromTokenType (tt : TokenType) : Type_t :=
  match tt with
  | Int => IntType
  | Float => FloatType
  | TString => StringType
  | Bool => BoolType
  | _ => None
  end.

(** A call through a [nil] interface. *)
Definition method {A} (t : Type_t) (f : Ty -> go A) : go A :=
  match t with Some t => f t | None => Panic NilDereference end.

Fixpoint type_Equals (t : Ty) (other : Type_t) : go bool :=
  match t, other with
  | _, None => Ret false
  | SimpleType k, Some (SimpleType k') => Ret (String.eqb k k')
  | ArrayType n e, Some (ArrayType n' e') =>
      if n =? n' then match e with Some e => type_Equals e e' | None => Panic NilDereference end else Ret false
  | MapType k v, Some (MapType k' v') =>
      b ← match k with Some k => type_Equals k k' | None => Panic NilDereference end;
      if (b : bool) then match v with Some v => type_Equals v v' | None => Panic NilDereference end else Ret false
  | _, _ => Ret false
  end.

Definition Equals (t other : Type_t) : go bool := method t (fun t => type_Equals t other).

Definition type_IsNumeric (t : Ty) : bool :=
  match t with SimpleType k => String.eqb k "int" || String.eqb k "float" | _ => false end.

Definition IsNumeric (t : Type_t) : go bool := method t (fun t => Ret (type_IsNumeric t)).

Definition IsAssignableTo (t other : Type_t) : go bool :=
  method t (fun t =>
    b ← type_Equals t other;
    if (b : bool) then Ret true
    else match t, other with
         | SimpleType _, Some (SimpleType _ as o) => Ret (type_IsNumeric t && type_IsNumeric o)
         | _, _ => Ret false
         end).

(** [String], of which only the panics on a [nil] component matter. *)
Fixpoint type_String (t : Ty) : go string :=
  match t with
  | SimpleType k => Ret k
  | ArrayType n e =>
      s ← match e with Some e => type_String e | None => Panic NilDereference end;
      Ret ("[" +:+ (if (0 <=? n)%Z then dec n else "") +:+ "]" +:+ s)%string
  | MapType k v =>
      s1 ← match k with Some k => type_String k | None => Panic NilDereference end;
      s2 ← match v with Some v => type_String v | None => Panic NilDereference end;
      Ret ("map[" +:+ s1 +:+ "]" +:+ s2)%string
  end.

Definition TypeString (t : Type_t) : go string := method t type_String.

(** ** ast.go *)

Record Variable_ := MkVariable { Name : string; VValue : string; VType : Type_t }.

Inductive Expression :=
  | BinaryExpr (Operator : TokenType) (Lhs : Expression) (Rhs : option Expression) (tok : Token)
  | UnaryExpr (Operator : TokenType) (Rhs : option Expression)
  | CallExpr (Value : string) (Args : list Expression) (tok : Token)
  | IdentifierExpr (Value : string) (tok : Token)
  | LiteralExpr (Value : string) (ValueType : TokenType) (tok : Token)
  | ArrayLiteral (Args : list Expression) (tok : Token)
  | MapLiteral (tok : Token)
  | IndexExpr (Lhs Rhs : Expression) (tok : Token)
  | SliceExpr (Lhs : Expression) (SliceStart SliceEnd : option Expression) (tok : Token).

(** The variables of a scope. *)
Abbreviation variables := (gmap string Variable_).

Inductive Statement :=
  | AssignmentStmt (VarType : Type_t) (Lhs : Expression) (Rhs : option Expression) (tok : Token)
  | ReturnStmt (Rhs : Expression)
  | IfStmt (Conditional : Expression) (body : Block) (ElseBlock : option Block) (tok : Token)
  | WhileStmt (Conditional : Expression) (body : Block)
  | BreakStmt (tok : Token)
  | ContinueStmt (tok : Token)
  | ExpressionStmt (Rhs : Expression)
with Block :=
  | MkBlock (Statements : list Statement) (Scope : variables).

Definition Statements (b : Block) : list Statement := match b with MkBlock l _ => l end.
Definition Scope (b : Block) : variables := match b with MkBlock _ s => s end.

Record Function_ := MkFunction {
  FName : string;
  Parameters : list string;
  ParameterTypes : list Type_t;
  ReturnType : Type_t;
  FBlock : Block
}.

Record Ast := MkAst {
  Tokens : list Token;
  Functions : gmap string Function_;
  AScope : variables
}.

Definition NewAst (tokens : list Token) : Ast :=
  MkAst tokens ∅
    (<["persistent" := MkVariable "persistent" "" (NewMapType StringType StringType)]>
      {["memory" := MkVariable "memory" "" (NewArrayType (-1) StringType)]})%string.

(** ** chainidents.go *)

Definition context_types : list (string * Type_t) :=
  [("@caller", StringType); ("@address", StringType); ("@balance", IntType); ("@origin", StringType);
   ("@gasprice", IntType); ("@callvalue", IntType); ("@timestamp", IntType); ("@difficulty", IntType);
   ("@coinbase", StringType); ("@height", IntType); ("@gaslimit", IntType); ("@tsxdata", StringType)]%string.

Definition GetBlockchainContextVariable (name : string) : option Variable_ :=
  match List.find (fun kv => String.eqb kv.1 name) context_types with
  | Some (_, t) => Some (MkVariable name "" t)
  | None => None
  end.

(** ** Induction on expressions *)

Section ExpressionInd.
Context (P : Expression -> Prop).
Context (HBinary : forall op l r t, P l -> (forall e, r = Some e -> P e) -> P (BinaryExpr op l r t)).
Context (HUnary : forall op r, (forall e, r = Some e -> P e) -> P (UnaryExpr op r)).
Context (HCall : forall v args t, Forall P args -> P (CallExpr v args t)).
Context (HIdentifier : forall v t, P (IdentifierExpr v t)).
Context (HLiteral : forall v ty t, P (LiteralExpr v ty t)).
Context (HArray : forall args t, Forall P args -> P (ArrayLiteral args t)).
Context (HMap : forall t, P (MapLiteral t)).
Context (HIndex : forall l r t, P l -> P r -> P (IndexExpr l r t)).
Context (HSlice : forall l s e t, P l -> (forall x, s = Some x -> P x) -> (forall x, e = Some x -> P x) -> P (SliceExpr l s e t)).

Fixpoint Expression_ind' (e : Expression) : P e :=
  let opt (o : option Expression) : forall x, o = Some x -> P x :=
    match o with
    | None => fun x H => match H with eq_refl => I end
    | Some y => fun x H => match H in _ = z return match z with Some w => P w | None => True end with
                           | eq_refl => Expression_ind' y
                           end
    end in
  let all := fix all (l : list Expression) : Forall P l :=
    match l with [] => List.Forall_nil P | x :: r => List.Forall_cons P x r (Expression_ind' x) (all r) end in
  match e with
  | BinaryExpr op l r t => HBinary op l r t (Expression_ind' l) (opt r)
  | UnaryExpr op r => HUnary op r (opt r)
  | CallExpr v args t => HCall v args t (all args)
  | IdentifierExpr v t => HIdentifier v t
  | LiteralExpr v ty t => HLiteral v ty t
  | ArrayLiteral args t => HArray args t (all args)
  | MapLiteral t => HMap t
  | IndexExpr l r t => HIndex l r t (Expression_ind' l) (Expression_ind' r)
  | SliceExpr l s e t => HSlice l s e t (Expression_ind' l) (opt s) (opt e)
  end.
End ExpressionInd.

(** ** Induction on statements *)

Section StatementInd.
Context (P : Statement -> Prop).

Definition all_block (b : Block) : Prop := Forall P (Statements b).

Context (HAssign : forall ty l r t, P (AssignmentStmt ty l r t)).
Context (HReturn : forall e, P (ReturnStmt e)).
Context (HIf : forall c b eb t, all_block b -> (forall x, eb = Some x -> all_block x) -> P (IfStmt c b eb t)).
Context (HWhile : forall c b, all_block b -> P (WhileStmt c b)).
Context (HBreak : forall t, P (BreakStmt t)).
Context (HContinue : forall t, P (ContinueStmt t)).
Context (HExpression : forall e, P (ExpressionStmt e)).

Fixpoint Statement_ind' (s : Statement) : P s :=
  let block (b : Block) : all_block b :=
    match b with
    | MkBlock l _ =>
        (fix all (l : list Statement) : Forall P l :=
           match l with [] => List.Forall_nil P | x :: r => List.Forall_cons P x r (Statement_ind' x) (all r) end) l
    end in
  match s with
  | AssignmentStmt ty l r t => HAssign ty l r t
  | ReturnStmt e => HReturn e
  | IfStmt c b eb t =>
      HIf c b eb t (block b)
        (match eb with
         | None => fun x H => match H with eq_refl => I end
         | Some y => fun x H => match H in _ = z return match z with Some w => all_block w | None => True end with
                                | eq_refl => block y
                                end
         end)
  | WhileStmt c b => HWhile c b (block b)
  | BreakStmt t => HBreak t
  | ContinueStmt t => HContinue t
  | ExpressionStmt e => HExpression e
  end.
End StatementInd.

End Mg.
