(* ===== verification/MgParser.v ===== *)
(** * The parser of Marigold (src/marigold/parser.go)

    A recursive-descent parser as functions on the tokens that are left.  A
    result that can be [nil] is an option; [log.Panicf] and failed assertions on
    the next token are panics.  Loops over tokens get one more round than there
    are tokens left; [Parse] gives the recursion the same bound, and
    [ParserSpec.Parse_total] shows that both are enough. *)

From S2P Require Import Prelude GoLib MgLexer MgAst.

Module Parser.
Export Mg.

(** Parsers: [None] when the fuel does not suffice. *)
Definition P (A : Type) : Type := list Token -> option (go (list Token * A)).

#[export] Instance P_ret : MRet P := fun A a ts => Some (Ret (ts, a)).

#[export] Instance P_bind : MBind P := fun A B f p ts =>
  match p ts with
  | Some (Ret (ts', a)) => f a ts'
  | Some (Panic k) => Some (Panic k)
  | None => None
  end.

Definition no_fuel {A} : P A := fun _ => None.
Definition panic {A} (k : panic_kind) : P A := fun _ => Some (Panic k).
Definition logFatal {A} (message : string) : P A := panic (ExplicitPanic message).

(** How many tokens are left. *)
Definition remaining : P nat := fun ts => Some (Ret (ts, length ts)).

(** ** The cursor *)

Definition peek : P (option Token) := fun ts => Some (Ret (ts, head ts)).

(** [peek().Type]: the next token has to exist. *)
Definition peek_type : P TokenType :=
  t ← peek; match t with Some t => mret (Type_ t) | None => panic NilDereference end.

(** [peek() != nil && peek().Type == ty] *)
Definition next_is (f : TokenType -> bool) : P bool :=
  t ← peek; mret (match t with Some t => f (Type_ t) | None => false end).

Definition is_tok (ty : TokenType) : TokenType -> bool := fun t => bool_decide (t = ty).

(** The token after the next one is of a type. *)
Definition second_is (ty : TokenType) : P bool :=
  fun ts => Some (Ret (ts, match ts with _ :: t :: _ => is_tok ty (Type_ t) | _ => false end)).

Definition consume : P (option Token) := fun ts => Some (Ret (tail ts, head ts)).

Definition consumeAssert (toktype : TokenType) : P Token := fun ts =>
  match ts with
  | t :: ts' => if is_tok toktype (Type_ t) then Some (Ret (ts', t)) else Some (Panic (ExplicitPanic "Parse error"))
  | [] => Some (Panic (ExplicitPanic "Parse error"))
  end.

Definition consumeIf (toktype : TokenType) : P (option Token) :=
  b ← next_is (is_tok toktype); if (b : bool) then consume else mret None.

(** Continue when the result is not [nil]. *)
Definition if_some {A B} (p : P (option A)) (f : A -> P (option B)) : P (option B) :=
  o ← p; match o with Some a => f a | None => mret None end.

(** ** Types *)

Inductive type_error := ExpectedType | InvalidArraySize | InvalidMapKey | InvalidType.

(** [strconv.Atoi] *)
Definition Atoi (s : string) : option Z :=
  match big_SetString s 10 with
  | (n, true) => if bool_decide (is_i64 n) then Some n else None
  | (_, false) => None
  end.

Definition array_size : P (res type_error Z) :=
  b ← next_is (is_tok IntLiteral);
  if (b : bool) then
    sizeToken ← consume;
    match sizeToken ≫= fun t => Atoi (Value t) with
    | Some n => mret (Ok n)
    | None => mret (Err InvalidArraySize)
    end
  else mret (Ok (-1)).

Fixpoint parseType (fuel : nat) : P (res type_error Type_t) :=
  match fuel with
  | O => no_fuel
  | S f =>
      t ← peek;
      match t with
      | None => mret (Err ExpectedType)
      | Some token =>
          match Type_ token with
          | Int => consume;; mret (Ok IntType)
          | Float => consume;; mret (Ok FloatType)
          | TString => consume;; mret (Ok StringType)
          | Bool => consume;; mret (Ok BoolType)
          | LSquare =>
              consumeAssert LSquare;;
              size ← array_size;
              match size with
              | Err e => mret (Err e)
              | Ok size =>
                  consumeAssert RSquare;;
                  elementType ← parseType f;
                  mret (elementType ≫= fun t => Ok (NewArrayType size t))
              end
          | Map =>
              consumeAssert Map;;
              consumeAssert LSquare;;
              keyTypeToken ← consume;
              match keyTypeToken with
              | None => panic NilDereference
              | Some k =>
                  if is_tok TString (Type_ k) then
                    consumeAssert RSquare;;
                    valueType ← parseType f;
                    mret (valueType ≫= fun t => Ok (NewMapType StringType t))
                  else mret (Err InvalidMapKey)
              end
          | _ => mret (Err InvalidType)
          end
      end
  end.

(** ** Expressions *)

Definition isRelationalOp (t : TokenType) : bool :=
  is_tok Equal t || is_tok NotEqual t || is_tok LessThan t || is_tok LessEqual t || is_tok GreaterThan t || is_tok GreaterEqual t.
Definition isAdditiveOp (t : TokenType) : bool := is_tok Plus t || is_tok Minus t.
Definition isTermOp (t : TokenType) : bool := is_tok Multiply t || is_tok Divide t || is_tok Modulo t.
Definition isUnaryOp (t : TokenType) : bool := is_tok Minus t || is_tok Not t.

(** [for peek() is one of the operators]: a missing right operand is [nil]. *)
Fixpoint binary_loop (n : nat) (ops : TokenType -> bool) (operand : P (option Expression)) (left : Expression)
    : P (option Expression) :=
  match n with
  | O => no_fuel
  | S n' =>
      b ← next_is ops;
      if (b : bool) then
        op ← consume;
        right ← operand;
        match op with
        | Some op => binary_loop n' ops operand (BinaryExpr (Type_ op) left right op)
        | None => panic NilDereference
        end
      else mret (Some left)
  end.

Definition binary_level (ops : TokenType -> bool) (operand : P (option Expression)) : P (option Expression) :=
  if_some operand (fun left => n ← remaining; binary_loop (S n) ops operand left).

Section Levels.
Context (parseExpression : P (option Expression)).

(** The arguments of a call, up to the closing parenthesis; commas are optional. *)
Fixpoint parse_args (n : nat) (args : list Expression) : P (option (list Expression)) :=
  match n with
  | O => no_fuel
  | S n' =>
      t ← peek_type;
      if is_tok RParen t then mret (Some args)
      else if_some parseExpression (fun paramExpr =>
        consumeIf Comma;;
        parse_args n' (args ++ [paramExpr]))
  end.

(** The token under the cursor is an identifier, or one of the keywords of
    built-in functions. *)
Definition parseFunctionCall : P (option Expression) :=
  t ← peek;
  match t with
  | None => panic NilDereference
  | Some token =>
      name ← match Type_ token with
             | Identifier => consume;; mret (Some (Value token))
             | Len => consume;; mret (Some "len")
             | Emit => consume;; mret (Some "emit")
             | Stop => consume;; mret (Some "stop")
             | Assert => consume;; mret (Some "assert")
             | _ => mret None
             end%string;
      match name with
      | None => mret None
      | Some name =>
          consumeAssert LParen;;
          n ← remaining;
          if_some (parse_args (S n) []) (fun args =>
            consumeAssert RParen;;
            mret (Some (CallExpr name args token)))
      end
  end.

(** The elements of an array literal; the opening bracket is consumed. *)
Fixpoint parse_elements (n : nat) (elements : list Expression) : P (option (list Expression)) :=
  match n with
  | O => no_fuel
  | S n' =>
      if_some parseExpression (fun element =>
        let elements := elements ++ [element] in
        t ← peek;
        match t with
        | None => mret None
        | Some t =>
            if is_tok RSquare (Type_ t) then mret (Some elements)
            else if is_tok Comma (Type_ t) then consume;; parse_elements n' elements
            else mret None
        end)
  end.

Definition parseArrayLiteral : P (option Expression) :=
  openBracket ← consumeAssert LSquare;
  b ← next_is (is_tok RSquare);
  if (b : bool) then consume;; mret (Some (ArrayLiteral [] openBracket))
  else
    n ← remaining;
    if_some (parse_elements (S n) []) (fun elements =>
      consumeAssert RSquare;;
      mret (Some (ArrayLiteral elements openBracket))).

Definition parseMapLiteral : P (option Expression) :=
  openBrace ← consumeAssert LBrace;
  t ← peek_type;
  if is_tok RBrace t then consumeAssert RBrace;; mret (Some (MapLiteral openBrace)) else mret None.

Definition parseIndexOrSlice (arrayExpr : Expression) : P (option Expression) :=
  openBracket ← consumeAssert LSquare;
  t ← peek_type;
  if is_tok Colon t then
    consume;;
    if_some parseExpression (fun endExpr =>
      consumeAssert RSquare;;
      mret (Some (SliceExpr arrayExpr None (Some endExpr) openBracket)))
  else if_some parseExpression (fun firstExpr =>
    t ← peek_type;
    if is_tok Colon t then
      consume;;
      t ← peek_type;
      if is_tok RSquare t then
        consumeAssert RSquare;;
        mret (Some (SliceExpr arrayExpr (Some firstExpr) None openBracket))
      else if_some parseExpression (fun endExpr =>
        consumeAssert RSquare;;
        mret (Some (SliceExpr arrayExpr (Some firstExpr) (Some endExpr) openBracket)))
    else
      consumeAssert RSquare;;
      mret (Some (IndexExpr arrayExpr firstExpr openBracket))).

(** A keyword of a built-in function, which has to be called. *)
Definition parse_builtin : P (option Expression) :=
  b ← second_is LParen;
  if (b : bool) then parseFunctionCall else logFatal "must be followed by parentheses".

Definition parseAtom : P (option Expression) :=
  t ← peek;
  match t with
  | None => mret None
  | Some token =>
      match Type_ token with
      | IntLiteral => consume;; mret (Some (LiteralExpr (Value token) Int token))
      | FloatLiteral => consume;; mret (Some (LiteralExpr (Value token) Float token))
      | StringLiteral => consume;; mret (Some (LiteralExpr (Value token) TString token))
      | BoolLiteral => consume;; mret (Some (LiteralExpr (Value token) Bool token))
      | Identifier =>
          call ← second_is LParen;
          if (call : bool) then parseFunctionCall
          else
            consume;;
            let expr := IdentifierExpr (Value token) token in
            b ← next_is (is_tok LSquare);
            if (b : bool) then parseIndexOrSlice expr else mret (Some expr)
      | Len | Emit | Stop | Assert => parse_builtin
      | LParen =>
          consume;;
          expr ← parseExpression;
          consumeAssert RParen;;
          mret expr
      | LSquare => parseArrayLiteral
      | LBrace => parseMapLiteral
      | _ => mret None
      end
  end.

Fixpoint parseFactor (n : nat) : P (option Expression) :=
  match n with
  | O => no_fuel
  | S n' =>
      b ← next_is isUnaryOp;
      if (b : bool) then
        op ← consume;
        rhs ← parseFactor n';
        match op with
        | Some op => mret (Some (UnaryExpr (Type_ op) rhs))
        | None => panic NilDereference
        end
      else parseAtom
  end.

Definition factor : P (option Expression) := n ← remaining; parseFactor (S n).

Fixpoint parsePower (n : nat) : P (option Expression) :=
  match n with
  | O => no_fuel
  | S n' =>
      if_some factor (fun left =>
        b ← next_is (is_tok Exponent);
        if (b : bool) then
          op ← consume;
          right ← parsePower n';
          match op with
          | Some op => mret (Some (BinaryExpr (Type_ op) left right op))
          | None => panic NilDereference
          end
        else mret (Some left))
  end.

Definition power : P (option Expression) := n ← remaining; parsePower (S n).
Definition parseTerm : P (option Expression) := binary_level isTermOp power.
Definition parseAdditive : P (option Expression) := binary_level isAdditiveOp parseTerm.
Definition parseRelational : P (option Expression) := binary_level isRelationalOp parseAdditive.
Definition parseLogicalAnd : P (option Expression) := binary_level (is_tok LogicalAnd) parseRelational.
Definition parseLogicalOr : P (option Expression) := binary_level (is_tok LogicalOr) parseLogicalAnd.

End Levels.

(** The fuel bounds the depth of nested parentheses, arguments and indices. *)
Fixpoint parse_expression (fuel : nat) : P (option Expression) :=
  match fuel with
  | O => no_fuel
  | S f => parseLogicalOr (parse_expression f)
  end.

Definition parseExpression : P (option Expression) := n ← remaining; parse_expression (S n).

Definition parse_type : P (res type_error Type_t) := n ← remaining; parseType (S n).

(** ** Statements *)

Definition parseAssignment : P (option Statement) :=
  ident ← consumeAssert Identifier;
  let lhs := IdentifierExpr (Value ident) ident in
  t ← peek;
  match t with
  | None => mret None
  | Some t =>
      varType ← (if is_tok Colon (Type_ t) then consumeAssert Colon;; parse_type else mret (Ok None));
      match varType with
      | Err _ => mret None
      | Ok varType =>
          t ← peek_type;
          if is_tok Assign t then
            consumeAssert Assign;;
            if_some parseExpression (fun rhs => mret (Some (AssignmentStmt varType lhs (Some rhs) ident)))
          else mret (Some (AssignmentStmt varType lhs None ident))
      end
  end.

Definition parseIndexedAssignment : P (option Statement) :=
  ident ← consumeAssert Identifier;
  if_some (parseIndexOrSlice parseExpression (IdentifierExpr (Value ident) ident)) (fun indexExpr =>
    consumeAssert Assign;;
    if_some parseExpression (fun rhs => mret (Some (AssignmentStmt None indexExpr (Some rhs) ident)))).

(** An expression that has to be there. *)
Definition expect_expression (message : string) : P Expression :=
  o ← parseExpression; match o with Some e => mret e | None => logFatal message end.

(** The statements of a block, up to one that is [nil]. *)
Fixpoint statement_loop (n : nat) (parseStatement : P (option Statement)) (statements : list Statement)
    : P (list Statement) :=
  match n with
  | O => no_fuel
  | S n' =>
      stmt ← parseStatement;
      match stmt with
      | None => mret statements
      | Some s => statement_loop n' parseStatement (statements ++ [s])
      end
  end.

Definition parse_block (parseStatement : P (option Statement)) : P Block :=
  n ← remaining;
  statements ← statement_loop (S n) parseStatement [];
  mret (MkBlock statements ∅).

Definition parse_braces (parseStatement : P (option Statement)) : P Block :=
  consumeAssert LBrace;;
  block ← parse_block parseStatement;
  consumeAssert RBrace;;
  mret block.

Fixpoint parse_statement (fuel : nat) : P (option Statement) :=
  match fuel with
  | O => no_fuel
  | S f =>
      t ← peek;
      match t with
      | None => mret None
      | Some currentToken =>
          match Type_ currentToken with
          | If =>
              ifToken ← consumeAssert If;
              conditional ← expect_expression "Expected condition after if";
              block ← parse_braces (parse_statement f);
              b ← next_is (is_tok Else);
              if (b : bool) then
                consumeAssert Else;;
                elseblock ← parse_braces (parse_statement f);
                mret (Some (IfStmt conditional block (Some elseblock) ifToken))
              else mret (Some (IfStmt conditional block None ifToken))
          | While =>
              consumeAssert While;;
              conditional ← expect_expression "Expected condition after while";
              block ← parse_braces (parse_statement f);
              mret (Some (WhileStmt conditional block))
          | Return =>
              consumeAssert Return;;
              rhs ← expect_expression "Expected expression after return";
              mret (Some (ReturnStmt rhs))
          | Break => breakToken ← consumeAssert Break; mret (Some (BreakStmt breakToken))
          | Continue => continueToken ← consumeAssert Continue; mret (Some (ContinueStmt continueToken))
          | Emit | Stop | Assert =>
              expr ← expect_expression "Failed to parse built-in function call";
              mret (Some (ExpressionStmt expr))
          | Identifier =>
              ts ← (fun ts => Some (Ret (ts, ts)));
              match ts with
              | _ :: second :: _ =>
                  match Type_ second with
                  | Assign | Colon => parseAssignment
                  | LSquare => parseIndexedAssignment
                  | LParen =>
                      if_some (parseFunctionCall parseExpression) (fun functionCall =>
                        mret (Some (ExpressionStmt functionCall)))
                  | _ => if_some parseExpression (fun expr => mret (Some (ExpressionStmt expr)))
                  end
              | _ => mret None
              end
          | RBrace => mret None
          | _ =>
              expr ← expect_expression "Unknown Token in parseStatement";
              mret (Some (ExpressionStmt expr))
          end
      end
  end.

Definition parseStatement : P (option Statement) := n ← remaining; parse_statement (S n).

Definition parseBlock : P Block := parse_block parseStatement.

(** ** Functions *)

Fixpoint parse_parameters (n : nat) (names : list string) (types : list Type_t)
    : P (option (list string * list Type_t)) :=
  match n with
  | O => no_fuel
  | S n' =>
      t ← peek_type;
      if is_tok RParen t then mret (Some (names, types))
      else
        paramIdent ← consumeAssert Identifier;
        consumeAssert Colon;;
        paramType ← parse_type;
        match paramType with
        | Err _ => mret None
        | Ok ty =>
            consumeIf Comma;;
            parse_parameters n' (names ++ [Value paramIdent]) (types ++ [ty])
        end
  end.

Definition parseFunctionDefinition : P (option Function_) :=
  consumeAssert Define;;
  functionIdent ← consumeAssert Identifier;
  if bool_decide (is_Some (TokenTypeMap !! Value functionIdent)) then mret None
  else
    consumeAssert LParen;;
    n ← remaining;
    if_some (parse_parameters (S n) [] []) (fun params =>
      consumeAssert RParen;;
      consumeAssert Colon;;
      returnType ← parse_type;
      match returnType with
      | Err _ => mret None
      | Ok ty =>
          consumeAssert LBrace;;
          block ← parseBlock;
          consumeAssert RBrace;;
          mret (Some (MkFunction (Value functionIdent) params.1 params.2 ty block))
      end).

(** Later definitions replace earlier ones of the same name. *)
Fixpoint parse_functions (n : nat) (ast : Ast) : P Ast :=
  match n with
  | O => no_fuel
  | S n' =>
      t ← peek;
      match t with
      | None => mret ast
      | Some t =>
          if is_tok Define (Type_ t) then
            functionDefinition ← parseFunctionDefinition;
            match functionDefinition with
            | Some fd => parse_functions n' (MkAst (Tokens ast) (<[FName fd := fd]> (Functions ast)) (AScope ast))
            | None => logFatal "could not parse function def"
            end
          else logFatal "Expected 'define'"
      end
  end.

Definition Parse (tokens : list Token) : option (go Ast) :=
  match parse_functions (S (length tokens)) (NewAst tokens) tokens with
  | Some (Ret (_, ast)) => Some (Ret ast)
  | Some (Panic k) => Some (Panic k)
  | None => None
  end.

End Parser.
