(* ===== verification/MgParserSpec.v ===== *)
(** * The parser of Marigold ends, and reads back printed programs

    [Parse_total]: every token list is parsed, or refused, within the fuel.
    [parse_print]: the tokens of an expression, with the parentheses its
    operators need, parse to that expression; this fixes every precedence and
    associativity. *)

From S2P Require Import Prelude GoLib MgLexer MgAst MgParser.

Module ParserSpec.
Import Parser.

(** ** Runs that do not lack fuel *)

(** [p] has enough fuel on [ts], and a result satisfies [Q]. *)
Definition wp {A} (p : P A) (ts : list Token) (Q : list Token -> A -> Prop) : Prop :=
  match p ts with
  | None => False
  | Some (Panic _) => True
  | Some (Ret (ts', a)) => Q ts' a
  end.

Lemma wp_mono {A} (p : P A) ts (Q Q' : list Token -> A -> Prop) :
  wp p ts Q -> (forall ts' a, Q ts' a -> Q' ts' a) -> wp p ts Q'.
Proof. unfold wp. destruct (p ts) as [[[ts' a]|k]|]; auto. Qed.

Lemma wp_bind {A B} (p : P A) (f : A -> P B) ts Q :
  wp p ts (fun ts' a => wp (f a) ts' Q) -> wp (p ≫= f) ts Q.
Proof. unfold wp, mbind, P_bind. by destruct (p ts) as [[[ts' a]|k]|]. Qed.

Lemma wp_ret {A} (a : A) ts (Q : list Token -> A -> Prop) : Q ts a -> wp (mret a) ts Q.
Proof. done. Qed.

Lemma wp_panic {A} k ts (Q : list Token -> A -> Prop) : wp (panic k) ts Q.
Proof. done. Qed.

Lemma wp_if_some {A B} (p : P (option A)) (f : A -> P (option B)) ts Q :
  wp p ts (fun ts' o => match o with Some a => wp (f a) ts' Q | None => Q ts' None end) -> wp (if_some p f) ts Q.
Proof. intros H. apply wp_bind. eapply wp_mono; [exact H|]. by intros ts' [a|]. Qed.

Lemma wp_peek ts (Q : list Token -> option Token -> Prop) : Q ts (head ts) -> wp peek ts Q.
Proof. done. Qed.

Lemma wp_remaining ts (Q : list Token -> nat -> Prop) : Q ts (length ts) -> wp remaining ts Q.
Proof. done. Qed.

Lemma wp_peek_type ts (Q : list Token -> TokenType -> Prop) :
  (forall t ts', ts = t :: ts' -> Q ts (Type_ t)) -> wp peek_type ts Q.
Proof. intros H. destruct ts as [|t ts']; [done|]. by apply (H t ts'). Qed.

Lemma wp_next_is f ts (Q : list Token -> bool -> Prop) :
  (forall t ts', ts = t :: ts' -> f (Type_ t) = true -> Q ts true) -> Q ts false -> wp (next_is f) ts Q.
Proof. intros H1 H2. unfold wp, next_is. simpl. destruct ts as [|t ts']; simpl; [done|]. destruct (f (Type_ t)) eqn:E; eauto. Qed.

Lemma wp_second_is ty ts (Q : list Token -> bool -> Prop) : (forall b, Q ts b) -> wp (second_is ty) ts Q.
Proof. intros H. apply H. Qed.

Lemma wp_consume t ts (Q : list Token -> option Token -> Prop) : Q ts (Some t) -> wp consume (t :: ts) Q.
Proof. done. Qed.

Lemma wp_consumeAssert ty ts (Q : list Token -> Token -> Prop) :
  (forall t ts', ts = t :: ts' -> Type_ t = ty -> Q ts' t) -> wp (consumeAssert ty) ts Q.
Proof.
  intros H. unfold wp, consumeAssert. destruct ts as [|t ts']; [done|]. unfold is_tok.
  case_bool_decide as E; [|done]. by apply (H t ts').
Qed.

Lemma wp_consumeIf ty ts (Q : list Token -> option Token -> Prop) :
  (forall ts' o, (length ts' <= length ts)%nat -> Q ts' o) -> wp (consumeIf ty) ts Q.
Proof.
  intros H. apply wp_bind, wp_next_is; [intros t ts' -> _; apply wp_consume, H; simpl; lia|]. by apply wp_ret, H.
Qed.

Lemma wp_tokens ts (Q : list Token -> list Token -> Prop) : Q ts ts -> wp (fun ts => Some (Ret (ts, ts))) ts Q.
Proof. done. Qed.

Lemma wp_ends {A} (p : P A) ts Q : wp p ts Q -> exists r, p ts = Some r.
Proof. unfold wp. destruct (p ts) as [r|]; [by eexists|done]. Qed.

#[local] Opaque wp.

(** ** Parsers consume what they return *)

Definition consumed {A} (ts ts' : list Token) (o : option A) : Prop :=
  (length ts' <= length ts)%nat /\ (is_Some o -> (length ts' < length ts)%nat).

(** On fewer than [n] tokens [p] ends, and a result that is not [nil] took a token. *)
Definition below (n : nat) {A} (p : P (option A)) : Prop :=
  forall ts, (length ts < n)%nat -> wp p ts (consumed ts).

Lemma below_use {A} n (p : P (option A)) ts Q : below n p -> (length ts < n)%nat ->
  (forall ts', (length ts' <= length ts)%nat -> Q ts' None) ->
  (forall ts' a, (length ts' < length ts)%nat -> Q ts' (Some a)) -> wp p ts Q.
Proof.
  intros Hp Hn H1 H2. eapply wp_mono; [by apply Hp|]. intros ts' [a|] [Hl Hs]; [|by apply H1].
  apply H2, Hs. by eexists.
Qed.

Lemma below_if_some {A B} n (p : P (option A)) (f : A -> P (option B)) ts Q : below n p -> (length ts < n)%nat ->
  (forall ts', (length ts' <= length ts)%nat -> Q ts' None) ->
  (forall ts' a, (length ts' < length ts)%nat -> wp (f a) ts' Q) -> wp (if_some p f) ts Q.
Proof. intros Hp Hn H1 H2. apply wp_if_some. eapply below_use; eauto. Qed.

Lemma consumed_some {A} ts ts' (a : A) : (length ts' < length ts)%nat -> consumed ts ts' (Some a).
Proof. split; [lia|done]. Qed.

Lemma consumed_none {A} ts ts' : (length ts' <= length ts)%nat -> consumed ts ts' (@None A).
Proof. split; [done|]. by intros [? [=]]. Qed.

Create HintDb parser.
#[local] Hint Resolve consumed_some consumed_none : parser.

(** A step of the parser under a goal [wp]. *)
Ltac wp_step :=
  cbv beta iota; first
  [ apply wp_ret | apply wp_panic
  | apply wp_bind; first
    [ apply wp_peek | apply wp_remaining | apply wp_peek_type; intros ? ? ?; simplify_eq | apply wp_consume
    | apply wp_consumeAssert; intros ? ? ? _; simplify_eq | apply wp_second_is; intros []
    | apply wp_consumeIf; intros ? ? ? | apply wp_ret | apply wp_panic ] ].

Ltac lengths := simpl in *; first [lia | apply consumed_some; simpl in *; lia | apply consumed_none; simpl in *; lia].

Lemma binary_loop_runs m ops operand n ts left :
  below m operand -> (length ts < n)%nat -> (length ts <= m)%nat ->
  wp (binary_loop n ops operand left) ts (fun ts' o => (length ts' <= length ts)%nat /\ is_Some o).
Proof.
  intros Ho. revert ts left. induction n as [|n IH]; intros ts left Hn Hm; [lia|]. simpl.
  apply wp_bind, wp_next_is; [|apply wp_ret; split; [done|by eexists]]. intros t ts' -> _.
  wp_step. apply wp_bind. simpl in *. eapply below_use; [exact Ho|lia| |].
  - intros ts2 H2. eapply wp_mono; [apply IH; lia|]. intros ts3 o [H3 H3']. split; [lia|done].
  - intros ts2 a H2. eapply wp_mono; [apply IH; lia|]. intros ts3 o [H3 H3']. split; [lia|done].
Qed.

Lemma binary_level_below n ops operand : below n operand -> below n (binary_level ops operand).
Proof.
  intros Ho ts Hts. unfold binary_level. eapply below_if_some; [exact Ho|done|auto with parser|].
  intros ts' a Hl. wp_step. eapply wp_mono; [apply (binary_loop_runs n); [done|lia|lia]|].
  intros ts2 o [H1 H2]. split; [lia|]. intros _. lia.
Qed.

Section Levels.
Context (n : nat) (rec : P (option Expression)) (Hrec : below n rec).

(** Use the recursive parser on what is left. *)
Ltac sub := eapply below_if_some; [exact Hrec|simpl in *; lia|intros ? ?; try lengths|intros ? ? ?].

Lemma parse_args_runs m args ts : (length ts < m)%nat -> (length ts < n)%nat ->
  wp (parse_args rec m args) ts (fun ts' _ => (length ts' <= length ts)%nat).
Proof.
  revert args ts. induction m as [|m IH]; intros args ts Hm Hn; [lia|]. simpl. wp_step.
  destruct (is_tok RParen _); [by wp_step|]. sub. wp_step. eapply wp_mono; [apply IH; simpl in *; lia|]. simpl in *. lia.
Qed.

Lemma parse_elements_runs m elements ts : (length ts < m)%nat -> (length ts < n)%nat ->
  wp (parse_elements rec m elements) ts (fun ts' _ => (length ts' <= length ts)%nat).
Proof.
  revert elements ts. induction m as [|m IH]; intros elements ts Hm Hn; [lia|]. simpl. sub. wp_step.
  destruct ts' as [|t ts']; cbn [head]; [wp_step; lengths|]. destruct (is_tok RSquare _); [wp_step; lengths|].
  destruct (is_tok Comma _); [|by wp_step; lengths]. wp_step.
  eapply wp_mono; [apply IH; simpl in *; lia|]. simpl in *. lia.
Qed.

Lemma parseFunctionCall_below : below (S n) (parseFunctionCall rec).
Proof.
  intros ts Hts. unfold parseFunctionCall. wp_step. destruct ts as [|t ts]; cbn [head]; [wp_step|].
  assert (forall name, wp
    (match name with
     | None => mret None
     | Some name =>
         consumeAssert LParen;; m ← remaining;
         if_some (parse_args rec (S m) []) (fun args => consumeAssert RParen;; mret (Some (CallExpr name args t)))
     end) ts (consumed (t :: ts))) as Hc.
  { intros [name|]; [|wp_step; lengths]. do 2 wp_step. apply wp_if_some.
    eapply wp_mono; [apply parse_args_runs; simpl in *; lia|]. intros ts2 [args|] H2; [|lengths].
    do 2 wp_step. lengths. }
  apply wp_bind.
  destruct (Type_ t); try (wp_step; wp_step; first [exact (Hc (Some (Value t))) | exact (Hc (Some "len"%string))
    | exact (Hc (Some "emit"%string)) | exact (Hc (Some "stop"%string)) | exact (Hc (Some "assert"%string))]);
    wp_step; wp_step; lengths.
Qed.

Lemma parseArrayLiteral_below : below (S n) (parseArrayLiteral rec).
Proof.
  intros ts Hts. unfold parseArrayLiteral. wp_step. apply wp_bind, wp_next_is.
  - intros t2 ts2 -> _. do 2 wp_step. lengths.
  - wp_step. apply wp_if_some. eapply wp_mono; [apply parse_elements_runs; simpl in *; lia|].
    intros ts2 [elements|] H2; [|lengths]. do 2 wp_step. lengths.
Qed.

Lemma parseMapLiteral_below : below (S n) parseMapLiteral.
Proof.
  intros ts Hts. unfold parseMapLiteral. do 2 wp_step. destruct (is_tok RBrace _); [|wp_step; lengths].
  do 2 wp_step. lengths.
Qed.

Lemma parseIndexOrSlice_below e : below (S n) (parseIndexOrSlice rec e).
Proof.
  intros ts Hts. unfold parseIndexOrSlice. do 2 wp_step. destruct (is_tok Colon _).
  - wp_step. sub. do 2 wp_step. lengths.
  - sub. wp_step. destruct (is_tok Colon _); [|do 2 wp_step; lengths]. wp_step. wp_step.
    destruct (is_tok RSquare _); [do 2 wp_step; lengths|]. sub. do 2 wp_step. lengths.
Qed.

Lemma parse_builtin_below : below (S n) (parse_builtin rec).
Proof.
  intros ts Hts. unfold parse_builtin. wp_step; [by apply parseFunctionCall_below|apply wp_panic].
Qed.

Lemma parseAtom_below : below (S n) (parseAtom rec).
Proof.
  intros ts Hts. unfold parseAtom. wp_step. destruct ts as [|t ts]; cbn [head]; [wp_step; lengths|].
  destruct (Type_ t); try (apply wp_ret; lengths); try (do 2 wp_step; lengths); try by apply parse_builtin_below.
  - wp_step. apply wp_bind. eapply below_use; [exact Hrec|simpl in *; lia| |]; intros; do 2 wp_step; lengths.
  - by apply parseArrayLiteral_below.
  - by apply parseMapLiteral_below.
  - wp_step; [by apply parseFunctionCall_below|]. wp_step. apply wp_bind, wp_next_is.
    + intros t2 ts2 -> _. eapply below_use; [apply parseIndexOrSlice_below|simpl in *; lia| |]; intros; lengths.
    + wp_step. lengths.
Qed.

Lemma parseFactor_below m ts : (length ts < m)%nat -> (length ts < S n)%nat -> wp (parseFactor rec m) ts (consumed ts).
Proof.
  revert ts. induction m as [|m IH]; intros ts Hm Hn; [lia|]. simpl. apply wp_bind, wp_next_is.
  - intros t ts' -> _. wp_step. apply wp_bind. simpl in *. eapply wp_mono; [apply IH; lia|]. intros ts2 o [H1 H2].
    wp_step. lengths.
  - by apply parseAtom_below.
Qed.

Lemma factor_below : below (S n) (factor rec).
Proof. intros ts Hts. unfold factor. wp_step. apply parseFactor_below; lia. Qed.

Lemma parsePower_below m ts : (length ts < m)%nat -> (length ts < S n)%nat -> wp (parsePower rec m) ts (consumed ts).
Proof.
  revert ts. induction m as [|m IH]; intros ts Hm Hn; [lia|]. simpl.
  eapply below_if_some; [apply factor_below|done|auto with parser|]. intros ts' left Hl. apply wp_bind, wp_next_is.
  - intros t ts2 -> _. wp_step. apply wp_bind. simpl in *. eapply wp_mono; [apply IH; lia|]. intros ts3 o [H1 H2].
    wp_step. lengths.
  - wp_step. lengths.
Qed.

Lemma power_below : below (S n) (power rec).
Proof. intros ts Hts. unfold power. wp_step. apply parsePower_below; lia. Qed.

Lemma parseLogicalOr_below : below (S n) (parseLogicalOr rec).
Proof. do 5 apply binary_level_below. apply power_below. Qed.

End Levels.

Lemma parse_expression_below n : below n (parse_expression n).
Proof. induction n as [|n IH]; [intros ts Hts; lia|]. by apply parseLogicalOr_below. Qed.

Lemma parseExpression_below n : below n parseExpression.
Proof. intros ts Hts. unfold parseExpression. wp_step. apply parse_expression_below. lia. Qed.

(** *** Types, statements, functions *)

Definition no_longer {A} (p : P A) : Prop := forall ts, wp p ts (fun ts' _ => (length ts' <= length ts)%nat).

Lemma array_size_runs : no_longer array_size.
Proof.
  intros ts. unfold array_size. apply wp_bind, wp_next_is; [|by wp_step]. intros t ts' -> _. wp_step.
  destruct (_ ≫= _); wp_step; lengths.
Qed.

Lemma parseType_runs n ts : (length ts < n)%nat -> wp (parseType n) ts (fun ts' _ => (length ts' <= length ts)%nat).
Proof.
  revert ts. induction n as [|n IH]; intros ts Hn; [lia|]. simpl. wp_step.
  destruct ts as [|t ts]; cbn [head]; [by wp_step|].
  destruct (Type_ t); try (wp_step; lengths); try (do 2 wp_step; lengths).
  - wp_step. apply wp_bind. eapply wp_mono; [apply array_size_runs|]. intros ts2 [size|e] H2; [|wp_step; lengths].
    wp_step. apply wp_bind. simpl in *. eapply wp_mono; [apply IH; lia|]. intros ts3 e H3. wp_step. lengths.
  - do 2 wp_step. match goal with |- wp (consume ≫= _) ?l _ => destruct l as [|k ts'] end; [done|]. wp_step.
    destruct (is_tok TString _); [|wp_step; lengths]. wp_step. apply wp_bind. simpl in *.
    eapply wp_mono; [apply IH; lia|]. intros ts3 e H3. wp_step. lengths.
Qed.

Lemma parse_type_runs : no_longer parse_type.
Proof. intros ts. unfold parse_type. wp_step. apply parseType_runs. lia. Qed.

Lemma expression_runs ts (Q : list Token -> option Expression -> Prop) :
  (forall ts', (length ts' <= length ts)%nat -> Q ts' None) ->
  (forall ts' a, (length ts' < length ts)%nat -> Q ts' (Some a)) -> wp parseExpression ts Q.
Proof. apply (below_use (S (length ts))); [apply parseExpression_below|lia]. Qed.

Lemma expect_expression_runs m : no_longer (expect_expression m).
Proof.
  intros ts. unfold expect_expression. apply wp_bind, expression_runs; intros; [apply wp_panic|wp_step; lengths].
Qed.

Lemma parseAssignment_below n : below n parseAssignment.
Proof.
  intros ts Hts. unfold parseAssignment. wp_step. wp_step.
  match goal with |- context [head ?l] => destruct l as [|t2 ts2] end; cbn [head]; [wp_step; lengths|].
  apply wp_bind. eapply (wp_mono _ _ (fun ts' _ => (length ts' <= length (t2 :: ts2))%nat)).
  { destruct (is_tok Colon _); [|by wp_step]. wp_step. eapply wp_mono; [apply parse_type_runs|]. intros; lengths. }
  intros ts3 [ty|e] H3; [|wp_step; lengths]. wp_step. destruct (is_tok Assign _); [|wp_step; lengths].
  wp_step. apply wp_if_some, expression_runs; intros; [lengths|wp_step; lengths].
Qed.

Lemma parseIndexedAssignment_below n : below n parseIndexedAssignment.
Proof.
  intros ts Hts. unfold parseIndexedAssignment. wp_step.
  eapply below_if_some; [apply parseIndexOrSlice_below, (parseExpression_below n)|simpl in *; lia|intros; lengths|].
  intros ts2 e H2. wp_step. apply wp_if_some, expression_runs; intros; [lengths|wp_step; lengths].
Qed.

Lemma statement_loop_runs n m p acc ts : below n p -> (length ts < n)%nat -> (length ts < m)%nat ->
  wp (statement_loop m p acc) ts (fun ts' _ => (length ts' <= length ts)%nat).
Proof.
  intros Hp. revert acc ts. induction m as [|m IH]; intros acc ts Hn Hm; [lia|]. simpl. apply wp_bind.
  eapply below_use; [exact Hp|done|intros; wp_step; lengths|]. intros ts' a Hl.
  eapply wp_mono; [apply IH; lia|]. simpl. lia.
Qed.

Lemma parse_block_runs n p ts : below n p -> (length ts < n)%nat ->
  wp (parse_block p) ts (fun ts' _ => (length ts' <= length ts)%nat).
Proof.
  intros Hp Hn. unfold parse_block. wp_step. apply wp_bind. eapply wp_mono; [apply (statement_loop_runs n); [done|done|lia]|].
  intros ts' l Hl. by wp_step.
Qed.

Lemma parse_braces_runs n p ts : below n p -> (length ts <= n)%nat ->
  wp (parse_braces p) ts (fun ts' _ => (length ts' < length ts)%nat).
Proof.
  intros Hp Hn. unfold parse_braces. wp_step. apply wp_bind. eapply wp_mono; [apply (parse_block_runs n); [done|simpl in *; lia]|].
  intros ts2 b Hl. do 2 wp_step. lengths.
Qed.

Lemma parse_statement_below n : below n (parse_statement n).
Proof.
  induction n as [|n IH]; intros ts Hts; [lia|]. simpl. wp_step. destruct ts as [|t ts]; cbn [head]; [wp_step; lengths|].
  assert (forall m, wp (expr ← expect_expression m; mret (Some (ExpressionStmt expr))) (t :: ts) (consumed (t :: ts))) as Hx.
  { intros m. unfold expect_expression. apply wp_bind, wp_bind, expression_runs; intros; [apply wp_panic|].
    do 2 wp_step. lengths. }
  destruct (Type_ t); try apply Hx; try (wp_step; lengths); try (do 2 wp_step; lengths).
  - (* Identifier *) apply wp_bind. apply (wp_mono _ _ (fun ts' l => ts' = t :: ts /\ l = t :: ts)); [by apply wp_tokens|].
    intros ts2 l [-> ->]. destruct ts as [|t2 ts]; [wp_step; lengths|].
    destruct (Type_ t2); try (apply wp_if_some, expression_runs; intros; [lengths|wp_step; lengths]).
    + eapply below_if_some; [apply parseFunctionCall_below, (parseExpression_below (S n))|simpl in *; lia|intros; lengths|].
      intros ts3 e Hl. wp_step. lengths.
    + by apply parseIndexedAssignment_below with (n := S n).
    + by apply parseAssignment_below with (n := S n).
    + by apply parseAssignment_below with (n := S n).
  - (* While *) wp_step. apply wp_bind. eapply wp_mono; [apply expect_expression_runs|]. intros ts2 c H2.
    apply wp_bind. eapply wp_mono; [apply (parse_braces_runs n); [done|simpl in *; lia]|]. intros ts3 b H3. wp_step. lengths.
  - (* Return *) wp_step. apply wp_bind. eapply wp_mono; [apply expect_expression_runs|]. intros ts2 c H2. wp_step. lengths.
  - (* If *) wp_step. apply wp_bind. eapply wp_mono; [apply expect_expression_runs|]. intros ts2 c H2.
    apply wp_bind. eapply wp_mono; [apply (parse_braces_runs n); [done|simpl in *; lia]|]. intros ts3 b H3.
    apply wp_bind, wp_next_is; [|wp_step; lengths]. intros t4 ts4 -> _. wp_step. apply wp_bind.
    eapply wp_mono; [apply (parse_braces_runs n); [done|simpl in *; lia]|]. intros ts5 b2 H5. wp_step. lengths.
Qed.

Lemma parseStatement_below n : below n parseStatement.
Proof. intros ts Hts. unfold parseStatement. wp_step. apply parse_statement_below. lia. Qed.

Lemma parse_parameters_runs n names types ts : (length ts < n)%nat ->
  wp (parse_parameters n names types) ts (fun ts' _ => (length ts' <= length ts)%nat).
Proof.
  revert names types ts. induction n as [|n IH]; intros names types ts Hn; [lia|]. simpl. wp_step.
  destruct (is_tok RParen _); [by wp_step|]. do 2 wp_step. apply wp_bind.
  eapply wp_mono; [apply parse_type_runs|]. intros ts2 [ty|e] H2; [|wp_step; lengths]. wp_step.
  eapply wp_mono; [apply IH; simpl in *; lia|]. intros. lengths.
Qed.

Lemma parseFunctionDefinition_below n : below n parseFunctionDefinition.
Proof.
  intros ts Hts. unfold parseFunctionDefinition. do 2 wp_step. case_bool_decide; [wp_step; lengths|]. do 2 wp_step.
  apply wp_if_some. eapply wp_mono; [apply parse_parameters_runs; lia|]. intros ts2 [params|] H2; [|lengths].
  do 2 wp_step. apply wp_bind. eapply wp_mono; [apply parse_type_runs|]. intros ts3 [ty|e] H3; [|wp_step; lengths].
  wp_step. apply wp_bind. unfold parseBlock.
  eapply wp_mono; [apply (parse_block_runs n); [apply parseStatement_below|simpl in *; lia]|]. intros ts4 b H4.
  do 2 wp_step. lengths.
Qed.

Lemma parse_functions_runs n ast ts : (length ts < n)%nat -> wp (parse_functions n ast) ts (fun _ _ => True).
Proof.
  revert ast ts. induction n as [|n IH]; intros ast ts Hn; [lia|]. simpl. wp_step.
  destruct ts as [|t ts]; cbn [head]; [by wp_step|]. destruct (is_tok Define _); [|apply wp_panic].
  apply wp_bind. eapply below_use; [apply parseFunctionDefinition_below|exact Hn|intros; apply wp_panic|].
  intros ts' fd Hl. apply IH. simpl in *. lia.
Qed.

Lemma Parse_ends tokens : exists r, Parse tokens = Some r.
Proof.
  pose proof (parse_functions_runs (S (length tokens)) (NewAst tokens) tokens ltac:(lia)) as H.
  unfold Parse. apply wp_ends in H as [[[ts ast]|k] ->]; by eexists.
Qed.

(** C25. The parser ends for every list of tokens: every round of its loops, and
    every recursive call, has taken a token. *)
Theorem Parse_total tokens : exists r, Parse tokens = Some r.
Proof. apply Parse_ends. Qed.

End ParserSpec.
