(* ===== verification/MgPrint.v ===== *)
(** * Printing programs, and reading them back

    A printer from syntax trees to tokens, with the parentheses the operators
    need, and [parse_print]: the parser reads every printed program back.  The
    conditions of [wf_stmt] are the ambiguities of a grammar that separates
    statements by nothing. *)

From S2P Require Import Prelude GoLib MgLexer MgAst MgParser MgParserSpec.

Module Print.
Import Parser ParserSpec.

(** ** Expressions *)

(** A token of the printer. *)
Definition tok (ty : TokenType) (value : string) : Token := MkToken ty value 0 0 filename.

Definition op_level (ty : TokenType) : nat :=
  if is_tok LogicalOr ty then 1
  else if is_tok LogicalAnd ty then 2
  else if isRelationalOp ty then 3
  else if isAdditiveOp ty then 4
  else if isTermOp ty then 5
  else if is_tok Exponent ty then 6
  else 0.

Definition level (e : Expression) : nat :=
  match e with
  | BinaryExpr op _ _ _ => op_level op
  | UnaryExpr _ _ => 7
  | _ => 8
  end.

Definition wrap (p k : nat) (body : list Token) : list Token :=
  if (k <? p)%nat then tok LParen "(" :: body ++ [tok RParen ")"] else body.

Fixpoint sep (l : list (list Token)) : list Token :=
  match l with
  | [] => []
  | [x] => x
  | x :: r => x ++ tok Comma "," :: sep r
  end.

Fixpoint print (p : nat) (e : Expression) : list Token :=
  wrap p (level e)
    match e with
    | BinaryExpr op l r t =>
        let k := op_level op in
        let '(pl, pr) := if (k =? 6)%nat then (7, 6)%nat else (k, S k) in
        print pl l ++ t :: match r with Some r => print pr r | None => [] end
    | UnaryExpr op r => tok op (if is_tok Minus op then "-" else "!") :: match r with Some r => print 7 r | None => [] end
    | CallExpr _ args t => t :: tok LParen "(" :: sep (map (print 1) args) ++ [tok RParen ")"]
    | IdentifierExpr _ t => [t]
    | LiteralExpr _ _ t => [t]
    | ArrayLiteral args t => t :: sep (map (print 1) args) ++ [tok RSquare "]"]
    | MapLiteral t => [t; tok RBrace "}"]
    | IndexExpr l r t => print 8 l ++ t :: print 1 r ++ [tok RSquare "]"]
    | SliceExpr l s e t =>
        print 8 l ++ t :: match s with Some s => print 1 s | None => [] end ++ tok Colon ":"
          :: match e with Some e => print 1 e | None => [] end ++ [tok RSquare "]"]
    end.

(** The function name of a call, as its token gives it. *)
Definition call_name (t : Token) : option string :=
  match Type_ t with
  | Identifier => Some (Value t)
  | Len => Some "len"
  | Emit => Some "emit"
  | Stop => Some "stop"
  | Assert => Some "assert"
  | _ => None
  end%string.

Definition literal_type (ty : TokenType) : option TokenType :=
  match ty with
  | IntLiteral => Some Int
  | FloatLiteral => Some Float
  | StringLiteral => Some TString
  | BoolLiteral => Some Bool
  | _ => None
  end.

Definition is_identifier (e : Expression) : bool := match e with IdentifierExpr _ _ => true | _ => false end.

(** The trees the parser builds without a missing operand, with the tokens it
    stores in them. *)
Fixpoint wf (e : Expression) : bool :=
  match e with
  | BinaryExpr op l r t =>
      bool_decide (0 < op_level op)%nat && bool_decide (Type_ t = op) && wf l
      && match r with Some r => wf r | None => false end
  | UnaryExpr op r => isUnaryOp op && match r with Some r => wf r | None => false end
  | CallExpr v args t => bool_decide (call_name t = Some v) && forallb wf args
  | IdentifierExpr v t => bool_decide (Type_ t = Identifier) && bool_decide (Value t = v)
  | LiteralExpr v ty t => bool_decide (literal_type (Type_ t) = Some ty) && bool_decide (Value t = v)
  | ArrayLiteral args t => bool_decide (Type_ t = LSquare) && forallb wf args
  | MapLiteral t => bool_decide (Type_ t = LBrace)
  | IndexExpr l r t => is_identifier l && wf l && bool_decide (Type_ t = LSquare) && wf r
  | SliceExpr l s e t =>
      is_identifier l && wf l && bool_decide (Type_ t = LSquare)
      && match s with Some s => wf s | None => true end && match e with Some e => wf e | None => true end
      && negb (bool_decide (s = None) && bool_decide (e = None))
  end.

(** What may follow an expression printed at level [p]. *)
Definition stop (p : nat) (rest : list Token) : Prop :=
  match rest with
  | [] => True
  | t :: _ => (op_level (Type_ t) < p)%nat /\ Type_ t <> LParen /\ Type_ t <> LSquare
  end.

(** [p] reads [ts] to the end of [e]. *)
Definition reads (p : P (option Expression)) (ts : list Token) (e : Expression) (rest : list Token) : Prop :=
  p ts = Some (Ret (rest, Some e)).

Lemma run_bind {A B} (p : P A) (f : A -> P B) ts ts' a : p ts = Some (Ret (ts', a)) -> (p ≫= f) ts = f a ts'.
Proof. intros E. unfold mbind, P_bind. by rewrite E. Qed.

Lemma run_some {A B} (p : P (option A)) (f : A -> P (option B)) ts ts' a :
  p ts = Some (Ret (ts', Some a)) -> if_some p f ts = f a ts'.
Proof. intros E. unfold if_some. by erewrite run_bind by exact E. Qed.

Lemma stop_mono p q rest : (p <= q)%nat -> stop p rest -> stop q rest.
Proof. destruct rest as [|t r]; [done|]. simpl. intros. split; [lia|tauto]. Qed.

Lemma stop_token p t rest : op_level (Type_ t) = 0%nat -> Type_ t <> LParen -> Type_ t <> LSquare -> (0 < p)%nat -> stop p (t :: rest).
Proof. simpl. intros -> ???. split_and!; [lia|done..]. Qed.

Ltac stops := apply stop_token; [reflexivity | discriminate | discriminate | lia].

(** *** First tokens *)

Definition starts (ty : TokenType) : bool :=
  match ty with
  | IntLiteral | FloatLiteral | StringLiteral | BoolLiteral | Identifier | Len | Emit | Stop | Assert
  | LParen | LSquare | LBrace | Minus | Not => true
  | _ => false
  end.

Lemma op_level_starts ty : isUnaryOp ty = true -> starts ty = true.
Proof. unfold isUnaryOp, is_tok. rewrite orb_true_iff, !bool_decide_eq_true. by intros [->| ->]. Qed.

Lemma print_starts e p : wf e = true -> exists t r, print p e = t :: r /\ starts (Type_ t) = true.
Proof.
  revert p. induction e as [op l r t IHl IHr|op r IHr|v args t IH|v t|v ty t|args t IH|t|l r t IHl IHr|l s e t IHl IHs IHe]
    using Expression_ind'; intros p Hwf; cbn [print]; unfold wrap;
    match goal with |- context [if ?b then _ :: ?x ++ _ else _] => destruct b; [by eexists _, (x ++ _)|] end; cbn [wf] in Hwf; rewrite ?andb_true_iff in Hwf.
  - destruct Hwf as [[_ Hl] _]. destruct (op_level op =? 6)%nat.
    + destruct (IHl 7%nat Hl) as (t0 & r0 & -> & Hs). by eexists _, _.
    + destruct (IHl (op_level op) Hl) as (t0 & r0 & -> & Hs). by eexists _, _.
  - eexists _, _. split; [done|]. destruct Hwf as [Hu _]. by apply op_level_starts.
  - eexists _, _. split; [done|]. destruct Hwf as [Hc%bool_decide_eq_true _]. unfold call_name in Hc. by destruct (Type_ t).
  - eexists _, _. split; [done|]. by destruct Hwf as [->%bool_decide_eq_true _].
  - eexists _, _. split; [done|]. destruct Hwf as [Hc%bool_decide_eq_true _]. unfold literal_type in Hc. by destruct (Type_ t).
  - eexists _, _. split; [done|]. by destruct Hwf as [->%bool_decide_eq_true _].
  - eexists _, _. split; [done|]. by apply bool_decide_eq_true in Hwf as ->.
  - destruct Hwf as [[[_ Hl] _] _]. destruct (IHl 8%nat Hl) as (t0 & r0 & -> & Hs). by eexists _, _.
  - destruct Hwf as [[[[[_ Hl] _] _] _] _]. destruct (IHl 8%nat Hl) as (t0 & r0 & -> & Hs). by eexists _, _.
Qed.

Lemma starts_not ty : starts ty = true ->
  is_tok RParen ty = false /\ is_tok RSquare ty = false /\ is_tok Colon ty = false /\ is_tok Comma ty = false.
Proof. by destruct ty. Qed.

Lemma length_cons_app {A} (a b : list A) : (length a <= length (a ++ b))%nat.
Proof. rewrite length_app. lia. Qed.

(** *** Reading, with a recursive parser for what is nested *)

Section Read.
Context (n : nat) (rec : P (option Expression)).
Context (Hrec : forall e rest, wf e = true -> stop 1 rest -> (length (print 1 e ++ rest) < n)%nat ->
                  reads rec (print 1 e ++ rest) e rest).

Lemma read_args args m acc rest : forallb wf args = true ->
  (length (sep (map (print 1) args) ++ tok RParen ")" :: rest) < m)%nat ->
  (length (sep (map (print 1) args) ++ tok RParen ")" :: rest) < n)%nat ->
  parse_args rec m acc (sep (map (print 1) args) ++ tok RParen ")" :: rest)
  = Some (Ret (tok RParen ")" :: rest, Some (acc ++ args))).
Proof.
  revert m acc. induction args as [|x args IH]; intros m acc Hwf Hm Hn; (destruct m as [|m]; [simpl in Hm; lia|]).
  - simpl. by rewrite app_nil_r.
  - cbn [forallb] in Hwf. apply andb_true_iff in Hwf as [Hx Hargs].
    destruct (print_starts x 1 Hx) as (t & r & Ep & Hs). destruct (starts_not _ Hs) as (Hr & _).
    set (after := match args with [] => tok RParen ")" :: rest | _ => tok Comma "," :: sep (map (print 1) args) ++ tok RParen ")" :: rest end).
    assert (sep (map (print 1) (x :: args)) ++ tok RParen ")" :: rest = print 1 x ++ after) as E.
    { unfold after. destruct args; [done|]. cbn [map sep]. by rewrite <- app_assoc. }
    rewrite E in *. cbn [parse_args]. rewrite Ep at 1. cbn [app]. erewrite run_bind by reflexivity. rewrite Hr. cbn [negb].
    change (t :: r ++ after) with ((t :: r) ++ after). rewrite <- Ep.
    erewrite run_some by (apply Hrec; [done|unfold after; destruct args; stops|done]).
    assert ((length after < m)%nat /\ (length after < n)%nat) as [Hm' Hn'].
    { rewrite length_app, Ep in Hm, Hn. simpl in Hm, Hn. lia. }
    unfold after in *. destruct args as [|y args].
    + erewrite run_bind by reflexivity. rewrite IH by done. by rewrite app_nil_r.
    + erewrite run_bind by reflexivity. cbn [tail]. rewrite IH by (simpl in *; done || lia). by rewrite <- app_assoc.
Qed.

Lemma read_elements args m acc rest : args <> [] -> forallb wf args = true ->
  (length (sep (map (print 1) args) ++ tok RSquare "]" :: rest) < m)%nat ->
  (length (sep (map (print 1) args) ++ tok RSquare "]" :: rest) < n)%nat ->
  parse_elements rec m acc (sep (map (print 1) args) ++ tok RSquare "]" :: rest)
  = Some (Ret (tok RSquare "]" :: rest, Some (acc ++ args))).
Proof.
  revert m acc. induction args as [|x args IH]; intros m acc Hne Hwf Hm Hn; [done|]. destruct m as [|m]; [lia|].
  cbn [forallb] in Hwf. apply andb_true_iff in Hwf as [Hx Hargs].
  destruct (print_starts x 1 Hx) as (t & r & Ep & Hs).
  set (after := match args with [] => tok RSquare "]" :: rest | _ => tok Comma "," :: sep (map (print 1) args) ++ tok RSquare "]" :: rest end).
  assert (sep (map (print 1) (x :: args)) ++ tok RSquare "]" :: rest = print 1 x ++ after) as E.
  { unfold after. destruct args; [done|]. cbn [map sep]. by rewrite <- app_assoc. }
  rewrite E in *. cbn [parse_elements].
  erewrite run_some by (apply Hrec; [done|unfold after; destruct args; stops|done]).
  assert ((length after < m)%nat /\ (length after < n)%nat) as [Hm' Hn'].
  { rewrite length_app, Ep in Hm, Hn. simpl in Hm, Hn. lia. }
  unfold after in *. destruct args as [|y args].
  - erewrite run_bind by reflexivity. done.
  - erewrite run_bind by reflexivity. cbn [head]. change (is_tok RSquare (Type_ (tok Comma ","))) with false.
    change (is_tok Comma (Type_ (tok Comma ","))) with true. cbv iota. erewrite run_bind by reflexivity. cbn [tail].
    rewrite IH by (simpl in *; done || lia). by rewrite <- app_assoc.
Qed.

Lemma run_assert ty t ts : Type_ t = ty -> consumeAssert ty (t :: ts) = Some (Ret (ts, t)).
Proof. intros E. simpl. unfold is_tok. by rewrite bool_decide_eq_true_2. Qed.

Lemma run_next_is f t ts b : f (Type_ t) = b -> next_is f (t :: ts) = Some (Ret (t :: ts, b)).
Proof. by intros <-. Qed.

Lemma read_call v args t rest : call_name t = Some v -> forallb wf args = true ->
  (length (sep (map (print 1) args) ++ tok RParen ")" :: rest) < n)%nat ->
  reads (parseFunctionCall rec) (t :: tok LParen "(" :: (sep (map (print 1) args) ++ [tok RParen ")"]) ++ rest)
    (CallExpr v args t) rest.
Proof.
  intros Hv Hwf Hn. unfold reads, parseFunctionCall. erewrite run_bind by reflexivity. cbn [head].
  assert (forall ts, match Type_ t with
                     | Identifier => consume;; mret (Some (Value t))
                     | Len => consume;; mret (Some "len")
                     | Emit => consume;; mret (Some "emit")
                     | Stop => consume;; mret (Some "stop")
                     | Assert => consume;; mret (Some "assert")
                     | _ => mret None
                     end (t :: ts) = Some (Ret (ts, Some v)))%string as Hname.
  { intros ts. unfold call_name in Hv. destruct (Type_ t); try done; by injection Hv as <-. }
  erewrite run_bind by apply Hname. cbv iota beta. erewrite run_bind by reflexivity. erewrite run_bind by reflexivity.
  rewrite <- app_assoc. cbn [app]. erewrite run_some by (apply read_args; [done|lia|done]).
  by erewrite run_bind by reflexivity.
Qed.

Lemma read_array args t rest : Type_ t = LSquare -> forallb wf args = true ->
  (length (sep (map (print 1) args) ++ tok RSquare "]" :: rest) < n)%nat ->
  reads (parseArrayLiteral rec) (t :: (sep (map (print 1) args) ++ [tok RSquare "]"]) ++ rest) (ArrayLiteral args t) rest.
Proof.
  intros Ht Hwf Hn. unfold reads, parseArrayLiteral. rewrite <- app_assoc. cbn [app].
  erewrite run_bind by (by apply run_assert). destruct args as [|x args]; [by erewrite run_bind by reflexivity|].
  assert (exists u r, sep (map (print 1) (x :: args)) = u :: r /\ starts (Type_ u) = true) as (u & r & Eu & Hs).
  { cbn [forallb] in Hwf. apply andb_true_iff in Hwf as [Hx _]. destruct (print_starts x 1 Hx) as (u & r & Ep & Hs).
    cbn [map sep]. rewrite Ep. destruct (map (print 1) args); by eexists _, _. }
  rewrite Eu at 1. cbn [app]. erewrite run_bind by (apply run_next_is; by apply starts_not). cbv iota.
  change (u :: r ++ ?l) with ((u :: r) ++ l). rewrite <- Eu. erewrite run_bind by reflexivity.
  erewrite run_some by (apply read_elements; [done|done|lia|done]). by erewrite run_bind by reflexivity.
Qed.

Lemma read_map t rest : Type_ t = LBrace -> reads parseMapLiteral (t :: tok RBrace "}" :: rest) (MapLiteral t) rest.
Proof. intros Ht. unfold reads, parseMapLiteral. by erewrite run_bind by (by apply run_assert). Qed.

Lemma read_index l r t rest : Type_ t = LSquare -> wf r = true ->
  (length (print 1 r ++ tok RSquare "]" :: rest) < n)%nat ->
  reads (parseIndexOrSlice rec l) (t :: (print 1 r ++ [tok RSquare "]"]) ++ rest) (IndexExpr l r t) rest.
Proof.
  intros Ht Hr Hn. unfold reads, parseIndexOrSlice. rewrite <- app_assoc. cbn [app].
  erewrite run_bind by (by apply run_assert). destruct (print_starts r 1 Hr) as (u & w & Ep & Hs).
  rewrite Ep at 1. cbn [app]. erewrite run_bind by reflexivity. destruct (starts_not _ Hs) as (_ & _ & -> & _). cbv iota.
  change (u :: w ++ ?l) with ((u :: w) ++ l). rewrite <- Ep. erewrite run_some by (apply Hrec; [done|stops|done]).
  by erewrite run_bind by reflexivity.
Qed.

Lemma read_slice l s e t rest : Type_ t = LSquare ->
  match s with Some s => wf s | None => true end = true -> match e with Some e => wf e | None => true end = true ->
  (s <> None \/ e <> None) ->
  (length (match s with Some s => print 1 s | None => [] end ++ tok Colon ":"
          :: match e with Some e => print 1 e | None => [] end ++ tok RSquare "]" :: rest) < n)%nat ->
  reads (parseIndexOrSlice rec l)
    (t :: (match s with Some s => print 1 s | None => [] end ++ tok Colon ":"
          :: match e with Some e => print 1 e | None => [] end ++ [tok RSquare "]"]) ++ rest) (SliceExpr l s e t) rest.
Proof.
  intros Ht Hs He Hne Hn. unfold reads, parseIndexOrSlice. rewrite <- app_assoc. cbn [app]. rewrite <- app_assoc. cbn [app].
  erewrite run_bind by (by apply run_assert). destruct s as [s|].
  - destruct (print_starts s 1 Hs) as (u & w & Ep & Hu). rewrite Ep at 1. cbn [app]. erewrite run_bind by reflexivity.
    destruct (starts_not _ Hu) as (_ & _ & -> & _). cbv iota. change (u :: w ++ ?l) with ((u :: w) ++ l). rewrite <- Ep.
    erewrite run_some by (apply Hrec; [done|stops|done]). erewrite run_bind by reflexivity.
    change (is_tok Colon (Type_ (tok Colon ":"))) with true. cbv iota. erewrite run_bind by reflexivity. cbn [tail].
    destruct e as [e|]; [|done]. destruct (print_starts e 1 He) as (u2 & w2 & Ep2 & Hu2).
    rewrite Ep2 at 1. cbn [app]. erewrite run_bind by reflexivity. destruct (starts_not _ Hu2) as (_ & -> & _). cbv iota.
    change (u2 :: w2 ++ ?l) with ((u2 :: w2) ++ l). rewrite <- Ep2.
    erewrite run_some by (apply Hrec; [done|stops|rewrite length_app in Hn; simpl in Hn; lia]).
    by erewrite run_bind by reflexivity.
  - destruct e as [e|]; [|by destruct Hne]. erewrite run_bind by reflexivity. cbn [app].
    change (is_tok Colon (Type_ (tok Colon ":"))) with true. cbv iota. erewrite run_bind by reflexivity. cbn [tail].
    erewrite run_some by (apply Hrec; [done|stops|simpl in Hn; lia]). by erewrite run_bind by reflexivity.
Qed.

Lemma print_wrap e p : print p e = wrap p (level e) (print 0 e).
Proof. by destruct e. Qed.

Lemma print_bare e p : (p <= level e)%nat -> print p e = print 0 e.
Proof. intros Hp. rewrite print_wrap. unfold wrap. by destruct (Nat.ltb_spec (level e) p); [lia|]. Qed.

Lemma print_paren e p : (level e < p)%nat -> print p e = tok LParen "(" :: print 0 e ++ [tok RParen ")"].
Proof. intros Hp. rewrite print_wrap. unfold wrap. by destruct (Nat.ltb_spec (level e) p); [|lia]. Qed.

Lemma wf_level e : wf e = true -> (1 <= level e <= 8)%nat.
Proof.
  destruct e; simpl; try lia. rewrite !andb_true_iff, bool_decide_eq_true. intros [[[H _] _] _]. split; [lia|].
  unfold op_level. repeat (match goal with |- context [if ?b then _ else _] => destruct b end; try lia).
Qed.

Definition level_parser (p : nat) : P (option Expression) :=
  match p with
  | 1 => parseLogicalOr rec
  | 2 => parseLogicalAnd rec
  | 3 => parseRelational rec
  | 4 => parseAdditive rec
  | 5 => parseTerm rec
  | 6 => power rec
  | 7 => factor rec
  | _ => parseAtom rec
  end%nat.

Definition level_ops (p : nat) : TokenType -> bool :=
  match p with
  | 1 => is_tok LogicalOr
  | 2 => is_tok LogicalAnd
  | 3 => isRelationalOp
  | 4 => isAdditiveOp
  | _ => isTermOp
  end%nat.

Lemma level_parser_binary p : (1 <= p <= 5)%nat -> level_parser p = binary_level (level_ops p) (level_parser (S p)).
Proof. intros Hp. by destruct p as [|[|[|[|[|[|p]]]]]]; try lia. Qed.

Lemma level_ops_spec p ty : (1 <= p <= 5)%nat -> level_ops p ty = true <-> op_level ty = p.
Proof. intros Hp. destruct p as [|[|[|[|[|[|p]]]]]]; try lia;
  destruct ty; vm_compute; split; first [reflexivity | discriminate]. Qed.

(** *** Atoms *)

Lemma read_call_atom v args t rest : let e := CallExpr v args t in wf e = true -> (length (print 0 e ++ rest) < S n)%nat ->
  reads (parseAtom rec) (print 0 e ++ rest) e rest.
Proof.
  intros e Hwf Hn. unfold reads, parseAtom. subst e.
  cbn [wf] in Hwf. apply andb_true_iff in Hwf as [Hv%bool_decide_eq_true Hargs].
  change (print 0 (CallExpr v args t)) with (t :: tok LParen "(" :: sep (map (print 1) args) ++ [tok RParen ")"]) in *.
  cbn [app] in *. erewrite run_bind by reflexivity. cbn [head].
  assert (parseFunctionCall rec (t :: tok LParen "(" :: (sep (map (print 1) args) ++ [tok RParen ")"]) ++ rest)
          = Some (Ret (rest, Some (CallExpr v args t)))) as E.
  { apply read_call; [done|done|]. rewrite <- app_assoc in Hn. simpl in *. lia. }
  pose proof Hv as Hv'. unfold call_name in Hv'. destruct (Type_ t) eqn:Et; try done; unfold parse_builtin;
    (erewrite run_bind by reflexivity); exact E.
Qed.

Lemma read_slice_atom l s e' t rest : let e := SliceExpr l s e' t in wf e = true -> (length (print 0 e ++ rest) < S n)%nat ->
  reads (parseAtom rec) (print 0 e ++ rest) e rest.
Proof.
  intros e Hwf Hn. unfold reads, parseAtom. subst e.
  cbn [wf] in Hwf. rewrite !andb_true_iff in Hwf. destruct Hwf as [[[[[Hi Hwl] Ht%bool_decide_eq_true] Hws] Hwe] Hne].
  destruct l; try done. cbn [wf] in Hwl. apply andb_true_iff in Hwl as [Hti%bool_decide_eq_true <-%bool_decide_eq_true].
  change (print 0 (SliceExpr (IdentifierExpr (Value tok0) tok0) s e' t)) with
    (tok0 :: t :: match s with Some s => print 1 s | None => [] end ++ tok Colon ":"
        :: match e' with Some e => print 1 e | None => [] end ++ [tok RSquare "]"]) in *.
  cbn [app] in *. erewrite run_bind by reflexivity. cbn [head]. rewrite Hti.
  erewrite run_bind by reflexivity. rewrite Ht. change (is_tok LParen LSquare) with false. cbv iota.
  erewrite run_bind by reflexivity. cbn [tail]. erewrite run_bind by (by apply run_next_is).
  rewrite Ht. change (is_tok LSquare LSquare) with true. cbv iota. apply read_slice; [done|done|done| |].
  + destruct s; [by left|]. destruct e'; [by right|done].
  + rewrite <- app_assoc in Hn. cbn [app] in Hn. rewrite <- app_assoc in Hn. simpl in *. lia.
Qed.

Lemma read_atom e rest : wf e = true -> level e = 8%nat -> stop 8 rest -> (length (print 0 e ++ rest) < S n)%nat ->
  reads (parseAtom rec) (print 0 e ++ rest) e rest.
Proof.
  intros Hwf Hl Hs Hn. unfold reads, parseAtom.
  destruct e as [op l r t|op r|v args t|v t|v ty t|args t|t|l r t|l s e t]; try (cbn in Hl; lia || done).
  - cbn [level] in Hl. pose proof (wf_level _ Hwf). exfalso. unfold op_level in Hl.
    repeat (match type of Hl with context [if ?b then _ else _] => destruct b end; try lia).
  - by apply read_call_atom.
  - cbn [wf] in Hwf. apply andb_true_iff in Hwf as [Ht%bool_decide_eq_true <-%bool_decide_eq_true].
    change (print 0 (IdentifierExpr (Value t) t)) with [t]. cbn [app]. erewrite run_bind by reflexivity. cbn [head].
    rewrite Ht. destruct rest as [|u rest]; [reflexivity|]. destruct Hs as (_ & H1 & H2).
    erewrite run_bind by reflexivity. unfold is_tok at 1. rewrite bool_decide_eq_false_2 by done. cbv iota.
    erewrite run_bind by reflexivity. cbn [tail]. erewrite run_bind by (by apply run_next_is).
    unfold is_tok at 1. by rewrite bool_decide_eq_false_2.
  - cbn [wf] in Hwf. apply andb_true_iff in Hwf as [Ht%bool_decide_eq_true <-%bool_decide_eq_true].
    change (print 0 (LiteralExpr (Value t) ty t)) with [t]. cbn [app]. erewrite run_bind by reflexivity. cbn [head].
    unfold literal_type in Ht. destruct (Type_ t); try done; injection Ht as <-; by erewrite run_bind by reflexivity.
  - cbn [wf] in Hwf. apply andb_true_iff in Hwf as [Ht%bool_decide_eq_true Hargs].
    change (print 0 (ArrayLiteral args t)) with (t :: sep (map (print 1) args) ++ [tok RSquare "]"]) in *.
    cbn [app] in *. erewrite run_bind by reflexivity. cbn [head]. rewrite Ht. apply read_array; [done|done|].
    rewrite <- app_assoc in Hn. simpl in *. lia.
  - cbn [wf] in Hwf. apply bool_decide_eq_true in Hwf as Ht. erewrite run_bind by reflexivity. cbn [head print wrap app].
    simpl. rewrite Ht. by apply read_map.
  - cbn [wf] in Hwf. rewrite !andb_true_iff in Hwf. destruct Hwf as [[[Hi Hwl] Ht%bool_decide_eq_true] Hr].
    destruct l; try done. cbn [wf] in Hwl. apply andb_true_iff in Hwl as [Hti%bool_decide_eq_true <-%bool_decide_eq_true].
    change (print 0 (IndexExpr (IdentifierExpr (Value tok0) tok0) r t)) with (tok0 :: t :: print 1 r ++ [tok RSquare "]"]) in *.
    cbn [app] in *. erewrite run_bind by reflexivity. cbn [head]. rewrite Hti.
    erewrite run_bind by reflexivity. rewrite Ht. cbn [is_tok]. change (is_tok LParen LSquare) with false. cbv iota.
    erewrite run_bind by reflexivity. cbn [tail]. erewrite run_bind by (by apply run_next_is).
    rewrite Ht. change (is_tok LSquare LSquare) with true. cbv iota. apply read_index; [done|done|].
    rewrite <- app_assoc in Hn. simpl in *. lia.
  - by apply read_slice_atom.
Qed.

Lemma read_paren e rest : wf e = true -> (length (tok LParen "(" :: (print 0 e ++ [tok RParen ")"]) ++ rest) < S n)%nat ->
  reads (parseAtom rec) (tok LParen "(" :: (print 0 e ++ [tok RParen ")"]) ++ rest) e rest.
Proof.
  intros Hwf Hn. unfold reads, parseAtom. erewrite run_bind by reflexivity. cbn [head].
  change (Type_ (tok LParen "(")) with LParen. cbv iota. erewrite run_bind by reflexivity. cbn [tail].
  rewrite <- app_assoc in *. cbn [app] in *. rewrite <- (print_bare e 1) in * by (apply wf_level in Hwf; lia).
  erewrite run_bind by (apply Hrec; [done|stops|simpl in Hn; lia]). by erewrite run_bind by reflexivity.
Qed.

(** *** Levels *)

Lemma parseFactor_more m m' ts x : parseFactor rec m ts = Some x -> (m <= m')%nat -> parseFactor rec m' ts = Some x.
Proof.
  revert m' ts x. induction m as [|m IH]; intros m' ts x E Hm; [done|]. destruct m' as [|m']; [lia|].
  cbn [parseFactor] in *. unfold mbind, P_bind in *. destruct (next_is isUnaryOp ts) as [[[ts1 b]|k]|]; [|done..].
  destruct b; [|done]. destruct (consume ts1) as [[[ts2 op]|k]|]; [|done..].
  destruct (parseFactor rec m ts2) as [y|] eqn:Ef; [|done]. by rewrite (IH m' ts2 y) by (done || lia).
Qed.

Lemma parsePower_more m m' ts x : parsePower rec m ts = Some x -> (m <= m')%nat -> parsePower rec m' ts = Some x.
Proof.
  revert m' ts x. induction m as [|m IH]; intros m' ts x E Hm; [done|]. destruct m' as [|m']; [lia|].
  cbn [parsePower] in *. unfold if_some, mbind, P_bind in *. destruct (factor rec ts) as [[[ts1 [left|]]|k]|]; [|done..].
  destruct (next_is (is_tok Exponent) ts1) as [[[ts2 b]|k]|]; [|done..].
  destruct b; [|done]. destruct (consume ts2) as [[[ts3 op]|k]|]; [|done..].
  destruct (parsePower rec m ts3) as [y|] eqn:Ef; [|done]. by rewrite (IH m' ts3 y) by (done || lia).
Qed.

Lemma no_op (f : TokenType -> bool) rest : match rest with t :: _ => f (Type_ t) = false | [] => True end ->
  next_is f rest = Some (Ret (rest, false)).
Proof. destruct rest as [|t r]; [done|]. intros E. by apply run_next_is. Qed.

Lemma stop_no_op p rest : (1 <= p <= 5)%nat -> stop p rest -> next_is (level_ops p) rest = Some (Ret (rest, false)).
Proof.
  intros Hp Hs. apply no_op. destruct rest as [|t r]; [done|]. destruct Hs as [Hl _].
  destruct (level_ops p (Type_ t)) eqn:E; [|done]. apply level_ops_spec in E; [lia|done].
Qed.

Lemma descend p ts e rest : (1 <= p <= 6)%nat -> stop p rest ->
  reads (level_parser (S p)) ts e rest -> reads (level_parser p) ts e rest.
Proof.
  intros Hp Hs Hr. unfold reads in *. destruct (decide (p <= 5)%nat) as [H5|H5].
  - rewrite level_parser_binary by lia. unfold binary_level. erewrite run_some by exact Hr.
    erewrite run_bind by reflexivity. cbn [binary_loop]. erewrite run_bind by (apply stop_no_op; [lia|done]). done.
  - assert (p = 6%nat) as -> by lia. cbn [level_parser] in *. unfold power. erewrite run_bind by reflexivity.
    cbn [parsePower]. erewrite run_some by exact Hr.
    assert (next_is (is_tok Exponent) rest = Some (Ret (rest, false))) as En.
    { apply no_op. destruct rest as [|t r]; [done|]. destruct Hs as [Hl _]. unfold is_tok. apply bool_decide_eq_false.
      intros E. rewrite E in Hl. vm_compute in Hl. lia. }
    by erewrite run_bind by exact En.
Qed.

Lemma descend_many p q ts e rest : (1 <= p <= q)%nat -> (q <= 7)%nat -> stop p rest ->
  reads (level_parser q) ts e rest -> reads (level_parser p) ts e rest.
Proof.
  intros Hp Hq Hs. induction q as [|q IH]; [lia|]. intros Hr. destruct (decide (p = S q)) as [->|Hne]; [done|].
  apply IH; [lia|lia|]. apply descend; [lia|eapply stop_mono; [|exact Hs]; lia|done].
Qed.

(** The factor that is an atom: it does not begin with a unary operator. *)
Lemma atom_factor t ts e rest : isUnaryOp (Type_ t) = false ->
  reads (parseAtom rec) (t :: ts) e rest -> reads (level_parser 7) (t :: ts) e rest.
Proof.
  intros Ht Hr. unfold reads in *. cbn [level_parser]. unfold factor. erewrite run_bind by reflexivity. cbn [parseFactor].
  erewrite run_bind by (by apply run_next_is). done.
Qed.

Lemma atom_first e : wf e = true -> level e = 8%nat -> exists t r, print 0 e = t :: r /\ isUnaryOp (Type_ t) = false.
Proof.
  intros Hwf Hl. destruct e as [op l r t|op r|v args t|v t|v ty t|args t|t|l r t|l s e t]; try (cbn in Hl; lia || done).
  - pose proof (wf_level _ Hwf) as Hw. cbn [level] in *. exfalso. unfold op_level in Hl.
    repeat (match type of Hl with context [if ?b then _ else _] => destruct b end; try lia).
  - eexists _, _. split; [done|]. cbn [wf] in Hwf. apply andb_true_iff in Hwf as [Hv%bool_decide_eq_true _].
    unfold call_name in Hv. by destruct (Type_ t).
  - eexists _, _. split; [done|]. cbn [wf] in Hwf. by apply andb_true_iff in Hwf as [->%bool_decide_eq_true _].
  - eexists _, _. split; [done|]. cbn [wf] in Hwf. apply andb_true_iff in Hwf as [Hv%bool_decide_eq_true _].
    unfold literal_type in Hv. by destruct (Type_ t).
  - eexists _, _. split; [done|]. cbn [wf] in Hwf. by apply andb_true_iff in Hwf as [->%bool_decide_eq_true _].
  - eexists _, _. split; [done|]. cbn [wf] in Hwf. by apply bool_decide_eq_true in Hwf as ->.
  - cbn [wf] in Hwf. rewrite !andb_true_iff in Hwf. destruct Hwf as [[[Hi Hwl] _] _].
    destruct l; try done. eexists _, _. split; [done|]. cbn [wf] in Hwl. by apply andb_true_iff in Hwl as [->%bool_decide_eq_true _].
  - cbn [wf] in Hwf. rewrite !andb_true_iff in Hwf. destruct Hwf as [[[[[Hi Hwl] _] _] _] _].
    destruct l; try done. eexists _, _. split; [done|]. cbn [wf] in Hwl. by apply andb_true_iff in Hwl as [->%bool_decide_eq_true _].
Qed.

(** *** Every level reads what is printed at it *)

Definition reads_at (e : Expression) : Prop :=
  forall p rest, (1 <= p <= 7)%nat -> stop p rest -> (length (print p e ++ rest) < S n)%nat ->
    reads (level_parser p) (print p e ++ rest) e rest.

(** A loop of left-associative operators takes [e] as its left operand. *)
Definition enters_loop (e : Expression) : Prop :=
  forall k rest, (1 <= k <= 5)%nat -> stop (S k) rest -> (length (print k e ++ rest) < S n)%nat ->
    exists m, (length rest < m)%nat /\
      level_parser k (print k e ++ rest) = binary_loop m (level_ops k) (level_parser (S k)) e rest.

Lemma paren_reads e p rest : wf e = true -> (level e < p)%nat -> (1 <= p <= 7)%nat -> stop p rest ->
  (length (print p e ++ rest) < S n)%nat -> reads (level_parser p) (print p e ++ rest) e rest.
Proof.
  intros Hwf Hl Hp Hs Hn. rewrite print_paren in * by done. cbn [app] in *.
  apply (descend_many p 7); [lia|lia|done|]. apply atom_factor; [done|]. by apply read_paren.
Qed.

Lemma atom_reads e : wf e = true -> level e = 8%nat -> reads_at e.
Proof.
  intros Hwf Hl p rest Hp Hs Hn. rewrite print_bare in * by lia. apply (descend_many p 7); [lia|lia|done|].
  pose proof (read_atom e rest Hwf Hl) as Hr. destruct (atom_first e Hwf Hl) as (t & r & Et & Hu). rewrite Et in *.
  apply atom_factor; [done|]. apply Hr; [|done]. eapply stop_mono; [|exact Hs]. lia.
Qed.

(** Read at its own level, an expression is read at every level. *)
Lemma own_level_reads e : wf e = true -> (level e <= 7)%nat ->
  (forall rest, stop (level e) rest -> (length (print 0 e ++ rest) < S n)%nat ->
     reads (level_parser (level e)) (print 0 e ++ rest) e rest) -> reads_at e.
Proof.
  intros Hwf Hl Hown p rest Hp Hs Hn. destruct (decide (p <= level e)%nat) as [Hle|Hgt]; [|apply paren_reads; [done|lia|done..]].
  rewrite print_bare in * by done. apply (descend_many p (level e)); [lia|done|done|].
  apply Hown; [|done]. by eapply stop_mono.
Qed.

Lemma reads_enters e k rest : (1 <= k <= 5)%nat -> level e <> k -> reads_at e -> stop (S k) rest ->
  (length (print k e ++ rest) < S n)%nat ->
  exists m, (length rest < m)%nat /\
    level_parser k (print k e ++ rest) = binary_loop m (level_ops k) (level_parser (S k)) e rest.
Proof.
  intros Hk Hne Hr Hs Hn. exists (S (length rest)). split; [lia|].
  assert (print k e = print (S k) e) as E.
  { destruct (decide (k <= level e)%nat); [rewrite (print_bare e k), (print_bare e (S k)) by lia|
      rewrite (print_paren e k), (print_paren e (S k)) by lia]; done. }
  rewrite E in *. rewrite level_parser_binary by done. unfold binary_level.
  erewrite run_some by (apply Hr; [lia|done|done]). by erewrite run_bind by reflexivity.
Qed.

Lemma loop_ends m k e rest : (1 <= k <= 5)%nat -> (length rest < m)%nat -> stop k rest ->
  reads (binary_loop m (level_ops k) (level_parser (S k)) e) rest e rest.
Proof.
  intros Hk Hm Hs. destruct m as [|m]; [lia|]. unfold reads. cbn [binary_loop].
  by erewrite run_bind by (by apply stop_no_op).
Qed.

Lemma print_binary op l r t (k := op_level op) : (k <= 5)%nat ->
  print 0 (BinaryExpr op l (Some r) t) = print k l ++ t :: print (S k) r.
Proof.
  intros Hk. unfold k in *. cbn [print]. unfold wrap. replace (op_level op =? 6)%nat with false; [done|].
  symmetry. apply Nat.eqb_neq. lia.
Qed.

Lemma op_level_max op : (op_level op <= 6)%nat.
Proof. destruct op; vm_compute; lia. Qed.

Lemma op_level_exponent op : op_level op = 6%nat -> is_tok Exponent op = true.
Proof. destruct op; vm_compute; first [discriminate | reflexivity]. Qed.

Lemma op_not_bracket op : (0 < op_level op)%nat -> op <> LParen /\ op <> LSquare.
Proof. intros H. split; intros ->; vm_compute in H; lia. Qed.

Lemma binary_enters op l r t rest (k := op_level op) : (1 <= k <= 5)%nat -> Type_ t = op -> enters_loop l -> reads_at r ->
  stop (S k) rest -> (length (print 0 (BinaryExpr op l (Some r) t) ++ rest) < S n)%nat ->
  exists m, (length rest < m)%nat /\
    level_parser k (print 0 (BinaryExpr op l (Some r) t) ++ rest)
    = binary_loop m (level_ops k) (level_parser (S k)) (BinaryExpr op l (Some r) t) rest.
Proof.
  intros Hk Ht Hl Hr Hs Hn. rewrite print_binary in * by (unfold k in *; lia). fold k in Hn |- *.
  rewrite <- app_assoc in *. cbn [app] in *.
  destruct (Hl k (t :: print (S k) r ++ rest)) as (m & Hm & ->); [done| |done|].
  { simpl. rewrite Ht. fold k. destruct (op_not_bracket op); [unfold k in Hk; lia|]. split_and!; [lia|done..]. }
  destruct m as [|m]; [lia|]. exists m. simpl in Hm. rewrite length_app in Hm. split; [lia|]. cbn [binary_loop].
  erewrite run_bind by (apply run_next_is; rewrite Ht; by apply level_ops_spec). cbv iota.
  erewrite run_bind by reflexivity. cbn [tail head].
  erewrite run_bind by (apply Hr; [lia|done|rewrite length_app in Hn; simpl in Hn; lia]). by rewrite Ht.
Qed.

Lemma power_reads op l r t rest : op_level op = 6%nat -> Type_ t = op -> reads_at l -> reads_at r -> stop 6 rest ->
  (length (print 0 (BinaryExpr op l (Some r) t) ++ rest) < S n)%nat ->
  reads (level_parser 6) (print 0 (BinaryExpr op l (Some r) t) ++ rest) (BinaryExpr op l (Some r) t) rest.
Proof.
  intros Hop Ht Hl Hr Hs Hn.
  assert (print 0 (BinaryExpr op l (Some r) t) = print 7 l ++ t :: print 6 r) as E by (cbn [print]; unfold wrap; by rewrite Hop).
  rewrite E in *. rewrite <- app_assoc in *. cbn [app] in *. unfold reads. cbn [level_parser]. unfold power.
  erewrite run_bind by reflexivity. cbn [parsePower].
  assert (reads (factor rec) (print 7 l ++ t :: print 6 r ++ rest) l (t :: print 6 r ++ rest)) as El.
  { apply (Hl 7%nat); [lia| |done]. simpl. rewrite Ht, Hop. destruct (op_not_bracket op); [lia|]. split_and!; [lia|done..]. }
  erewrite run_some by exact El.
  assert (is_tok Exponent (Type_ t) = true) as Hx by (rewrite Ht; by apply op_level_exponent).
  erewrite run_bind by (by apply run_next_is). cbv iota. erewrite run_bind by reflexivity. cbn [tail head].
  pose proof (Hr 6%nat rest ltac:(lia) Hs) as Er. rewrite length_app in Hn. simpl in Hn. specialize (Er ltac:(lia)).
  unfold reads in Er. cbn [level_parser] in Er. unfold power in Er. erewrite run_bind in Er by reflexivity.
  erewrite run_bind by (eapply parsePower_more; [exact Er|]; rewrite !length_app; simpl; rewrite ?length_app; lia). by rewrite Ht.
Qed.

Lemma unary_reads op r rest : isUnaryOp op = true -> reads_at r -> stop 7 rest ->
  (length (print 0 (UnaryExpr op (Some r)) ++ rest) < S n)%nat ->
  reads (level_parser 7) (print 0 (UnaryExpr op (Some r)) ++ rest) (UnaryExpr op (Some r)) rest.
Proof.
  intros Hop Hr Hs Hn. cbn [print wrap] in *. unfold wrap in *. cbn [Nat.ltb Nat.leb app level] in *.
  unfold reads. cbn [level_parser]. unfold factor. erewrite run_bind by reflexivity. cbn [parseFactor].
  erewrite run_bind by (by apply run_next_is). cbv iota. erewrite run_bind by reflexivity. cbn [tail head].
  pose proof (Hr 7%nat rest ltac:(lia) Hs) as Er. simpl in Hn. specialize (Er ltac:(lia)).
  unfold reads in Er. cbn [level_parser] in Er. unfold factor in Er. erewrite run_bind in Er by reflexivity.
  erewrite run_bind by (eapply parseFactor_more; [exact Er|simpl; lia]). done.
Qed.

Lemma expression_reads e : wf e = true -> reads_at e /\ enters_loop e.
Proof.
  induction e as [op l r t IHl IHr|op r IHr|v args t IH|v t|v ty t|args t IH|t|l r t IHl IHr|l s e t IHl IHs IHe]
    using Expression_ind'; intros Hwf;
    try (assert (reads_at _) as Ha by (by apply atom_reads); split; [exact Ha|]; intros k rest Hk Hs Hn; apply reads_enters; [done|simpl; lia|done..]).
  - pose proof (wf_level _ Hwf) as Hlvl. cbn [level] in Hlvl. cbn [wf] in Hwf. rewrite !andb_true_iff in Hwf.
    destruct r as [r|]; [|by destruct Hwf]. destruct Hwf as [[[Hop%bool_decide_eq_true Ht%bool_decide_eq_true] Hl] Hr].
    destruct (IHl Hl) as [Hrl Hel]. destruct (IHr r eq_refl Hr) as [Hrr _].
    assert (wf (BinaryExpr op l (Some r) t) = true) as Hwf by (cbn [wf]; by rewrite !bool_decide_eq_true_2, Hl, Hr by done).
    assert (reads_at (BinaryExpr op l (Some r) t)) as Hreads.
    { destruct (decide (op_level op <= 5)%nat) as [H5|H5].
      - apply own_level_reads; [done|simpl; lia|]. cbn [level]. intros rest Hs Hn.
        destruct (binary_enters op l r t rest) as (m & Hm & E); try done; try lia; [eapply stop_mono; [|exact Hs]; lia|].
        unfold reads. rewrite E. apply loop_ends; [lia|done|done].
      - assert (op_level op = 6%nat) as H6 by (pose proof (op_level_max op); lia).
        apply own_level_reads; [done|simpl; lia|]. cbn [level]. rewrite H6. intros rest Hs Hn. by apply power_reads. }
    split; [done|]. intros k rest Hk Hs Hn. destruct (decide (op_level op = k)) as [<-|Hne].
    + rewrite print_bare in * by (simpl; lia). by apply binary_enters.
    + by apply reads_enters.
  - cbn [wf] in Hwf. apply andb_true_iff in Hwf as [Hop Hr]. destruct r as [r|]; [|done].
    destruct (IHr r eq_refl Hr) as [Hrr _].
    assert (wf (UnaryExpr op (Some r)) = true) as Hwf by (cbn [wf]; by rewrite Hop, Hr).
    assert (reads_at (UnaryExpr op (Some r))) as Hreads.
    { apply own_level_reads; [done|simpl; lia|]. cbn [level]. intros rest Hs Hn. by apply unary_reads. }
    split; [done|]. intros k rest Hk Hs Hn. apply reads_enters; [done|simpl; lia|done..].
Qed.

End Read.

Lemma parse_expression_print n e rest : wf e = true -> stop 1 rest -> (length (print 1 e ++ rest) < n)%nat ->
  reads (parse_expression n) (print 1 e ++ rest) e rest.
Proof.
  revert e rest. induction n as [|n IH]; intros e rest Hwf Hs Hn; [lia|].
  exact (proj1 (expression_reads n (parse_expression n) IH e Hwf) 1%nat rest ltac:(lia) Hs Hn).
Qed.

Lemma parseExpression_print e rest : wf e = true -> stop 1 rest -> reads parseExpression (print 1 e ++ rest) e rest.
Proof.
  intros Hwf Hs. unfold reads, parseExpression. erewrite run_bind by reflexivity.
  apply parse_expression_print; [done|done|lia].
Qed.

(** ** Types *)

Definition simple_token (k : string) : option TokenType :=
  if String.eqb k "int" then Some Int
  else if String.eqb k "float" then Some Float
  else if String.eqb k "string" then Some TString
  else if String.eqb k "bool" then Some Bool
  else None.

Fixpoint print_type (t : Ty) : list Token :=
  match t with
  | SimpleType k => [tok (default Eof (simple_token k)) k]
  | ArrayType n e =>
      tok LSquare "[" :: (if n =? -1 then [] else [tok IntLiteral (dec n)]) ++ tok RSquare "]"
        :: match e with Some e => print_type e | None => [] end
  | MapType _ v =>
      tok Map "map" :: tok LSquare "[" :: tok TString "string" :: tok RSquare "]"
        :: match v with Some v => print_type v | None => [] end
  end.

Fixpoint wf_type (t : Ty) : bool :=
  match t with
  | SimpleType k => bool_decide (is_Some (simple_token k))
  | ArrayType n e => (-1 <=? n) && (n <? 2 ^ 63) && match e with Some e => wf_type e | None => false end
  | MapType k v =>
      match k with Some (SimpleType k) => String.eqb k "string" | _ => false end
      && match v with Some v => wf_type v | None => false end
  end.

Lemma Atoi_dec n : 0 <= n < 2 ^ 63 -> Atoi (dec n) = Some n.
Proof.
  intros Hn. unfold Atoi, dec. rewrite SetString_Text by lia. rewrite bool_decide_eq_true_2; [done|]. unfold is_i64. lia.
Qed.

Lemma array_size_reads n rest : -1 <= n < 2 ^ 63 ->
  array_size ((if n =? -1 then [] else [tok IntLiteral (dec n)]) ++ tok RSquare "]" :: rest)
  = Some (Ret (tok RSquare "]" :: rest, Ok n)).
Proof.
  intros Hn. destruct (Z.eqb_spec n (-1)) as [->|Hne]; [reflexivity|]. unfold array_size. cbn [app].
  rewrite (run_bind (next_is (is_tok IntLiteral)) _ (tok IntLiteral (dec n) :: tok RSquare "]" :: rest) _ true eq_refl). erewrite run_bind by reflexivity. cbn [head tail mbind option_bind]. change (Value (tok IntLiteral (dec n))) with (dec n).
  rewrite Atoi_dec by lia. done.
Qed.

Fixpoint parseType_print t m rest : wf_type t = true -> (length (print_type t) < m)%nat ->
  parseType m (print_type t ++ rest) = Some (Ret (rest, Ok (Some t))).
Proof.
  destruct t as [k|n e|k v]; intros Hwf Hm; (destruct m as [|m]; [lia|]); cbn [wf_type] in Hwf.
  - apply bool_decide_eq_true in Hwf as [ty Hty]. cbn [print_type app parseType]. erewrite run_bind by reflexivity. cbn [head].
    rewrite Hty. unfold simple_token in Hty.
    repeat (match type of Hty with context [if String.eqb ?a ?b then _ else _] => destruct (String.eqb_spec a b) as [->|_] end;
      [injection Hty as <-; reflexivity|]). done.
  - rewrite !andb_true_iff in Hwf. destruct Hwf as [[H1 H2] He]. destruct e as [e|]; [|done].
    cbn [print_type]. cbn [app parseType]. erewrite run_bind by reflexivity. cbn [head].
    change (Type_ (tok LSquare "[")) with LSquare. cbv iota. erewrite run_bind by reflexivity.
    rewrite <- app_assoc. cbn [app]. erewrite run_bind by (apply array_size_reads; lia). cbv iota.
    erewrite run_bind by reflexivity. cbn [print_type length] in Hm. rewrite length_app in Hm. simpl in Hm.
    by erewrite run_bind by (apply parseType_print; [done|lia]).
  - apply andb_true_iff in Hwf as [Hk Hv]. destruct v as [v|]; [|done]. destruct k as [[k| |]|]; try done.
    apply String.eqb_eq in Hk as ->. cbn [print_type app parseType]. erewrite run_bind by reflexivity. cbn [head].
    change (Type_ (tok Map "map")) with Map. cbv iota. do 3 erewrite run_bind by reflexivity. cbn [head tail].
    change (is_tok TString (Type_ (tok TString "string"))) with true. cbv iota. erewrite run_bind by reflexivity.
    by erewrite run_bind by (apply parseType_print; [done|simpl in Hm; lia]).
Qed.

Lemma parse_type_print t rest : wf_type t = true -> parse_type (print_type t ++ rest) = Some (Ret (rest, Ok (Some t))).
Proof.
  intros Hwf. unfold parse_type. erewrite run_bind by reflexivity. apply parseType_print; [done|]. rewrite length_app. lia.
Qed.

(** ** Statements *)

Fixpoint print_stmt (s : Statement) : list Token :=
  match s with
  | AssignmentStmt ty lhs rhs _ =>
      print 8 lhs ++ match ty with Some ty => tok Colon ":" :: print_type ty | None => [] end
        ++ match rhs with Some r => tok Assign "=" :: print 1 r | None => [] end
  | ReturnStmt e => tok Return "return" :: print 1 e
  | IfStmt c b eb t =>
      t :: print 1 c ++ print_block b
        ++ match eb with Some eb => tok Else "else" :: print_block eb | None => [] end
  | WhileStmt c b => tok While "while" :: print 1 c ++ print_block b
  | BreakStmt t => [t]
  | ContinueStmt t => [t]
  | ExpressionStmt e => print 1 e
  end
with print_block (b : Block) : list Token :=
  match b with MkBlock l _ => tok LBrace "{" :: concat (map print_stmt l) ++ [tok RBrace "}"] end.

(** What may begin the statement after another one: nothing that continues an
    expression, a declaration or a conditional. *)
Definition first_ok (ty : TokenType) : bool :=
  (op_level ty =? 0)%nat
  && negb (is_tok LParen ty || is_tok LSquare ty || is_tok Assign ty || is_tok Colon ty || is_tok Else ty).

Definition after (rest : list Token) : Prop := match rest with t :: _ => first_ok (Type_ t) = true | [] => False end.

(** Expressions that are parsed as expressions when a statement begins with
    them: a statement that begins with a call ends after it, one that begins
    with an index is an assignment. *)
Definition statement_like (e : Expression) : bool :=
  match print 1 e with
  | t :: r =>
      first_ok (Type_ t)
      && (negb (is_tok Identifier (Type_ t))
          || match r with
             | t2 :: _ =>
                 if is_tok LParen (Type_ t2) then match e with CallExpr _ _ _ => true | _ => false end
                 else negb (is_tok LSquare (Type_ t2) || is_tok Assign (Type_ t2) || is_tok Colon (Type_ t2))
             | [] => true
             end)
  | [] => false
  end.

(** The assigned expression, and the identifier it begins with. *)
Definition wf_target (lhs : Expression) (t : Token) (declared : bool) : bool :=
  match lhs with
  | IdentifierExpr _ t' => bool_decide (t' = t)
  | IndexExpr (IdentifierExpr _ t') _ _ | SliceExpr (IdentifierExpr _ t') _ _ _ => bool_decide (t' = t) && negb declared
  | _ => false
  end.

Fixpoint wf_stmt (s : Statement) : bool :=
  match s with
  | AssignmentStmt ty lhs rhs t =>
      wf lhs && wf_target lhs t (bool_decide (is_Some ty))
      && match ty with Some ty => wf_type ty | None => bool_decide (is_Some rhs) end
      && match rhs with Some r => wf r | None => true end
  | ReturnStmt e => wf e
  | IfStmt c b eb t =>
      bool_decide (Type_ t = If) && wf c && wf_block b && match eb with Some eb => wf_block eb | None => true end
  | WhileStmt c b => wf c && wf_block b
  | BreakStmt t => bool_decide (Type_ t = Break)
  | ContinueStmt t => bool_decide (Type_ t = Continue)
  | ExpressionStmt e => wf e && statement_like e
  end
with wf_block (b : Block) : bool :=
  match b with MkBlock l s => forallb wf_stmt l && bool_decide (s = ∅) end.

Lemma after_stop rest : after rest -> stop 1 rest.
Proof.
  destruct rest as [|t r]; [done|]. simpl. unfold first_ok, is_tok. rewrite !andb_true_iff, Nat.eqb_eq, negb_true_iff, !orb_false_iff.
  rewrite !bool_decide_eq_false. intros [-> H]. split; [lia|tauto].
Qed.

Lemma after_not rest ty : after rest -> first_ok ty = false -> next_is (is_tok ty) rest = Some (Ret (rest, false)).
Proof.
  destruct rest as [|t r]; [done|]. intros Ha Hf. apply run_next_is. unfold is_tok. apply bool_decide_eq_false.
  intros E. simpl in Ha. by rewrite E, Hf in Ha.
Qed.

Lemma stmt_first s : wf_stmt s = true -> exists t r, print_stmt s = t :: r /\ first_ok (Type_ t) = true.
Proof.
  destruct s as [ty lhs rhs t|e|c b eb t|c b|t|t|e]; intros Hwf; cbn [wf_stmt] in Hwf; cbn [print_stmt].
  - rewrite !andb_true_iff in Hwf. destruct Hwf as [[[Hl Ht] _] _].
    assert (exists u r, print 8 lhs = u :: r /\ Type_ u = Identifier) as (u & r & -> & Hu).
    { destruct lhs as [| | |v u| | | |l r u|l x y u]; try done; cbn [wf] in Hl.
      - apply andb_true_iff in Hl as [Hu%bool_decide_eq_true _]. by eexists _, _.
      - destruct l as [| | |v w| | | | |]; try done. rewrite !andb_true_iff in Hl. destruct Hl as [[[_ Hl] _] _].
        cbn [wf] in Hl. apply andb_true_iff in Hl as [Hu%bool_decide_eq_true _]. by eexists _, _.
      - destruct l as [| | |v w| | | | |]; try done. rewrite !andb_true_iff in Hl. destruct Hl as [[[[[_ Hl] _] _] _] _].
        cbn [wf] in Hl. apply andb_true_iff in Hl as [Hu%bool_decide_eq_true _]. by eexists _, _. }
    eexists _, _. split; [done|]. by rewrite Hu.
  - by eexists _, _.
  - rewrite !andb_true_iff, bool_decide_eq_true in Hwf. destruct Hwf as [[[Ht _] _] _]. eexists _, _. split; [done|]. by rewrite Ht.
  - by eexists _, _.
  - apply bool_decide_eq_true in Hwf. eexists _, _. split; [done|]. by rewrite Hwf.
  - apply bool_decide_eq_true in Hwf. eexists _, _. split; [done|]. by rewrite Hwf.
  - apply andb_true_iff in Hwf as [_ Hs]. unfold statement_like in Hs. destruct (print 1 e) as [|t r]; [done|].
    apply andb_true_iff in Hs as [Hf _]. by eexists _, _.
Qed.

Lemma expect_expression_print m e rest : wf e = true -> stop 1 rest ->
  expect_expression m (print 1 e ++ rest) = Some (Ret (rest, e)).
Proof.
  intros Hwf Hs. unfold expect_expression. by erewrite run_bind by (by apply parseExpression_print).
Qed.

(** On fewer than [m] tokens [p] reads statements, and stops at a brace. *)
Record stmt_reads (m : nat) (p : P (option Statement)) : Prop := {
  reads_stmt s rest : wf_stmt s = true -> after rest -> (length (print_stmt s ++ rest) < m)%nat ->
    p (print_stmt s ++ rest) = Some (Ret (rest, Some s));
  reads_brace rest : (0 < m)%nat -> p (tok RBrace "}" :: rest) = Some (Ret (tok RBrace "}" :: rest, None))
}.

Lemma statements_read m p l k acc rest (body := concat (map print_stmt l) ++ tok RBrace "}" :: rest) :
  stmt_reads m p -> forallb wf_stmt l = true -> (length body < m)%nat -> (length body < k)%nat ->
  statement_loop k p acc body = Some (Ret (tok RBrace "}" :: rest, acc ++ l)).
Proof.
  intros Hm. unfold body. clear body. revert k acc. induction l as [|s l IH]; intros k acc Hwf H1 H2; (destruct k as [|k]; [lia|]).
  - cbn [map concat app statement_loop]. erewrite run_bind by (apply (reads_brace m p Hm); lia). by rewrite app_nil_r.
  - cbn [forallb] in Hwf. apply andb_true_iff in Hwf as [Hs Hl]. cbn [map concat] in *. rewrite <- app_assoc in *.
    cbn [statement_loop]. destruct (stmt_first s Hs) as (t & r & Et & Hf).
    erewrite run_bind.
    2: { apply (reads_stmt m p Hm); [done| |done]. destruct l as [|s' l]; [done|]. cbn [map concat forallb] in *.
         apply andb_true_iff in Hl as [Hs' _]. destruct (stmt_first s' Hs') as (t' & r' & -> & Hf'). done. }
    cbv iota beta. rewrite Et in H1, H2. rewrite length_app in H1, H2. simpl in H1, H2.
    rewrite IH by (done || lia). by rewrite <- app_assoc.
Qed.

Lemma braces_read m p b rest : stmt_reads m p -> wf_block b = true -> (length (print_block b ++ rest) <= m)%nat ->
  parse_braces p (print_block b ++ rest) = Some (Ret (rest, b)).
Proof.
  intros Hm Hwf Hn. destruct b as [l sc]. cbn [wf_block] in Hwf. apply andb_true_iff in Hwf as [Hl ->%bool_decide_eq_true].
  cbn [print_block] in *. cbn [app] in *. rewrite <- app_assoc in *. cbn [app] in *. unfold parse_braces.
  erewrite run_bind by reflexivity. unfold parse_block.
  assert ((n ← remaining; statements ← statement_loop (S n) p []; mret (MkBlock statements ∅))
            (concat (map print_stmt l) ++ tok RBrace "}" :: rest)
          = Some (Ret (tok RBrace "}" :: rest, MkBlock l ∅))) as E.
  { erewrite run_bind by reflexivity. by erewrite run_bind by (apply (statements_read m); [done|done|simpl in Hn; lia|lia]). }
  erewrite run_bind by exact E. by erewrite run_bind by reflexivity.
Qed.

(** An assignment to a variable, or its declaration. *)
Lemma assignment_reads ty v t rhs rest : wf (IdentifierExpr v t) = true ->
  match ty with Some ty => wf_type ty | None => bool_decide (is_Some rhs) end = true ->
  match rhs with Some r => wf r | None => true end = true -> after rest ->
  parseAssignment (t :: match ty with Some ty => tok Colon ":" :: print_type ty | None => [] end
    ++ match rhs with Some r => tok Assign "=" :: print 1 r | None => [] end ++ rest)
  = Some (Ret (rest, Some (AssignmentStmt ty (IdentifierExpr v t) rhs t))).
Proof.
  intros Hid Hty Hr Ha. cbn [wf] in Hid. apply andb_true_iff in Hid as [Ht%bool_decide_eq_true <-%bool_decide_eq_true].
  unfold parseAssignment. erewrite run_bind by (by apply run_assert). cbv zeta.
  assert (forall (k : res type_error Type_t), k = Ok ty ->
    match k with
    | Err _ => mret None
    | Ok varType =>
        t0 ← peek_type;
        if is_tok Assign t0 then
          consumeAssert Assign;;
          if_some parseExpression (fun rhs => mret (Some (AssignmentStmt varType (IdentifierExpr (Value t) t) (Some rhs) t)))
        else mret (Some (AssignmentStmt varType (IdentifierExpr (Value t) t) None t))
    end (match rhs with Some r => tok Assign "=" :: print 1 r | None => [] end ++ rest)
    = Some (Ret (rest, Some (AssignmentStmt ty (IdentifierExpr (Value t) t) rhs t)))) as Hrest.
  { intros k ->. destruct rhs as [r|].
    - cbn [app]. erewrite run_bind by reflexivity. change (is_tok Assign (Type_ (tok Assign "="))) with true. cbv iota.
      erewrite run_bind by reflexivity. by erewrite run_some by (apply parseExpression_print; [done|by apply after_stop]).
    - pose proof (after_not rest Assign Ha eq_refl) as Hn. destruct rest as [|u rest]; [done|]. cbn [app].
      erewrite run_bind by reflexivity. injection Hn as Hn. by rewrite Hn. }
  destruct ty as [ty|].
  - cbn [app]. erewrite run_bind by reflexivity. cbn [head].
    change (is_tok Colon (Type_ (tok Colon ":"))) with true. cbv iota.
    erewrite run_bind by (erewrite run_bind by reflexivity; by apply parse_type_print). by apply (Hrest (Ok (Some ty))).
  - destruct rhs as [r|]; [|done]. cbn [app] in *. erewrite run_bind by reflexivity. cbn [head].
    change (is_tok Colon (Type_ (tok Assign "="))) with false. cbv iota. erewrite run_bind by reflexivity. by apply (Hrest (Ok None)).
Qed.

(** An assignment to an index or, as far as the parser goes, to a slice. *)
Lemma indexed_reads lhs t r rest : wf lhs = true -> wf_target lhs t false = true -> is_identifier lhs = false ->
  wf r = true -> stop 1 rest ->
  exists u ts, print 8 lhs = t :: u :: ts /\ Type_ t = Identifier /\ Type_ u = LSquare
    /\ parseIndexedAssignment (print 8 lhs ++ tok Assign "=" :: print 1 r ++ rest)
       = Some (Ret (rest, Some (AssignmentStmt None lhs (Some r) t))).
Proof.
  intros Hl Ht Hi Hr Hs.
  assert (forall ts v, parseIndexOrSlice parseExpression (IdentifierExpr v t) ts = Some (Ret (tok Assign "=" :: print 1 r ++ rest, Some lhs)) ->
    Type_ t = Identifier -> Value t = v ->
    parseIndexedAssignment (t :: ts) = Some (Ret (rest, Some (AssignmentStmt None lhs (Some r) t)))) as Hrest.
  { intros ts v E Hti <-. unfold parseIndexedAssignment. erewrite run_bind by (by apply run_assert).
    erewrite run_some by exact E. erewrite run_bind by reflexivity. by erewrite run_some by (by apply parseExpression_print). }
  destruct lhs as [| | | | | | |[| | |v w| | | | |] i u|[| | |v w| | | | |] x y u]; try done; cbn [wf_target negb] in Ht;
    rewrite andb_true_r in Ht; apply bool_decide_eq_true in Ht as ->; cbn [wf is_identifier] in Hl; rewrite !andb_true_iff in Hl.
  - destruct Hl as [[[_ [Hti%bool_decide_eq_true Hv%bool_decide_eq_true]] Hu%bool_decide_eq_true] Hwi].
    exists u, (print 1 i ++ [tok RSquare "]"]). split_and!; [done|done|done|]. cbn [print wrap app].
    apply Hrest with (v := v); [|done|done].
    apply (read_index (S (length (print 1 i ++ tok RSquare "]" :: tok Assign "=" :: print 1 r ++ rest)))); [|done|done|lia].
    intros. by apply parseExpression_print.
  - destruct Hl as [[[[[_ [Hti%bool_decide_eq_true Hv%bool_decide_eq_true]] Hu%bool_decide_eq_true] Hx] Hy] Hne].
    eexists u, _. split_and!; [done|done|done|]. cbn [print wrap app].
    apply Hrest with (v := v); [|done|done].
    apply (read_slice (S (length (match x with Some s => print 1 s | None => [] end ++ tok Colon ":"
          :: match y with Some e => print 1 e | None => [] end ++ tok RSquare "]" :: tok Assign "=" :: print 1 r ++ rest))));
      [|done|done|done| |lia].
    + intros. by apply parseExpression_print.
    + destruct x; [by left|]. destruct y; [by right|done].
Qed.

Lemma expression_statement_reads f e rest : wf e = true -> statement_like e = true -> after rest ->
  parse_statement (S f) (print 1 e ++ rest) = Some (Ret (rest, Some (ExpressionStmt e))).
Proof.
  intros Hwf Hs Ha. pose proof (after_stop rest Ha) as Hstop.
  assert (forall m, (expr ← expect_expression m; mret (Some (ExpressionStmt expr))) (print 1 e ++ rest)
                    = Some (Ret (rest, Some (ExpressionStmt e)))) as Hx.
  { intros m. by erewrite run_bind by (by apply expect_expression_print). }
  assert (if_some parseExpression (fun expr => mret (Some (ExpressionStmt expr))) (print 1 e ++ rest)
          = Some (Ret (rest, Some (ExpressionStmt e)))) as Hy.
  { by erewrite run_some by (by apply parseExpression_print). }
  destruct (print_starts e 1 Hwf) as (t & r & Ep & Hst). unfold statement_like in Hs. rewrite Ep in Hs, Hx, Hy |- *.
  cbn [app parse_statement] in *. erewrite run_bind by reflexivity. cbn [head].
  apply andb_true_iff in Hs as [Hf Hs]. destruct (Type_ t) eqn:Et; try done; try apply Hx.
  erewrite run_bind by reflexivity. cbn [is_tok negb orb] in Hs. destruct r as [|t2 r].
  - cbn [app] in *. destruct rest as [|u rest]; [done|]. cbn in Ha. by destruct (Type_ u).
  - cbn [app] in *. change (is_tok Identifier Identifier) with true in Hs. cbn [negb orb] in Hs.
    destruct (Type_ t2) eqn:Et2; try done. change (is_tok LParen LParen) with true in Hs. cbv iota in Hs.
    destruct e as [| |v args w| | | | | |]; try done. cbn [wf] in Hwf. apply andb_true_iff in Hwf as [Hv%bool_decide_eq_true Hargs].
    change (t :: t2 :: r ++ rest) with ((t :: t2 :: r) ++ rest). rewrite <- Ep. cbn [print wrap]. unfold wrap. cbn [level Nat.ltb Nat.leb app].
    erewrite run_some; [done|].
    apply (read_call (S (length (sep (map (print 1) args) ++ tok RParen ")" :: rest))) parseExpression); [|done|done|lia].
    intros. by apply parseExpression_print.
Qed.

Lemma condition_stop b rest : stop 1 (print_block b ++ rest).
Proof. destruct b as [l sc]. cbn [print_block app]. stops. Qed.

Lemma stmt_reads_all m : stmt_reads m (parse_statement m).
Proof.
  induction m as [|m IH]; (split; [|by destruct 1]); intros s rest Hwf Ha Hn; [lia|]. pose proof (after_stop rest Ha) as Hstop.
  destruct s as [ty lhs rhs t|e|c b eb t|c b|t|t|e]; cbn [wf_stmt] in Hwf.
  - rewrite !andb_true_iff in Hwf. destruct Hwf as [[[Hl Ht] Hty] Hr].
    cbn [print_stmt]. rewrite <- !app_assoc. destruct (is_identifier lhs) eqn:Hi.
    + destruct lhs as [| | |v t'| | | | |]; try done. cbn [wf_target] in Ht. apply bool_decide_eq_true in Ht as ->.
      pose proof (assignment_reads ty v t rhs rest Hl Hty Hr Ha) as E. cbn [print wrap]. unfold wrap. cbn [level Nat.ltb Nat.leb app].
      cbn [wf] in Hl. apply andb_true_iff in Hl as [Hti%bool_decide_eq_true Hv]. cbn [parse_statement].
      erewrite run_bind by reflexivity. cbn [head]. rewrite Hti. erewrite run_bind by reflexivity.
      destruct ty as [ty|]; [exact E|]. destruct rhs as [r|]; [exact E|done].
    + destruct ty as [ty|]; [by destruct lhs as [| | |? ?| | | |[| | |? ?| | | | |] ? ?|[| | |? ?| | | | |] ? ? ?]; cbn in Ht; rewrite ?andb_false_r in Ht|].
      destruct rhs as [r|]; [|done].
      destruct (indexed_reads lhs t r rest Hl Ht Hi Hr Hstop) as (u & ts & Ep & Hti & Hu & E).
      rewrite Ep in *. cbn [app] in *. cbn [parse_statement]. erewrite run_bind by reflexivity. cbn [head]. rewrite Hti.
      erewrite run_bind by reflexivity. cbv beta iota. rewrite Hu. exact E.
  - cbn [print_stmt app parse_statement]. do 2 (erewrite run_bind by reflexivity; cbn [head tok Type_]; cbv beta iota).
    by erewrite run_bind by (by apply expect_expression_print).
  - rewrite !andb_true_iff, bool_decide_eq_true in Hwf. destruct Hwf as [[[Ht Hc] Hb] Heb].
    cbn [print_stmt app] in *. rewrite <- !app_assoc in *. cbn [parse_statement].
    erewrite run_bind by reflexivity. cbn [head]. rewrite Ht. erewrite run_bind by (by apply run_assert).
    erewrite run_bind by (apply expect_expression_print; [done|apply condition_stop]).
    simpl in Hn. rewrite length_app in Hn. erewrite run_bind by (apply (braces_read m); [done|done|lia]).
    destruct eb as [eb|].
    + cbn [app] in *. erewrite (run_bind _ _ _ _ true) by reflexivity. cbv beta iota. erewrite run_bind by reflexivity.
      rewrite length_app in Hn. simpl in Hn. by erewrite run_bind by (apply (braces_read m); [done|done|lia]).
    + cbn [app] in *. by erewrite run_bind by (by apply after_not).
  - apply andb_true_iff in Hwf as [Hc Hb]. cbn [print_stmt app] in *. rewrite <- !app_assoc in *. cbn [parse_statement].
    do 2 (erewrite run_bind by reflexivity; cbn [head tok Type_]; cbv beta iota).
    erewrite run_bind by (apply expect_expression_print; [done|apply condition_stop]).
    simpl in Hn. rewrite length_app in Hn. by erewrite run_bind by (apply (braces_read m); [done|done|lia]).
  - apply bool_decide_eq_true in Hwf. cbn [print_stmt app parse_statement]. erewrite run_bind by reflexivity. cbn [head].
    rewrite Hwf. by erewrite run_bind by (by apply run_assert).
  - apply bool_decide_eq_true in Hwf. cbn [print_stmt app parse_statement]. erewrite run_bind by reflexivity. cbn [head].
    rewrite Hwf. by erewrite run_bind by (by apply run_assert).
  - apply andb_true_iff in Hwf as [He Hs]. by apply expression_statement_reads.
Qed.

Lemma parseStatement_reads m : stmt_reads m parseStatement.
Proof.
  split.
  - intros s rest Hwf Ha _. unfold parseStatement. erewrite run_bind by reflexivity.
    apply (reads_stmt _ _ (stmt_reads_all _)); [done|done|lia].
  - intros rest _. unfold parseStatement. by erewrite run_bind by reflexivity.
Qed.

(** ** Programs *)

Definition print_parameter (name : string) (ty : Type_t) : list Token :=
  tok Identifier name :: tok Colon ":" :: match ty with Some ty => print_type ty | None => [] end.

Definition print_function (fd : Function_) : list Token :=
  tok Define "define" :: tok Identifier (FName fd) :: tok LParen "("
    :: sep (zip_with print_parameter (Parameters fd) (ParameterTypes fd)) ++ tok RParen ")" :: tok Colon ":"
    :: match ReturnType fd with Some ty => print_type ty | None => [] end ++ print_block (FBlock fd).

Definition wf_type_t (ty : Type_t) : bool := match ty with Some ty => wf_type ty | None => false end.

Definition wf_function (fd : Function_) : bool :=
  bool_decide (TokenTypeMap !! FName fd = None)
  && bool_decide (length (Parameters fd) = length (ParameterTypes fd))
  && forallb wf_type_t (ParameterTypes fd) && wf_type_t (ReturnType fd) && wf_block (FBlock fd).

Definition print_program (fds : list Function_) : list Token := concat (map print_function fds).

Lemma parameters_read names types m ns tys rest : length names = length types -> forallb wf_type_t types = true ->
  (length (sep (zip_with print_parameter names types) ++ tok RParen ")" :: rest) < m)%nat ->
  parse_parameters m ns tys (sep (zip_with print_parameter names types) ++ tok RParen ")" :: rest)
  = Some (Ret (tok RParen ")" :: rest, Some (ns ++ names, tys ++ types))).
Proof.
  revert types m ns tys. induction names as [|name names IH]; intros [|ty types] m ns tys Hlen Hwf Hm; try done;
    (destruct m as [|m]; [lia|]); [simpl; by rewrite !app_nil_r|].
  cbn [forallb] in Hwf. apply andb_true_iff in Hwf as [Hty Htys]. destruct ty as [ty|]; [|done]. injection Hlen as Hlen.
  set (aft := match names with [] => tok RParen ")" :: rest
              | _ => tok Comma "," :: sep (zip_with print_parameter names types) ++ tok RParen ")" :: rest end).
  assert (sep (zip_with print_parameter (name :: names) (Some ty :: types)) ++ tok RParen ")" :: rest
          = print_parameter name (Some ty) ++ aft) as E.
  { unfold aft. destruct names, types; try done. cbn [zip_with sep]. by rewrite <- app_assoc. }
  rewrite E in *. unfold print_parameter at 1. unfold print_parameter at 1 in Hm. cbn [app parse_parameters] in *.
  erewrite run_bind by reflexivity. change (is_tok RParen (Type_ (tok Identifier name))) with false. cbv iota.
  do 2 erewrite run_bind by reflexivity. erewrite run_bind by (by apply parse_type_print). cbv iota.
  cbn [length] in Hm. rewrite length_app in Hm. unfold aft in *. destruct names as [|name' names].
  - destruct types; [|done]. erewrite run_bind by reflexivity. rewrite (IH []) by (done || (simpl in *; lia)). by rewrite !app_nil_r.
  - erewrite run_bind by reflexivity. cbn [tail]. cbn [length] in Hm. rewrite IH by (done || lia). by rewrite <- !app_assoc.
Qed.

Lemma function_reads fd rest : wf_function fd = true ->
  parseFunctionDefinition (print_function fd ++ rest) = Some (Ret (rest, Some fd)).
Proof.
  intros Hwf. unfold wf_function in Hwf. rewrite !andb_true_iff, !bool_decide_eq_true in Hwf.
  destruct Hwf as [[[[Hname Hlen] Htys] Hret] Hb]. destruct fd as [name params types ret body]. cbn [FName Parameters ParameterTypes ReturnType FBlock] in *.
  destruct ret as [ret|]; [|done]. unfold print_function, parseFunctionDefinition. cbn [FName Parameters ParameterTypes ReturnType FBlock app].
  do 2 erewrite run_bind by reflexivity. change (Value (tok Identifier name)) with name.
  rewrite Hname, bool_decide_eq_false_2 by (by intros [? ?]). do 2 erewrite run_bind by reflexivity.
  rewrite <- app_assoc. cbn [app]. erewrite run_some by (apply parameters_read; [done|done|lia]).
  do 2 erewrite run_bind by reflexivity. rewrite <- app_assoc. erewrite run_bind by (by apply parse_type_print). cbv iota.
  pose proof (braces_read _ _ body rest (parseStatement_reads (length (print_block body ++ rest))) Hb ltac:(lia)) as E.
  unfold parse_braces in E. fold parseBlock in E. unfold mbind, P_bind in *.
  destruct (consumeAssert LBrace _) as [[[ts t]|k]|]; [|done..]. destruct (parseBlock ts) as [[[ts2 b]|k]|]; [|done..].
  destruct (consumeAssert RBrace ts2) as [[[ts3 t3]|k]|]; [|done..]. by injection E as -> ->.
Qed.

Definition add_function (m : gmap string Function_) (fd : Function_) : gmap string Function_ := <[FName fd := fd]> m.

Lemma functions_read fds m ast : forallb wf_function fds = true -> (length (print_program fds) < m)%nat ->
  parse_functions m ast (print_program fds)
  = Some (Ret ([], MkAst (Tokens ast) (foldl add_function (Functions ast) fds) (AScope ast))).
Proof.
  revert m ast. induction fds as [|fd fds IH]; intros m ast Hwf Hm; (destruct m as [|m]; [lia|]).
  - by destruct ast.
  - cbn [forallb] in Hwf. apply andb_true_iff in Hwf as [Hfd Hfds]. unfold print_program in *. cbn [map concat] in *.
    cbn [parse_functions]. unfold print_function at 1. cbn [app]. erewrite run_bind by reflexivity. cbn [head].
    change (is_tok Define (Type_ (tok Define "define"))) with true. cbv iota.
    change (tok Define "define" :: ?l) with (print_function fd ++ concat (map print_function fds)) at 1.
    erewrite run_bind by (by apply function_reads). cbv iota. rewrite length_app in Hm. simpl in Hm.
    by rewrite IH by (done || lia).
Qed.

Lemma parse_written fds : forallb wf_function fds = true ->
  Parse (print_program fds)
  = Some (Ret (MkAst (print_program fds) (foldl add_function ∅ fds) (AScope (NewAst [])))).
Proof. intros Hwf. unfold Parse. by rewrite functions_read by (done || lia). Qed.

(** Every program the printer can write, with only the parentheses that are
    needed, is read back as it was. *)
Theorem parse_print fds : forallb wf_function fds = true ->
  Parse (print_program fds)
  = Some (Ret (MkAst (print_program fds) (foldl add_function ∅ fds) (AScope (NewAst [])))).
Proof. apply parse_written. Qed.

(** A contract that counts its calls, with apostrophes for quotes. *)
Definition counter_text : string :=
  string_of_bytes (map (fun c => if Ascii.eqb c "'" then quote else c) (bytes_of_string
"define init() : int {
  persistent['counter'] = '42'
  return 0
}

define call() : int {
  counterStr: string = persistent['counter']
  current: int = 0
  if len(counterStr) > 0 {
    current = int(counterStr)
  }

  newValue: int = current + 1
  persistent['counter'] = string(newValue)
  emit(newValue)
  return newValue
}")).

Definition counter_tokens : list Token := match Lex counter_text with Some (Ret (ts, None)) => ts | _ => [] end.

Definition counter_ast : Ast := match Parse counter_tokens with Some (Ret ast) => ast | _ => NewAst [] end.

Definition counter_functions : list Function_ := map snd (map_to_list (Functions counter_ast)).

Lemma counter_wf : forallb wf_function counter_functions = true.
Proof. vm_compute. reflexivity. Qed.

Lemma parse_print_witness :
  length counter_functions = 2%nat
  /\ Parse (print_program counter_functions)
     = Some (Ret (MkAst (print_program counter_functions) (foldl add_function ∅ counter_functions) (AScope (NewAst [])))).
Proof. split; [vm_compute; reflexivity | exact (parse_print _ counter_wf)]. Defined.

End Print.
