(* ===== verification/MgTypes.v ===== *)
(** * The type checker of Marigold (src/marigold/typechecker.go)

    The checker walks the functions with a chain of scopes, the innermost first
    and the global one last; it fills the scopes of the blocks and the sizes of
    declared arrays, so its result is a new syntax tree.  It reports errors by
    panicking.  A [Type] can be [nil], and its methods then panic too. *)

From S2P Require Import Prelude GoLib MgLexer MgAst.

Module Typecheck.
Export Mg.

(** Computations on the chain of scopes. *)
Definition T (A : Type) : Type := list variables -> go (list variables * A).

#[export] Instance T_ret : MRet T := fun A a sc => Ret (sc, a).
#[export] Instance T_bind : MBind T := fun A B f p sc => x ← p sc; f x.2 x.1.

Definition get : T (list variables) := fun sc => Ret (sc, sc).
Definition of_go {A} (c : go A) : T A := fun sc => a ← c; Ret (sc, a).
Definition panic {A} (message : string) : T A := fun _ => Panic (ExplicitPanic message).

(** [logFatal] with types in its message, whose [String] is called first. *)
Fixpoint fatal {A} (message : string) (types : list Type_t) : T A :=
  match types with
  | [] => panic message
  | t :: r => of_go (TypeString t);; fatal message r
  end.

(** [a && b] and [a || b] on conditions that may panic. *)
Definition go_and (a b : go bool) : go bool := x ← a; if (x : bool) then b else Ret false.
Definition go_or (a b : go bool) : go bool := x ← a; if (x : bool) then Ret true else b.

Fixpoint findVariable (scopes : list variables) (name : string) : option Variable_ :=
  match scopes with
  | [] => None
  | s :: r => match s !! name with Some v => Some v | None => findVariable r name end
  end.

(** [ast.Scope.Variables[name] = v]: the last scope of the chain. *)
Fixpoint set_global (name : string) (v : Variable_) (scopes : list variables) : list variables :=
  match scopes with
  | [] => []
  | [g] => [<[name := v]> g]
  | s :: r => s :: set_global name v r
  end.

Definition declare (name : string) (t : Type_t) : T unit := fun scopes =>
  Ret (match scopes with
       | [] => []
       | s :: r => <[name := MkVariable name "" t]> s :: r
       end, ()).

(** A context variable is added to the global scope when it is first used. *)
Definition load_global (name : string) (v : Variable_) : T unit := fun scopes => Ret (set_global name v scopes, ()).

Definition isValidUnaryOperatorUse (op : TokenType) (operandType : Type_t) : go bool :=
  match op with Minus => IsNumeric operandType | _ => Ret false end.

Definition both_strings (lhs rhs : Type_t) : go bool := go_and (Equals lhs StringType) (Equals rhs StringType).
Definition both_numeric (lhs rhs : Type_t) : go bool := go_and (IsNumeric lhs) (IsNumeric rhs).
Definition either_float (lhs rhs : Type_t) : go bool := go_or (Equals lhs FloatType) (Equals rhs FloatType).

Definition isValidBinaryOperatorUse (op : TokenType) (lhs rhs : Type_t) : go bool :=
  match op with
  | Plus | LessThan | LessEqual | GreaterThan | GreaterEqual => go_or (both_strings lhs rhs) (both_numeric lhs rhs)
  | Minus | Multiply | Divide | Modulo | Exponent => both_numeric lhs rhs
  | Equal | NotEqual => go_or (IsAssignableTo lhs rhs) (IsAssignableTo rhs lhs)
  | LogicalAnd | LogicalOr => go_and (Equals lhs BoolType) (Equals rhs BoolType)
  | _ => Ret false
  end.

(** The type of a valid binary expression. *)
Definition binary_result (op : TokenType) (lhs rhs : Type_t) : go Type_t :=
  let arithmetic := b ← either_float lhs rhs; Ret (if (b : bool) then FloatType else IntType) in
  match op with
  | LessThan | LessEqual | GreaterThan | GreaterEqual | Equal | NotEqual | LogicalAnd | LogicalOr => Ret BoolType
  | Plus => b ← both_strings lhs rhs; if (b : bool) then Ret StringType else arithmetic
  | Divide | Exponent => Ret FloatType
  | Minus | Multiply | Modulo => arithmetic
  | _ => Ret lhs
  end.

Definition is_convertible (t : Type_t) : go bool :=
  go_or (Equals t IntType) (go_or (Equals t FloatType) (Equals t StringType)).

(** [!(a) && !(b) && ...] of [emit]: whether the value can be printed. *)
Definition is_printable (t : Type_t) : go bool := go_or (is_convertible t) (Equals t BoolType).

Definition is_container (t : Type_t) : bool :=
  match t with Some (ArrayType _ _) | Some (MapType _ _) => true | _ => false end.

Definition is_builtin (name : string) : bool :=
  existsb (String.eqb name) ["len"; "string"; "int"; "float"; "emit"; "stop"; "assert"]%string.

(** A built-in function on the type of its argument. *)
Definition check_builtin (name : string) (argType : Type_t) : T Type_t :=
  if String.eqb name "len" then
    b ← of_go (Equals argType StringType);
    if (b || is_container argType : bool) then mret IntType
    else fatal "len() can only be used on arrays, maps, or strings" [argType]
  else if String.eqb name "emit" then
    b ← of_go (is_printable argType);
    if (b : bool) then mret AnyType else fatal "emit() can only print simple types" [argType]
  else if String.eqb name "assert" then
    b ← of_go (Equals argType BoolType);
    if (b : bool) then mret BoolType else fatal "assert() expects a boolean expression" [argType]
  else
    b ← of_go (is_convertible argType);
    if (b : bool) then
      mret (if String.eqb name "string" then StringType else if String.eqb name "int" then IntType else FloatType)
    else fatal "can only convert int, float, or string types" [argType].

(** The index or bound of a string or an array is numeric. *)
Definition check_int (t : Type_t) (message : string) : T unit :=
  b ← of_go (IsAssignableTo t IntType);
  if (b : bool) then mret () else fatal message [t].

Section Functions.
Context (functions : gmap string Function_).

(** The checks of the compound expressions, over the one of expressions. *)
Section Compound.
Context (typecheckExpression : Expression -> T Type_t).

Definition check_operand (o : option Expression) : T Type_t :=
  match o with Some e => typecheckExpression e | None => panic "expr is nil" end.

Definition check_binary (op : TokenType) (l : Expression) (r : option Expression) : T Type_t :=
  lhs ← typecheckExpression l;
  rhs ← check_operand r;
  b ← of_go (isValidBinaryOperatorUse op lhs rhs);
  if (b : bool) then of_go (binary_result op lhs rhs)
  else fatal "Invalid binary operation" [lhs; rhs].

Definition check_unary (op : TokenType) (r : option Expression) : T Type_t :=
  rhsType ← check_operand r;
  b ← of_go (isValidUnaryOperatorUse op rhsType);
  if (b : bool) then mret rhsType else fatal "Invalid operator" [rhsType].

(** The arguments against the types of the parameters. *)
Definition check_args : list Expression -> list Type_t -> T unit :=
  fix check_args (args : list Expression) (types : list Type_t) : T unit :=
    match args, types with
    | [], _ => mret ()
    | arg :: args, paramType :: types =>
        argType ← typecheckExpression arg;
        b ← of_go (IsAssignableTo argType paramType);
        if (b : bool) then check_args args types
        else fatal "argument type" [paramType; argType]
    | _, [] => of_go (Panic IndexOutOfRange)
    end.

Definition check_call (funcName : string) (args : list Expression) : T Type_t :=
  if String.eqb funcName "stop" then
    match args with [] => mret AnyType | _ => panic "stop() expects no arguments" end
  else if is_builtin funcName then
    match args with
    | [arg] => argType ← typecheckExpression arg; check_builtin funcName argType
    | _ => panic "expects 1 argument"
    end
  else
    match functions !! funcName with
    | None => panic "Function does not exist"
    | Some fd =>
        if bool_decide (length args = length (ParameterTypes fd))
        then check_args args (ParameterTypes fd);; mret (ReturnType fd)
        else panic "wrong number of arguments"
    end.

(** The elements of an array literal after the first. *)
Definition check_elements : Type_t -> list Expression -> T unit :=
  fun firstType => fix check_elements (l : list Expression) : T unit :=
    match l with
    | [] => mret ()
    | element :: l =>
        elementType ← typecheckExpression element;
        b ← of_go (Equals elementType firstType);
        if (b : bool) then check_elements l
        else fatal "Array element has another type" [elementType; firstType]
    end.

(** The type of an empty literal comes from its context. *)
Definition check_array (args : list Expression) : T Type_t :=
  match args with
  | [] => mret None
  | first :: rest =>
      firstType ← typecheckExpression first;
      check_elements firstType rest;;
      mret (NewArrayType (-1) firstType)
  end.

Definition check_index (l r : Expression) : T Type_t :=
  lhsType ← typecheckExpression l;
  indexType ← typecheckExpression r;
  b ← of_go (Equals lhsType StringType);
  if (b : bool) then check_int indexType "String index must be int";; mret StringType
  else
    match lhsType with
    | Some (ArrayType _ elementType) => check_int indexType "Array index must be int";; mret elementType
    | Some (MapType _ valueType) =>
        b ← of_go (Equals indexType StringType);
        if (b : bool) then mret valueType else fatal "Map index must be string" [indexType]
    | _ => fatal "Cannot index expression" [lhsType]
    end.

Definition check_bound (bound : option Expression) : T unit :=
  match bound with
  | Some e => boundType ← typecheckExpression e; check_int boundType "Slice index must be int"
  | None => mret ()
  end.

Definition check_slice (l : Expression) (start en : option Expression) : T Type_t :=
  lhsType ← typecheckExpression l;
  b ← of_go (Equals lhsType StringType);
  if (b : bool) then check_bound start;; check_bound en;; mret StringType
  else fatal "only strings can be sliced" [lhsType].

End Compound.

(** A variable of the chain of scopes, a context variable, or a function. *)
Definition check_identifier (varName : string) : T Type_t :=
  scopes ← get;
  match findVariable scopes varName with
  | Some variable => mret (VType variable)
  | None =>
      match GetBlockchainContextVariable varName with
      | Some v => load_global varName v;; mret (VType v)
      | None =>
          match functions !! varName with
          | Some _ => mret (TypeFromTokenType TFunction)
          | None => panic "Undefined variable or function"
          end
      end
  end.

Fixpoint typecheckExpression (e : Expression) : T Type_t :=
  match e with
  | UnaryExpr op rhs => check_unary typecheckExpression op rhs
  | LiteralExpr _ valueType _ => mret (TypeFromTokenType valueType)
  | IdentifierExpr varName _ => check_identifier varName
  | BinaryExpr op l r _ => check_binary typecheckExpression op l r
  | CallExpr funcName args _ => check_call typecheckExpression funcName args
  | ArrayLiteral args _ => check_array typecheckExpression args
  | MapLiteral _ => mret None
  | IndexExpr l r _ => check_index typecheckExpression l r
  | SliceExpr l s en _ => check_slice typecheckExpression l s en
  end.

(** ** Statements *)

(** A declaration with the type [varType] and a value: the size of an array
    literal becomes, or is checked against, the declared size.  The declared
    type and the type of the value are changed in place; an empty literal has
    the declared type itself. *)
Definition declared_types (varType rhsType : Type_t) (rhs : Expression) : go (res unit (Type_t * Type_t)) :=
  let rhs_is_decl := bool_decide (rhsType = None) in
  let rhsType := match rhsType with None => varType | Some _ => rhsType end in
  match varType, rhsType, rhs with
  | Some (ArrayType declSize el), Some (ArrayType rhsSize el'), ArrayLiteral args _ =>
      let literalSize := len args in
      if declSize =? -1 then Ret (Ok (Some (ArrayType literalSize el), Some (ArrayType literalSize el')))
      else if negb rhs_is_decl && (rhsSize =? -1) then
        if negb (declSize =? literalSize) then TypeString el;; Ret (Err ())
        else Ret (Ok (varType, Some (ArrayType literalSize el')))
      else Ret (Ok (varType, rhsType))
  | _, _, _ => Ret (Ok (varType, rhsType))
  end.

Definition typecheck_declaration (varType : Type_t) (varName : string) (rhs : option Expression) : T Type_t :=
  scopes ← get;
  if bool_decide (is_Some (head scopes ≫= fun s => s !! varName))
  then panic "Variable is already declared in this scope"
  else
    varType ←
      match rhs with
      | None => mret varType
      | Some rhs =>
          rhsType ← typecheckExpression rhs;
          x ← of_go (declared_types varType rhsType rhs);
          match x with
          | Err _ => panic "Array literal has another number of elements"
          | Ok (varType, rhsType) =>
              b ← of_go (IsAssignableTo rhsType varType);
              if (b : bool) then mret varType else fatal "Cannot assign to variable" [rhsType; varType]
          end
      end;
    declare varName varType;;
    mret varType.

(** An assignment without a declared type. *)
Definition typecheck_assignment (lhs : Expression) (rhs : option Expression) : T unit :=
  let value := match rhs with Some rhs => typecheckExpression rhs | None => panic "expr is nil" end in
  match lhs with
  | IdentifierExpr varName _ =>
      scopes ← get;
      match findVariable scopes varName with
      | None => panic "Undefined variable"
      | Some variable =>
          rhsType ← value;
          b ← of_go (IsAssignableTo rhsType (VType variable));
          if (b : bool) then mret () else fatal "Cannot assign to variable" [rhsType; VType variable]
      end
  | IndexExpr _ _ _ =>
      lhsType ← typecheckExpression lhs;
      rhsType ← value;
      b ← of_go (IsAssignableTo rhsType lhsType);
      if (b : bool) then mret () else fatal "Cannot assign to indexed location" [rhsType; lhsType]
  | _ => panic "Invalid assignment target"
  end.

Definition typecheck_condition (c : Expression) : T unit :=
  conditionType ← typecheckExpression c;
  b ← of_go (Equals conditionType BoolType);
  if (b : bool) then mret () else fatal "condition must be Bool" [conditionType].

Definition typecheck_return (rhs : Expression) (expectedType : Type_t) : T unit :=
  actualType ← typecheckExpression rhs;
  let actualType := match actualType with
                    | None => if is_container expectedType then expectedType else None
                    | Some _ => actualType
                    end in
  b ← of_go (IsAssignableTo actualType expectedType);
  if (b : bool) then mret () else fatal "Type mismatch in return statement" [expectedType; actualType].

(** Run a check in a scope of its own, and give the scope it leaves. *)
Definition in_scope {A} (scope : variables) (c : T A) : T (variables * A) := fun scopes =>
  x ← c (scope :: scopes);
  Ret (tail x.1, (default ∅ (head x.1), x.2)).

(** [variable names are strings]: the [Lhs.Value.(string)] of a declaration. *)
Definition target_name (lhs : Expression) : go string :=
  match lhs with
  | IdentifierExpr v _ | CallExpr v _ _ | LiteralExpr v _ _ => Ret v
  | _ => Panic (ExplicitPanic "Assignment statement has invalid left-hand side")
  end.

(** The statements of a block in its scope, which gets their declarations. *)
Definition check_block (typecheck_statement : Statement -> T Statement) (b : Block) : T Block :=
  match b with
  | MkBlock statements scope =>
      x ← in_scope scope
            ((fix loop (l : list Statement) : T (list Statement) :=
                match l with
                | [] => mret []
                | s :: l => s' ← typecheck_statement s; l' ← loop l; mret (s' :: l')
                end) statements);
      mret (MkBlock x.2 x.1)
  end.

Fixpoint typecheck_statement (returnType : Type_t) (inLoop : bool) (s : Statement) : T Statement :=
  match s with
  | AssignmentStmt (Some varType) lhs rhs tok =>
      varName ← of_go (target_name lhs);
      t ← typecheck_declaration (Some varType) varName rhs;
      mret (AssignmentStmt t lhs rhs tok)
  | AssignmentStmt None lhs rhs tok => typecheck_assignment lhs rhs;; mret s
  | ReturnStmt rhs => typecheck_return rhs returnType;; mret s
  | IfStmt c b eb tok =>
      typecheck_condition c;;
      b' ← check_block (typecheck_statement returnType inLoop) b;
      match eb with
      | None => mret (IfStmt c b' None tok)
      | Some eb => eb' ← check_block (typecheck_statement returnType inLoop) eb; mret (IfStmt c b' (Some eb') tok)
      end
  | WhileStmt c b =>
      typecheck_condition c;;
      b' ← check_block (typecheck_statement returnType true) b;
      mret (WhileStmt c b')
  | BreakStmt _ => if inLoop then mret s else panic "break statement can only be used inside a loop"
  | ContinueStmt _ => if inLoop then mret s else panic "continue statement can only be used inside a loop"
  | ExpressionStmt rhs => typecheckExpression rhs;; mret s
  end.

Definition typecheck_block (returnType : Type_t) (inLoop : bool) : Block -> T Block :=
  check_block (typecheck_statement returnType inLoop).

(** ** Functions *)

(** Parameters are declared in the scope of the body. *)
Fixpoint declare_parameters (names : list string) (types : list Type_t) (scope : variables) : go variables :=
  match names, types with
  | [], _ => Ret scope
  | name :: names, types =>
      if bool_decide (is_Some (scope !! name)) then Panic (ExplicitPanic "Parameter is already defined")
      else match types with
           | ty :: types => declare_parameters names types (<[name := MkVariable name "" ty]> scope)
           | [] => Panic IndexOutOfRange
           end
  end.

Definition typecheckFunctionDefinition (fd : Function_) : T Function_ :=
  scope ← of_go (declare_parameters (Parameters fd) (ParameterTypes fd) (Scope (FBlock fd)));
  b ← typecheck_block (ReturnType fd) false (MkBlock (Statements (FBlock fd)) scope);
  mret (MkFunction (FName fd) (Parameters fd) (ParameterTypes fd) (ReturnType fd) b).

Fixpoint typecheck_functions (l : list (string * Function_)) (acc : gmap string Function_) : T (gmap string Function_) :=
  match l with
  | [] => mret acc
  | (name, fd) :: l => fd' ← typecheckFunctionDefinition fd; typecheck_functions l (<[name := fd']> acc)
  end.

End Functions.

(** [init] and [call] take no parameters and return an int. *)
Definition check_signature (fd : Function_) : go unit :=
  if bool_decide (Parameters fd = []) then
    b ← Equals (ReturnType fd) IntType;
    if (b : bool) then Ret () else Panic (ExplicitPanic "function must return int")
  else Panic (ExplicitPanic "function must take no parameters").

Definition entry_point (functions : gmap string Function_) (name : string) : go Function_ :=
  match functions !! name with
  | None => Panic (ExplicitPanic "Program must have init() and call() functions")
  | Some fd => Ret fd
  end.

(** For some order of iteration over the functions. *)
Definition Typecheck (order : gmap string Function_ -> list (string * Function_)) (ast : Ast) : go Ast :=
  initFunc ← entry_point (Functions ast) "init";
  callFunc ← entry_point (Functions ast) "call";
  check_signature initFunc;;
  check_signature callFunc;;
  x ← typecheck_functions (Functions ast) (order (Functions ast)) (Functions ast) [AScope ast];
  Ret (MkAst (Tokens ast) x.2 (default ∅ (head x.1))).

End Typecheck.
