(* ===== verification/MgTypesSpec.v ===== *)
(** * The type system of Marigold, and what the checker guarantees

    Typing rules for expressions, statements and functions, over one map from
    names to types instead of the checker's chain of scopes; and the proof
    that a program the checker accepts follows them. *)

From S2P Require Import Prelude GoLib MgLexer MgAst MgTypes.

Module TypesSpec.
Export Typecheck.

(** ** Rules *)

Definition numeric (t : Type_t) : Prop := t = IntType \/ t = FloatType.

Definition assignable (t u : Type_t) : Prop := t = u /\ t <> None \/ numeric t /\ numeric u.

(** The type of a number computed from two numbers. *)
Inductive wider : Type_t -> Type_t -> Type_t -> Prop :=
  | wider_int : wider IntType IntType IntType
  | wider_left u : numeric u -> wider FloatType u FloatType
  | wider_right t : numeric t -> wider t FloatType FloatType.

Definition convertible (t : Type_t) : Prop := numeric t \/ t = StringType.

(** The functions of one argument. *)
Inductive builtin_type : string -> Type_t -> Type_t -> Prop :=
  | type_len t : t = StringType \/ is_container t = true -> builtin_type "len" t IntType
  | type_emit t : convertible t \/ t = BoolType -> builtin_type "emit" t AnyType
  | type_assert : builtin_type "assert" BoolType BoolType
  | type_string t : convertible t -> builtin_type "string" t StringType
  | type_int t : convertible t -> builtin_type "int" t IntType
  | type_float t : convertible t -> builtin_type "float" t FloatType.

Section Rules.
Context (F : gmap string Function_).

(** [typed Γ e t]: in the environment [Γ] the expression [e] has the type [t];
    an empty literal and a function have none. *)
Inductive typed (Γ : gmap string Type_t) : Expression -> Type_t -> Prop :=
  | typed_literal v ty tok : typed Γ (LiteralExpr v ty tok) (TypeFromTokenType ty)
  | typed_variable x tok t : Γ !! x = Some t -> typed Γ (IdentifierExpr x tok) t
  | typed_function x tok f : Γ !! x = None -> F !! x = Some f -> typed Γ (IdentifierExpr x tok) None
  | typed_negation e t : typed Γ e t -> numeric t -> typed Γ (UnaryExpr Minus (Some e)) t
  | typed_concat l r tok :
      typed Γ l StringType -> typed Γ r StringType -> typed Γ (BinaryExpr Plus l (Some r) tok) StringType
  | typed_arithmetic op l r tok t u v : op ∈ [Plus; Minus; Multiply; Modulo] ->
      typed Γ l t -> typed Γ r u -> wider t u v -> typed Γ (BinaryExpr op l (Some r) tok) v
  | typed_division op l r tok t u : op ∈ [Divide; Exponent] ->
      typed Γ l t -> typed Γ r u -> numeric t -> numeric u -> typed Γ (BinaryExpr op l (Some r) tok) FloatType
  | typed_comparison op l r tok t u : op ∈ [LessThan; LessEqual; GreaterThan; GreaterEqual] ->
      typed Γ l t -> typed Γ r u -> (t = StringType /\ u = StringType) \/ (numeric t /\ numeric u) ->
      typed Γ (BinaryExpr op l (Some r) tok) BoolType
  | typed_equality op l r tok t u : op ∈ [Equal; NotEqual] ->
      typed Γ l t -> typed Γ r u -> assignable t u \/ assignable u t -> typed Γ (BinaryExpr op l (Some r) tok) BoolType
  | typed_logic op l r tok : op ∈ [LogicalAnd; LogicalOr] ->
      typed Γ l BoolType -> typed Γ r BoolType -> typed Γ (BinaryExpr op l (Some r) tok) BoolType
  | typed_stop tok : typed Γ (CallExpr "stop" [] tok) AnyType
  | typed_builtin name arg tok t u : typed Γ arg t -> builtin_type name t u -> typed Γ (CallExpr name [arg] tok) u
  | typed_call name args tok f : is_builtin name = false -> F !! name = Some f ->
      args_typed Γ args (ParameterTypes f) ->
      typed Γ (CallExpr name args tok) (ReturnType f)
  | typed_empty tok : typed Γ (ArrayLiteral [] tok) None
  | typed_array e es tok t : typed Γ e t -> elements_typed Γ t es ->
      typed Γ (ArrayLiteral (e :: es) tok) (NewArrayType (-1) t)
  | typed_map tok : typed Γ (MapLiteral tok) None
  | typed_char l r tok u : typed Γ l StringType -> typed Γ r u -> assignable u IntType ->
      typed Γ (IndexExpr l r tok) StringType
  | typed_element l r tok n t u : typed Γ l (Some (ArrayType n t)) -> typed Γ r u -> assignable u IntType ->
      typed Γ (IndexExpr l r tok) t
  | typed_entry l r tok k t : typed Γ l (Some (MapType k t)) -> typed Γ r StringType -> typed Γ (IndexExpr l r tok) t
  | typed_slice l s e tok : typed Γ l StringType -> bound_typed Γ s -> bound_typed Γ e -> typed Γ (SliceExpr l s e tok) StringType
with args_typed (Γ : gmap string Type_t) : list Expression -> list Type_t -> Prop :=
  | typed_no_args : args_typed Γ [] []
  | typed_arg e es t p ps : typed Γ e t -> assignable t p -> args_typed Γ es ps -> args_typed Γ (e :: es) (p :: ps)
with elements_typed (Γ : gmap string Type_t) : Type_t -> list Expression -> Prop :=
  | typed_no_elements t : elements_typed Γ t []
  | typed_elements t e es : typed Γ e t -> elements_typed Γ t es -> elements_typed Γ t (e :: es)
with bound_typed (Γ : gmap string Type_t) : option Expression -> Prop :=
  | typed_no_bound : bound_typed Γ None
  | typed_bound e u : typed Γ e u -> assignable u IntType -> bound_typed Γ (Some e).

(** An empty literal takes a container type from its context. *)
Definition value_type (t : Type_t) (expected : Type_t) : Type_t :=
  match t with None => if is_container expected then expected else None | Some _ => t end.

(** The declared type of a variable with a value, after an array literal gave it
    its size, and the type of the value. *)
Definition declares (T : Type_t) (e : Expression) (t T' t' : Type_t) : Prop := declared_types T t e = Ret (Ok (T', t')).

Inductive stmt_typed (R : Type_t) : bool -> gmap string Type_t -> Statement -> gmap string Type_t -> Prop :=
  | typed_declare loop Γ T lhs x tok : target_name lhs = Ret x ->
      stmt_typed R loop Γ (AssignmentStmt (Some T) lhs None tok) (<[x := Some T]> Γ)
  | typed_initialise loop Γ T lhs x e tok t T' t' : target_name lhs = Ret x ->
      typed Γ e t -> declares (Some T) e t T' t' -> assignable t' T' ->
      stmt_typed R loop Γ (AssignmentStmt (Some T) lhs (Some e) tok) (<[x := T']> Γ)
  | typed_assign loop Γ x xtok e tok t u : Γ !! x = Some u -> typed Γ e t -> assignable t u ->
      stmt_typed R loop Γ (AssignmentStmt None (IdentifierExpr x xtok) (Some e) tok) Γ
  | typed_assign_index loop Γ l r itok e tok t u : typed Γ (IndexExpr l r itok) u -> typed Γ e t -> assignable t u ->
      stmt_typed R loop Γ (AssignmentStmt None (IndexExpr l r itok) (Some e) tok) Γ
  | typed_return loop Γ e t : typed Γ e t -> assignable (value_type t R) R -> stmt_typed R loop Γ (ReturnStmt e) Γ
  | typed_if loop Γ c l scope eb tok : typed Γ c BoolType ->
      stmts_typed R loop ((VType <$> scope) ∪ Γ) l ->
      (forall l' scope', eb = Some (MkBlock l' scope') -> stmts_typed R loop ((VType <$> scope') ∪ Γ) l') ->
      stmt_typed R loop Γ (IfStmt c (MkBlock l scope) eb tok) Γ
  | typed_while loop Γ c l scope : typed Γ c BoolType ->
      stmts_typed R true ((VType <$> scope) ∪ Γ) l ->
      stmt_typed R loop Γ (WhileStmt c (MkBlock l scope)) Γ
  | typed_break Γ tok : stmt_typed R true Γ (BreakStmt tok) Γ
  | typed_continue Γ tok : stmt_typed R true Γ (ContinueStmt tok) Γ
  | typed_expression loop Γ e t : typed Γ e t -> stmt_typed R loop Γ (ExpressionStmt e) Γ
with stmts_typed (R : Type_t) : bool -> gmap string Type_t -> list Statement -> Prop :=
  | typed_nil loop Γ : stmts_typed R loop Γ []
  | typed_cons loop Γ Γ' s l : stmt_typed R loop Γ s Γ' -> stmts_typed R loop Γ' l -> stmts_typed R loop Γ (s :: l).

(** The body is typed with the parameters, which have different names. *)
Definition function_typed (Γ : gmap string Type_t) (f : Function_) : Prop :=
  NoDup (Parameters f) /\ (length (Parameters f) <= length (ParameterTypes f))%nat /\
  stmts_typed (ReturnType f) false
    (list_to_map (zip (Parameters f) (ParameterTypes f)) ∪ ((VType <$> Scope (FBlock f)) ∪ Γ)) (Statements (FBlock f)).

End Rules.

(** The names every function sees: the global scope, and the variables of the
    context, which the checker adds when they are used. *)
Definition context_env : gmap string Type_t := list_to_map context_types.

Definition env (scopes : list variables) : gmap string Type_t :=
  foldr (fun (s : variables) Γ => (VType <$> s) ∪ Γ) context_env scopes.

(** [init] and [call] exist, take nothing and return an [int]. *)
Definition entry_typed (F : gmap string Function_) (name : string) : Prop :=
  exists f, F !! name = Some f /\ Parameters f = [] /\ ReturnType f = IntType.

Record program_typed (ast : Ast) : Prop := {
  typed_init : entry_typed (Functions ast) "init";
  typed_entry_call : entry_typed (Functions ast) "call";
  typed_functions : map_Forall (fun _ f => function_typed (Functions ast) (env [AScope ast]) f) (Functions ast)
}.

(** ** Types *)

Lemma type_Equals_eq : forall t o, type_Equals t o = Ret true -> o = Some t.
Proof.
  fix IH 1. intros [k|n e|k v] [o|]; cbn; try done.
  - destruct o; try done. destruct (String.eqb_spec k Kind); congruence.
  - destruct o; try done. destruct (Z.eqb_spec n Size); [|done]. destruct e as [e|]; [|done].
    intros H%IH. by subst.
  - destruct o; try done. destruct k as [k|]; [|done]. intros H. apply go_bind_ret_inv in H as ([] & H1 & H); [|done].
    apply IH in H1. destruct v as [v|]; [|done]. apply IH in H. by subst.
Qed.

Lemma Equals_eq t o : Equals t o = Ret true -> t = o /\ t <> None.
Proof. destruct t as [t|]; [|done]. cbn. by intros ->%type_Equals_eq. Qed.

Lemma IsNumeric_numeric t : IsNumeric t = Ret true -> numeric t.
Proof.
  destruct t as [[k|n e|k v]|]; cbn; try done. intros [= H]. apply orb_true_iff in H as [E|E]; apply String.eqb_eq in E; subst;
    [by left | by right].
Qed.

Lemma IsAssignableTo_assignable t u : IsAssignableTo t u = Ret true -> assignable t u.
Proof.
  destruct t as [t|]; [|done]. unfold IsAssignableTo. cbn [method]. intros H.
  apply go_bind_ret_inv in H as ([] & H1 & H).
  - apply type_Equals_eq in H1. subst. by left.
  - destruct t, u as [[]|]; try done. injection H as H. apply andb_true_iff in H as [H2 H3].
    right. split; apply IsNumeric_numeric; cbn; by f_equal.
Qed.

Lemma go_or_true a b : go_or a b = Ret true -> a = Ret true \/ b = Ret true.
Proof. intros H. apply go_bind_ret_inv in H as ([] & -> & H); auto. Qed.

Lemma go_and_true a b : go_and a b = Ret true -> a = Ret true /\ b = Ret true.
Proof. intros H. apply go_bind_ret_inv in H as ([] & -> & H); [auto | done]. Qed.

Lemma both_strings_true t u : both_strings t u = Ret true -> t = StringType /\ u = StringType.
Proof. by intros [[-> _]%Equals_eq [-> _]%Equals_eq]%go_and_true. Qed.

Lemma both_numeric_true t u : both_numeric t u = Ret true -> numeric t /\ numeric u.
Proof. by intros [?%IsNumeric_numeric ?%IsNumeric_numeric]%go_and_true. Qed.

Lemma convertible_true t : is_convertible t = Ret true -> convertible t.
Proof.
  intros [[-> _]%Equals_eq|[[-> _]%Equals_eq|[-> _]%Equals_eq]%go_or_true]%go_or_true;
    [by left; left | by left; right | by right].
Qed.

Lemma Equals_numeric t o b : numeric t -> numeric o -> Equals t o = Ret b -> b = true <-> t = o.
Proof. intros [-> | ->] [-> | ->] [= <-]; split; done. Qed.

(** ** The chain of scopes *)

Lemma context_env_lookup x : context_env !! x = VType <$> GetBlockchainContextVariable x.
Proof.
  unfold context_env, GetBlockchainContextVariable. induction context_types as [|[y t] l IH]; [done|]. cbn.
  rewrite lookup_insert. destruct (String.eqb_spec y x) as [->|Hne].
  - by rewrite decide_True.
  - by rewrite decide_False.
Qed.

Lemma env_cons s sc : env (s :: sc) = (VType <$> s) ∪ env sc.
Proof. done. Qed.

(** The environment is what the checker looks up. *)
Lemma env_lookup sc x : env sc !! x =
  match findVariable sc x with Some v => Some (VType v) | None => VType <$> GetBlockchainContextVariable x end.
Proof.
  induction sc as [|s sc IH]; [apply context_env_lookup|]. rewrite env_cons. cbn [findVariable].
  rewrite lookup_union, lookup_fmap, IH. by destruct (s !! x), (findVariable sc x), (GetBlockchainContextVariable x).
Qed.

(** Adding a context variable to the global scope changes no environment. *)
Lemma env_global x v sc : findVariable sc x = None -> GetBlockchainContextVariable x = Some v -> env (set_global x v sc) = env sc.
Proof.
  intros Hf Hv. induction sc as [|s sc IH]; [done|]. cbn in Hf. destruct (s !! x) eqn:E; [done|].
  destruct sc as [|s' sc].
  - cbn [set_global]. rewrite !env_cons. apply map_eq. intros y. rewrite !lookup_union, !lookup_fmap, lookup_insert. case_decide as Exy; [|done]. subst.
    change (env []) with context_env. by rewrite E, context_env_lookup, Hv.
  - change (set_global x v (s :: s' :: sc)) with (s :: set_global x v (s' :: sc)). by rewrite !env_cons, IH.
Qed.

(** The scopes around, for what they give to an environment. *)
Definition around (sc sc' : list variables) : Prop :=
  length sc = length sc' /\ forall k, (0 < k)%nat -> env (drop k sc) = env (drop k sc').

Definition same_env (sc sc' : list variables) : Prop := around sc sc' /\ env sc = env sc'.

#[export] Instance around_equivalence : Equivalence around.
Proof.
  split.
  - by split.
  - intros a b [H1 H2]. split; [done|]. intros k Hk. by rewrite H2.
  - intros a b c [H1 H2] [H3 H4]. split; [congruence|]. intros k Hk. by rewrite H2, H4.
Qed.

#[export] Instance same_env_equivalence : Equivalence same_env.
Proof.
  split.
  - by split.
  - intros a b [H1 H2]. by split.
  - intros a b c [H1 H2] [H3 H4]. split; [by transitivity b | congruence].
Qed.

Lemma findVariable_drop sc x k : findVariable sc x = None -> findVariable (drop k sc) x = None.
Proof.
  revert k. induction sc as [|s sc IH]; intros k H; [by rewrite drop_nil|]. destruct k; [done|]. cbn in *.
  destruct (s !! x); [done|]. by apply IH.
Qed.

Lemma drop_global x v sc k : drop k (set_global x v sc) = set_global x v (drop k sc).
Proof.
  revert sc. induction k as [|k IH]; [done|]. intros [|s [|s' sc]]; [done|by destruct k|]. apply (IH (s' :: sc)).
Qed.

Lemma length_global x v sc : length (set_global x v sc) = length sc.
Proof. induction sc as [|s [|s' sc] IH]; [done..|]. cbn in *. by rewrite IH. Qed.

Lemma same_global x v sc : findVariable sc x = None -> GetBlockchainContextVariable x = Some v -> same_env sc (set_global x v sc).
Proof.
  intros Hf Hv. split; [split|].
  - by rewrite length_global.
  - intros k _. rewrite drop_global. by rewrite env_global by (done || by apply findVariable_drop).
  - by rewrite env_global.
Qed.

(** A declaration changes the innermost scope only. *)
Lemma around_declare s s' sc : around (s :: sc) (s' :: sc).
Proof. split; [done|]. intros [|k] Hk; [lia|done]. Qed.

Lemma around_tail s s' sc sc' : around (s :: sc) (s' :: sc') -> same_env sc sc'.
Proof.
  intros [H1 H2]. injection H1 as H1. split; [split|]; [done| |].
  - intros k Hk. apply (H2 (S k)). lia.
  - apply (H2 1%nat). lia.
Qed.

Lemma same_env_push s sc sc' : same_env sc sc' -> same_env (s :: sc) (s :: sc').
Proof.
  intros [[H1 H2] H3]. split; [split|]; [cbn; congruence| |by rewrite !env_cons, H3].
  intros [|[|k]] Hk; [lia|done|]. apply (H2 (S k)). lia.
Qed.

(** Computations of the checker, which leave the environment alone. *)
Definition checks {A} (p : T A) (Q : gmap string Type_t -> A -> Prop) : Prop :=
  forall sc sc' a, p sc = Ret (sc', a) -> same_env sc sc' /\ Q (env sc) a.

Lemma checks_ret {A} (a : A) (Q : gmap string Type_t -> A -> Prop) : (forall Γ, Q Γ a) -> checks (mret a) Q.
Proof. intros HQ sc sc' x [= <- <-]. split; [reflexivity | apply HQ]. Qed.

Lemma checks_bind {A B} (p : T A) (f : A -> T B) Q Q' :
  checks p Q -> (forall a, checks (f a) (fun Γ b => Q Γ a -> Q' Γ b)) -> checks (p ≫= f) Q'.
Proof.
  intros Hp Hf sc sc' b H. apply go_bind_ret_inv in H as ([sc1 a] & H1 & H2). cbn in H2.
  apply Hp in H1 as [S1 Q1]. apply Hf in H2 as [S2 Q2]. split; [by transitivity sc1|].
  destruct S1 as [_ E]. rewrite E in *. by apply Q2.
Qed.

Lemma checks_panic {A} m (Q : gmap string Type_t -> A -> Prop) : checks (panic m) Q.
Proof. by intros sc sc' a. Qed.

Lemma checks_fatal {A} m ts (Q : gmap string Type_t -> A -> Prop) : checks (fatal m ts) Q.
Proof.
  induction ts as [|t ts IH]; [apply checks_panic|]. cbn. eapply checks_bind; [|intros a; intros sc sc' b H].
  - instantiate (1 := fun _ _ => True). intros sc sc' a H. apply go_bind_ret_inv in H as (x & _ & [= <- <-]). by split.
  - apply IH in H as [S Q1]. by split.
Qed.

Lemma checks_of_go {A} (p : go A) (Q : A -> Prop) : (forall a, p = Ret a -> Q a) -> checks (of_go p) (fun _ => Q).
Proof. intros HQ sc sc' a H. apply go_bind_ret_inv in H as (x & Hx & [= <- <-]). split; [reflexivity | by apply HQ]. Qed.

Lemma checks_weaken {A} (p : T A) (Q Q' : gmap string Type_t -> A -> Prop) :
  checks p Q -> (forall Γ a, Q Γ a -> Q' Γ a) -> checks p Q'.
Proof. intros Hp HQ sc sc' a H. apply Hp in H as [S Q1]. split; [done | by apply HQ]. Qed.

(** A condition is checked, and the result is conditional on it. *)
Lemma checks_test {A} (c : go bool) (p q : T A) (P : Prop) Q : (c = Ret true -> P) ->
  (P -> checks p Q) -> (c = Ret false -> checks q Q) ->
  checks (b ← of_go c; if (b : bool) then p else q) Q.
Proof.
  intros HP Hp Hq sc sc' a H. apply go_bind_ret_inv in H as ([sc1 b] & H1 & H2). cbn in H2.
  apply go_bind_ret_inv in H1 as (b' & Hb & [= <- <-]). destruct b'; [by apply (Hp (HP Hb)) | by apply (Hq Hb)].
Qed.

(** ** Expressions *)

Section Soundness.
Context (F : gmap string Function_).
Abbreviation check := (typecheckExpression F).

Definition sound (e : Expression) : Prop := checks (check e) (fun Γ t => typed F Γ e t).

(** A value is in a list of constants. *)
Ltac in_list := solve [repeat first [apply list_elem_of_here | apply list_elem_of_further]].

(** A number from numbers; the checker decides on [float]. *)
Lemma arithmetic_wider t u v : numeric t -> numeric u ->
  (b ← either_float t u; Ret (if (b : bool) then FloatType else IntType)) = Ret v -> wider t u v.
Proof.
  intros [-> | ->] [-> | ->]; cbn; intros [= <-]; constructor; by (left + right).
Qed.

Lemma binary_typed Γ op l r tok t u v : isValidBinaryOperatorUse op t u = Ret true -> binary_result op t u = Ret v ->
  typed F Γ l t -> typed F Γ r u -> typed F Γ (BinaryExpr op l (Some r) tok) v.
Proof.
  intros Hv Hr Hl Hu. destruct op; try discriminate Hv; cbn in Hv, Hr; try (injection Hr as <-).
  all: try (apply both_numeric_true in Hv as [Ht Hu']).
  all: try (by eapply typed_arithmetic; [| done | done | by apply arithmetic_wider]; in_list).
  all: try (by eapply typed_division; [| done..]; in_list).
  all: try (apply go_and_true in Hv as [[-> _]%Equals_eq [-> _]%Equals_eq]; apply typed_logic; [in_list|done..]).
  all: try (apply go_or_true in Hv as [H1%IsAssignableTo_assignable|H1%IsAssignableTo_assignable];
            (eapply typed_equality; [| done | done |]; [in_list|auto])).
  all: try (apply go_or_true in Hv as [H1%both_strings_true|H1%both_numeric_true];
            (eapply typed_comparison; [| done | done |]; [in_list|auto])).
  (* addition *)
  apply go_or_true in Hv as [[-> ->]%both_strings_true|[Ht Hu']%both_numeric_true].
  - injection Hr as <-. by apply typed_concat.
  - apply go_bind_ret_inv in Hr as ([] & Hs & Hr).
    + apply both_strings_true in Hs as [-> _]. by destruct Ht.
    + by eapply typed_arithmetic; [| done | done | by apply arithmetic_wider]; in_list.
Qed.

Lemma sound_identifier x tok : sound (IdentifierExpr x tok).
Proof.
  intros sc sc' t H. cbn in H. unfold check_identifier in H. apply go_bind_ret_inv in H as ([sc1 scopes] & [= <- <-] & H).
  cbn in H. pose proof (env_lookup sc x) as Hx. destruct (findVariable sc x) as [v|] eqn:Ef.
  - injection H as <- <-. split; [reflexivity|]. by apply typed_variable.
  - destruct (GetBlockchainContextVariable x) as [v|] eqn:Ec.
    + injection H as <- <-. split; [by apply same_global|]. by apply typed_variable.
    + destruct (F !! x) as [f|] eqn:E; [|done]. injection H as <- <-. split; [reflexivity|]. by eapply typed_function.
Qed.

Lemma sound_binary op l r tok : sound l -> (forall e, r = Some e -> sound e) -> sound (BinaryExpr op l r tok).
Proof.
  intros Hl Hr. unfold sound. cbn [typecheckExpression]. unfold check_binary.
  eapply checks_bind; [exact Hl|]. intros t. destruct r as [r|]; [|by intros ? ? ?].
  eapply checks_bind; [exact (Hr r eq_refl)|]. intros u.
  eapply (checks_test _ _ _ (isValidBinaryOperatorUse op t u = Ret true)); [done | | intros _; apply checks_fatal].
  intros Hv. eapply checks_weaken; [apply (checks_of_go _ (fun v => binary_result op t u = Ret v)); auto|].
  cbn. intros Γ v Hres Hu Ht. by eapply binary_typed.
Qed.

Lemma sound_unary op r : (forall e, r = Some e -> sound e) -> sound (UnaryExpr op r).
Proof.
  intros Hr. unfold sound. cbn [typecheckExpression]. unfold check_unary. destruct r as [r|]; [|by intros ? ? ?].
  eapply checks_bind; [exact (Hr r eq_refl)|]. intros u.
  eapply (checks_test _ _ _ (op = Minus /\ numeric u)).
  - destruct op; try discriminate. by intros ?%IsNumeric_numeric.
  - intros [-> Hn]. apply checks_ret. intros Γ Hu. by apply typed_negation.
  - intros _. apply checks_fatal.
Qed.

Lemma builtin_checks name t : is_builtin name = true -> name <> "stop"%string ->
  checks (check_builtin name t) (fun _ u => builtin_type name t u).
Proof.
  intros Hb Hs. unfold check_builtin.
  destruct (String.eqb_spec name "len") as [->|].
  { intros sc sc' u H. apply go_bind_ret_inv in H as ([sc1 b] & H1 & H2). apply go_bind_ret_inv in H1 as (b' & Hb' & [= <- <-]).
    cbn [fst snd] in H2. destruct (b' || is_container t) eqn:E; [|by apply (checks_fatal _ _ (fun _ _ => False)) in H2 as [_ []]].
    injection H2 as <- <-. split; [reflexivity|]. constructor. apply orb_true_iff in E as [->|E]; [|by right].
    left. by apply Equals_eq in Hb' as [-> _]. }
  destruct (String.eqb_spec name "emit") as [->|].
  { apply (checks_test _ _ _ (convertible t \/ t = BoolType)); [|intros Hp; apply checks_ret; intros; by constructor|intros; apply checks_fatal].
    intros [H%convertible_true|[-> _]%Equals_eq]%go_or_true; auto. }
  destruct (String.eqb_spec name "assert") as [->|].
  { apply (checks_test _ _ _ (t = BoolType)); [by intros [-> _]%Equals_eq|intros ->; apply checks_ret; intros; constructor|intros; apply checks_fatal]. }
  apply (checks_test _ _ _ (convertible t)); [apply convertible_true| |intros; apply checks_fatal].
  intros Hc. apply checks_ret. intros _. destruct (String.eqb_spec name "string") as [->|]; [by constructor|].
  destruct (String.eqb_spec name "int") as [->|]; [by constructor|]. destruct (String.eqb_spec name "float") as [->|]; [by constructor|].
  exfalso. unfold is_builtin in Hb. cbn in Hb.
  repeat (apply orb_true_iff in Hb as [Hb|Hb]; [apply String.eqb_eq in Hb; congruence|]). done.
Qed.

Lemma sound_args args : Forall sound args -> forall types, length args = length types ->
  checks (check_args check args types) (fun Γ _ => args_typed F Γ args types).
Proof.
  induction 1 as [|e es He _ IH]; intros [|p ps] Hlen; try discriminate; cbn [check_args].
  - apply checks_ret. intros. constructor.
  - eapply checks_bind; [exact He|]. intros t. apply (checks_test _ _ _ (assignable t p)).
    + apply IsAssignableTo_assignable.
    + intros Ha. eapply checks_weaken; [apply IH; cbn in Hlen; congruence|]. intros Γ u' Hes Ht. by econstructor.
    + intros _. apply checks_fatal.
Qed.

Lemma sound_call name args tok : Forall sound args -> sound (CallExpr name args tok).
Proof.
  intros Hargs. unfold sound. cbn [typecheckExpression]. unfold check_call.
  destruct (String.eqb_spec name "stop") as [->|Hs].
  { destruct args; [|by intros ? ? ?]. apply checks_ret. intros. constructor. }
  destruct (is_builtin name) eqn:Eb.
  - destruct args as [|arg []]; [by intros ? ? ?| |by intros ? ? ?]. apply Forall_inv in Hargs.
    eapply checks_bind; [exact Hargs|]. intros t. eapply checks_weaken; [by apply builtin_checks|].
    cbn. intros Γ u Hu Ht. by econstructor.
  - destruct (F !! name) as [f|] eqn:E; [|by intros ? ? ?]. case_bool_decide; [|by intros ? ? ?].
    eapply checks_bind; [by apply sound_args|]. intros []. apply checks_ret. intros Γ Ha. by apply typed_call.
Qed.

Lemma sound_elements t es : Forall sound es -> checks (check_elements check t es) (fun Γ _ => elements_typed F Γ t es).
Proof.
  induction 1 as [|e es He _ IH]; cbn [check_elements]; [apply checks_ret; constructor|].
  eapply checks_bind; [exact He|]. intros u. apply (checks_test _ _ _ (u = t)); [by intros [-> _]%Equals_eq| |intros; apply checks_fatal].
  intros ->. eapply checks_weaken; [exact IH|]. intros Γ u' Hes Ht. by constructor.
Qed.

Lemma sound_array args tok : Forall sound args -> sound (ArrayLiteral args tok).
Proof.
  intros H. unfold sound. cbn [typecheckExpression]. unfold check_array. destruct H as [|e es He Hes].
  - apply checks_ret. constructor.
  - eapply checks_bind; [exact He|]. intros t. eapply checks_bind; [by apply sound_elements|]. intros [].
    apply checks_ret. intros Γ H1 H2. by constructor.
Qed.

Lemma int_checks t m : checks (check_int t m) (fun _ _ => assignable t IntType).
Proof.
  apply (checks_test _ _ _ (assignable t IntType)); [apply IsAssignableTo_assignable|intros H; by apply checks_ret|intros; apply checks_fatal].
Qed.

Lemma sound_index l r tok : sound l -> sound r -> sound (IndexExpr l r tok).
Proof.
  intros Hl Hr. unfold sound. cbn [typecheckExpression]. unfold check_index.
  eapply checks_bind; [exact Hl|]. intros t. eapply checks_bind; [exact Hr|]. intros u.
  apply (checks_test _ _ _ (t = StringType)); [by intros [-> _]%Equals_eq| |intros _].
  - intros ->. eapply checks_bind; [apply int_checks|]. intros []. apply checks_ret. intros Γ Hi Hu Ht. by eapply typed_char.
  - destruct t as [[k|n el|k v]|]; try apply checks_fatal.
    + eapply checks_bind; [apply int_checks|]. intros []. apply checks_ret. intros Γ Hi Hu Ht. by eapply typed_element.
    + apply (checks_test _ _ _ (u = StringType)); [by intros [-> _]%Equals_eq| |intros _; apply checks_fatal].
      intros ->. apply checks_ret. intros Γ Hu Ht. by eapply typed_entry.
Qed.

Lemma sound_bound o : (forall e, o = Some e -> sound e) -> checks (check_bound check o) (fun Γ _ => bound_typed F Γ o).
Proof.
  intros H. destruct o as [e|]; cbn; [|apply checks_ret; constructor].
  eapply checks_bind; [exact (H e eq_refl)|]. intros t. eapply checks_weaken; [apply int_checks|]. intros Γ u' Hi Ht. by econstructor.
Qed.

Lemma sound_slice l s e tok : sound l -> (forall x, s = Some x -> sound x) -> (forall x, e = Some x -> sound x) ->
  sound (SliceExpr l s e tok).
Proof.
  intros Hl Hs He. unfold sound. cbn [typecheckExpression]. unfold check_slice.
  eapply checks_bind; [exact Hl|]. intros t. apply (checks_test _ _ _ (t = StringType)); [by intros [-> _]%Equals_eq| |intros; apply checks_fatal].
  intros ->. eapply checks_bind; [by apply sound_bound|]. intros []. eapply checks_bind; [by apply sound_bound|]. intros [].
  apply checks_ret. intros Γ H1 H2 H3. by constructor.
Qed.

(** What the checker says of an expression follows the rules. *)
Lemma expression_sound e : sound e.
Proof.
  induction e as [op l r t IHl IHr|op r IHr|v args t IH|v t|v ty t|args t|t|l r t IHl IHr|l s e t IHl IHs IHe]
    using Expression_ind'.
  - by apply sound_binary.
  - by apply sound_unary.
  - by apply sound_call.
  - apply sound_identifier.
  - apply checks_ret. constructor.
  - by apply sound_array.
  - apply checks_ret. constructor.
  - by apply sound_index.
  - by apply sound_slice.
Qed.

(** ** Statements *)

Definition stmt_sound (s : Statement) : Prop := forall R loop sc sc' s',
  sc <> [] -> typecheck_statement F R loop s sc = Ret (sc', s') ->
  around sc sc' /\ stmt_typed F R loop (env sc) s (env sc').

(** A check that leaves the environment alone, in a statement that does too. *)
Lemma stmt_same {A} (p : T A) (Q : gmap string Type_t -> A -> Prop) R loop s (s' b : Statement) sc sc' :
  checks p Q -> (p ≫= fun _ => mret s') sc = Ret (sc', b) -> (forall a, Q (env sc) a -> stmt_typed F R loop (env sc) s (env sc)) ->
  around sc sc' /\ stmt_typed F R loop (env sc) s (env sc').
Proof.
  intros Hp H Hs. apply go_bind_ret_inv in H as ([sc1 a] & H1 & [= <- _]). cbn. apply Hp in H1 as [[Ha <-] HQ].
  split; [done | by eapply Hs].
Qed.

Lemma length_not_nil {A} (l k : list A) : length l = length k -> l <> [] -> k <> [].
Proof. by destruct l, k. Qed.

Lemma env_declare sc x t : sc <> [] -> exists sc', declare x t sc = Ret (sc', ()) /\ around sc sc' /\ env sc' = <[x := t]> (env sc).
Proof.
  destruct sc as [|s sc]; [done|]. intros _. eexists. split; [reflexivity|]. split; [apply around_declare|].
  by rewrite !env_cons, fmap_insert, insert_union_l.
Qed.

(** The part of a declaration before the variable is added. *)
Lemma value_checks T rhs : checks (
    match rhs with
    | None => mret T
    | Some rhs =>
        rhsType ← check rhs;
        x ← of_go (declared_types T rhsType rhs);
        match x with
        | Err _ => panic "Array literal has another number of elements"
        | Ok (varType, rhsType) =>
            b ← of_go (IsAssignableTo rhsType varType);
            if (b : bool) then mret varType else fatal "Cannot assign to variable" [rhsType; varType]
        end
    end)
  (fun Γ T' => match rhs with
               | None => T' = T
               | Some e => exists t t', typed F Γ e t /\ declares T e t T' t' /\ assignable t' T'
               end).
Proof.
  destruct rhs as [e|]; [|by apply checks_ret]. eapply checks_bind; [apply expression_sound|]. intros t.
  eapply checks_bind; [apply (checks_of_go _ (fun x => declared_types T t e = Ret x)); auto|]. intros [[T' t']|]; [|by intros ? ? ?].
  apply (checks_test _ _ _ (assignable t' T')); [apply IsAssignableTo_assignable| |intros; apply checks_fatal].
  intros Ha. apply checks_ret. intros Γ Hd Ht. by exists t, t'.
Qed.

Lemma sound_declaration T lhs rhs tok : stmt_sound (AssignmentStmt (Some T) lhs rhs tok).
Proof.
  intros R loop sc sc' s' Hne H. cbn [typecheck_statement] in H.
  apply go_bind_ret_inv in H as ([sc1 x] & H1 & H). apply go_bind_ret_inv in H1 as (x' & Hx & [= <- <-]). cbn [fst snd] in H.
  apply go_bind_ret_inv in H as ([sc2 T'] & H2 & [= <- _]). unfold typecheck_declaration in H2.
  apply go_bind_ret_inv in H2 as ([sc1 scopes] & [= <- <-] & H2). cbn [fst snd] in H2. case_bool_decide; [done|].
  apply go_bind_ret_inv in H2 as ([sc3 T1] & H3 & H2). apply value_checks in H3 as [[Har Henv] Hv]. cbn [fst snd] in H2.
  destruct (env_declare sc3 x' T1) as (sc4 & Hd & Har' & Henv'); [by eapply length_not_nil; [apply Har|]|].
  apply go_bind_ret_inv in H2 as ([sc5 u] & H4 & [= <- _]). rewrite Hd in H4. injection H4 as <- <-. cbn [fst snd].
  split; [by transitivity sc3|]. rewrite Henv', <- Henv. destruct rhs as [e|].
  - destruct Hv as (t & t' & Ht & Hdecl & Ha). by econstructor.
  - subst. by constructor.
Qed.

Lemma sound_assignment lhs rhs tok : stmt_sound (AssignmentStmt None lhs rhs tok).
Proof.
  intros R loop sc sc' s' Hne H. cbn [typecheck_statement] in H. eapply (stmt_same _ (fun Γ _ =>
    stmt_typed F R loop Γ (AssignmentStmt None lhs rhs tok) Γ)); [|exact H|auto]. clear.
  unfold typecheck_assignment. destruct lhs as [| | |x xtok| | | |l r itok|]; try (by intros ? ? ?).
  - intros sc sc' u H. apply go_bind_ret_inv in H as ([sc1 scopes] & [= <- <-] & H). cbn [fst snd] in H.
    pose proof (env_lookup sc x) as Hx. destruct (findVariable sc x) as [v|]; [|done].
    revert Hx. revert sc sc' u H. destruct rhs as [e|]; [|done].
    assert (checks (rhsType ← check e; b ← of_go (IsAssignableTo rhsType (VType v));
      if (b : bool) then mret () else fatal "Cannot assign to variable" [rhsType; VType v])
      (fun Γ _ => exists t, typed F Γ e t /\ assignable t (VType v))) as Hc.
    { eapply checks_bind; [apply expression_sound|]. intros t.
      apply (checks_test _ _ _ (assignable t (VType v))); [apply IsAssignableTo_assignable| |intros; apply checks_fatal].
      intros Ha. apply checks_ret. intros Γ Ht. by exists t. }
    intros sc sc' u H Hx. apply Hc in H as [HS (t & Ht & Ha)]. split; [done|]. by econstructor.
  - eapply checks_bind; [apply expression_sound|]. intros u. destruct rhs as [e|]; [|by intros ? ? ?].
    eapply checks_bind; [apply expression_sound|]. intros t.
    apply (checks_test _ _ _ (assignable t u)); [apply IsAssignableTo_assignable| |intros; apply checks_fatal].
    intros Ha. apply checks_ret. intros Γ Ht Hu. by econstructor.
Qed.

Lemma condition_checks c : checks (typecheck_condition F c) (fun Γ _ => typed F Γ c BoolType).
Proof.
  eapply checks_bind; [apply expression_sound|]. intros t.
  apply (checks_test _ _ _ (t = BoolType)); [by intros [-> _]%Equals_eq| |intros; apply checks_fatal].
  intros ->. apply checks_ret. auto.
Qed.

Lemma return_checks e R : checks (typecheck_return F e R) (fun Γ _ => exists t, typed F Γ e t /\ assignable (value_type t R) R).
Proof.
  eapply checks_bind; [apply expression_sound|]. intros t. cbv zeta. fold (value_type t R).
  apply (checks_test _ _ _ (assignable (value_type t R) R)); [apply IsAssignableTo_assignable| |intros; apply checks_fatal].
  intros Ha. apply checks_ret. eauto.
Qed.

(** The statements of a block, as the checker walks them. *)
Definition check_all (typecheck_statement : Statement -> T Statement) : list Statement -> T (list Statement) :=
  fix loop (l : list Statement) : T (list Statement) :=
    match l with
    | [] => mret []
    | s :: l => s' ← typecheck_statement s; l' ← loop l; mret (s' :: l')
    end.

Lemma sound_all R loop l : Forall stmt_sound l -> forall sc sc' l', sc <> [] ->
  check_all (typecheck_statement F R loop) l sc = Ret (sc', l') ->
  around sc sc' /\ stmts_typed F R loop (env sc) l.
Proof.
  induction 1 as [|s l Hs _ IH]; intros sc sc' l' Hne H; cbn [check_all] in H.
  - injection H as <- _. split; [reflexivity | constructor].
  - apply go_bind_ret_inv in H as ([sc1 s1] & H1 & H). cbn [fst snd] in H.
    apply go_bind_ret_inv in H as ([sc2 l1] & H2 & [= <- _]). cbn [fst snd] in H2 |- *.
    destruct (Hs _ _ _ _ _ Hne H1) as [A1 T1]. destruct (IH sc1 sc2 l1) as [A2 T2]; [by eapply length_not_nil; [apply A1|]|done|].
    split; [by transitivity sc1 | by econstructor].
Qed.

Lemma sound_block R loop l scope : all_block stmt_sound (MkBlock l scope) ->
  checks (check_block (typecheck_statement F R loop) (MkBlock l scope))
    (fun Γ _ => stmts_typed F R loop ((VType <$> scope) ∪ Γ) l).
Proof.
  intros Hb sc sc' b' H. unfold check_block in H. fold (check_all (typecheck_statement F R loop)) in H.
  apply go_bind_ret_inv in H as ([sc1 x] & H1 & [= <- _]). unfold in_scope in H1.
  apply go_bind_ret_inv in H1 as ([sc2 l'] & H2 & [= <- _]).
  destruct (sound_all R loop l Hb (scope :: sc) sc2 l' ltac:(done) H2) as [Ha Ht]. cbn [fst].
  rewrite env_cons in Ht. split; [|done]. destruct sc2 as [|s2 sc2]; [by destruct Ha|]. by eapply around_tail.
Qed.

(** A statement the checker accepts follows the rules. *)
Lemma statement_sound s : stmt_sound s.
Proof.
  induction s as [ty l r t|e|c b eb t IHb IHeb|c b IHb|t|t|e] using Statement_ind'.
  - destruct ty; [by apply sound_declaration | apply sound_assignment].
  - intros R loop sc sc' s' _ H. cbn [typecheck_statement] in H. eapply (stmt_same _ _ R loop _ _ _ _ _ (return_checks e R) H).
    intros u (t & Ht & Ha). by econstructor.
  - intros R loop sc sc' s' _ H. cbn [typecheck_statement] in H. destruct b as [l scope].
    assert (checks (typecheck_condition F c;;
      b' ← check_block (typecheck_statement F R loop) (MkBlock l scope);
      match eb with
      | None => mret (IfStmt c b' None t)
      | Some eb => eb' ← check_block (typecheck_statement F R loop) eb; mret (IfStmt c b' (Some eb') t)
      end) (fun Γ _ => stmt_typed F R loop Γ (IfStmt c (MkBlock l scope) eb t) Γ)) as Hc.
    { eapply checks_bind; [apply condition_checks|]. intros []. eapply checks_bind; [by apply sound_block|]. intros b'.
      destruct eb as [[l2 scope2]|].
      - eapply checks_bind; [apply sound_block; by apply IHeb|]. intros eb'. apply checks_ret. intros Γ H1 H2 H3.
        constructor; [done..|]. by intros ? ? [= <- <-].
      - apply checks_ret. intros Γ H1 H2. by constructor. }
    apply Hc in H as [[Ha He] Hs]. by rewrite He in Hs |- *.
  - intros R loop sc sc' s' _ H. cbn [typecheck_statement] in H. destruct b as [l scope].
    assert (checks (typecheck_condition F c;; b' ← check_block (typecheck_statement F R true) (MkBlock l scope); mret (WhileStmt c b'))
      (fun Γ _ => stmt_typed F R loop Γ (WhileStmt c (MkBlock l scope)) Γ)) as Hc.
    { eapply checks_bind; [apply condition_checks|]. intros []. eapply checks_bind; [by apply sound_block|]. intros b'.
      apply checks_ret. intros Γ H1 H2. by constructor. }
    apply Hc in H as [[Ha He] Hs]. by rewrite He in Hs |- *.
  - intros R [] sc sc' s' _ H; [|done]. injection H as <- _. split; [reflexivity | constructor].
  - intros R [] sc sc' s' _ H; [|done]. injection H as <- _. split; [reflexivity | constructor].
  - intros R loop sc sc' s' _ H. cbn [typecheck_statement] in H. eapply (stmt_same _ _ R loop _ _ _ _ _ (expression_sound e) H).
    intros t Ht. by econstructor.
Qed.

(** ** Functions and programs *)

Lemma parameters_declared names : forall types (scope scope' : variables), declare_parameters names types scope = Ret scope' ->
  NoDup names /\ Forall (fun n => scope !! n = None) names /\ (length names <= length types)%nat
  /\ VType <$> scope' = list_to_map (zip names types) ∪ (VType <$> scope).
Proof.
  induction names as [|name names IH]; intros types scope scope' H; cbn in H.
  - injection H as <-. split_and!; [constructor|constructor|cbn; lia|]. symmetry; apply (left_id_L ∅ (∪)).
  - case_bool_decide as Hn; [done|]. destruct types as [|t types]; [done|]. apply IH in H as (H1 & H2 & H3 & H4).
    assert (scope !! name = None) as Hnone by (by apply eq_None_not_Some).
    assert (name ∉ names) as Hin.
    { intros Hin. rewrite Forall_forall in H2. apply H2 in Hin. by rewrite lookup_insert_eq in Hin. }
    split_and!; [by constructor | |cbn; lia|].
    + constructor; [done|]. eapply Forall_impl; [exact H2|]. intros n Hl. cbn in Hl. by apply lookup_insert_None in Hl as [].
    + rewrite H4, fmap_insert. cbn. rewrite <- insert_union_l. symmetry. apply insert_union_r.
      apply not_elem_of_list_to_map_1. intros Hz. apply Hin. apply list_elem_of_fmap in Hz as ([n u] & -> & Hz).
      by apply elem_of_zip_l in Hz.
Qed.

Lemma function_sound f : checks (typecheckFunctionDefinition F f) (fun Γ _ => function_typed F Γ f).
Proof.
  eapply checks_bind; [apply (checks_of_go _ (fun scope => declare_parameters (Parameters f) (ParameterTypes f) (Scope (FBlock f)) = Ret scope)); auto|].
  intros scope. eapply checks_bind; [apply sound_block, Forall_forall; intros; apply statement_sound|]. intros b.
  apply checks_ret. intros Γ Ht Hp. apply parameters_declared in Hp as (H1 & _ & H2 & H3).
  rewrite H3, <- (assoc_L (∪)) in Ht. by split_and!.
Qed.

Lemma functions_sound l : forall acc, checks (typecheck_functions F l acc) (fun Γ _ => Forall (fun kv => function_typed F Γ kv.2) l).
Proof.
  induction l as [|[k f] l IH]; intros acc; [by apply checks_ret|]. cbn [typecheck_functions].
  eapply checks_bind; [apply function_sound|]. intros f'. eapply checks_weaken; [apply IH|]. intros Γ a Hl Hf. by constructor.
Qed.

End Soundness.

Lemma entry_sound F name f : entry_point F name = Ret f -> check_signature f = Ret () -> entry_typed F name.
Proof.
  unfold entry_point, check_signature. destruct (F !! name) as [g|] eqn:E; [|done]. intros [= ->].
  case_bool_decide as Hp; [|done]. intros H. apply go_bind_ret_inv in H as ([] & Hr & H); [|done].
  apply Equals_eq in Hr as [Hr _]. by exists f.
Qed.

(** C22. A program that the type checker accepts, in whatever order it visits the
    functions, follows the typing rules: [init] and [call] have the signatures
    of entry points, and in every function the operands, arguments,
    conditions, assigned and returned values have fitting types, the variables
    are declared, and [break] and [continue] are in loops. *)
Theorem Typecheck_sound order ast ast' :
  order (Functions ast) ≡ₚ map_to_list (Functions ast) -> Typecheck order ast = Ret ast' -> program_typed ast.
Proof.
  intros Ho H. unfold Typecheck in H.
  apply go_bind_ret_inv in H as (fi & Hi & H). apply go_bind_ret_inv in H as (fc & Hc & H).
  apply go_bind_ret_inv in H as ([] & Hsi & H). apply go_bind_ret_inv in H as ([] & Hsc & H).
  apply go_bind_ret_inv in H as ([sc fs] & Hf & _). apply functions_sound in Hf as [_ Hf].
  split; [by eapply entry_sound..|]. intros k f Hk. rewrite Forall_forall in Hf. apply (Hf (k, f)).
  rewrite Ho. by apply elem_of_map_to_list.
Qed.

End TypesSpec.
