(* ===== verification/MgCodegen.v ===== *)
(** * The code generator of Marigold (src/marigold/codegen.go)

    A computation threads the record of the code; failures are panics.  The
    chain of scopes is the list of their variables, the innermost first, and
    the stack of loops has its top first.  [AvmOps] names the opcodes, whose
    constants clash with the tokens. *)

From S2P Require Import Prelude GoLib Bytecode MgLexer MgAst.

Module Codegen.
Export Mg.

Record LoopContext := MkLoopContext { ContinueAddr : Z; BreakPatches : list Z }.

Record CodegenContext := MkCodegenContext {
  CurrentFunction : option Function_;
  CurrentScope : list variables;
  Instructions : list Instruction;
  FunctionIndex : gmap string Z;
  LocalOffsets : gmap string Z;
  NextLocalOffset : Z;
  LoopStack : list LoopContext;
  NextMemoryAddr : Z;
  StringTable : gmap string Z;
  StringLiterals : list string
}.

Definition with_Instructions (l : list Instruction) (c : CodegenContext) : CodegenContext :=
  let 'MkCodegenContext f sc _ fi lo nl ls nm st sl := c in MkCodegenContext f sc l fi lo nl ls nm st sl.
Definition with_Scope (sc : list variables) (c : CodegenContext) : CodegenContext :=
  let 'MkCodegenContext f _ i fi lo nl ls nm st sl := c in MkCodegenContext f sc i fi lo nl ls nm st sl.
Definition with_LoopStack (ls : list LoopContext) (c : CodegenContext) : CodegenContext :=
  let 'MkCodegenContext f sc i fi lo nl _ nm st sl := c in MkCodegenContext f sc i fi lo nl ls nm st sl.
Definition with_FunctionIndex (fi : gmap string Z) (c : CodegenContext) : CodegenContext :=
  let 'MkCodegenContext f sc i _ lo nl ls nm st sl := c in MkCodegenContext f sc i fi lo nl ls nm st sl.
Definition with_Locals (lo : gmap string Z) (nl : Z) (c : CodegenContext) : CodegenContext :=
  let 'MkCodegenContext f sc i fi _ _ ls nm st sl := c in MkCodegenContext f sc i fi lo nl ls nm st sl.
Definition with_Function (f : option Function_) (c : CodegenContext) : CodegenContext :=
  let 'MkCodegenContext _ sc i fi lo nl ls nm st sl := c in MkCodegenContext f sc i fi lo nl ls nm st sl.
Definition with_Strings (nm : Z) (st : gmap string Z) (sl : list string) (c : CodegenContext) : CodegenContext :=
  let 'MkCodegenContext f sc i fi lo nl ls _ _ _ := c in MkCodegenContext f sc i fi lo nl ls nm st sl.

(** Computations on the context. *)
Definition G (A : Type) : Type := CodegenContext -> go (CodegenContext * A).

#[export] Instance G_ret : MRet G := fun A a c => Ret (c, a).
#[export] Instance G_bind : MBind G := fun A B f p c => x ← p c; f x.2 x.1.

Definition get : G CodegenContext := fun c => Ret (c, c).
Definition modify (f : CodegenContext -> CodegenContext) : G unit := fun c => Ret (f c, ()).
Definition of_go {A} (p : go A) : G A := fun c => a ← p; Ret (c, a).
Definition panic {A} (k : panic_kind) : G A := fun _ => Panic k.
Definition logFatal {A} (message : string) : G A := panic (ExplicitPanic message).

(** [len(ctx.Instructions)] *)
Definition here : G Z := c ← get; mret (len (Instructions c)).

Definition append (i : Instruction) : G unit := modify (fun c => with_Instructions (Instructions c ++ [i]) c).
Definition Emit (op : Op) : G unit := append (MakeInstruction (opcode op)).
Definition EmitPush (value : operand) : G unit := append (MakeInstructionWithValue (opcode PUSH) value).

(** [ctx.Instructions[i].Value = &fmt.Sprintf("0x%x", target)] *)
Definition patch (i target : Z) : G unit := fun c =>
  match Instructions c !! Z.to_nat i with
  | Some ins => Ret (with_Instructions
      (<[Z.to_nat i := MkInstruction (Opcode ins) (Some ("0x" +:+ hex target)%string)]> (Instructions c)) c, ())
  | None => Panic IndexOutOfRange
  end.

(** ** String literals *)

(** [(byteLength + 31) / 32] in 64 bits. *)
Definition chunksNeeded (byteLength : Z) : Z := u64 (byteLength + 31) / 32.

Definition RegisterStringLiteral (stringValue : string) : G Z := fun c =>
  match StringTable c !! stringValue with
  | Some addr => Ret (c, addr)
  | None =>
      let stringAddr := NextMemoryAddr c in
      let byteLength := len (bytes_of_string stringValue) in
      Ret (with_Strings (u64 (stringAddr + u64 (1 + chunksNeeded byteLength)))
             (<[stringValue := stringAddr]> (StringTable c)) (StringLiterals c ++ [stringValue]) c,
           stringAddr)
  end.

(** The literals of an expression in the order of the walk; a slice is not
    entered. *)
Fixpoint expression_strings (e : Expression) : list string :=
  match e with
  | LiteralExpr v TString _ => [v]
  | BinaryExpr _ l r _ => expression_strings l ++ match r with Some r => expression_strings r | None => [] end
  | UnaryExpr _ r => match r with Some r => expression_strings r | None => [] end
  | CallExpr _ args _ | ArrayLiteral args _ => concat (map expression_strings args)
  | IndexExpr l r _ => expression_strings l ++ expression_strings r
  | _ => []
  end.

(** The left-hand side of an assignment is not walked. *)
Fixpoint statement_strings (s : Statement) : list string :=
  match s with
  | ExpressionStmt rhs | ReturnStmt rhs => expression_strings rhs
  | AssignmentStmt _ _ rhs _ => match rhs with Some rhs => expression_strings rhs | None => [] end
  | IfStmt c b eb _ => expression_strings c ++ block_strings b ++ match eb with Some eb => block_strings eb | None => [] end
  | WhileStmt c b => expression_strings c ++ block_strings b
  | BreakStmt _ | ContinueStmt _ => []
  end
with block_strings (b : Block) : list string :=
  match b with
  | MkBlock statements _ =>
      (fix walk (l : list Statement) : list string :=
         match l with [] => [] | s :: l => statement_strings s ++ walk l end) statements
  end.

Fixpoint register_all (l : list string) : G unit :=
  match l with
  | [] => mret ()
  | s :: l => RegisterStringLiteral s;; register_all l
  end.

(** The functions in the order their map is iterated. *)
Definition CollectStringLiterals (functions : list (string * Function_)) : G unit :=
  register_all (concat (map (fun kv => block_strings (FBlock kv.2)) functions)).

(** The chunk of a string at an index, padded to 32 bytes, as [0x%x] prints it. *)
Definition chunk_text (stringBytes : bytes) (i : nat) : string :=
  let chunk := take 32 (drop (i * 32) stringBytes) in
  ("0x" +:+ hex_encode (chunk ++ replicate (32 - length chunk) zero))%string.

Fixpoint init_chunks (stringBytes : bytes) (stringAddr : Z) (i n : nat) : G unit :=
  match n with
  | O => mret ()
  | S n =>
      EmitPush (OpString (chunk_text stringBytes i));;
      EmitPush (OpUint64 (u64 (stringAddr + 1 + Z.of_nat i)));;
      Emit MSTORE;;
      init_chunks stringBytes stringAddr (S i) n
  end.

Fixpoint init_strings (l : list string) : G unit :=
  match l with
  | [] => mret ()
  | stringValue :: l =>
      c ← get;
      let stringAddr := default 0 (StringTable c !! stringValue) in
      let stringBytes := bytes_of_string stringValue in
      EmitPush (OpUint64 (len stringBytes));;
      EmitPush (OpUint64 stringAddr);;
      Emit MSTORE;;
      init_chunks stringBytes stringAddr 0 (Z.to_nat (chunksNeeded (len stringBytes)));;
      init_strings l
  end.

Definition GenerateStringInitialization : G unit := c ← get; init_strings (StringLiterals c).

(** ** Expressions *)

Definition generateLiteral (value : string) (valueType : TokenType) : G unit :=
  match valueType with
  | Int => EmitPush (OpString value)
  | Bool => panic BadTypeAssertion
  | TString => stringAddr ← RegisterStringLiteral value; EmitPush (OpUint64 stringAddr)
  | Float => logFatal "Float literals not yet supported"
  | _ => logFatal "Unsupported literal type"
  end.

(** The opcodes of the context variables. *)
Definition context_opcodes : list (string * Op) :=
  [("@caller", CALLER); ("@address", ADDRESS); ("@balance", BALANCE); ("@origin", ORIGIN);
   ("@gasprice", GASPRICE); ("@callvalue", CALLVALUE); ("@timestamp", TIMESTAMP); ("@difficulty", DIFFICULTY);
   ("@coinbase", COINBASE); ("@height", HEIGHT); ("@gaslimit", GASLIMIT); ("@tsxdata", TSXDATA)]%string.

Definition context_opcode (name : string) : option Op :=
  match List.find (fun kv => String.eqb kv.1 name) context_opcodes with
  | Some (_, o) => Some o
  | None => None
  end.

Definition generateIdentifier (varName : string) : G unit :=
  match GetBlockchainContextVariable varName with
  | Some _ =>
      match context_opcode varName with
      | Some o => Emit o
      | None => logFatal "Unknown blockchain context variable"
      end
  | None =>
      c ← get;
      match CurrentFunction c, LocalOffsets c !! varName with
      | Some _, Some offset => EmitPush (OpInt offset);; Emit LOAD_LOCAL
      | _, _ => logFatal "Undefined variable"
      end
  end.

(** The first scope of the chain that has the variable decides. *)
Fixpoint scope_is_string (scopes : list variables) (varName : string) : go bool :=
  match scopes with
  | [] => Ret false
  | scope :: scopes =>
      match scope !! varName with
      | Some variable => Equals (VType variable) StringType
      | None => scope_is_string scopes varName
      end
  end.

Definition isStringExpression (e : Expression) : G bool :=
  match e with
  | LiteralExpr _ TString _ => mret true
  | IdentifierExpr varName _ => c ← get; of_go (scope_is_string (CurrentScope c) varName)
  | _ => mret false
  end.

(** The instructions of a binary operator, after its operands. *)
Definition generateOperator (op : TokenType) (isStringConcat : bool) : G unit :=
  match op with
  | Plus => if isStringConcat then Emit STRCONCAT else Emit ADD
  | Minus => Emit SUB
  | Multiply => Emit MUL
  | Divide => Emit DIV
  | Equal => Emit EQ
  | NotEqual => Emit EQ;; Emit ISZERO
  | LessThan => Emit LT
  | GreaterThan => Emit GT
  | LessEqual => Emit GT;; Emit ISZERO
  | GreaterEqual => Emit LT;; Emit ISZERO
  | Modulo => Emit MOD
  | _ => logFatal "Unsupported binary operator"
  end.

Definition generateUnary (op : TokenType) : G unit :=
  match op with
  | Minus => EmitPush (OpInt 0);; EmitPush (OpInt 1);; Emit SWAP;; Emit SUB
  | Not => Emit ISZERO
  | _ => logFatal "Unsupported unary operator"
  end.

(** The functions of one argument whose instruction depends on whether the
    argument is a string. *)
Definition builtin (funcName : string) : option (bool -> G unit) :=
  if String.eqb funcName "emit" then Some (fun str => Emit (if str : bool then EMITSTR else EMIT))
  else if String.eqb funcName "len" then
    Some (fun str => if (str : bool) then Emit STRLEN else logFatal "len() currently only supports strings")
  else if String.eqb funcName "int" then
    Some (fun str => if (str : bool) then Emit STRTOINT else logFatal "int() currently only supports string arguments")
  else if String.eqb funcName "string" then
    Some (fun str => if (str : bool) then logFatal "string() currently only supports integer arguments" else Emit INTTOSTR)
  else None.

(** The ones that do not look at their arguments, with how many they take;
    [float] converts nothing. *)
Definition plain_builtin (funcName : string) : option (nat * G unit) :=
  if String.eqb funcName "emit_str" then Some (1%nat, Emit EMITSTR)
  else if String.eqb funcName "str_concat" then Some (2%nat, Emit STRCONCAT)
  else if String.eqb funcName "str_len" then Some (1%nat, Emit STRLEN)
  else if String.eqb funcName "float" then Some (1%nat, mret ())
  else None.

(** [expr.Lhs] is the identifier. *)
Definition is_identifier (name : string) (e : Expression) : bool :=
  match e with IdentifierExpr v _ => String.eqb v name | _ => false end.

(** The generators of the compound expressions, over the one of expressions. *)
Section Compound.
Context (GenerateExpression : Expression -> G unit).

(** An operand that is [nil] is dereferenced. *)
Definition generate_operand (o : option Expression) : G unit :=
  match o with Some e => GenerateExpression e | None => panic NilDereference end.

Definition generate_args : list Expression -> G unit :=
  fix generate_args (args : list Expression) : G unit :=
    match args with
    | [] => mret ()
    | arg :: args => GenerateExpression arg;; generate_args args
    end.

(** Whether an addition concatenates strings. *)
Definition is_string_concat (op : TokenType) (l : Expression) (r : option Expression) : G bool :=
  match op, r with
  | Plus, Some r => b ← isStringExpression l; if (b : bool) then isStringExpression r else mret false
  | _, _ => mret false
  end.

Definition generateBinaryExpression (op : TokenType) (l : Expression) (r : option Expression) : G unit :=
  GenerateExpression l;;
  generate_operand r;;
  isStringConcat ← is_string_concat op l r;
  generateOperator op isStringConcat.

Definition generateUnaryExpression (op : TokenType) (r : option Expression) : G unit :=
  generate_operand r;; generateUnary op.

Definition generateCall (funcName : string) (args : list Expression) : G unit :=
  match builtin funcName, plain_builtin funcName with
  | Some emit, _ =>
      match args with
      | [arg] => GenerateExpression arg;; str ← isStringExpression arg; emit str
      | _ => logFatal "expects exactly 1 argument"
      end
  | None, Some (n, emit) =>
      if bool_decide (length args = n) then generate_args args;; emit
      else logFatal "expects another number of arguments"
  | None, None =>
      c ← get;
      match FunctionIndex c !! funcName with
      | None => logFatal "Undefined function"
      | Some funcAddr => generate_args args;; EmitPush (OpInt funcAddr);; Emit CALL
      end
  end.

Definition generateIndexExpr (l r : Expression) : G unit :=
  if is_identifier "persistent" l then GenerateExpression r;; Emit PLOAD
  else if is_identifier "memory" l then GenerateExpression r;; Emit MLOAD
  else
    str ← isStringExpression l;
    if (str : bool) then GenerateExpression l;; GenerateExpression r;; Emit STRINDEX
    else logFatal "Index expressions only supported for persistent[], memory[], and strings".

(** A bound that is [nil] is a constant. *)
Definition generate_bound (bound : option Expression) (by_default : Z) : G unit :=
  match bound with Some e => GenerateExpression e | None => EmitPush (OpInt by_default) end.

Definition generateSliceExpr (l : Expression) (start en : option Expression) : G unit :=
  str ← isStringExpression l;
  if (str : bool) then
    GenerateExpression l;;
    generate_bound start 0;;
    generate_bound en 999999;;
    Emit STRSLICE
  else logFatal "Slice expressions only supported for strings".

End Compound.

Fixpoint GenerateExpression (e : Expression) : G unit :=
  match e with
  | LiteralExpr v ty _ => generateLiteral v ty
  | BinaryExpr op l r _ => generateBinaryExpression GenerateExpression op l r
  | UnaryExpr op r => generateUnaryExpression GenerateExpression op r
  | IdentifierExpr v _ => generateIdentifier v
  | CallExpr funcName args _ => generateCall GenerateExpression funcName args
  | ArrayLiteral _ _ => logFatal "Array literals not yet supported"
  | MapLiteral _ => logFatal "Map literals not yet supported"
  | IndexExpr l r _ => generateIndexExpr GenerateExpression l r
  | SliceExpr l start en _ => generateSliceExpr GenerateExpression l start en
  end.

(** ** Statements *)

(** The [Value] of an expression, as the string the parser puts there. *)
Definition expression_value (e : Expression) : go string :=
  match e with
  | IdentifierExpr v _ | CallExpr v _ _ | LiteralExpr v _ _ => Ret v
  | _ => Panic BadTypeAssertion
  end.

Definition store_local (varName : string) : G unit :=
  c ← get;
  match LocalOffsets c !! varName with
  | Some offset => EmitPush (OpInt offset);; Emit STORE_LOCAL
  | None =>
      let offset := NextLocalOffset c in
      modify (with_Locals (<[varName := offset]> (LocalOffsets c)) (offset + 1));;
      EmitPush (OpInt offset);; Emit STORE_LOCAL
  end.

Definition generateAssignment (lhs : Expression) (rhs : option Expression) : G unit :=
  match rhs with Some rhs => GenerateExpression rhs | None => panic NilDereference end;;
  match lhs with
  | IndexExpr l r _ =>
      if is_identifier "persistent" l then GenerateExpression r;; Emit PSTORE
      else if is_identifier "memory" l then GenerateExpression r;; Emit MSTORE
      else logFatal "Index assignment only supported for persistent[] and memory[]"
  | _ => varName ← of_go (expression_value lhs); store_local varName
  end.

Definition generateReturn (rhs : Expression) : G unit := GenerateExpression rhs;; Emit RETURN.

(** A placeholder and a jump, whose index is returned. *)
Definition emit_jump (op : Op) : G Z := i ← here; EmitPush (OpInt 0);; Emit op;; mret i.

Definition generateBreak : G unit :=
  c ← get;
  match LoopStack c with
  | [] => logFatal "Break statement outside of loop"
  | currentLoop :: rest =>
      jumpIndex ← emit_jump JUMP;
      modify (with_LoopStack (MkLoopContext (ContinueAddr currentLoop) (BreakPatches currentLoop ++ [jumpIndex]) :: rest))
  end.

Definition generateContinue : G unit :=
  c ← get;
  match LoopStack c with
  | [] => logFatal "Continue statement outside of loop"
  | currentLoop :: _ => EmitPush (OpInt (ContinueAddr currentLoop));; Emit JUMP
  end.

Fixpoint patch_all (l : list Z) (target : Z) : G unit :=
  match l with [] => mret () | i :: l => patch i target;; patch_all l target end.

Definition push_loop (loopStart : Z) : G unit :=
  modify (fun c => with_LoopStack (MkLoopContext loopStart [] :: LoopStack c) c).

(** The patches of the innermost loop, which is left. *)
Definition pop_loop : G (list Z) := fun c =>
  match LoopStack c with
  | l :: rest => Ret (with_LoopStack rest c, BreakPatches l)
  | [] => Panic IndexOutOfRange
  end.

Definition generateIf (generateBlock : Block -> G unit) (c : Expression) (b : Block) (eb : option Block) : G unit :=
  GenerateExpression c;;
  Emit ISZERO;;
  jumpcIndex ← emit_jump JUMPC;
  generateBlock b;;
  match eb with
  | Some eb =>
      jumpIndex ← emit_jump JUMP;
      elseStart ← here;
      patch jumpcIndex elseStart;;
      generateBlock eb;;
      endIndex ← here;
      patch jumpIndex endIndex
  | None => endIndex ← here; patch jumpcIndex endIndex
  end.

Definition generateWhile (generateBlock : Block -> G unit) (c : Expression) (b : Block) : G unit :=
  loopStart ← here;
  GenerateExpression c;;
  Emit ISZERO;;
  jumpcIndex ← emit_jump JUMPC;
  push_loop loopStart;;
  generateBlock b;;
  breakPatches ← pop_loop;
  EmitPush (OpInt loopStart);;
  Emit JUMP;;
  loopEnd ← here;
  patch jumpcIndex loopEnd;;
  patch_all breakPatches loopEnd.

(** The statements of a block, in its scope. *)
Definition in_block (generateStatement : Statement -> G unit) (b : Block) : G unit :=
  match b with
  | MkBlock statements scope =>
      c ← get;
      modify (with_Scope (scope :: CurrentScope c));;
      (fix loop (l : list Statement) : G unit :=
         match l with [] => mret () | s :: l => generateStatement s;; loop l end) statements;;
      modify (with_Scope (CurrentScope c))
  end.

Fixpoint generateStatement (s : Statement) : G unit :=
  match s with
  | AssignmentStmt _ lhs rhs _ => generateAssignment lhs rhs
  | ReturnStmt rhs => generateReturn rhs
  | IfStmt c b eb _ => generateIf (in_block generateStatement) c b eb
  | WhileStmt c b => generateWhile (in_block generateStatement) c b
  | BreakStmt _ => generateBreak
  | ContinueStmt _ => generateContinue
  | ExpressionStmt rhs => GenerateExpression rhs;; Emit POP
  end.

Definition generateBlock : Block -> G unit := in_block generateStatement.

(** ** Functions and the program *)

Fixpoint parameter_offsets (names : list string) (i : Z) (acc : gmap string Z) : gmap string Z :=
  match names with [] => acc | name :: names => parameter_offsets names (i + 1) (<[name := i]> acc) end.

(** A function is generated once; [globals] is the scope around its body. *)
Definition GenerateFunctionDefinition (globals : variables) (f : Function_) : G unit :=
  back ← get;
  match FunctionIndex back !! FName f with
  | Some _ => mret ()
  | None =>
      modify (with_FunctionIndex (<[FName f := len (Instructions back)]> (FunctionIndex back)));;
      modify (with_Function (Some f));;
      modify (with_Scope [globals]);;
      modify (with_Locals (parameter_offsets (Parameters f) 0 ∅) (len (Parameters f)));;
      generateBlock (FBlock f);;
      c ← get;
      match last (Instructions c) with
      | Some i => if Opcode i =? opcode RETURN then mret () else EmitPush (OpInt 0);; Emit RETURN
      | None => EmitPush (OpInt 0);; Emit RETURN
      end;;
      modify (with_Function (CurrentFunction back));;
      modify (with_Scope (CurrentScope back));;
      modify (with_Locals (LocalOffsets back) (NextLocalOffset back))
  end.

Fixpoint generate_functions (globals : variables) (l : list (string * Function_)) : G unit :=
  match l with
  | [] => mret ()
  | (name, f) :: l =>
      (if String.eqb name "init" || String.eqb name "call" then mret () else GenerateFunctionDefinition globals f);;
      generate_functions globals l
  end.

Definition generate_named (ast : Ast) (name : string) : G unit :=
  match Functions ast !! name with
  | Some f => GenerateFunctionDefinition (AScope ast) f
  | None => mret ()
  end.

(** The jump to an entry point: the table at the start goes to the
    initialisation of the strings, and that to the function. *)
Definition patch_entry (name : string) (entry pathStart placeholder : Z) : G unit :=
  c ← get;
  match FunctionIndex c !! name with
  | Some addr => patch entry pathStart;; patch placeholder addr
  | None => logFatal "function not found - required for contracts"
  end.

Definition empty_context : CodegenContext := MkCodegenContext None [] [] ∅ ∅ 0 [] 0 ∅ [].

(** The functions are iterated twice, each time in some order. *)
Definition codegen_program (ast : Ast) (order1 order2 : list (string * Function_)) : G unit :=
  CollectStringLiterals order1;;
  emit_jump JUMP;;
  emit_jump JUMP;;
  initPathStart ← here;
  GenerateStringInitialization;;
  initJumpPlaceholder ← emit_jump JUMP;
  callPathStart ← here;
  GenerateStringInitialization;;
  callJumpPlaceholder ← emit_jump JUMP;
  generate_named ast "init";;
  generate_functions (AScope ast) order2;;
  generate_named ast "call";;
  patch_entry "init" 0 initPathStart initJumpPlaceholder;;
  patch_entry "call" 2 callPathStart callJumpPlaceholder.

Definition CodegenWithContext (ast : Ast) (order1 order2 : list (string * Function_)) : go CodegenContext :=
  x ← codegen_program ast order1 order2 empty_context; Ret x.1.

Definition instruction_text (i : Instruction) : string :=
  match Bytecode.Value i with
  | Some v => if (Opcode i =? opcode PUSH)%Z then "PUSH " +:+ v +:+ " " else OPCODE_String (Opcode i) +:+ " "
  | None => OPCODE_String (Opcode i) +:+ " "
  end%string.

Definition Codegen (ast : Ast) (order1 order2 : list (string * Function_)) : go string :=
  c ← CodegenWithContext ast order1 order2;
  Ret (String.concat "" (map instruction_text (Instructions c))).

End Codegen.
