(* ===== verification/MgFrame.v ===== *)
(** * What the code generator leaves alone

    Generating an expression or a statement only adds instructions: those that
    are there stay, whatever is generated, with or without patches, and so do
    the addresses of the functions.  [grows] is a preorder, and [keeps] walks
    through the generator with it. *)

From S2P Require Import Prelude GoLib Bytecode MgLexer MgAst MgCodegen.

Module Frame.
Export Codegen.

(** [p] relates the context before to the one after. *)
Definition keeps (R : CodegenContext -> CodegenContext -> Prop) {A} (p : G A) : Prop :=
  forall c c' a, p c = Ret (c', a) -> R c c'.

Section keeps.
Context (R : CodegenContext -> CodegenContext -> Prop) `{!PreOrder R}.

Lemma keeps_ret {A} (a : A) : keeps R (mret a).
Proof. intros c c' x [= <- <-]. reflexivity. Qed.

Lemma keeps_bind {A B} (p : G A) (f : A -> G B) : keeps R p -> (forall a, keeps R (f a)) -> keeps R (p ≫= f).
Proof.
  intros Hp Hf c c' b H. apply go_bind_ret_inv in H as ([c1 a] & H1 & H2). cbn in H2.
  transitivity c1; [by eapply Hp | by eapply Hf].
Qed.

Lemma keeps_panic {A} k : keeps R (panic k : G A).
Proof. by intros c c' a. Qed.

Lemma keeps_logFatal {A} msg : keeps R (logFatal msg : G A).
Proof. apply keeps_panic. Qed.

Lemma keeps_get : keeps R get.
Proof. intros c c' a [= <- <-]. reflexivity. Qed.

Lemma keeps_here : keeps R here.
Proof. intros c c' a [= <- <-]. reflexivity. Qed.

Lemma keeps_of_go {A} (p : go A) : keeps R (of_go p).
Proof. intros c c' a H. apply go_bind_ret_inv in H as (x & _ & [= <- <-]). reflexivity. Qed.

End keeps.

Lemma keeps_weaken (R R' : CodegenContext -> CodegenContext -> Prop) {A} (p : G A) :
  (forall c c', R c c' -> R' c c') -> keeps R p -> keeps R' p.
Proof. intros H Hp c c' a E. eapply H, Hp, E. Qed.

(** Expressions append code, and may register strings. *)
Record grows (c c' : CodegenContext) : Prop := {
  grows_code : Instructions c `prefix_of` Instructions c';
  grows_functions : FunctionIndex c' = FunctionIndex c;
  grows_loops : LoopStack c' = LoopStack c
}.

#[export] Instance grows_preorder : PreOrder grows.
Proof.
  split; [by split|]. intros c1 c2 c3 [] []. split; [by etransitivity | congruence..].
Qed.

Create HintDb keeps.
#[export] Hint Resolve keeps_ret keeps_panic keeps_logFatal keeps_get keeps_here keeps_of_go : keeps.

(** Walk through a generator. *)
Ltac keeps_tac :=
  intros; cbv beta zeta;
  lazymatch goal with
  | |- keeps _ (_ ≫= _) => apply keeps_bind; [typeclasses eauto | keeps_tac | intros; keeps_tac]
  | |- keeps _ (match ?x with _ => _ end) => destruct x; keeps_tac
  | _ => try solve [eauto with keeps typeclass_instances]
  end.

Lemma grows_Emit o : keeps grows (Emit o).
Proof. intros c c' a [= <- <-]. destruct c. split; cbn; [by apply prefix_app_r | done..]. Qed.

Lemma grows_EmitPush v : keeps grows (EmitPush v).
Proof. intros c c' a [= <- <-]. destruct c. split; cbn; [by apply prefix_app_r | done..]. Qed.

Lemma grows_Register s : keeps grows (RegisterStringLiteral s).
Proof. intros c c' a. unfold RegisterStringLiteral. case_match; intros [= <- <-]; [reflexivity|]. by destruct c. Qed.

#[export] Hint Resolve grows_Emit grows_EmitPush grows_Register : keeps.

Lemma grows_isString e : keeps grows (isStringExpression e).
Proof. unfold isStringExpression. keeps_tac. Qed.
#[export] Hint Resolve grows_isString : keeps.

Lemma grows_builtin name gen str : builtin name = Some gen -> keeps grows (gen str).
Proof. unfold builtin. repeat case_match; try done; intros [= <-]; keeps_tac. Qed.

Lemma grows_plain name n gen : plain_builtin name = Some (n, gen) -> keeps grows gen.
Proof. unfold plain_builtin. repeat case_match; try done; intros [= <- <-]; keeps_tac. Qed.

Lemma grows_args args : Forall (fun e => keeps grows (GenerateExpression e)) args ->
  keeps grows (generate_args GenerateExpression args).
Proof. induction 1; cbn; keeps_tac. Qed.

Lemma grows_operand o : (forall e, o = Some e -> keeps grows (GenerateExpression e)) ->
  keeps grows (generate_operand GenerateExpression o).
Proof. destruct o; cbn; intros H; [by apply H | keeps_tac]. Qed.

Lemma grows_bound o z : (forall e, o = Some e -> keeps grows (GenerateExpression e)) ->
  keeps grows (generate_bound GenerateExpression o z).
Proof. destruct o; cbn; intros H; [by apply H | keeps_tac]. Qed.

Lemma grows_expression e : keeps grows (GenerateExpression e).
Proof.
  induction e as [op l r t IHl IHr|op r IHr|v args t IH|v t|v ty t|args t|t|l r t IHl IHr|l s e t IHl IHs IHe]
    using Expression_ind'; cbn [GenerateExpression].
  - unfold generateBinaryExpression, is_string_concat, generateOperator.
    pose proof (grows_operand r IHr). keeps_tac.
  - unfold generateUnaryExpression, generateUnary. pose proof (grows_operand r IHr). keeps_tac.
  - unfold generateCall. pose proof (grows_args args IH) as Ha. destruct (builtin v) as [gen|] eqn:E.
    + destruct args as [|arg []]; [keeps_tac| |keeps_tac]. apply Forall_inv in IH.
      pose proof (fun str => grows_builtin _ _ str E). keeps_tac.
    + destruct (plain_builtin v) as [[n gen]|] eqn:Ep; [pose proof (grows_plain _ _ _ Ep)|]; keeps_tac.
  - unfold generateIdentifier. keeps_tac.
  - unfold generateLiteral. keeps_tac.
  - keeps_tac.
  - keeps_tac.
  - unfold generateIndexExpr. keeps_tac.
  - unfold generateSliceExpr. pose proof (grows_bound s 0 IHs). pose proof (grows_bound e 999999 IHe). keeps_tac.
Qed.
#[export] Hint Resolve grows_expression : keeps.

(** ** Statements *)

(** The innermost loop may get breaks from the address [n] on. *)
Definition loops_grow (n : nat) (ls ls' : list LoopContext) : Prop :=
  match ls with
  | [] => ls' = []
  | l :: r => exists new, ls' = MkLoopContext (ContinueAddr l) (BreakPatches l ++ new) :: r
                /\ Forall (fun i => Z.of_nat n <= i) new
  end.

Record adds (c c' : CodegenContext) : Prop := {
  adds_code : Instructions c `prefix_of` Instructions c';
  adds_functions : FunctionIndex c' = FunctionIndex c;
  adds_loops : loops_grow (length (Instructions c)) (LoopStack c) (LoopStack c')
}.

Lemma loops_grow_refl n ls : loops_grow n ls ls.
Proof. destruct ls as [|[] ls]; [done|]. exists []. by rewrite app_nil_r. Qed.

Lemma loops_grow_trans n k ls1 ls2 ls3 : (n <= k)%nat -> loops_grow n ls1 ls2 -> loops_grow k ls2 ls3 -> loops_grow n ls1 ls3.
Proof.
  intros Hn. destruct ls1 as [|l r]; cbn; [by intros -> ->|]. intros (a & -> & Ha) (b & -> & Hb). cbn.
  exists (a ++ b). rewrite app_assoc. split; [done|]. apply Forall_app. split; [done|].
  eapply Forall_impl; [exact Hb|]. cbn. lia.
Qed.

#[export] Instance adds_preorder : PreOrder adds.
Proof.
  split.
  - intros c. split; [done..|apply loops_grow_refl].
  - intros c1 c2 c3 [P1 F1 L1] [P2 F2 L2]. split; [by etransitivity | congruence |].
    eapply loops_grow_trans; [by apply prefix_length | done..].
Qed.

Lemma grows_adds c c' : grows c c' -> adds c c'.
Proof. intros [P F L]. split; [done..|]. rewrite L. apply loops_grow_refl. Qed.

Lemma adds_of_grows {A} (p : G A) : keeps grows p -> keeps adds p.
Proof. apply keeps_weaken, grows_adds. Qed.
#[export] Hint Resolve adds_of_grows : keeps.

Lemma adds_modify f : (forall c, adds c (f c)) -> keeps adds (modify f).
Proof. intros H c c' a [= <- <-]. apply H. Qed.

Lemma adds_with_Scope sc : keeps adds (modify (with_Scope sc)).
Proof. apply adds_modify. intros c. apply grows_adds. by destruct c. Qed.

Lemma adds_with_Locals lo nl : keeps adds (modify (with_Locals lo nl)).
Proof. apply adds_modify. intros c. apply grows_adds. by destruct c. Qed.

#[export] Hint Resolve adds_with_Scope adds_with_Locals : keeps.

Lemma grows_emit_jump op : keeps grows (emit_jump op).
Proof. unfold emit_jump. keeps_tac. Qed.
#[export] Hint Resolve grows_emit_jump : keeps.

Lemma emit_jump_index op c c' i : emit_jump op c = Ret (c', i) -> i = len (Instructions c).
Proof.
  unfold emit_jump. intros H. apply go_bind_ret_inv in H as ([c1 a] & [= <- <-] & H). cbn in H.
  apply go_bind_ret_inv in H as ([c2 []] & _ & H). cbn in H. apply go_bind_ret_inv in H as ([c3 []] & _ & H).
  by injection H.
Qed.

Lemma prefix_insert {A} (l k : list A) i x : l `prefix_of` k -> (length l <= i)%nat -> l `prefix_of` <[i := x]> k.
Proof. intros [r ->] H. rewrite insert_app_r_alt by done. by apply prefix_app_r. Qed.

(** Patches above what was there before. *)
Record patched (n : nat) (c c' : CodegenContext) : Prop := {
  patched_code : forall l, l `prefix_of` Instructions c -> (length l <= n)%nat -> l `prefix_of` Instructions c';
  patched_functions : FunctionIndex c' = FunctionIndex c;
  patched_loops : LoopStack c' = LoopStack c
}.

Lemma patch_patched n i t c c' a : Z.of_nat n <= i -> patch i t c = Ret (c', a) -> patched n c c'.
Proof.
  intros Hn. unfold patch. case_match; [|done]. intros [= <- <-]. destruct c. split; cbn; [|done..].
  intros l Hl Hlen. apply prefix_insert; [done | lia].
Qed.

Lemma patch_all_patched n ps t : Forall (fun i => Z.of_nat n <= i) ps -> forall c c' a,
  patch_all ps t c = Ret (c', a) -> patched n c c'.
Proof.
  induction 1 as [|i ps Hi _ IH]; intros c c' a; cbn.
  - intros [= <- <-]. by split.
  - intros H. apply go_bind_ret_inv in H as ([c1 []] & H1 & H2). cbn in H2.
    apply (patch_patched n) in H1 as [P1 F1 L1]; [|done]. apply IH in H2 as [P2 F2 L2].
    split; [|congruence..]. intros l Hl Hn. apply P2; [|done]. by apply P1.
Qed.

Lemma adds_patched c1 c2 c3 : adds c1 c2 -> patched (length (Instructions c1)) c2 c3 -> adds c1 c3.
Proof.
  intros [P1 F1 L1] [P2 F2 L2]. split; [by apply P2 | congruence | congruence].
Qed.

Lemma adds_store name : keeps adds (store_local name).
Proof. unfold store_local. keeps_tac. Qed.

Lemma adds_assignment l r : keeps adds (generateAssignment l r).
Proof. unfold generateAssignment. pose proof adds_store. keeps_tac. Qed.

Lemma adds_return e : keeps adds (generateReturn e).
Proof. unfold generateReturn. keeps_tac. Qed.

Lemma adds_break : keeps adds generateBreak.
Proof.
  intros c c' a H. unfold generateBreak in H. apply go_bind_ret_inv in H as ([c1 a1] & [= <- <-] & H). cbn in H.
  destruct (LoopStack c) as [|l r] eqn:El; [done|].
  apply go_bind_ret_inv in H as ([c2 i] & H1 & [= <- <-]). pose proof (emit_jump_index _ _ _ _ H1) as ->.
  apply grows_emit_jump in H1 as [P F L]. destruct c2. cbn in *. split; cbn; [done..|]. rewrite El.
  exists [len (Instructions c)]. split; [done|]. by repeat constructor.
Qed.

Lemma adds_continue : keeps adds generateContinue.
Proof. unfold generateContinue. keeps_tac. Qed.

#[export] Hint Resolve adds_store adds_assignment adds_return adds_break adds_continue : keeps.

Lemma adds_block b : all_block (fun s => keeps adds (generateStatement s)) b -> keeps adds (generateBlock b).
Proof.
  destruct b as [l scope]. unfold all_block. cbn [Statements]. intros Hl. unfold generateBlock, in_block.
  apply keeps_bind; [typeclasses eauto | keeps_tac | intros c]. apply keeps_bind; [typeclasses eauto | keeps_tac | intros _].
  apply keeps_bind; [typeclasses eauto | | keeps_tac]. induction Hl; keeps_tac.
Qed.

Lemma go_seq {A B} (p : G A) (f : A -> G B) c c' b :
  (p ≫= f) c = Ret (c', b) -> exists c1 a, p c = Ret (c1, a) /\ f a c1 = Ret (c', b).
Proof. intros H. apply go_bind_ret_inv in H as ([c1 a] & H1 & H2). eauto. Qed.

(** Take a run apart. *)
Ltac steps H :=
  repeat (let c := fresh "c" in let a := fresh "a" in let E := fresh "E" in apply go_seq in H as (c & a & E & H)).

Lemma adds_le c c' : adds c c' -> len (Instructions c) <= len (Instructions c').
Proof. intros [P _ _]. apply prefix_length in P. unfold len. lia. Qed.

Lemma adds_patch c c1 c2 i t a : adds c c1 -> len (Instructions c) <= i -> patch i t c1 = Ret (c2, a) -> adds c c2.
Proof. intros H1 Hi Hp. eapply adds_patched; [exact H1|]. eapply patch_patched; [|exact Hp]. exact Hi. Qed.

(** The test of a conditional and of a loop. *)
Lemma adds_test {B} cond (f : Z -> G B) c c' b :
  (GenerateExpression cond;; Emit ISZERO;; j ← emit_jump JUMPC; f j) c = Ret (c', b) ->
  exists c1 j, adds c c1 /\ len (Instructions c) <= j /\ f j c1 = Ret (c', b).
Proof.
  intros H. apply go_seq in H as (c1 & a & E & H). apply go_seq in H as (c2 & a' & E' & H).
  apply go_seq in H as (c3 & j & E'' & H). exists c3, j. pose proof (emit_jump_index _ _ _ _ E'') as ->.
  apply grows_expression, grows_adds in E. apply grows_Emit, grows_adds in E'. apply grows_emit_jump, grows_adds in E''.
  assert (adds c c2) as H02 by by transitivity c1. split; [by transitivity c2|]. split; [by apply adds_le | done].
Qed.

Lemma adds_if cond b eb : keeps adds (generateBlock b) -> (forall x, eb = Some x -> keeps adds (generateBlock x)) ->
  keeps adds (generateIf generateBlock cond b eb).
Proof.
  intros Hb Heb c c' a H. unfold generateIf in H. apply adds_test in H as (c1 & j & H01 & Hj & H). steps H.
  apply Hb in E. assert (adds c c0) as H02 by by transitivity c1. destruct eb as [eb|]; steps H.
  - pose proof (emit_jump_index _ _ _ _ E0) as ->. apply grows_emit_jump, grows_adds in E0.
    injection E1 as <- <-. injection E4 as <- <-. apply (Heb eb eq_refl) in E3.
    assert (adds c c2) as H03 by by transitivity c0. pose proof (adds_patch _ _ _ _ _ _ H03 Hj E2) as H04.
    eapply (adds_patch c c5); [by transitivity c4 | apply (adds_le _ _ H02) | exact H].
  - injection E0 as <- <-. by eapply adds_patch.
Qed.

Lemma patch_all_adds ps t : forall c c1 c2 a, adds c c1 -> Forall (fun i => len (Instructions c) <= i) ps ->
  patch_all ps t c1 = Ret (c2, a) -> adds c c2.
Proof. intros c c1 c2 a H1 Hps Hp. eapply adds_patched; [exact H1|]. by eapply patch_all_patched. Qed.

(** The breaks of a loop's body come after its start. *)
Lemma adds_loop b c c1 c2 c3 k ps a :
  keeps adds (generateBlock b) -> push_loop k c = Ret (c1, a) -> generateBlock b c1 = Ret (c2, a) ->
  pop_loop c2 = Ret (c3, ps) -> adds c c3 /\ Forall (fun i => len (Instructions c) <= i) ps.
Proof.
  intros Hb H1 H2 H3. injection H1 as <- _. apply Hb in H2 as [P F L]. destruct c. cbn in *.
  destruct L as (new & L & Hnew). unfold pop_loop in H3. rewrite L in H3. injection H3 as <- <-. cbn. split; [|exact Hnew].
  destruct c2. cbn in *. split; [done..|apply loops_grow_refl].
Qed.

Lemma adds_while cond b : keeps adds (generateBlock b) -> keeps adds (generateWhile generateBlock cond b).
Proof.
  intros Hb c c' a H. unfold generateWhile in H. apply go_seq in H as (c0 & start & [= <- <-] & H).
  apply adds_test in H as (c1 & j & H01 & Hj & H). steps H. destruct a0, a1.
  destruct (adds_loop _ _ _ _ _ _ _ _ Hb E E0 E1) as [H14 Hps]. apply grows_EmitPush, grows_adds in E2.
  apply grows_Emit, grows_adds in E3. injection E4 as <- <-.
  assert (adds c c5) as H05 by (transitivity c1; [done|]; transitivity c3; [done|]; by transitivity c4).
  eapply patch_all_adds; [by eapply adds_patch | | exact H].
  apply adds_le in H01. eapply Forall_impl; [exact Hps|]. cbn. lia.
Qed.

(** Statements only add. *)
Lemma adds_statement s : keeps adds (generateStatement s).
Proof.
  induction s as [ty l r t|e|c b eb t IHb IHeb|c b IHb|t|t|e] using Statement_ind'; cbn [generateStatement].
  - apply adds_assignment.
  - apply adds_return.
  - apply adds_if; [by apply adds_block | intros x ->; apply adds_block; by apply IHeb].
  - apply adds_while. by apply adds_block.
  - apply adds_break.
  - apply adds_continue.
  - keeps_tac.
Qed.

Lemma adds_Block b : keeps adds (generateBlock b).
Proof. apply adds_block. apply List.Forall_forall. intros. apply adds_statement. Qed.
#[export] Hint Resolve adds_statement adds_Block : keeps.

(** ** Functions *)

(** Between functions no loop is open; a function that is generated gets an
    address after the code that was there. *)
Record extends (names : list string) (c c' : CodegenContext) : Prop := {
  extends_code : Instructions c `prefix_of` Instructions c';
  extends_loops : LoopStack c = [] -> LoopStack c' = [];
  extends_old : forall name a, FunctionIndex c !! name = Some a -> FunctionIndex c' !! name = Some a;
  extends_new : forall name a, FunctionIndex c' !! name = Some a ->
    FunctionIndex c !! name = Some a \/ name ∈ names /\ len (Instructions c) <= a
}.

#[export] Instance extends_preorder names : PreOrder (extends names).
Proof.
  split; [split; auto|]. intros c1 c2 c3 [P1 L1 O1 N1] [P2 L2 O2 N2]. split; [by etransitivity | auto | auto|].
  intros name a [H|[H Ha]]%N2; [by apply N1|]. right. split; [done|]. apply prefix_length in P1. unfold len in *. lia.
Qed.

Lemma adds_extends names c c' : adds c c' -> extends names c c'.
Proof. intros [P F L]. split; [done | by intros E; rewrite E in L | by rewrite F | rewrite F; auto]. Qed.

Lemma extends_of_adds names {A} (p : G A) : keeps adds p -> keeps (extends names) p.
Proof. apply keeps_weaken, adds_extends. Qed.

(** Fields the record of [extends] does not mention. *)
Definition same_code (c c' : CodegenContext) : Prop :=
  Instructions c' = Instructions c /\ FunctionIndex c' = FunctionIndex c /\ LoopStack c' = LoopStack c.

Lemma extends_same names c c' : same_code c c' -> extends names c c'.
Proof. intros (I & F & L). split; [by rewrite I | by rewrite L | by rewrite F | rewrite F; auto]. Qed.

Lemma extends_modify names f : (forall c, same_code c (f c)) -> keeps (extends names) (modify f).
Proof. intros H c c' a [= <- <-]. apply extends_same, H. Qed.

Lemma extends_with_Function names f : keeps (extends names) (modify (with_Function f)).
Proof. apply extends_modify. by intros []. Qed.

Lemma extends_with_Scope names sc : keeps (extends names) (modify (with_Scope sc)).
Proof. apply extends_modify. by intros []. Qed.

Lemma extends_with_Locals names lo nl : keeps (extends names) (modify (with_Locals lo nl)).
Proof. apply extends_modify. by intros []. Qed.

Lemma extends_Block names b : keeps (extends names) (generateBlock b).
Proof. apply extends_of_adds, adds_Block. Qed.

Lemma extends_Emit names o : keeps (extends names) (Emit o).
Proof. apply extends_of_adds, adds_of_grows, grows_Emit. Qed.

Lemma extends_EmitPush names v : keeps (extends names) (EmitPush v).
Proof. apply extends_of_adds, adds_of_grows, grows_EmitPush. Qed.

#[export] Hint Resolve extends_with_Function extends_with_Scope extends_with_Locals extends_Block extends_Emit
  extends_EmitPush : keeps.

Lemma extends_register names f c : f ∈ names -> FunctionIndex c !! f = None ->
  extends names c (with_FunctionIndex (<[f := len (Instructions c)]> (FunctionIndex c)) c).
Proof.
  intros Hf Hn. destruct c. cbn in *. split; cbn; [done..| |]; intros name a.
  - intros H. rewrite lookup_insert_ne; [done|]. intros ->. by rewrite H in Hn.
  - rewrite lookup_insert. case_decide as E; [|auto]. intros [= <-]. subst. by right.
Qed.

Lemma extends_function names globals f : FName f ∈ names -> keeps (extends names) (GenerateFunctionDefinition globals f).
Proof.
  intros Hf c c' a H. unfold GenerateFunctionDefinition in H.
  apply go_seq in H as (c0 & back & [= <- <-] & H). destruct (FunctionIndex c !! FName f) eqn:En.
  { by injection H as <- <-. }
  apply go_seq in H as (c0 & u & [= <- <-] & H). transitivity (with_FunctionIndex (<[FName f := len (Instructions c)]> (FunctionIndex c)) c).
  { by apply extends_register. }
  revert H. generalize (with_FunctionIndex (<[FName f := len (Instructions c)]> (FunctionIndex c)) c). intros c1 H.
  revert c1 c' a H. change (keeps (extends names) (modify (with_Function (Some f));;
    modify (with_Scope [globals]);;
    modify (with_Locals (parameter_offsets (Parameters f) 0 ∅) (len (Parameters f)));;
    generateBlock (FBlock f);;
    d ← get;
    match last (Instructions d) with
    | Some i => if Opcode i =? opcode RETURN then mret () else EmitPush (OpInt 0);; Emit RETURN
    | None => EmitPush (OpInt 0);; Emit RETURN
    end;;
    modify (with_Function (CurrentFunction c));;
    modify (with_Scope (CurrentScope c));;
    modify (with_Locals (LocalOffsets c) (NextLocalOffset c)))).
  keeps_tac.
Qed.

Lemma extends_functions names globals l : Forall (fun kv => FName kv.2 ∈ names \/ kv.1 = "init"%string \/ kv.1 = "call"%string) l ->
  keeps (extends names) (generate_functions globals l).
Proof.
  induction 1 as [|[k f] l Hf _ IH]; cbn; [keeps_tac|]. apply keeps_bind; [typeclasses eauto| |done].
  destruct (String.eqb_spec k "init"), (String.eqb_spec k "call"); cbn; try keeps_tac.
  apply extends_function. by destruct Hf as [Hf|[]].
Qed.

(** A registered string stays; no code is written. *)
Lemma register_all_code l c c' a : register_all l c = Ret (c', a) -> same_code c c'.
Proof.
  revert c. induction l as [|s l IH]; intros c; cbn; [by intros [= <- <-]|].
  intros H. apply go_seq in H as (c1 & u & H1 & H). apply IH in H as (I & F & L).
  apply grows_Register in H1 as G1. unfold RegisterStringLiteral in H1. unfold same_code.
  case_match; injection H1 as <- <-; destruct c; cbn in *; done.
Qed.

End Frame.
