(* ===== verification/MgCompile.v ===== *)
(** * Compiling Marigold in two passes, and the generator that does it in one

    [stmt_code] and [expr_code] give the instructions of a statement and of an
    expression from the addresses of their jumps, as functions; the generator
    of codegen.go writes placeholders and patches them when it knows the
    addresses.  [generateBlock_code] shows that it emits the same code. *)

From S2P Require Import Prelude GoLib Bytecode MgLexer MgAst MgCodegen.

Module Compile.
Export Codegen.

Definition instr (o : Op) : Instruction := MakeInstruction (opcode o).
Definition push (v : operand) : Instruction := MakeInstructionWithValue (opcode PUSH) v.

(** A jump target. *)
Definition push_at (target : Z) : Instruction := MkInstruction (opcode PUSH) (Some ("0x" +:+ hex target)%string).

(** What the code of an expression depends on. *)
Record env := MkEnv {
  functions : gmap string Z;
  strings : gmap string Z;
  scopes : list variables;
  locals : gmap string Z
}.

Definition env_of (c : CodegenContext) : env :=
  MkEnv (FunctionIndex c) (StringTable c) (CurrentScope c) (LocalOffsets c).

(** ** Expressions *)

Definition ret_of {A} (x : go A) : option A := match x with Ret a => Some a | Panic _ => None end.

Definition is_string (scopes : list variables) (e : Expression) : option bool :=
  match e with
  | LiteralExpr _ TString _ => Some true
  | IdentifierExpr v _ => ret_of (scope_is_string scopes v)
  | _ => Some false
  end.

Definition concatenates (scopes : list variables) (op : TokenType) (l r : Expression) : option bool :=
  match op with
  | Plus => b ← is_string scopes l; if (b : bool) then is_string scopes r else Some false
  | _ => Some false
  end.

Definition operator_code (op : TokenType) (str : bool) : option (list Instruction) :=
  match op with
  | Plus => Some [instr (if str then STRCONCAT else ADD)]
  | Minus => Some [instr SUB]
  | Multiply => Some [instr MUL]
  | Divide => Some [instr DIV]
  | Modulo => Some [instr MOD]
  | Equal => Some [instr EQ]
  | NotEqual => Some [instr EQ; instr ISZERO]
  | LessThan => Some [instr LT]
  | GreaterThan => Some [instr GT]
  | LessEqual => Some [instr GT; instr ISZERO]
  | GreaterEqual => Some [instr LT; instr ISZERO]
  | _ => None
  end.

Definition unary_code (op : TokenType) : option (list Instruction) :=
  match op with
  | Minus => Some [push (OpInt 0); push (OpInt 1); instr SWAP; instr SUB]
  | Not => Some [instr ISZERO]
  | _ => None
  end.

(** The instruction of a built-in function of one argument. *)
Definition builtin_code (name : string) (str : bool) : option Instruction :=
  if String.eqb name "emit" then Some (instr (if str then EMITSTR else EMIT))
  else if String.eqb name "len" then if str then Some (instr STRLEN) else None
  else if String.eqb name "int" then if str then Some (instr STRTOINT) else None
  else if String.eqb name "string" then if str then None else Some (instr INTTOSTR)
  else None.

Section Compound.
Context (E : env) (code : Expression -> option (list Instruction)).

Definition args_code : list Expression -> option (list Instruction) :=
  fix args_code (args : list Expression) :=
    match args with
    | [] => Some []
    | a :: args => x ← code a; y ← args_code args; Some (x ++ y)
    end.

Definition call_code (name : string) (args : list Expression) : option (list Instruction) :=
  match builtin name, args with
  | Some _, [arg] => x ← code arg; str ← is_string (scopes E) arg; i ← builtin_code name str; Some (x ++ [i])
  | Some _, _ => None
  | None, _ =>
      match plain_builtin name with
      | Some (n, _) =>
          if bool_decide (length args = n) then
            x ← args_code args;
            Some (x ++ if String.eqb name "emit_str" then [instr EMITSTR]
                       else if String.eqb name "str_concat" then [instr STRCONCAT]
                       else if String.eqb name "str_len" then [instr STRLEN] else [])
          else None
      | None => a ← functions E !! name; x ← args_code args; Some (x ++ [push (OpInt a); instr CALL])
      end
  end.

Definition index_code (l r : Expression) : option (list Instruction) :=
  if is_identifier "persistent" l then y ← code r; Some (y ++ [instr PLOAD])
  else if is_identifier "memory" l then y ← code r; Some (y ++ [instr MLOAD])
  else
    str ← is_string (scopes E) l;
    if (str : bool) then x ← code l; y ← code r; Some (x ++ y ++ [instr STRINDEX]) else None.

Definition bound_code (bound : option Expression) (by_default : Z) : option (list Instruction) :=
  match bound with Some e => code e | None => Some [push (OpInt by_default)] end.

Definition slice_code (l : Expression) (s e : option Expression) : option (list Instruction) :=
  str ← is_string (scopes E) l;
  if (str : bool) then
    x ← code l; y ← bound_code s 0; z ← bound_code e 999999; Some (x ++ y ++ z ++ [instr STRSLICE])
  else None.

End Compound.

Fixpoint expr_code (E : env) (e : Expression) : option (list Instruction) :=
  match e with
  | LiteralExpr v Int _ => Some [push (OpString v)]
  | LiteralExpr v TString _ => a ← strings E !! v; Some [push (OpUint64 a)]
  | LiteralExpr _ _ _ | ArrayLiteral _ _ | MapLiteral _ => None
  | IdentifierExpr v _ =>
      match GetBlockchainContextVariable v with
      | Some _ => o ← context_opcode v; Some [instr o]
      | None => o ← locals E !! v; Some [push (OpInt o); instr LOAD_LOCAL]
      end
  | BinaryExpr op l (Some r) _ =>
      x ← expr_code E l; y ← expr_code E r;
      str ← concatenates (scopes E) op l r; z ← operator_code op str; Some (x ++ y ++ z)
  | BinaryExpr _ _ None _ | UnaryExpr _ None => None
  | UnaryExpr op (Some r) => x ← expr_code E r; y ← unary_code op; Some (x ++ y)
  | CallExpr name args _ => call_code E (expr_code E) name args
  | IndexExpr l r _ => index_code E (expr_code E) l r
  | SliceExpr l s en _ => slice_code E (expr_code E) l s en
  end.

(** ** The generator of expressions *)

Definition emits (code : list Instruction) (c : CodegenContext) : CodegenContext :=
  with_Instructions (Instructions c ++ code) c.

(** A computation that appends [code] and changes nothing else. *)
Definition appends (p : G unit) (c : CodegenContext) (code : list Instruction) : Prop :=
  p c = Ret (emits code c, ()).

Lemma emits_nil c : emits [] c = c.
Proof. destruct c. unfold emits. simpl. by rewrite app_nil_r. Qed.

Lemma emits_emits a b c : emits b (emits a c) = emits (a ++ b) c.
Proof. destruct c. unfold emits. simpl. by rewrite app_assoc. Qed.

Lemma env_of_emits a c : env_of (emits a c) = env_of c.
Proof. by destruct c. Qed.

Lemma gen_bind_run {A B} (p : G A) (f : A -> G B) c c' a : p c = Ret (c', a) -> (p ≫= f) c = f a c'.
Proof. intros H. unfold mbind, G_bind. by rewrite H. Qed.

Lemma appends_Emit o c : appends (Emit o) c [instr o].
Proof. done. Qed.

Lemma appends_EmitPush v c : appends (EmitPush v) c [push v].
Proof. done. Qed.

Lemma appends_ret c : appends (mret ()) c [].
Proof. unfold appends. by rewrite emits_nil. Qed.

Lemma appends_seq p q c a b :
  appends p c a -> appends q (emits a c) b -> appends (p;; q) c (a ++ b).
Proof. intros Hp Hq. unfold appends. rewrite (gen_bind_run _ _ _ _ _ Hp), Hq, emits_emits. done. Qed.

(** A computation that only reads. *)
Lemma appends_read {A} (p : G A) (f : A -> G unit) c a b :
  p c = Ret (c, a) -> appends (f a) c b -> appends (p ≫= f) c b.
Proof. intros Hp Hf. unfold appends. by rewrite (gen_bind_run _ _ _ _ _ Hp). Qed.

Create HintDb appends.
#[export] Hint Resolve appends_Emit appends_EmitPush appends_ret appends_seq : appends.

Lemma isString_run e c b : is_string (CurrentScope c) e = Some b -> isStringExpression e c = Ret (c, b).
Proof.
  destruct e; simpl; try (by intros [= <-]).
  - intros H. unfold mbind, G_bind, get, of_go. simpl.
    destruct (scope_is_string _ _) as [b'|]; simpl in *; [|done]. by injection H as ->.
  - destruct ValueType; by intros [= <-].
Qed.

Lemma concat_run op l r c b :
  concatenates (CurrentScope c) op l r = Some b -> is_string_concat op l (Some r) c = Ret (c, b).
Proof.
  destruct op; simpl; try (by intros [= <-]).
  intros (bl & Hl & H)%bind_Some. rewrite (gen_bind_run _ _ _ _ _ (isString_run _ _ _ Hl)).
  destruct bl; [by apply isString_run|]. by injection H as <-.
Qed.

Ltac by_computation :=
  match goal with c : CodegenContext |- _ => destruct c end;
  unfold appends, generateOperator, generateUnary; repeat (erewrite gen_bind_run by reflexivity);
  unfold emits, Emit, EmitPush, append, modify; cbn; rewrite <- ?app_assoc; reflexivity.

Lemma operator_run op b c code : operator_code op b = Some code -> appends (generateOperator op b) c code.
Proof. destruct op; simpl; try discriminate; intros [= <-]; try destruct b; by_computation. Qed.

Lemma unary_run op c code : unary_code op = Some code -> appends (generateUnary op) c code.
Proof. destruct op; simpl; try discriminate; intros [= <-]; by_computation. Qed.

Lemma builtin_run name str i gen c :
  builtin name = Some gen -> builtin_code name str = Some i -> appends (gen str) c [i].
Proof.
  unfold builtin, builtin_code. repeat case_match; try discriminate; intros [= <-] [= <-];
    repeat (case_match; try discriminate); apply appends_Emit.
Qed.

(** A function body is being generated, in an environment. *)
Definition ready (E : env) (c : CodegenContext) : Prop := is_Some (CurrentFunction c) /\ env_of c = E.

Lemma ready_emits E c code : ready E c -> ready E (emits code c).
Proof. by destruct c. Qed.

#[export] Hint Resolve ready_emits : appends.

Definition generates (E : env) (e : Expression) (code : list Instruction) : Prop :=
  forall c, ready E c -> appends (GenerateExpression e) c code.

(** What induction on expressions gives. *)
Definition generator_ok (E : env) (e : Expression) : Prop :=
  forall code, expr_code E e = Some code -> generates E e code.

Lemma args_run E args code :
  Forall (generator_ok E) args -> args_code (expr_code E) args = Some code ->
  forall c, ready E c -> appends (generate_args GenerateExpression args) c code.
Proof.
  intros H. revert code. induction H as [|a args Ha _ IH]; intros code; cbn.
  - intros [= <-] c _. apply appends_ret.
  - intros (x & Hx & (y & Hy & [= <-])%bind_Some)%bind_Some c Hc.
    eapply appends_seq; [by apply Ha | apply IH; eauto with appends].
Qed.

Lemma identifier_run E v t : generator_ok E (IdentifierExpr v t).
Proof.
  intros code H c [[f Hf] HE]. cbn in H |- *. unfold generateIdentifier.
  destruct (GetBlockchainContextVariable v).
  - apply bind_Some in H as (o & -> & [= <-]). apply appends_Emit.
  - apply bind_Some in H as (o & Ho & [= <-]). eapply appends_read; [done|].
    rewrite Hf. replace (LocalOffsets c) with (locals E) by (by rewrite <- HE). rewrite Ho.
    eapply (appends_seq _ _ _ [_] [_]); eauto with appends.
Qed.

Lemma call_run E name args t : Forall (generator_ok E) args -> generator_ok E (CallExpr name args t).
Proof.
  intros IH code H c Hc. cbn in H |- *. unfold call_code in H. unfold generateCall.
  destruct (builtin name) as [gen|] eqn:Eb.
  - destruct args as [|arg []]; try discriminate. apply Forall_inv in IH.
    apply bind_Some in H as (x & Hx & (str & Hs & (i & Hi & [= <-])%bind_Some)%bind_Some).
    eapply appends_seq; [by apply IH|]. eapply appends_read.
    + apply isString_run. destruct Hc as [_ HE]. by destruct c; subst E.
    + by eapply builtin_run.
  - destruct (plain_builtin name) as [[n gen]|] eqn:Ep.
    + case_bool_decide; [|done]. apply bind_Some in H as (x & Hx & [= <-]).
      eapply appends_seq; [by eapply args_run|].
      unfold plain_builtin in Ep. repeat case_match; try done; injection Ep as <- <-; eauto with appends.
    + apply bind_Some in H as (a & Ha & (x & Hx & [= <-])%bind_Some). eapply appends_read; [done|].
      replace (FunctionIndex c) with (functions E) by (by destruct Hc as [_ <-]). rewrite Ha.
      eapply appends_seq; [by eapply args_run|]. eapply (appends_seq _ _ _ [_] [_]); eauto with appends.
Qed.

Lemma index_run E l r t :
  generator_ok E l -> generator_ok E r -> generator_ok E (IndexExpr l r t).
Proof.
  intros IHl IHr code H c Hc. cbn in H |- *. unfold index_code in H. unfold generateIndexExpr.
  case_match.
  { apply bind_Some in H as (y & Hy & [= <-]). eapply appends_seq; [by apply IHr | eauto with appends]. }
  case_match.
  { apply bind_Some in H as (y & Hy & [= <-]). eapply appends_seq; [by apply IHr | eauto with appends]. }
  apply bind_Some in H as ([] & Hs & H); [|done].
  apply bind_Some in H as (x & Hx & (y & Hy & [= <-])%bind_Some).
  eapply appends_read; [apply isString_run; destruct Hc as [_ HE]; by destruct c; subst E|].
  eapply appends_seq; [by apply IHl|]. eapply appends_seq; [apply IHr|]; eauto with appends.
Qed.

Lemma bound_run E o z code c :
  (forall e, o = Some e -> generator_ok E e) -> bound_code (expr_code E) o z = Some code -> ready E c ->
  appends (generate_bound GenerateExpression o z) c code.
Proof. destruct o as [e|]; simpl; intros IH H Hc; [by apply (IH e) | injection H as <-; by_computation]. Qed.

Lemma slice_run E l s e t :
  generator_ok E l -> (forall x, s = Some x -> generator_ok E x) -> (forall x, e = Some x -> generator_ok E x) ->
  generator_ok E (SliceExpr l s e t).
Proof.
  intros IHl IHs IHe code H c Hc. cbn in H |- *. unfold slice_code in H. unfold generateSliceExpr.
  apply bind_Some in H as ([] & Hs & H); [|done].
  apply bind_Some in H as (x & Hx & (y & Hy & (z & Hz & [= <-])%bind_Some)%bind_Some).
  eapply appends_read; [apply isString_run; destruct Hc as [_ HE]; by destruct c; subst E|].
  eapply appends_seq; [by apply IHl|].
  eapply appends_seq; [eapply bound_run; eauto with appends|].
  eapply appends_seq; [eapply bound_run; eauto with appends | eauto with appends].
Qed.

(** The generator of expressions appends the code of the expression and changes
    nothing else. *)
Lemma expr_generates E e : generator_ok E e.
Proof.
  induction e as [op l r t IHl IHr|op r IHr|v args t IH|v t|v ty t|args t|t|l r t IHl IHr|l s e t IHl IHs IHe]
    using Expression_ind'; try (by intros ?).
  - intros code H c Hc. cbn in H |- *. destruct r as [r|]; [|done].
    apply bind_Some in H as (x & Hx & (y & Hy & (str & Hs & (z & Hz & [= <-])%bind_Some)%bind_Some)%bind_Some).
    eapply appends_seq; [by apply IHl|]. eapply appends_seq; [apply (IHr r); eauto with appends|].
    eapply appends_read; [|by apply operator_run].
    apply concat_run. destruct Hc as [_ HE]. by destruct c; subst E.
  - intros code H c Hc. cbn in H |- *. destruct r as [r|]; [|done].
    apply bind_Some in H as (x & Hx & (y & Hy & [= <-])%bind_Some).
    eapply appends_seq; [by apply (IHr r) | by apply unary_run].
  - by apply call_run.
  - apply identifier_run.
  - intros code H c [_ HE]. cbn in H |- *. destruct ty; try done.
    + apply bind_Some in H as (a & Ha & [= <-]). eapply appends_read; [|apply appends_EmitPush].
      unfold RegisterStringLiteral. replace (StringTable c) with (strings E) by (by rewrite <- HE).
      by rewrite Ha.
    + injection H as <-. apply appends_EmitPush.
  - by apply index_run.
  - by apply slice_run.
Qed.

(** ** Statements *)

(** The offsets of the locals, and the next one. *)
Abbreviation slots := (gmap string Z * Z)%type.

(** Code, the positions in it of the jumps of its [break]s, and the locals after
    it. *)
Record chunk := MkChunk { code : list Instruction; breaks : list nat; after : slots }.

Definition chunk_app (x y : chunk) : chunk :=
  MkChunk (code x ++ code y) (breaks x ++ map (Nat.add (length (code x))) (breaks y)) (after y).

(** A new variable gets the next offset. *)
Definition store_code (name : string) (lo : slots) : chunk :=
  match lo.1 !! name with
  | Some o => MkChunk [push (OpInt o); instr STORE_LOCAL] [] lo
  | None => MkChunk [push (OpInt lo.2); instr STORE_LOCAL] [] (<[name := lo.2]> lo.1, lo.2 + 1)
  end.

Section Statements.
Context (fi st : gmap string Z).

Definition exp_code (sc : list variables) (lo : slots) (e : Expression) : option (list Instruction) :=
  expr_code (MkEnv fi st sc lo.1) e.

Definition assignment_code (sc : list variables) (lo : slots) (lhs rhs : Expression) : option chunk :=
  x ← exp_code sc lo rhs;
  match lhs with
  | IndexExpr l r _ =>
      if is_identifier "persistent" l then y ← exp_code sc lo r; Some (MkChunk (x ++ y ++ [instr PSTORE]) [] lo)
      else if is_identifier "memory" l then y ← exp_code sc lo r; Some (MkChunk (x ++ y ++ [instr MSTORE]) [] lo)
      else None
  | _ => v ← ret_of (expression_value lhs); Some (chunk_app (MkChunk x [] lo) (store_code v lo))
  end.

(** The jump over a body at address [target] when the condition is false. *)
Definition test_code (cc : list Instruction) (target : Z) : list Instruction :=
  cc ++ [instr ISZERO; push_at target; instr JUMPC].

(** The statements of a block from the address [base] on; [loop] has the targets
    of [continue] and [break]. *)
Section Sequence.
Context (stmt_code : list variables -> slots -> nat -> option (Z * Z) -> Statement -> option chunk).

Definition seq_code (sc : list variables) (loop : option (Z * Z)) : list Statement -> slots -> nat -> option chunk :=
  fix seq (l : list Statement) (lo : slots) (base : nat) : option chunk :=
    match l with
    | [] => Some (MkChunk [] [] lo)
    | s :: l =>
        x ← stmt_code sc lo base loop s;
        y ← seq l (after x) (base + length (code x))%nat;
        Some (chunk_app x y)
    end.

Definition block_code (sc : list variables) (lo : slots) (base : nat) (loop : option (Z * Z)) (b : Block) : option chunk :=
  match b with MkBlock l scope => seq_code (scope :: sc) loop l lo base end.

End Sequence.

Fixpoint stmt_code (sc : list variables) (lo : slots) (base : nat) (loop : option (Z * Z)) (s : Statement)
    : option chunk :=
  match s with
  | AssignmentStmt _ lhs (Some rhs) _ => assignment_code sc lo lhs rhs
  | AssignmentStmt _ _ None _ => None
  | ReturnStmt rhs => x ← exp_code sc lo rhs; Some (MkChunk (x ++ [instr RETURN]) [] lo)
  | ExpressionStmt rhs => x ← exp_code sc lo rhs; Some (MkChunk (x ++ [instr POP]) [] lo)
  | BreakStmt _ => t ← loop; Some (MkChunk [push_at t.2; instr JUMP] [O] lo)
  | ContinueStmt _ => t ← loop; Some (MkChunk [push (OpInt t.1); instr JUMP] [] lo)
  | IfStmt c b eb _ =>
      cc ← exp_code sc lo c;
      let start := (base + length cc + 3)%nat in
      x ← block_code stmt_code sc lo start loop b;
      match eb with
      | None =>
          let e := (start + length (code x))%nat in
          Some (chunk_app (MkChunk (test_code cc (Z.of_nat e)) [] lo) x)
      | Some eb =>
          let els := (start + length (code x) + 2)%nat in
          y ← block_code stmt_code sc (after x) els loop eb;
          let e := (els + length (code y))%nat in
          Some (chunk_app (MkChunk (test_code cc (Z.of_nat els)) [] lo)
                 (chunk_app x (chunk_app (MkChunk [push_at (Z.of_nat e); instr JUMP] [] (after x)) y)))
      end
  | WhileStmt c b =>
      cc ← exp_code sc lo c;
      let start := (base + length cc + 3)%nat in
      x ← block_code stmt_code sc lo start (Some (Z.of_nat base, 0)) b;
      let e := (start + length (code x) + 2)%nat in
      x ← block_code stmt_code sc lo start (Some (Z.of_nat base, Z.of_nat e)) b;
      Some (MkChunk (test_code cc (Z.of_nat e) ++ code x ++ [push (OpInt (Z.of_nat base)); instr JUMP]) [] (after x))
  end.

End Statements.

(** *** Patching the breaks of a chunk *)

Definition patch_list (l : list Instruction) (positions : list nat) (t : Z) : list Instruction :=
  foldl (fun l i => <[i := push_at t]> l) l positions.

Definition patch_chunk (t : Z) (x : chunk) : chunk :=
  MkChunk (patch_list (code x) (breaks x) t) (breaks x) (after x).

(** Every break of the chunk jumps to [t]. *)
Definition marked (t : Z) (x : chunk) : Prop := Forall (fun i => code x !! i = Some (push_at t)) (breaks x).

Lemma length_patch_list l ps t : length (patch_list l ps t) = length l.
Proof. unfold patch_list. revert l. induction ps as [|p ps IH]; intros l; simpl; [done|]. by rewrite IH, length_insert. Qed.

Lemma patch_list_app l p q t : patch_list l (p ++ q) t = patch_list (patch_list l p t) q t.
Proof. apply foldl_app. Qed.

Lemma patch_list_right a l ps t : patch_list (a ++ l) (map (Nat.add (length a)) ps) t = a ++ patch_list l ps t.
Proof.
  unfold patch_list. revert l. induction ps as [|p ps IH]; intros l; simpl; [done|].
  rewrite insert_app_r. apply IH.
Qed.

Lemma patch_list_left a l ps t :
  Forall (fun i => (i < length a)%nat) ps -> patch_list (a ++ l) ps t = patch_list a ps t ++ l.
Proof.
  unfold patch_list. intros H. revert a H. induction ps as [|p ps IH]; intros a H; simpl; [done|].
  inversion_clear H. rewrite insert_app_l by done. apply IH. by rewrite length_insert.
Qed.

Lemma marked_range t x : marked t x -> Forall (fun i => (i < length (code x))%nat) (breaks x).
Proof. intros H. eapply Forall_impl; [exact H|]. intros i Hi. by apply lookup_lt_Some in Hi. Qed.

Lemma marked_app t x y : marked t x -> marked t y -> marked t (chunk_app x y).
Proof.
  unfold marked, chunk_app. cbn. intros Hx Hy. apply Forall_app. split.
  - eapply Forall_impl; [exact Hx|]. intros i H. by apply lookup_app_l_Some.
  - apply Forall_map. eapply Forall_impl; [exact Hy|]. intros i H. cbn. rewrite lookup_app_r by lia.
    by rewrite Nat.add_comm, Nat.add_sub.
Qed.

Lemma patch_chunk_app t u x y :
  marked u x -> patch_chunk t (chunk_app x y) = chunk_app (patch_chunk t x) (patch_chunk t y).
Proof.
  intros Hx. unfold patch_chunk, chunk_app. cbn [code breaks after]. rewrite length_patch_list. f_equal.
  rewrite patch_list_app, patch_list_left by (by eapply marked_range).
  replace (length (code x)) with (length (patch_list (code x) (breaks x) t)) by apply length_patch_list.
  apply patch_list_right.
Qed.

Section Breaks.
Context (fi st : gmap string Z).
Abbreviation stmts := (stmt_code fi st).

(** The code of a statement for another target of [break] is its code with the
    positions of the breaks patched. *)
Definition breaks_ok (s : Statement) : Prop :=
  forall sc lo base cont t x, stmts sc lo base (Some (cont, t)) s = Some x ->
    marked t x /\ forall u, stmts sc lo base (Some (cont, u)) s = Some (patch_chunk u x).

(** A chunk without breaks of its own. *)
Lemma breaks_none c lo t : marked t (MkChunk c [] lo) /\ forall u : Z, Some (MkChunk c [] lo) = Some (patch_chunk u (MkChunk c [] lo)).
Proof. split; [apply List.Forall_nil | done]. Qed.

Lemma seq_breaks l sc cont t : Forall breaks_ok l -> forall lo base x,
  seq_code stmts sc (Some (cont, t)) l lo base = Some x ->
  marked t x /\ forall u, seq_code stmts sc (Some (cont, u)) l lo base = Some (patch_chunk u x).
Proof.
  intros H. induction H as [|s l Hs _ IH]; intros lo base z; cbn.
  - intros [= <-]. apply breaks_none.
  - intros (x & Hx & (y & Hy & [= <-])%bind_Some)%bind_Some.
    apply Hs in Hx as [Hmx Hx]. apply IH in Hy as [Hmy Hy]. split; [by apply marked_app|].
    intros u. rewrite Hx. cbn. rewrite length_patch_list, Hy. cbn. by rewrite (patch_chunk_app _ t).
Qed.

Lemma block_breaks b sc lo base cont t x : all_block breaks_ok b ->
  block_code stmts sc lo base (Some (cont, t)) b = Some x ->
  marked t x /\ forall u, block_code stmts sc lo base (Some (cont, u)) b = Some (patch_chunk u x).
Proof. destruct b. intros Hb Hx. by apply (seq_breaks _ _ _ _ Hb) in Hx. Qed.

Lemma marked_head t c lo x : marked t x -> marked t (chunk_app (MkChunk c [] lo) x).
Proof. apply marked_app, List.Forall_nil. Qed.

Lemma patch_head t u c lo x : marked t x ->
  patch_chunk u (chunk_app (MkChunk c [] lo) x) = chunk_app (MkChunk c [] lo) (patch_chunk u x).
Proof. intros H. by rewrite (patch_chunk_app _ t) by apply List.Forall_nil. Qed.

Lemma assignment_breaks sc lo lhs rhs x :
  assignment_code fi st sc lo lhs rhs = Some x -> breaks x = [].
Proof.
  unfold assignment_code. intros (y & _ & H)%bind_Some.
  destruct lhs; try (apply bind_Some in H as (v & _ & [= <-]); cbn; unfold store_code; by case_match).
  repeat case_match; try done; by apply bind_Some in H as (z & _ & [= <-]).
Qed.

Lemma stmt_breaks s : breaks_ok s.
Proof.
  induction s as [ty l r t|e|c b eb t IHb IHeb|c b IHb|t|t|e] using Statement_ind'; intros sc lo base cont tg z H.
  - cbn in *. destruct r as [r|]; [|done]. pose proof (assignment_breaks _ _ _ _ _ H) as Hb.
    unfold marked, patch_chunk. rewrite Hb. split; [constructor|]. intros u. rewrite H. destruct z; cbn in *. by subst.
  - cbn in *. apply bind_Some in H as (x & -> & [= <-]). apply breaks_none.
  - cbn in *. apply bind_Some in H as (cc & Hc & (x & Hx & H)%bind_Some). rewrite Hc. cbn.
    apply block_breaks in Hx as [Hmx Hx]; [|done]. destruct eb as [eb|].
    + apply bind_Some in H as (y & Hy & [= <-]). apply block_breaks in Hy as [Hmy Hy]; [|by apply IHeb].
      split; [auto using marked_head, marked_app|]. intros u. rewrite Hx. cbn. rewrite length_patch_list, Hy. cbn.
      rewrite length_patch_list, (patch_head tg), (patch_chunk_app _ tg), (patch_head tg);
        auto using marked_head, marked_app.
    + injection H as <-. split; [by apply marked_head|]. intros u. rewrite Hx. cbn.
      by rewrite length_patch_list, (patch_head tg).
  - cbn in *. apply bind_Some in H as (cc & -> & (x & Hx & (y & Hy & [= <-])%bind_Some)%bind_Some).
    cbn. rewrite Hx. cbn. rewrite Hy. apply breaks_none.
  - cbn in *. injection H as <-. split; [by repeat constructor | done].
  - cbn in *. injection H as <-. apply breaks_none.
  - cbn in *. apply bind_Some in H as (x & -> & [= <-]). apply breaks_none.
Qed.

End Breaks.

(** ** The generator of statements *)

Definition slots_of (c : CodegenContext) : slots := (LocalOffsets c, NextLocalOffset c).

(** Breaks are generated with the target 0. *)
Definition loop_of (c : CodegenContext) : option (Z * Z) :=
  match LoopStack c with [] => None | l :: _ => Some (ContinueAddr l, 0) end.

(** Positions from the address [n] on are noted for the innermost loop. *)
Definition add_breaks (n : nat) (ps : list nat) (ls : list LoopContext) : list LoopContext :=
  match ls with
  | [] => []
  | l :: r => MkLoopContext (ContinueAddr l) (BreakPatches l ++ map (fun i => Z.of_nat (n + i)) ps) :: r
  end.

(** The context after a chunk. *)
Definition finish (x : chunk) (c : CodegenContext) : CodegenContext :=
  with_LoopStack (add_breaks (length (Instructions c)) (breaks x) (LoopStack c))
    (with_Locals (after x).1 (after x).2 (emits (code x) c)).

Definition does (p : G unit) (c : CodegenContext) (x : chunk) : Prop := p c = Ret (finish x c, ()).

Lemma add_breaks_nil n ls : add_breaks n [] ls = ls.
Proof. destruct ls as [|[] ls]; cbn; [done|]. by rewrite app_nil_r. Qed.

Lemma finish_finish x y c : finish y (finish x c) = finish (chunk_app x y) c.
Proof.
  destruct c as [fn sc I fi lo nl ls nm stt sl]. unfold finish, emits. cbn. rewrite <- app_assoc. f_equal.
  destruct ls as [|l ls]; [done|]. cbn. f_equal. f_equal.
  rewrite map_app, map_map, <- app_assoc, length_app. do 2 f_equal. apply map_ext. intros i. lia.
Qed.

Lemma emits_finish a c : emits a c = finish (MkChunk a [] (slots_of c)) c.
Proof. destruct c. unfold finish, emits. cbn. by rewrite add_breaks_nil. Qed.

Lemma does_appends p c a : appends p c a -> does p c (MkChunk a [] (slots_of c)).
Proof. unfold appends, does. intros ->. by rewrite emits_finish. Qed.

Lemma does_seq p q c x y : does p c x -> does q (finish x c) y -> does (p;; q) c (chunk_app x y).
Proof. unfold does. intros Hp Hq. by rewrite (gen_bind_run _ _ _ _ _ Hp), Hq, finish_finish. Qed.

Lemma does_read {A} (p : G A) (f : A -> G unit) c a x : p c = Ret (c, a) -> does (f a) c x -> does (p ≫= f) c x.
Proof. unfold does. intros Hp. by rewrite (gen_bind_run _ _ _ _ _ Hp). Qed.

Lemma store_run name c : does (store_local name) c (store_code name (slots_of c)).
Proof.
  unfold does, store_local, store_code. erewrite gen_bind_run by reflexivity. cbn [slots_of fst snd].
  destruct (LocalOffsets c !! name); repeat (erewrite gen_bind_run by reflexivity); destruct c;
    unfold finish, emits, Emit, append, modify; cbn; by rewrite add_breaks_nil, <- app_assoc.
Qed.

(** *** Patches *)

Lemma patch_at c a z b t : Instructions c = a ++ push_at z :: b ->
  patch (Z.of_nat (length a)) t c = Ret (with_Instructions (a ++ push_at t :: b) c, ()).
Proof.
  intros H. unfold patch. rewrite Nat2Z.id, H, list_lookup_middle by done. cbn.
  by rewrite insert_app_r_alt, Nat.sub_diag by lia.
Qed.

Lemma patch_all_run t ps : forall c a l b,
  Instructions c = a ++ l ++ b -> Forall (fun i => exists z, l !! i = Some (push_at z)) ps ->
  patch_all (map (fun i => Z.of_nat (length a + i)) ps) t c
  = Ret (with_Instructions (a ++ patch_list l ps t ++ b) c, ()).
Proof.
  induction ps as [|i ps IH]; intros c a l b Hc Hps; cbn.
  - rewrite <- Hc. by destruct c.
  - inversion_clear Hps as [|? ? [z Hi] Hps']. pose proof (lookup_lt_Some _ _ _ Hi) as Hlt.
    erewrite gen_bind_run; [|].
    2:{ replace (length a + i)%nat with (length (a ++ take i l)) by (rewrite length_app, length_take; lia).
        apply patch_at with (z := z) (b := drop (S i) l ++ b). rewrite Hc, <- app_assoc. f_equal.
        rewrite <- (take_drop_middle l i _ Hi) at 1. by rewrite <- app_assoc. }
    rewrite (IH _ a (<[i := push_at t]> l) b).
    + by destruct c.
    + destruct c. cbn. rewrite <- app_assoc. f_equal. rewrite insert_take_drop by done. by rewrite <- app_assoc.
    + eapply Forall_impl; [exact Hps'|]. intros j [z' Hj]. destruct (decide (i = j)) as [->|].
      * exists t. by rewrite list_lookup_insert_eq.
      * exists z'. by rewrite list_lookup_insert_ne.
Qed.

(** *** Statements *)

Definition stmt_at (c : CodegenContext) (s : Statement) : option chunk :=
  stmt_code (FunctionIndex c) (StringTable c) (CurrentScope c) (slots_of c) (length (Instructions c)) (loop_of c) s.

Definition seq_at (c : CodegenContext) (l : list Statement) : option chunk :=
  seq_code (stmt_code (FunctionIndex c) (StringTable c)) (CurrentScope c) (loop_of c) l (slots_of c) (length (Instructions c)).

Definition block_at (c : CodegenContext) (b : Block) : option chunk :=
  block_code (stmt_code (FunctionIndex c) (StringTable c)) (CurrentScope c) (slots_of c) (length (Instructions c)) (loop_of c) b.

Definition gen_ok (s : Statement) : Prop :=
  forall c x, is_Some (CurrentFunction c) -> stmt_at c s = Some x -> does (generateStatement s) c x.

Lemma exp_run c e cc : is_Some (CurrentFunction c) ->
  exp_code (FunctionIndex c) (StringTable c) (CurrentScope c) (slots_of c) e = Some cc ->
  appends (GenerateExpression e) c cc.
Proof. intros Hf H. by apply (expr_generates (env_of c) e cc H). Qed.

Lemma loop_of_finish x c : loop_of (finish x c) = loop_of c.
Proof. destruct c as [fn sc I fi lo nl ls nm stt sl]. by destruct ls. Qed.

Lemma seq_at_finish x c l :
  seq_at (finish x c) l = seq_code (stmt_code (FunctionIndex c) (StringTable c)) (CurrentScope c) (loop_of c) l
    (after x) (length (Instructions c) + length (code x))%nat.
Proof.
  unfold seq_at. rewrite loop_of_finish. destruct x as [cc bs [lo nl]]. destruct c. cbn.
  by rewrite length_app.
Qed.

(** The loop over the statements of a block. *)
Definition run_all : list Statement -> G unit :=
  fix loop (l : list Statement) : G unit :=
    match l with [] => mret () | s :: l => generateStatement s;; loop l end.

Lemma seq_run l : Forall gen_ok l -> forall c x,
  is_Some (CurrentFunction c) -> seq_at c l = Some x -> does (run_all l) c x.
Proof.
  induction 1 as [|s l Hs _ IH]; intros c z Hf; cbn.
  - intros [= <-]. apply does_appends, appends_ret.
  - intros (x & Hx & (y & Hy & [= <-])%bind_Some)%bind_Some.
    eapply does_seq; [by apply Hs|]. apply IH; [by destruct c|]. by rewrite seq_at_finish.
Qed.

Lemma block_run b c x : all_block gen_ok b -> is_Some (CurrentFunction c) -> block_at c b = Some x ->
  does (generateBlock b) c x.
Proof.
  destruct b as [l scope]. intros Hb Hf H. unfold does, generateBlock, in_block.
  erewrite gen_bind_run by reflexivity. erewrite gen_bind_run by reflexivity.
  erewrite gen_bind_run; [|apply (seq_run l Hb); [by destruct c | destruct c; exact H]].
  by destruct c.
Qed.

Lemma assignment_run c lhs rhs x : is_Some (CurrentFunction c) ->
  assignment_code (FunctionIndex c) (StringTable c) (CurrentScope c) (slots_of c) lhs rhs = Some x ->
  does (generateAssignment lhs (Some rhs)) c x.
Proof.
  intros Hf (r & Hr & H)%bind_Some. unfold generateAssignment.
  apply exp_run in Hr as Hrun; [|done].
  assert (forall z, exp_code (FunctionIndex c) (StringTable c) (CurrentScope c) (slots_of c) z
            = exp_code (FunctionIndex (emits r c)) (StringTable (emits r c)) (CurrentScope (emits r c)) (slots_of (emits r c)) z)
    as Hsame by (by destruct c).
  assert (is_Some (CurrentFunction (emits r c))) as Hf' by (by destruct c).
  assert (forall o z y, exp_code (FunctionIndex c) (StringTable c) (CurrentScope c) (slots_of c) z = Some y ->
            does (generate_operand GenerateExpression (Some rhs);; (GenerateExpression z;; Emit o)) c
              (MkChunk (r ++ y ++ [instr o]) [] (slots_of c))) as Hidx.
  { intros o z y Hz. apply does_appends. eapply appends_seq; [done|]. rewrite Hsame in Hz.
    eapply appends_seq; [by apply exp_run | apply appends_Emit]. }
  destruct lhs as [| | v | v | v | | | l z t |]; try done;
    try (apply bind_Some in H as (v' & [= <-] & [= <-]);
         eapply does_seq; [by apply does_appends|]; rewrite <- emits_finish; eapply does_read; [done|];
         replace (slots_of c) with (slots_of (emits r c)) by (by destruct c); apply store_run).
  destruct (is_identifier "persistent" l); [|destruct (is_identifier "memory" l); [|done]];
    apply bind_Some in H as (y & Hy & [= <-]); by apply Hidx.
Qed.

(** *** Jumps *)

Lemma emit_jump_run op c : emit_jump op c = Ret (emits [push_at 0; instr op] c, len (Instructions c)).
Proof.
  unfold emit_jump. repeat (erewrite gen_bind_run by reflexivity). destruct c. unfold emits, Emit, append, modify. cbn.
  by rewrite <- app_assoc.
Qed.

Lemma here_run c : here c = Ret (c, len (Instructions c)).
Proof. done. Qed.

Lemma Instructions_finish x c : Instructions (finish x c) = Instructions c ++ code x.
Proof. by destruct c. Qed.

Lemma len_finish x c : len (Instructions (finish x c)) = Z.of_nat (length (Instructions c) + length (code x)).
Proof. rewrite Instructions_finish. unfold len. by rewrite length_app. Qed.

Lemma emits_chunk l ps lo a c : emits a (finish (MkChunk l ps lo) c) = finish (MkChunk (l ++ a) ps lo) c.
Proof. rewrite emits_finish, finish_finish. unfold chunk_app. destruct c, lo. cbn. by rewrite app_nil_r. Qed.

Lemma finish_chunk l ps lo x c :
  finish x (finish (MkChunk l ps lo) c) = finish (MkChunk (l ++ code x) (ps ++ map (Nat.add (length l)) (breaks x)) (after x)) c.
Proof. apply finish_finish. Qed.

(** Patching a placeholder of the chunk. *)
Lemma patch_run c l a z b ps lo t i : l = a ++ push_at z :: b -> i = Z.of_nat (length (Instructions c) + length a) ->
  patch i t (finish (MkChunk l ps lo) c) = Ret (finish (MkChunk (a ++ push_at t :: b) ps lo) c, ()).
Proof.
  intros -> ->. rewrite <- length_app. rewrite (patch_at _ _ z b).
  - f_equal. f_equal. destruct c. unfold finish, emits. cbn. by rewrite <- app_assoc.
  - rewrite Instructions_finish. cbn. by rewrite app_assoc.
Qed.

(** The condition, and the jump over the body. *)
Lemma test_run {B} cond cc c (f : Z -> G B) : appends (GenerateExpression cond) c cc ->
  (GenerateExpression cond;; Emit ISZERO;; j ← emit_jump JUMPC; f j) c
  = f (Z.of_nat (length (Instructions c) + length (cc ++ [instr ISZERO])))
      (finish (MkChunk (test_code cc 0) [] (slots_of c)) c).
Proof.
  intros H. rewrite (gen_bind_run _ _ _ _ _ H). rewrite (gen_bind_run _ _ _ _ _ (appends_Emit _ _)).
  erewrite gen_bind_run by apply emit_jump_run. rewrite !emits_emits.
  replace ((cc ++ [instr ISZERO]) ++ [push_at 0; instr JUMPC]) with (test_code cc 0)
    by (unfold test_code; by rewrite <- app_assoc).
  f_equal; [|by rewrite emits_finish]. destruct c. cbn. unfold len. by rewrite length_app.
Qed.

Lemma test_split cc t : test_code cc t = (cc ++ [instr ISZERO]) ++ push_at t :: [instr JUMPC].
Proof. unfold test_code. by rewrite <- app_assoc. Qed.

Lemma length_test cc t : length (test_code cc t) = (length cc + 3)%nat.
Proof. unfold test_code. rewrite length_app. done. Qed.

Lemma block_at_finish c l ps lo b :
  block_at (finish (MkChunk l ps lo) c) b
  = block_code (stmt_code (FunctionIndex c) (StringTable c)) (CurrentScope c) lo
      (length (Instructions c) + length l)%nat (loop_of c) b.
Proof.
  unfold block_at. rewrite loop_of_finish. destruct lo. destruct c. cbn. by rewrite length_app.
Qed.

Lemma chunk_run b c l ps lo x : all_block gen_ok b -> is_Some (CurrentFunction c) ->
  block_code (stmt_code (FunctionIndex c) (StringTable c)) (CurrentScope c) lo
    (length (Instructions c) + length l)%nat (loop_of c) b = Some x ->
  generateBlock b (finish (MkChunk l ps lo) c)
  = Ret (finish (MkChunk (l ++ code x) (ps ++ map (Nat.add (length l)) (breaks x)) (after x)) c, ()).
Proof.
  intros Hb Hf H. rewrite <- (block_at_finish c l ps) in H. rewrite (block_run _ _ _ Hb) by (by destruct c).
  by rewrite finish_chunk.
Qed.

Lemma here_at c l ps lo k : (length (Instructions c) + length l)%nat = k ->
  here (finish (MkChunk l ps lo) c) = Ret (finish (MkChunk l ps lo) c, Z.of_nat k).
Proof. intros <-. by rewrite here_run, len_finish. Qed.

Lemma jump_at op c l ps lo k : (length (Instructions c) + length l)%nat = k ->
  emit_jump op (finish (MkChunk l ps lo) c)
  = Ret (finish (MkChunk (l ++ [push_at 0; instr op]) ps lo) c, Z.of_nat k).
Proof. intros <-. by rewrite emit_jump_run, len_finish, emits_chunk. Qed.

(** Lengths, and lists up to associativity. *)
Ltac lengths := rewrite ?length_test; repeat (rewrite ?length_app, ?length_test; cbn [length app]); lia.
Ltac lists := rewrite ?test_split; repeat (rewrite <- !app_assoc; cbn [app]); reflexivity.

Lemma if_run cond b eb t : all_block gen_ok b -> (forall x, eb = Some x -> all_block gen_ok x) -> gen_ok (IfStmt cond b eb t).
Proof.
  intros IHb IHeb c z Hf H. unfold stmt_at in H. cbn in H.
  apply bind_Some in H as (cc & Hcc & (x & Hx & H)%bind_Some).
  unfold does. cbn [generateStatement]. unfold generateIf. rewrite (test_run _ cc) by by apply exp_run.
  erewrite gen_bind_run by (apply chunk_run; [done|done|]; rewrite length_test, Nat.add_assoc; exact Hx).
  destruct eb as [eb|].
  - apply bind_Some in H as (w & Hw & [= <-]).
    set (els := (length (Instructions c) + length cc + 3 + length (code x) + 2)%nat) in *.
    erewrite gen_bind_run by (apply jump_at; reflexivity).
    erewrite gen_bind_run by (apply (here_at _ _ _ _ els); unfold els; lengths).
    erewrite gen_bind_run by (apply (patch_run _ _ (cc ++ [instr ISZERO]) 0 (instr JUMPC :: code x ++ [push_at 0; instr JUMP]));
      first [done | lists]).
    erewrite gen_bind_run by (apply chunk_run; [by apply IHeb|done|];
      replace (_ + length _)%nat with els by (unfold els; lengths); exact Hw).
    erewrite gen_bind_run by (apply (here_at _ _ _ _ (els + length (code w))); unfold els; lengths).
    rewrite (patch_run _ _ (test_code cc (Z.of_nat els) ++ code x) 0 (instr JUMP :: code w)) by (lists || lengths).
    do 3 f_equal. unfold chunk_app. cbn [code breaks after app]. f_equal; [lists|].
    rewrite map_app, !map_map, !length_test. f_equal. apply map_ext. intros i. lengths.
  - injection H as <-. set (e := (length (Instructions c) + length cc + 3 + length (code x))%nat).
    erewrite gen_bind_run by (apply (here_at _ _ _ _ e); unfold e; lengths).
    rewrite (patch_run _ _ (cc ++ [instr ISZERO]) 0 (instr JUMPC :: code x)) by (lists || done).
    do 3 f_equal. unfold chunk_app. cbn [code breaks after app]. f_equal; [lists | by rewrite !length_test].
Qed.

Lemma patch_chunk_run c a x b ps lo t : marked 0 x ->
  patch_all (map (fun i => Z.of_nat (length (Instructions c) + length a + i)) (breaks x)) t
    (finish (MkChunk (a ++ code x ++ b) ps lo) c)
  = Ret (finish (MkChunk (a ++ code (patch_chunk t x) ++ b) ps lo) c, ()).
Proof.
  intros Hm. rewrite <- length_app. rewrite (patch_all_run _ _ _ _ (code x) b).
  - f_equal. f_equal. destruct c. unfold finish, emits. cbn. by rewrite <- !app_assoc.
  - rewrite Instructions_finish. cbn. by rewrite <- !app_assoc.
  - eapply Forall_impl; [exact Hm|]. intros i Hi. by exists 0.
Qed.

Lemma while_run cond b : all_block gen_ok b -> gen_ok (WhileStmt cond b).
Proof.
  intros IHb c z Hf H. unfold stmt_at in H. cbn in H.
  apply bind_Some in H as (cc & Hcc & (x & Hx & (y & Hy & [= <-])%bind_Some)%bind_Some).
  destruct (block_breaks _ _ b _ _ _ _ _ _ (proj2 (List.Forall_forall _ _) (fun s _ => stmt_breaks _ _ s)) Hx) as [Hm Hb].
  rewrite Hb in Hy. injection Hy as <-.
  set (n := length (Instructions c)) in *. set (start := (n + length cc + 3)%nat) in *.
  set (e := (start + length (code x) + 2)%nat) in *.
  unfold does. cbn [generateStatement]. unfold generateWhile.
  erewrite gen_bind_run by apply here_run. rewrite (test_run _ cc) by by apply exp_run.
  set (c1 := with_LoopStack (MkLoopContext (Z.of_nat n) [] :: LoopStack c) c).
  rewrite (gen_bind_run _ _ _ (finish (MkChunk (test_code cc 0) [] (slots_of c1)) c1) ()).
  2:{ unfold push_loop, modify, finish, emits, c1. destruct c. cbn. by rewrite add_breaks_nil. }
  erewrite gen_bind_run.
  2:{ apply chunk_run; [done | by destruct c|].
      unfold c1. destruct c. cbn in *. rewrite length_test, Nat.add_assoc. exact Hx. }
  set (ps := map (fun i => Z.of_nat (start + i)) (breaks x)).
  rewrite (gen_bind_run _ _ _ (finish (MkChunk (test_code cc 0 ++ code x) [] (after x)) c) ps).
  2:{ unfold c1, pop_loop. destruct c. cbn. unfold finish, emits. cbn. rewrite add_breaks_nil. f_equal. f_equal.
      rewrite map_map. apply map_ext. intros i. unfold start, n. cbn. lengths. }
  rewrite (gen_bind_run _ _ _ _ _ (appends_EmitPush _ _)), (gen_bind_run _ _ _ _ _ (appends_Emit _ _)), !emits_chunk.
  erewrite gen_bind_run by (apply (here_at _ _ _ _ e); fold n; unfold e, start; lengths).
  erewrite gen_bind_run by (apply (patch_run _ _ (cc ++ [instr ISZERO]) 0 (instr JUMPC :: code x ++ [push (OpInt (Z.of_nat n)); instr JUMP]));
      [lists | done]).
  replace ((cc ++ [instr ISZERO]) ++ push_at (Z.of_nat e) :: _) with
    (test_code cc (Z.of_nat e) ++ code x ++ [push (OpInt (Z.of_nat n)); instr JUMP]) by lists.
  unfold ps. replace start with (n + length (test_code cc (Z.of_nat e)))%nat by (unfold start; lengths).
  unfold n. by rewrite patch_chunk_run.
Qed.

Lemma stmt_run s : gen_ok s.
Proof.
  induction s as [ty l r t|e|c b eb t IHb IHeb|c b IHb|t|t|e] using Statement_ind'.
  - intros c x Hf H. destruct r as [r|]; [|done]. by apply assignment_run.
  - intros c x Hf H. apply bind_Some in H as (cc & Hc & [= <-]).
    apply does_appends. eapply appends_seq; [by apply exp_run | apply appends_Emit].
  - by apply if_run.
  - by apply while_run.
  - intros c x Hf H. unfold stmt_at, loop_of in H. cbn in H.
    unfold does. cbn [generateStatement]. unfold generateBreak. erewrite gen_bind_run by reflexivity.
    destruct (LoopStack c) as [|l ls] eqn:El; [done|]. injection H as <-.
    erewrite gen_bind_run by apply emit_jump_run. unfold modify. f_equal. f_equal.
    destruct c. cbn in El. subst. unfold finish, emits. cbn. unfold len. by rewrite Nat.add_0_r.
  - intros c x Hf H. unfold stmt_at, loop_of in H. cbn in H.
    unfold does. cbn [generateStatement]. unfold generateContinue. erewrite gen_bind_run by reflexivity.
    destruct (LoopStack c) as [|l ls] eqn:El; [done|]. injection H as <-.
    apply (does_appends _ _ [_; _]). apply (appends_seq _ _ _ [_] [_]); eauto with appends.
  - intros c x Hf H. apply bind_Some in H as (cc & Hc & [= <-]).
    apply does_appends. eapply appends_seq; [by apply exp_run | apply appends_Emit].
Qed.

(** C23. While a function is being generated, the one-pass generator of a block emits
    the code of [block_code]: it appends it to the instructions, gives the
    locals their offsets, notes the positions of the open breaks for the
    innermost loop, and changes nothing else; patching those positions gives
    the code for any target of the breaks. *)
Theorem generateBlock_code c b x :
  is_Some (CurrentFunction c) -> block_at c b = Some x ->
  generateBlock b c = Ret (finish x c, ())
  /\ forall cont t, loop_of c = Some (cont, 0) ->
       block_code (stmt_code (FunctionIndex c) (StringTable c)) (CurrentScope c) (slots_of c)
         (length (Instructions c)) (Some (cont, t)) b = Some (patch_chunk t x).
Proof.
  intros Hf Hx. split.
  - apply block_run; [|done..]. by apply List.Forall_forall; intros; apply stmt_run.
  - intros cont t Hl. unfold block_at in Hx. rewrite Hl in Hx.
    eapply block_breaks in Hx as [_ Hx]; [apply Hx|]. apply List.Forall_forall. intros. apply stmt_breaks.
Qed.

End Compile.
