(* ===== verification/MgMachine.v ===== *)
(** * Runs of generated code on the virtual machine

    Configurations of a run that only moves the instruction counter, the stack
    and the gas; one lemma per instruction the generator emits, on words; and
    [goes], a run with the gas it costs. *)

From S2P Require Import Prelude GoLib Bytecode Word256 Machine Opcodes Interp InstrSpec AvmParser MgLexer MgAst MgCodegen MgCompile.

Module MgMachine.
Import VM Handlers Exec InstrSpec.
Import Compile.

(** ** Operands *)

Lemma contains_comma p l : Forall (fun c => c <> ","%char) l -> contains_bytes (","%char :: p) l = false.
Proof.
  induction 1 as [|c l Hc _ IH]; [done|]. cbn [contains_bytes]. rewrite IH, orb_false_r.
  by destruct c as [[] [] [] [] [] [] [] []].
Qed.

Lemma digit_not_comma d : 0 <= d < 36 -> digit_char d <> ","%char.
Proof.
  intros H E. apply (f_equal byte_val) in E. revert E. unfold digit_char.
  rewrite byte_val_of. change (byte_val ",") with 44. case_match; bool_to_prop; rewrite Z.mod_small by lia; lia.
Qed.

Lemma hex_no_comma z : 0 <= z -> Forall (fun c => c <> ","%char) (bytes_of_string (hex z)).
Proof.
  intros Hz. unfold hex, big_Text. rewrite bytes_of_string_of_bytes, (proj2 (Z.ltb_ge _ _)) by done. cbn [app].
  destruct (text_nat_digits 16 (Z.abs z)) as (ds & -> & _ & _ & Hr); [lia..|].
  apply Forall_map. eapply Forall_impl; [exact Hr|]. intros d Hd. apply digit_not_comma. cbn in Hd. lia.
Qed.

(** A push that is valid and has a value. *)
Definition pushes (i : Instruction) (z : Z) : Prop :=
  Opcode i = opcode PUSH /\ ValidateInstruction i = Ok () /\ GetValueAsBigInt i = Ok z.

Lemma push_at_pushes z : 0 <= z -> pushes (push_at z) z.
Proof.
  intros Hz. assert (push_at z = MkInstruction (opcode PUSH) (Some (signed_text z))) as ->
    by (unfold push_at, signed_text; by rewrite (proj2 (Z.ltb_ge _ _))).
  split; [done|]. pose proof (GetValueAsBigInt_signed_text (opcode PUSH) z) as Hv. split; [|done].
  unfold ValidateInstruction. cbn [Opcode Bytecode.Value]. change (negb (Valid (opcode PUSH))) with false.
  cbv iota. rewrite Z.eqb_refl. unfold strings_Contains.
  change (bytes_of_string ",param=") with (","%char :: bytes_of_string "param=").
  rewrite contains_comma.
  - by rewrite Hv, (proj2 (Z.ltb_ge _ _)).
  - unfold signed_text. rewrite (proj2 (Z.ltb_ge _ _)) by done.
    constructor; [done|]. constructor; [done|]. by apply hex_no_comma.
Qed.

Lemma push_OpInt z : 0 <= z -> push (OpInt z) = push_at z.
Proof.
  intros Hz. unfold push, MakeInstructionWithValue. cbn [operand_text]. unfold signed_text.
  by rewrite (proj2 (Z.ltb_ge _ _)).
Qed.

(** An integer literal as the lexer reads it. *)
Definition literal (v : string) : option Z :=
  if is_number (bytes_of_string v) then
    let n := (big_SetString v 10).1 in if decide (Word256.is_word n) then Some n else None
  else None.

Lemma digits_of l : forallb is_digit l = true ->
  exists ds, l = map digit_char ds /\ Forall (fun d => 0 <= d < 10) ds.
Proof.
  intros H. rewrite List.forallb_forall in H. exists (map (fun c => byte_val c - 48) l).
  assert (forall c, In c l -> 0 <= byte_val c - 48 < 10) as Hr.
  { intros c Hc. apply H in Hc. unfold is_digit in Hc. bool_to_prop. lia. }
  split; [|apply Forall_map, List.Forall_forall; auto].
  rewrite map_map, <- (map_id l) at 1. apply map_ext_in. intros c Hc. apply Hr in Hc. unfold digit_char.
  rewrite (proj2 (Z.ltb_lt _ _)) by lia. rewrite Z.sub_add. by rewrite byte_of_val.
Qed.

Lemma no_comma l : forallb is_digit l = true -> Forall (fun c => c <> ","%char) l.
Proof.
  intros H. apply digits_of in H as (ds & -> & Hr). apply Forall_map. eapply Forall_impl; [exact Hr|].
  intros d Hd. apply digit_not_comma. cbn in Hd. lia.
Qed.

Lemma literal_pushes v n : literal v = Some n -> pushes (push (OpString v)) n /\ Word256.is_word n.
Proof.
  unfold literal. destruct (is_number (bytes_of_string v)) eqn:E; [|done]. case_decide; [|done]. intros [= <-].
  unfold is_number in E. apply andb_true_iff in E as [Hne Hd]. apply bool_decide_eq_true in Hne.
  assert (exists c w, v = String c w /\ is_digit c = true) as (c & w & Ev & Hc).
  { destruct v as [|c w]; [done|]. exists c, w. split; [done|]. cbn in Hd. by apply andb_true_iff in Hd as [? _]. }
  assert (push (OpString v) = MkInstruction (opcode PUSH) (Some v)) as -> by (by rewrite Ev).
  assert (big_SetString v 10 = ((big_SetString v 10).1, true)) as Hs.
  { pose proof Hd as Hd'. apply digits_of in Hd' as (ds & Hds & Hr). rewrite <- (string_of_bytes_of_string v), Hds.
    rewrite Asm.SetString_digits; [done | lia | | done].
    intros ->. apply Hne. by rewrite Hds. }
  assert (GetValueAsBigInt (MkInstruction (opcode PUSH) (Some v)) = Ok (big_SetString v 10).1) as Hv.
  { unfold GetValueAsBigInt. cbn [Bytecode.Value]. destruct (String.eqb_spec v "") as [->|_]; [done|].
    assert (has_prefix "0x" v = false) as ->.
    { clear -Hd. destruct v as [|a [|b w]]; [done| |]; cbn in Hd.
      - by destruct a as [[] [] [] [] [] [] [] []].
      - apply andb_true_iff in Hd as [_ Hd]. apply andb_true_iff in Hd as [Hd _].
        destruct b as [[] [] [] [] [] [] [] []]; try discriminate Hd; by destruct a as [[] [] [] [] [] [] [] []]. }
    by rewrite Hs. }
  split; [|done]. split; [done|]. split; [|done].
  unfold ValidateInstruction. cbn [Opcode Bytecode.Value]. change (negb (Valid (opcode PUSH))) with false.
  cbv iota. rewrite Z.eqb_refl. unfold strings_Contains.
  change (bytes_of_string ",param=") with (","%char :: bytes_of_string "param=").
  rewrite contains_comma by by apply no_comma. rewrite Hv.
  unfold Word256.is_word in *. by rewrite (proj2 (Z.ltb_ge _ _)) by lia.
Qed.

(** ** Configurations *)

(** What a run does not change. *)
Record machine := Machine {
  m_code : list Instruction;
  m_context : BlockchainContext;
  m_memory : memory;
  m_storage : gmap string string;
  m_frame : Z;
  m_start : Z;
  m_limit : Z;
  m_next_address : Z;
  m_returns : list Z;
  m_frames : list Z
}.

(** Sizes are in range, and no text is in memory, so that [EQ] compares numbers. *)
Class machine_ok (m : machine) : Prop := {
  ok_limit : 0 < m_limit m < 2 ^ 62;
  ok_code : len (m_code m) < 2 ^ 62;
  ok_frame : 0 <= m_frame m < 2 ^ 62;
  ok_memory : forall a, 0 <= a -> readStringFromMemory (m_memory m) a = Ret []
}.

Section Run.
Context (m : machine) {Hm : machine_ok m}.
Abbreviation code := (m_code m).
Abbreviation κ := (m_context m).
Abbreviation fp := (m_frame m).
Abbreviation mx := (m_limit m).

Let Hmx := ok_limit (m := m).
Let Hcode := ok_code (m := m).
Let Hfp := ok_frame (m := m).
Let Hmem := ok_memory (m := m).

(** At the address [pc], with a stack, gas left and gas used. *)
Definition conf (pc : Z) (st : list Z) (g : Z * Z) : Runtime :=
  {| Stack := MkStack st mx; Memory := m_memory m; FramePointer := fp; IC := pc; StartIC := m_start m;
     GasAvailable := g.1; GasUsed := g.2; VM.Instructions := code; Persistent := m_storage m; Context := κ;
     ReturnStack := m_returns m; FrameStack := m_frames m; VM.NextMemoryAddr := m_next_address m |}.

(** Room for [n] more words on the stack. *)
Definition room (n : nat) (st : list Z) : Prop := len st + Z.of_nat n <= mx.

(** The code at an address. *)
Definition code_at (pc : nat) (l : list Instruction) : Prop := exists pre post, code = pre ++ l ++ post /\ length pre = pc.

Lemma code_at_app pc a b : code_at pc (a ++ b) -> code_at pc a /\ code_at (pc + length a) b.
Proof.
  intros (pre & post & E & <-). split.
  - exists pre, (b ++ post). split; [by rewrite E, <- ?app_assoc | done].
  - exists (pre ++ a), post. split; [by rewrite E, <- ?app_assoc | by rewrite length_app].
Qed.

Lemma code_at_cons pc i l : code_at pc (i :: l) -> code_at pc [i] /\ code_at (S pc) l.
Proof. intros H. apply (code_at_app pc [i] l) in H as [? H]. cbn in H. rewrite Nat.add_1_r in H. done. Qed.

Lemma code_at_lookup pc i l : code_at pc (i :: l) ->
  slice_get code (Z.of_nat pc) = Ret i /\ Z.of_nat pc < len code.
Proof.
  intros (pre & post & E & <-). rewrite E. cbn [app]. unfold slice_get. rewrite (proj2 (Z.ltb_ge _ _)) by lia.
  rewrite Nat2Z.id, list_lookup_middle by done. split; [done|]. unfold len. rewrite !length_app. cbn. lia.
Qed.

(** A run to another address and stack, and its cost. *)
Definition goes (pc : nat) (st : list Z) (cost : Z) (pc' : nat) (st' : list Z) : Prop :=
  0 <= cost /\ forall g u, cost <= g -> 0 <= u -> u + g < 2 ^ 64 ->
    rtc step (conf (Z.of_nat pc) st (g, u)) (conf (Z.of_nat pc') st' (g - cost, u + cost)).

Lemma goes_refl pc st : goes pc st 0 pc st.
Proof. split; [done|]. intros g u _ _ _. rewrite Z.sub_0_r, Z.add_0_r. apply rtc_refl. Qed.

Lemma goes_trans pc st c1 pc1 st1 c2 pc2 st2 :
  goes pc st c1 pc1 st1 -> goes pc1 st1 c2 pc2 st2 -> goes pc st (c1 + c2) pc2 st2.
Proof.
  intros [H1 G1] [H2 G2]. split; [lia|]. intros g u Hg Hu Ht. etransitivity; [apply G1; lia|].
  rewrite Z.sub_add_distr, Z.add_assoc. apply G2; lia.
Qed.

(** ** Instructions *)

Lemma conf_step pc st pc' st' g g' i r :
  slice_get code pc = Ret i -> pc < len code -> ValidateInstruction i = Ok () ->
  Price (Opcode i) <= g.1 ->
  run_opcode i (conf pc st g) = Ret (r, inl ()) ->
  Exec.finish i r = conf pc' st' g' ->
  step (conf pc st g) (conf pc' st' g').
Proof.
  intros Hi Hpc Hv Hg Hr Hf. constructor; [done|]. by rewrite (ExecuteInstruction_run _ i r), Hf.
Qed.

(** An instruction that ends in the next configuration. *)
Lemma goes_next pc i l st st' :
  code_at pc (i :: l) -> ValidateInstruction i = Ok () ->
  (Opcode i =? opcode JUMP) || (Opcode i =? opcode JUMPC) = false ->
  (forall g, run_opcode i (conf (Z.of_nat pc) st g) = Ret (conf (Z.of_nat pc) st' g, inl ())) ->
  goes pc st (Price (Opcode i)) (S pc) st'.
Proof.
  intros Hc Hv Hj Hr. apply code_at_lookup in Hc as [Hi Hl]. pose proof (Price_range (Opcode i)) as Hp.
  split; [lia|]. intros g u Hg Hu Ht. apply rtc_once. eapply conf_step; [exact Hi | exact Hl | exact Hv | exact Hg | apply Hr|].
  unfold Exec.finish. rewrite Hj. unfold conf. cbn. rewrite i64_small, !u64_small by (machine_bounds; lia).
  unfold with_IC, with_Gas. cbn. f_equal; lia.
Qed.

(** A jump. *)
Lemma goes_jump pc i l st pc' st' :
  code_at pc (i :: l) -> ValidateInstruction i = Ok () ->
  (Opcode i =? opcode JUMP) || (Opcode i =? opcode JUMPC) = true ->
  (forall g, run_opcode i (conf (Z.of_nat pc) st g) = Ret (conf (Z.of_nat pc') st' g, inl ())) ->
  goes pc st (Price (Opcode i)) pc' st'.
Proof.
  intros Hc Hv Hj Hr. apply code_at_lookup in Hc as [Hi Hl]. pose proof (Price_range (Opcode i)) as Hp.
  split; [lia|]. intros g u Hg Hu Ht. apply rtc_once. eapply conf_step; [exact Hi | exact Hl | exact Hv | exact Hg | apply Hr|].
  unfold Exec.finish. rewrite Hj. unfold conf. cbn. rewrite !u64_small by (machine_bounds; lia).
  unfold with_IC, with_Gas. cbn. f_equal; lia.
Qed.

Lemma room_le n k st : (n <= k)%nat -> room k st -> room n st.
Proof. unfold room. lia. Qed.

Lemma room_push n st v : room (S n) st -> room n (st ++ [v]).
Proof. unfold room, len. rewrite length_app. cbn. lia. Qed.

Lemma room_stack_ok pc st g : room 0 st -> stack_ok (Stack (conf pc st g)).
Proof. unfold room, stack_ok. cbn. lia. Qed.

Lemma conf_Push pc st g v : room 1 st -> Push v (conf pc st g) = Ret (conf pc (st ++ [v]) g, inl ()).
Proof. intros H. rewrite Push_run; [done|]. unfold room in H. cbn. lia. Qed.

Lemma conf_Pop pc st g v : Pop (conf pc (st ++ [v]) g) = Ret (conf pc st g, inl v).
Proof. by rewrite (Pop_run _ st v mx). Qed.

Lemma conf_bind {A B} (c : M A) (f : A -> M B) r r' a : c r = Ret (r', inl a) -> (c ≫= f) r = f a r'.
Proof. intros H. unfold mbind, M_bind. by rewrite H. Qed.

Lemma instr_valid o : o <> PUSH -> ValidateInstruction (instr o) = Ok ().
Proof. by destruct o. Qed.

Lemma run_instr o : run_opcode (instr o) = dispatch (instr o) o.
Proof. unfold run_opcode, instr. cbn [Opcode MakeInstruction]. by rewrite op_of_opcode. Qed.

(** Any instruction without an operand that does not jump. *)
Lemma goes_instr o pc l st st' :
  code_at pc (instr o :: l) -> o <> PUSH -> o <> JUMP -> o <> JUMPC ->
  (forall pc g, dispatch (instr o) o (conf pc st g) = Ret (conf pc st' g, inl ())) ->
  goes pc st (Price (opcode o)) (S pc) st'.
Proof.
  intros Hc Hp Hj Hj' Hr. eapply (goes_next pc (instr o)); [done | by apply instr_valid | by destruct o |].
  intros g. by rewrite run_instr, Hr.
Qed.

Lemma goes_push pc i l st z : code_at pc (i :: l) -> pushes i z -> room 1 st -> goes pc st (Price (opcode PUSH)) (S pc) (st ++ [z]).
Proof.
  intros Hc (Ho & Hv & Hz) Hr. rewrite <- Ho. eapply goes_next; [done | done | by rewrite Ho|].
  intros g. unfold run_opcode. rewrite Ho, op_of_opcode. cbn [dispatch]. unfold op_PUSH. rewrite Hz. by apply conf_Push.
Qed.

(** The functions of the binary instructions. *)
Definition binary_function (o : Op) : option (Z -> Z -> Z) :=
  match o with
  | ADD => Some signedAdd
  | SUB => Some signedSub
  | MUL => Some signedMul
  | DIV => Some signedDiv
  | MOD => Some (fun a b => if Z.sgn b =? 0 then 0 else big_Mod a b)
  | LT => Some (fun a b => b2z (signedCmp a b <? 0))
  | GT => Some (fun a b => b2z (0 <? signedCmp a b))
  | EQ => Some (fun a b => b2z (a =? b))
  | _ => None
  end.

Lemma conf_Pop2 pc st g a b : Pop2 (conf pc (st ++ [a; b]) g) = Ret (conf pc st g, inl (b, a)).
Proof. by rewrite (Pop2_run _ st a b mx). Qed.

Lemma room_of_two st a b : room 2 st -> room 0 (st ++ [a; b]).
Proof. unfold room, len. rewrite length_app. cbn. lia. Qed.

Lemma no_text a pc st g : 0 <= a -> (if a <? 1000000 then readString a else mret []) (conf pc st g) = Ret (conf pc st g, inl []).
Proof.
  intros Ha. destruct (a <? 1000000); [|done]. unfold readString, mbind, M_bind, get, of_go. cbn. by rewrite Hmem.
Qed.

Lemma goes_binary o f pc l st a b :
  binary_function o = Some f -> code_at pc (instr o :: l) -> room 2 st ->
  goes pc (st ++ [a; b]) (Price (opcode o)) (S pc) (st ++ [f a b]).
Proof.
  intros Hf Hc Hr. eapply goes_instr; [done | by destruct o..|]. intros pc' g.
  assert (o = EQ \/ dispatch (instr o) o = binop f) as [->|Hd] by (destruct o; try discriminate; injection Hf as <-; auto).
  - injection Hf as <-. cbn [dispatch]. unfold op_EQ. rewrite (conf_bind _ _ _ _ _ (conf_Pop2 _ _ _ _ _)). cbv beta iota.
    do 2 (rewrite (conf_bind _ _ _ _ _ (no_text _ _ _ _ (proj1 (big_Uint64_range _))))).
    cbv iota. apply conf_Push. eapply room_le; [|exact Hr]. lia.
  - rewrite Hd. rewrite (binop_run f _ st a b mx); [done | done |]. apply room_stack_ok. by apply room_of_two.
Qed.

Lemma goes_ISZERO pc l st a :
  code_at pc (instr ISZERO :: l) -> room 1 st -> goes pc (st ++ [a]) (Price (opcode ISZERO)) (S pc) (st ++ [b2z (a =? 0)]).
Proof.
  intros Hc Hr. eapply goes_instr; [done..|]. intros pc' g. cbn [dispatch]. unfold op_ISZERO.
  rewrite (conf_bind _ _ _ _ _ (conf_Pop _ _ _ _)). by apply conf_Push.
Qed.

Lemma goes_POP pc l st a : code_at pc (instr POP :: l) -> goes pc (st ++ [a]) (Price (opcode POP)) (S pc) st.
Proof.
  intros Hc. eapply goes_instr; [done..|]. intros pc' g. cbn [dispatch]. unfold op_POP.
  by rewrite (conf_bind _ _ _ _ _ (conf_Pop _ _ _ _)).
Qed.

(** A word is printed, and stays. *)
Lemma goes_EMIT pc l st a : code_at pc (instr EMIT :: l) -> Word256.is_word a ->
  goes pc (st ++ [a]) (Price (opcode EMIT)) (S pc) (st ++ [a]).
Proof.
  intros Hc Ha. eapply goes_instr; [done..|]. intros pc' g. cbn [dispatch]. unfold op_EMIT.
  assert (Top (conf pc' (st ++ [a]) g) = Ret (conf pc' (st ++ [a]) g, inl a)) as Ht.
  { unfold Top, stack_Top, mbind, M_bind, VM.get. cbn. by rewrite last_snoc. }
  rewrite (conf_bind _ _ _ _ _ Ht). unfold VM.of_go, big_FillBytes, mbind, M_bind.
  unfold Word256.is_word in Ha. rewrite Z.abs_eq by lia. change (256 ^ Z.of_nat 32) with (2 ^ 256).
  by rewrite (proj2 (Z.ltb_lt _ _)) by lia.
Qed.

(** The two words below the index 1 change places. *)
Lemma goes_SWAP pc l st a b : code_at pc (instr SWAP :: l) -> room 2 st ->
  goes pc (st ++ [a; b; 1]) (Price (opcode SWAP)) (S pc) (st ++ [b; a]).
Proof.
  intros Hc Hr. eapply goes_instr; [done..|]. intros pc' g. cbn [dispatch]. unfold op_SWAP.
  replace (st ++ [a; b; 1]) with ((st ++ [a; b]) ++ [1]) by by rewrite <- app_assoc.
  rewrite (conf_bind _ _ _ _ _ (conf_Pop _ _ _ _)). change (i64 (big_Uint64 1)) with 1.
  unfold VM.get, mbind at 1, M_bind at 1. cbn [Stack conf s].
  assert (len (st ++ [a; b]) = len st + 2) as Hl by (unfold len; rewrite length_app; cbn; lia).
  rewrite Hl, (proj2 (Z.leb_gt _ _)) by (unfold len; lia).
  assert (stack_Swap (MkStack (st ++ [a; b]) mx) 1 = Ret (Ok (MkStack (st ++ [b; a]) mx))) as Hs.
  { unfold stack_Swap. cbn [s]. rewrite Hl, (proj2 (Z.leb_gt _ _)) by (unfold len; lia).
    unfold stack_Top. cbn [s stack_maxSize]. replace (st ++ [a; b]) with ((st ++ [a]) ++ [b]) at 1 by by rewrite <- app_assoc.
    rewrite last_snoc. replace (len st + 2 - 1 - 1) with (len st) by lia.
    rewrite i64_small by (unfold room in Hr; unfold len in *; machine_bounds; lia).
    replace (Z.to_nat (len st + 2 - 1)) with (length st + 1)%nat by (unfold len; lia).
    replace (Z.to_nat (len st)) with (length st + 0)%nat by (unfold len; lia).
    unfold slice_get. rewrite (proj2 (Z.ltb_ge _ _)) by (unfold len; lia).
    replace (Z.to_nat (len st)) with (length st) by (unfold len; lia). rewrite list_lookup_middle by done.
    cbn [mbind go_bind]. by rewrite !insert_app_r. }
  unfold VM.of_go, VM.of_res, mbind, M_bind. by rewrite Hs.
Qed.

(** ** Locals *)

Definition slot (o : Z) : nat := Z.to_nat (fp + o).

(** Writing a local extends the stack up to its slot. *)
Definition set_local (st : list Z) (o v : Z) : list Z := <[slot o := v]> (expand st (fp + o)).

Lemma slot_index o : 0 <= o < 2 ^ 61 -> i64 (fp + i64 (big_Uint64 o)) = fp + o.
Proof.
  intros Ho. rewrite big_Uint64_small by (machine_bounds; lia). rewrite (i64_small o) by (machine_bounds; lia).
  apply i64_small. machine_bounds. lia.
Qed.

Lemma goes_LOAD_LOCAL pc l st o v : code_at pc (instr LOAD_LOCAL :: l) -> 0 <= o < 2 ^ 61 ->
  st !! slot o = Some v -> room 1 st ->
  goes pc (st ++ [o]) (Price (opcode LOAD_LOCAL)) (S pc) (st ++ [v]).
Proof.
  intros Hc Ho Hv Hr. eapply goes_instr; [done..|]. intros pc' g. cbn [dispatch]. unfold op_LOAD_LOCAL.
  rewrite (conf_bind _ _ _ _ _ (conf_Pop _ _ _ _)). unfold VM.get, mbind at 1, M_bind at 1.
  cbv zeta. cbn [FramePointer conf Stack s stack_maxSize]. rewrite slot_index by done.
  rewrite (proj2 (Z.ltb_ge _ _)) by lia.
  assert (expand st (fp + o) = st) as ->.
  { unfold expand. apply lookup_lt_Some in Hv. unfold slot in Hv. replace (Z.to_nat _) with 0%nat by (unfold len; lia).
    apply app_nil_r. }
  assert (slice_get st (fp + o) = Ret v) as Hs.
  { unfold slice_get. rewrite (proj2 (Z.ltb_ge _ _)) by lia. fold (slot o). by rewrite Hv. }
  unfold VM.modify, VM.of_go, mbind, M_bind. rewrite Hs. cbn [mbind go_bind].
  change (with_Stack (MkStack st mx) (conf pc' st g)) with (conf pc' st g). by apply conf_Push.
Qed.

Lemma goes_STORE_LOCAL pc l st o v : code_at pc (instr STORE_LOCAL :: l) -> 0 <= o < 2 ^ 61 ->
  goes pc (st ++ [v; o]) (Price (opcode STORE_LOCAL)) (S pc) (set_local st o v).
Proof.
  intros Hc Ho. eapply goes_instr; [done..|]. intros pc' g. cbn [dispatch]. unfold op_STORE_LOCAL.
  replace (st ++ [v; o]) with ((st ++ [v]) ++ [o]) by by rewrite <- app_assoc.
  rewrite (conf_bind _ _ _ _ _ (conf_Pop _ _ _ _)), (conf_bind _ _ _ _ _ (conf_Pop _ _ _ _)).
  unfold VM.get, mbind, M_bind. cbv zeta. cbn [FramePointer conf Stack s stack_maxSize].
  rewrite slot_index by done. by rewrite (proj2 (Z.ltb_ge _ _)) by lia.
Qed.

(** ** Jumps *)

Lemma jump_target t : Z.of_nat t < len code -> i64 (big_Uint64 (Z.of_nat t)) = Z.of_nat t.
Proof. intros H. rewrite big_Uint64_small, i64_small; machine_bounds; lia. Qed.

Lemma jump_in_range t : Z.of_nat t < len code ->
  (Z.of_nat t <? 0) || (len code <=? Z.of_nat t) = false.
Proof. intros H. apply orb_false_iff. rewrite Z.ltb_ge, Z.leb_gt. lia. Qed.

Lemma goes_JUMP pc l st t : code_at pc (instr JUMP :: l) -> Z.of_nat t < len code ->
  goes pc (st ++ [Z.of_nat t]) (Price (opcode JUMP)) t st.
Proof.
  intros Hc Ht. eapply (goes_jump pc (instr JUMP)); [done..|]. intros g. rewrite run_instr. cbn [dispatch]. unfold op_JUMP.
  rewrite (conf_bind _ _ _ _ _ (conf_Pop _ _ _ _)). rewrite jump_target by done.
  unfold VM.get, mbind, M_bind. cbn [conf VM.Instructions]. by rewrite jump_in_range.
Qed.

Lemma goes_JUMPC pc l st t c : code_at pc (instr JUMPC :: l) -> Z.of_nat t < len code ->
  goes pc (st ++ [c; Z.of_nat t]) (Price (opcode JUMPC)) (if c =? 1 then t else S pc) st.
Proof.
  intros Hc Ht. eapply (goes_jump pc (instr JUMPC)); [done..|]. intros g. rewrite run_instr. cbn [dispatch]. unfold op_JUMPC.
  replace (st ++ [c; Z.of_nat t]) with ((st ++ [c]) ++ [Z.of_nat t]) by by rewrite <- app_assoc.
  rewrite (conf_bind _ _ _ _ _ (conf_Pop _ _ _ _)), (conf_bind _ _ _ _ _ (conf_Pop _ _ _ _)).
  rewrite jump_target by done. unfold VM.get, mbind, M_bind. cbn [conf VM.Instructions IC]. rewrite jump_in_range by done.
  destruct (c =? 1); [done|]. unfold VM.modify. f_equal. f_equal. unfold with_IC, conf. cbn.
  pose proof (code_at_lookup _ _ _ Hc) as [_ Hpc]. rewrite i64_small by (machine_bounds; lia). f_equal. lia.
Qed.

(** ** Context *)

(** What the context instructions of one word push. *)
Definition context_word (o : Op) : option (BlockchainContext -> Z) :=
  match o with
  | CALLER => Some (fun c => big_SetBytes (Caller c))
  | ADDRESS => Some (fun c => big_SetBytes (ContractAddress c))
  | ORIGIN => Some (fun c => big_SetBytes (Origin c))
  | GASPRICE => Some (fun c => i64 (GasPrice c))
  | CALLVALUE => Some (fun c => i64 (CallValue c))
  | TIMESTAMP => Some (fun c => i64 (Timestamp c))
  | DIFFICULTY => Some (fun c => i64 (Difficulty c))
  | COINBASE => Some (fun c => big_SetBytes (Coinbase c))
  | HEIGHT => Some (fun c => i64 (BlockNumber c))
  | GASLIMIT => Some (fun c => i64 (GasLimit c))
  | _ => None
  end.

Lemma goes_context o f pc l st : context_word o = Some f -> code_at pc (instr o :: l) -> room 1 st ->
  goes pc st (Price (opcode o)) (S pc) (st ++ [f κ]).
Proof.
  intros Hf Hc Hr. eapply goes_instr; [done | by destruct o..|]. intros pc' g.
  assert (dispatch (instr o) o = push_context f) as -> by (destruct o; try discriminate; by injection Hf as <-).
  unfold push_context, VM.get, mbind, M_bind. cbn [conf Context]. by apply conf_Push.
Qed.

End Run.

End MgMachine.
