(* ===== verification/MgCorrect.v ===== *)
(** * The generated code computes what the program says

    A reference semantics of the numeric part of Marigold, on 256-bit words and
    without jumps, stack or gas, and the proof that the code of MgCompile runs
    on the virtual machine to the same result. *)

From S2P Require Import Prelude GoLib Config Bytecode Word256 Machine Opcodes Interp InstrSpec MgLexer MgAst MgCodegen MgCompile MgMachine.

Module Correct.
Import VM Handlers Exec.
Import Compile MgMachine.

(** ** Reference semantics *)

Definition word (z : Z) : Z := z mod 2 ^ 256.
Definition flag (b : bool) : Z := if b then 1 else 0.

(** Division is Euclidean and gives 0 for a zero divisor, the remainder is that
    of the unsigned words, and a product below -2^256 has no value: these are
    the arithmetic of the machine. *)
Definition binary_value (op : TokenType) (a b : Z) : option Z :=
  let x := toSigned256 a in
  let y := toSigned256 b in
  match op with
  | Plus => Some (word (a + b))
  | Minus => Some (word (a - b))
  | Multiply => if decide (- 2 ^ 256 <= x * y) then Some (word (a * b)) else None
  | Divide => Some (if b =? 0 then 0 else word (Z.sgn y * (x / Z.abs y)))
  | Modulo => Some (if b =? 0 then 0 else a mod b)
  | Equal => Some (flag (a =? b))
  | NotEqual => Some (flag (negb (a =? b)))
  | LessThan => Some (flag (x <? y))
  | LessEqual => Some (flag (x <=? y))
  | GreaterThan => Some (flag (y <? x))
  | GreaterEqual => Some (flag (y <=? x))
  | _ => None
  end.

Definition unary_value (op : TokenType) (a : Z) : option Z :=
  match op with
  | Minus => Some (word (- a))
  | Not => Some (flag (a =? 0))
  | _ => None
  end.

(** A context variable that is a word. *)
Definition context_value (κ : BlockchainContext) (name : string) : option Z :=
  o ← context_opcode name;
  f ← context_word o;
  if decide (Word256.is_word (f κ)) then Some (f κ) else None.

(** The value of a numeric expression; [emit] has the value of its argument. *)
Fixpoint eval (κ : BlockchainContext) (ρ : gmap string Z) (e : Expression) : option Z :=
  match e with
  | LiteralExpr v Int _ => literal v
  | IdentifierExpr x _ =>
      match GetBlockchainContextVariable x with
      | Some _ => context_value κ x
      | None => ρ !! x
      end
  | BinaryExpr op l (Some r) _ => a ← eval κ ρ l; b ← eval κ ρ r; binary_value op a b
  | UnaryExpr op (Some r) => a ← eval κ ρ r; unary_value op a
  | CallExpr f [arg] _ => if String.eqb f "emit" then eval κ ρ arg else None
  | _ => None
  end.

Inductive outcome := Normal | Broke | Continued | Returned (v : Z).

(** The statements of a block until one of them does not end normally. *)
Section Sequence.
Context (exec : gmap string Z -> Statement -> option (gmap string Z * outcome)).

Fixpoint exec_all (l : list Statement) (ρ : gmap string Z) : option (gmap string Z * outcome) :=
  match l with
  | [] => Some (ρ, Normal)
  | s :: l =>
      x ← exec ρ s;
      match x.2 with Normal => exec_all l x.1 | o => Some (x.1, o) end
  end.
End Sequence.

(** Statements, with fuel for the depth and the rounds of loops.  Variables belong
    to the function, as they do for the generator. *)
Fixpoint exec (fuel : nat) (κ : BlockchainContext) (ρ : gmap string Z) (s : Statement) : option (gmap string Z * outcome) :=
  match fuel with
  | O => None
  | S f =>
      match s with
      | AssignmentStmt _ (IdentifierExpr x _) (Some e) _ => v ← eval κ ρ e; Some (<[x := v]> ρ, Normal)
      | AssignmentStmt _ _ _ _ => None
      | ReturnStmt e => v ← eval κ ρ e; Some (ρ, Returned v)
      | ExpressionStmt e => v ← eval κ ρ e; Some (ρ, Normal)
      | BreakStmt _ => Some (ρ, Broke)
      | ContinueStmt _ => Some (ρ, Continued)
      | IfStmt c b eb _ =>
          v ← eval κ ρ c;
          if v =? 0 then
            match eb with Some eb => exec_all (exec f κ) (Statements eb) ρ | None => Some (ρ, Normal) end
          else exec_all (exec f κ) (Statements b) ρ
      | WhileStmt c b =>
          v ← eval κ ρ c;
          if v =? 0 then Some (ρ, Normal)
          else
            x ← exec_all (exec f κ) (Statements b) ρ;
            match x.2 with
            | Broke => Some (x.1, Normal)
            | Returned v => Some (x.1, Returned v)
            | _ => exec f κ x.1 s
            end
      end
  end.

(** ** The fragment *)

(** No addition concatenates, and what is printed is not a text. *)
Fixpoint numeric (sc : list variables) (e : Expression) : bool :=
  match e with
  | LiteralExpr _ Int _ | IdentifierExpr _ _ => true
  | BinaryExpr op l (Some r) _ =>
      numeric sc l && numeric sc r && bool_decide (concatenates sc op l r = Some false)
  | UnaryExpr _ (Some r) => numeric sc r
  | CallExpr f [arg] _ => String.eqb f "emit" && numeric sc arg && bool_decide (is_string sc arg = Some false)
  | _ => false
  end.

Definition block_numeric (numeric_stmt : list variables -> Statement -> bool) (sc : list variables) (b : Block) : bool :=
  match b with MkBlock l scope => forallb (numeric_stmt (scope :: sc)) l end.

Fixpoint numeric_stmt (sc : list variables) (s : Statement) : bool :=
  match s with
  | AssignmentStmt _ (IdentifierExpr _ _) (Some e) _ | ReturnStmt e | ExpressionStmt e => numeric sc e
  | AssignmentStmt _ _ _ _ => false
  | BreakStmt _ | ContinueStmt _ => true
  | IfStmt c b eb _ =>
      numeric sc c && block_numeric numeric_stmt sc b
      && match eb with Some eb => block_numeric numeric_stmt sc eb | None => true end
  | WhileStmt c b => numeric sc c && block_numeric numeric_stmt sc b
  end.

(** How many words an expression needs on the stack. *)
Fixpoint depth (e : Expression) : nat :=
  match e with
  | BinaryExpr _ l (Some r) _ => Nat.max (depth l) (S (depth r))
  | UnaryExpr _ (Some r) => Nat.max (depth r) 3
  | CallExpr _ [arg] _ => depth arg
  | _ => 1
  end.

Definition block_depth (stmt_depth : Statement -> nat) (b : Block) : nat :=
  match b with MkBlock l _ => (fix go (l : list Statement) : nat := match l with [] => 0 | s :: l => Nat.max (stmt_depth s) (go l) end) l end%nat.

Fixpoint stmt_depth (s : Statement) : nat :=
  match s with
  | AssignmentStmt _ _ (Some e) _ | ReturnStmt e | ExpressionStmt e => Nat.max (depth e) 2
  | IfStmt c b eb _ =>
      Nat.max (Nat.max (depth c) 2)
        (Nat.max (block_depth stmt_depth b) (match eb with Some eb => block_depth stmt_depth eb | None => 0 end))
  | WhileStmt c b => Nat.max (Nat.max (depth c) 2) (block_depth stmt_depth b)
  | _ => 2
  end%nat.

(** ** Values of operators *)

Lemma word_is_word z : Word256.is_word (word z).
Proof. apply Z.mod_pos_bound. lia. Qed.

Lemma flag_is_word b : Word256.is_word (flag b).
Proof. unfold Word256.is_word, flag. destruct b; lia. Qed.

Lemma b2z_flag b : b2z b = flag b.
Proof. by destruct b. Qed.

(** The machine's function of an operator on words. *)
Definition operator (op : TokenType) : option (Op * bool) :=
  match op with
  | Plus => Some (ADD, false) | Minus => Some (SUB, false) | Multiply => Some (MUL, false)
  | Divide => Some (DIV, false) | Modulo => Some (MOD, false)
  | Equal => Some (EQ, false) | NotEqual => Some (EQ, true)
  | LessThan => Some (LT, false) | GreaterEqual => Some (LT, true)
  | GreaterThan => Some (GT, false) | LessEqual => Some (GT, true)
  | _ => None
  end.

Lemma operator_code_eq op code : operator_code op false = Some code ->
  exists o neg f, operator op = Some (o, neg) /\ binary_function o = Some f
    /\ code = instr o :: if (neg : bool) then [instr ISZERO] else [].
Proof. destruct op; try discriminate; intros [= <-]; repeat eexists. Qed.

Lemma signedDiv_word a b : Word256.is_word a -> Word256.is_word b ->
  signedDiv a b = if b =? 0 then 0 else word (Z.sgn (toSigned256 b) * (toSigned256 a / Z.abs (toSigned256 b))).
Proof.
  intros Ha Hb. pose proof (toSigned256_range a Ha) as Hsa. pose proof (toSigned256_range b Hb) as Hsb.
  assert (toSigned256 b = 0 <-> b = 0) as Hz.
  { rewrite toSigned256_eq. unfold Word256.is_word in Hb. destruct (Z.ltb_spec b (2 ^ 255)); lia. }
  unfold signedDiv. destruct (Z.eqb_spec (Z.sgn (toSigned256 b)) 0) as [E|E], (Z.eqb_spec b 0) as [E'|E']; try done; [lia|lia|].
  assert (toSigned256 b <> 0) as Hnz by lia. pose proof (big_Div_range _ _ Hsa Hsb Hnz) as Hr.
  rewrite toUnsigned256_mod by lia. done.
Qed.

Lemma cmp_ltb a b : (signedCmp a b <? 0) = (toSigned256 a <? toSigned256 b).
Proof. pose proof (signedCmp_lt a b). destruct (Z.ltb_spec (signedCmp a b) 0), (Z.ltb_spec (toSigned256 a) (toSigned256 b)); lia. Qed.

Lemma cmp_gtb a b : (0 <? signedCmp a b) = (toSigned256 b <? toSigned256 a).
Proof. pose proof (signedCmp_gt a b). destruct (Z.ltb_spec 0 (signedCmp a b)), (Z.ltb_spec (toSigned256 b) (toSigned256 a)); lia. Qed.

Lemma flag_zero b : (flag b =? 0) = negb b.
Proof. by destruct b. Qed.

Lemma operator_value op o neg f a b v :
  operator op = Some (o, neg) -> binary_function o = Some f -> binary_value op a b = Some v ->
  Word256.is_word a -> Word256.is_word b ->
  Word256.is_word v /\ v = if (neg : bool) then flag (f a b =? 0) else f a b.
Proof.
  intros Ho Hf Hv Ha Hb.
  destruct op; try discriminate; injection Ho as <- <-; injection Hf as <-; unfold binary_value in Hv; cbv zeta in Hv;
    try (injection Hv as <-); rewrite ?b2z_flag, ?cmp_ltb, ?cmp_gtb, ?flag_zero, <- ?Z.leb_antisym;
    try (split; [apply flag_is_word | done]); try (split; [apply word_is_word | symmetry; by first [apply signedAdd_mod | apply signedSub_mod]]).
  all: try (split; [apply flag_is_word | f_equal; lia]).
  - rewrite signedDiv_word by done. split; [|done]. case_match; [split; lia | apply word_is_word].
  - unfold Word256.is_word in *. unfold big_Mod. rewrite Z.abs_eq by lia.
    destruct (Z.eqb_spec b 0), (Z.eqb_spec (Z.sgn b) 0); try lia; split; try lia; try done.
    pose proof (Z.mod_pos_bound a b). lia.
  - case_decide as Hd; [|done]. injection Hv as <-. split; [apply word_is_word|].
    unfold signedMul. rewrite toUnsigned256_mod by done. unfold word.
    rewrite Zmult_mod, <- (toSigned256_mod a), <- (toSigned256_mod b), <- Zmult_mod. done.
Qed.

(** ** What the code of a statement is like *)

Section Static.
Context (fi st : gmap string Z).
Abbreviation stmts := (stmt_code fi st).

(** Offsets are only added, and every statement has code. *)
Definition static_ok (s : Statement) : Prop :=
  forall sc lo base loop x, stmts sc lo base loop s = Some x -> lo.1 ⊆ (after x).1 /\ code x <> [].

Lemma seq_grows l sc loop : Forall static_ok l -> forall lo base x,
  seq_code stmts sc loop l lo base = Some x -> lo.1 ⊆ (after x).1.
Proof.
  induction 1 as [|s l Hs _ IH]; intros lo base z; cbn.
  - by intros [= <-].
  - intros (x & Hx & (y & Hy & [= <-])%bind_Some)%bind_Some. apply Hs in Hx as [Hx _]. cbn.
    etransitivity; [exact Hx | by eapply IH].
Qed.

Lemma block_grows b sc lo base loop x : all_block static_ok b ->
  block_code stmts sc lo base loop b = Some x -> lo.1 ⊆ (after x).1.
Proof. destruct b. intros Hb Hx. by eapply seq_grows. Qed.

Lemma store_grows v lo : lo.1 ⊆ (after (store_code v lo)).1.
Proof. unfold store_code. destruct (lo.1 !! v) eqn:E; [done|]. cbn. by apply insert_subseteq. Qed.

Lemma app_not_nil {A} (l : list A) x r : l ++ x :: r <> [].
Proof. by destruct l. Qed.

Lemma stmt_static s : static_ok s.
Proof.
  induction s as [ty l r t|e|c b eb t IHb IHeb|c b IHb|t|t|e] using Statement_ind'; intros sc lo base loop z H; cbn in H.
  - destruct r as [r|]; [|done]. apply bind_Some in H as (y & _ & H).
    destruct l; try (apply bind_Some in H as (v & _ & [= <-]); cbn; split;
      [apply store_grows | unfold store_code; case_match; apply app_not_nil]).
    repeat case_match; try done; apply bind_Some in H as (w & _ & [= <-]); cbn; split; try done;
      rewrite app_assoc; apply app_not_nil.
  - apply bind_Some in H as (x & _ & [= <-]). split; [done | apply app_not_nil].
  - apply bind_Some in H as (cc & _ & (x & Hx & H)%bind_Some). apply block_grows in Hx; [|done]. destruct eb as [eb|].
    + apply bind_Some in H as (y & Hy & [= <-]). apply block_grows in Hy; [|by apply IHeb].
      cbn. split; [by etransitivity|]. unfold test_code. rewrite <- app_assoc. apply app_not_nil.
    + injection H as <-. cbn. split; [done|]. unfold test_code. rewrite <- app_assoc. apply app_not_nil.
  - apply bind_Some in H as (cc & _ & (x & Hx & (y & Hy & [= <-])%bind_Some)%bind_Some).
    apply block_grows in Hy; [|done]. cbn. split; [done|]. unfold test_code. rewrite <- app_assoc. apply app_not_nil.
  - by apply bind_Some in H as (t' & _ & [= <-]).
  - by apply bind_Some in H as (t' & _ & [= <-]).
  - apply bind_Some in H as (x & _ & [= <-]). split; [done | apply app_not_nil].
Qed.

End Static.

(** ** Running expressions *)

Section Run.
Context (m : machine) {Hm : machine_ok m}.
(** The offsets of the locals at the end of the function. *)
Context (LO : gmap string Z) (NL : Z).
Context (HLO : forall x o, LO !! x = Some o -> 0 <= o < NL) (HNL : NL < 2 ^ 61).
Context (Hinj : forall x y o, LO !! x = Some o -> LO !! y = Some o -> x = y).

Abbreviation κ := (m_context m).
Abbreviation fp := (m_frame m).
Abbreviation goes := (goes m).
Abbreviation code_at := (code_at m).
Abbreviation room := (room m).
Abbreviation slot := (slot m).

(** What the gas of a straight run is. *)
Definition runs (pc : nat) (st : list Z) (l : list Instruction) (st' : list Z) : Prop :=
  exists c, goes pc st c (pc + length l) st'.

Lemma runs_nil pc st : runs pc st [] st.
Proof. exists 0. rewrite Nat.add_0_r. apply goes_refl. Qed.

Lemma runs_app pc st a st1 b st2 : runs pc st a st1 -> runs (pc + length a) st1 b st2 -> runs pc st (a ++ b) st2.
Proof.
  intros [c1 H1] [c2 H2]. exists (c1 + c2). rewrite length_app, Nat.add_assoc. eapply goes_trans; eassumption.
Qed.

Lemma runs_one pc st i c st' : goes pc st c (S pc) st' -> runs pc st [i] st'.
Proof. intros H. exists c. by rewrite Nat.add_1_r. Qed.

(** The variables are words in their slots. *)
Record inv (ρ : gmap string Z) (st : list Z) : Prop := {
  inv_slots : forall x o v, LO !! x = Some o -> ρ !! x = Some v -> st !! slot o = Some v;
  inv_words : forall x v, ρ !! x = Some v -> Word256.is_word v;
  inv_len : len st <= fp + NL
}.

(** Words above the locals. *)
Definition has_locals (ρ : gmap string Z) (st : list Z) : Prop :=
  (forall x o v, LO !! x = Some o -> ρ !! x = Some v -> st !! slot o = Some v)
  /\ forall x v, ρ !! x = Some v -> Word256.is_word v.

Lemma has_locals_push ρ st l : has_locals ρ st -> has_locals ρ (st ++ l).
Proof.
  intros [Hs Hw]. split; [|done]. intros x o v Ho Hv. apply lookup_app_l_Some. by eapply Hs.
Qed.

Definition expr_runs (ρ : gmap string Z) (e : Expression) : Prop :=
  forall E ce v, locals E ⊆ LO -> expr_code E e = Some ce -> numeric (scopes E) e = true -> eval κ ρ e = Some v ->
    forall st, has_locals ρ st -> room (depth e) st ->
      Word256.is_word v /\ forall pc, code_at pc ce -> runs pc st ce (st ++ [v]).

Lemma snoc_snoc {A} (l : list A) a b : (l ++ [a]) ++ [b] = l ++ [a; b].
Proof. by rewrite <- app_assoc. Qed.

Lemma operator_runs op zs a b v st pc :
  operator_code op false = Some zs -> binary_value op a b = Some v ->
  Word256.is_word a -> Word256.is_word b -> room 2 st -> code_at pc zs ->
  Word256.is_word v /\ runs pc (st ++ [a; b]) zs (st ++ [v]).
Proof.
  intros Hz Hv Ha Hb Hr Hc. apply operator_code_eq in Hz as (o & neg & f & Ho & Hf & ->).
  destruct (operator_value _ _ _ _ _ _ _ Ho Hf Hv Ha Hb) as [Hw ->]. split; [done|].
  apply (code_at_app m pc [_]) in Hc as [Hc1 Hc2]. apply (runs_app _ _ [_] (st ++ [f a b])).
  - eapply runs_one. by eapply (goes_binary m).
  - destruct neg; [|apply runs_nil]. rewrite <- b2z_flag. eapply runs_one. eapply (goes_ISZERO m); [done|].
    eapply room_le; [|exact Hr]. lia.
Qed.

Lemma depth_pos e : (1 <= depth e)%nat.
Proof. induction e as [? l [] ? IHl _| ? [] _|v [|? []] ? IH| | | | | |] using Expression_ind'; cbn; try lia. by apply Forall_inv in IH. Qed.

Lemma expr_runs_binary ρ op l r t : expr_runs ρ l -> (forall e, r = Some e -> expr_runs ρ e) -> expr_runs ρ (BinaryExpr op l r t).
Proof.
  intros IHl IHr E ce v HE Hce Hn Hv st Hl Hr. destruct r as [r|]; [|done]. cbn in Hce, Hn, Hv, Hr.
  apply andb_true_iff in Hn as [[Hnl Hnr]%andb_true_iff Hs%bool_decide_eq_true].
  apply bind_Some in Hce as (cl & Hcl & (cr & Hcr & (str & Hstr & (zs & Hzs & [= <-])%bind_Some)%bind_Some)%bind_Some).
  rewrite Hs in Hstr. injection Hstr as <-.
  apply bind_Some in Hv as (a & Ha & (b & Hb & Hv)%bind_Some).
  destruct (IHl _ _ _ HE Hcl Hnl Ha st Hl) as [Hwa Hra]; [eapply room_le; [|exact Hr]; lia|].
  destruct (IHr r eq_refl _ _ _ HE Hcr Hnr Hb (st ++ [a])) as [Hwb Hrb];
    [by apply has_locals_push | apply room_push; eapply room_le; [|exact Hr]; lia|].
  assert (room 2 st) as Hr2 by (eapply room_le; [|exact Hr]; pose proof (depth_pos r); lia).
  split.
  - apply operator_code_eq in Hzs as (o & neg & f & Ho & Hf & _). by eapply operator_value.
  - intros pc Hc. apply code_at_app in Hc as [Hc1 Hc]. apply code_at_app in Hc as [Hc2 Hc3].
    eapply runs_app; [by apply Hra|]. eapply runs_app; [by apply Hrb|].
    rewrite snoc_snoc. by eapply operator_runs.
Qed.

Lemma runs_push pc st i z : code_at pc [i] -> pushes i z -> room 1 st -> runs pc st [i] (st ++ [z]).
Proof. intros Hc Hp Hr. eapply runs_one. by eapply (goes_push m). Qed.

Lemma runs_push_int pc st z : 0 <= z -> code_at pc [push (OpInt z)] -> room 1 st -> runs pc st [push (OpInt z)] (st ++ [z]).
Proof. intros Hz Hc Hr. apply runs_push; [done | rewrite push_OpInt by done; by apply push_at_pushes | done]. Qed.

Lemma unary_runs op zs a v st pc :
  unary_code op = Some zs -> unary_value op a = Some v -> Word256.is_word a -> room 3 st -> code_at pc zs ->
  Word256.is_word v /\ runs pc (st ++ [a]) zs (st ++ [v]).
Proof.
  intros Hz Hv Ha Hr Hc. destruct op; try discriminate; injection Hz as <-; injection Hv as <-.
  - split; [apply flag_is_word|]. rewrite <- b2z_flag. eapply runs_one. eapply (goes_ISZERO m); [done|].
    eapply room_le; [|exact Hr]. lia.
  - split; [apply word_is_word|].
    apply (code_at_app m pc [_]) in Hc as [Hc1 Hc]. apply (code_at_app m _ [_]) in Hc as [Hc2 Hc].
    apply (code_at_app m _ [_]) in Hc as [Hc3 Hc4].
    eapply (runs_app _ _ [_]); [apply runs_push_int; [done..|apply room_push; eapply room_le; [|exact Hr]; lia]|].
    eapply (runs_app _ _ [_]); [apply runs_push_int; [done..|do 2 apply room_push; exact Hr]|].
    rewrite !snoc_snoc. rewrite <- app_assoc. cbn [app].
    eapply (runs_app _ _ [_]); [eapply runs_one; eapply (goes_SWAP m); [done|eapply room_le; [|exact Hr]; lia]|].
    replace (word (- a)) with (signedSub 0 a).
    + eapply runs_one. eapply (goes_binary m SUB); [done|done|eapply room_le; [|exact Hr]; lia].
    + by apply signedSub_mod.
Qed.

Lemma expr_runs_unary ρ op r : (forall e, r = Some e -> expr_runs ρ e) -> expr_runs ρ (UnaryExpr op r).
Proof.
  intros IHr E ce v HE Hce Hn Hv st Hl Hr. destruct r as [r|]; [|done]. cbn in Hce, Hn, Hv, Hr.
  apply bind_Some in Hce as (cr & Hcr & (zs & Hzs & [= <-])%bind_Some). apply bind_Some in Hv as (a & Ha & Hv).
  destruct (IHr r eq_refl _ _ _ HE Hcr Hn Ha st Hl) as [Hwa Hra]; [eapply room_le; [|exact Hr]; lia|].
  assert (room 3 st) as Hr3 by (eapply room_le; [|exact Hr]; lia).
  split.
  - destruct op; try discriminate; injection Hv as <-; [apply flag_is_word | apply word_is_word].
  - intros pc Hc. apply code_at_app in Hc as [Hc1 Hc]. eapply runs_app; [by apply Hra|]. by eapply unary_runs.
Qed.

Lemma expr_runs_emit ρ f args t : Forall (expr_runs ρ) args -> expr_runs ρ (CallExpr f args t).
Proof.
  intros IH E ce v HE Hce Hn Hv st Hl Hr. cbn in Hce, Hn, Hv, Hr. destruct args as [|arg []]; try discriminate.
  apply Forall_inv in IH. destruct (String.eqb_spec f "emit") as [->|]; [|done]. cbn in Hn.
  apply andb_true_iff in Hn as [Hn Hs%bool_decide_eq_true]. unfold call_code in Hce. cbn in Hce.
  rewrite Hs in Hce. apply bind_Some in Hce as (x & Hx & [= <-]).
  destruct (IH _ _ _ HE Hx Hn Hv st Hl Hr) as [Hw Hrun]. split; [done|].
  intros pc Hc. apply code_at_app in Hc as [Hc1 Hc2]. eapply runs_app; [by apply Hrun|].
  eapply runs_one. by eapply (goes_EMIT m).
Qed.

Lemma expr_runs_identifier ρ x t : expr_runs ρ (IdentifierExpr x t).
Proof.
  intros E ce v HE Hce _ Hv st [Hl Hw] Hr. cbn in Hce, Hv, Hr. destruct (GetBlockchainContextVariable x).
  - unfold context_value in Hv. apply bind_Some in Hce as (o & Ho & [= <-]). rewrite Ho in Hv.
    apply bind_Some in Hv as (o' & [= <-] & (f & Hf & Hv)%bind_Some). case_decide; [|done]. injection Hv as <-. split; [done|].
    intros pc Hc. eapply runs_one. by eapply (goes_context m).
  - apply bind_Some in Hce as (o & Ho & [= <-]). split; [by eapply Hw|]. intros pc Hc.
    pose proof (lookup_weaken _ _ _ _ Ho HE) as HoL. pose proof (HLO _ _ HoL).
    apply (code_at_app m pc [_]) in Hc as [Hc1 Hc2].
    eapply (runs_app _ _ [_]); [apply runs_push_int; [lia|done..]|].
    eapply runs_one. eapply (goes_LOAD_LOCAL m); [done | lia | by eapply Hl | done].
Qed.

(** The code of a numeric expression pushes its value. *)
Lemma expr_computes ρ e : expr_runs ρ e.
Proof.
  induction e as [op l r t IHl IHr|op r IHr|v args t IH|v t|v ty t|args t|t|l r t IHl IHr|l s e t IHl IHs IHe]
    using Expression_ind'.
  - by apply expr_runs_binary.
  - by apply expr_runs_unary.
  - by apply expr_runs_emit.
  - apply expr_runs_identifier.
  - intros E ce z HE Hce Hn Hv st Hl Hr. destruct ty; try discriminate. cbn in Hce, Hv. injection Hce as <-.
    apply literal_pushes in Hv as [Hp Hw]. split; [done|]. intros pc Hc. by apply runs_push.
  - intros E ce z HE Hce Hn. done.
  - intros E ce z HE Hce Hn. done.
  - intros E ce z HE Hce Hn. done.
  - intros E ce z HE Hce Hn. done.
Qed.

(** ** Running statements *)

Lemma lookup_expand st i n : 0 <= n -> (i < length st)%nat -> expand st n !! i = st !! i.
Proof. intros Hn Hi. unfold expand. by apply lookup_app_l. Qed.

Lemma inv_set ρ st x o v : inv ρ st -> LO !! x = Some o -> Word256.is_word v -> inv (<[x := v]> ρ) (set_local m st o v).
Proof.
  intros [Hs Hw Hl] Hx Hv. pose proof (HLO _ _ Hx) as Ho. pose proof (ok_frame (m := m)) as Hfp.
  assert (slot o < length (expand st (fp + o)))%nat as Hlen.
  { unfold expand, MgMachine.slot. rewrite length_app, length_replicate. unfold len. lia. }
  split.
  - intros y o' w Hy Hw'. pose proof (HLO _ _ Hy) as Ho'. unfold set_local. destruct (decide (x = y)) as [->|Hne].
    + rewrite Hx in Hy. injection Hy as <-. rewrite lookup_insert_eq in Hw'. injection Hw' as <-.
      by rewrite list_lookup_insert_eq.
    + rewrite lookup_insert_ne in Hw' by done. assert (o <> o') as Hoo by (intros ->; by apply Hne, (Hinj x y o')).
      rewrite list_lookup_insert_ne by (unfold MgMachine.slot; lia). pose proof (Hs _ _ _ Hy Hw') as Hst.
      rewrite lookup_expand; [done | lia | by eapply lookup_lt_Some].
  - intros y w Hy. apply lookup_insert_Some in Hy as [[_ <-]|[_ Hy]]; [done | by eapply Hw].
  - unfold set_local, len, expand in *. rewrite length_insert, length_app, length_replicate. unfold len in *. lia.
Qed.

Lemma inv_locals ρ st : inv ρ st -> has_locals ρ st.
Proof. intros []. by split. Qed.

(** [d] words fit above the locals. *)
Context (D : nat) (HD : fp + NL + Z.of_nat D <= m_limit m).

Lemma inv_room ρ st n : inv ρ st -> (n <= D)%nat -> room n st.
Proof. intros [_ _ Hl] Hn. unfold MgMachine.room. lia. Qed.

Definition lands (pc : nat) : Prop := Z.of_nat pc < len (m_code m).

Lemma code_at_lands pc l : code_at pc l -> l <> [] -> lands pc.
Proof. destruct l as [|i l]; [done|]. intros H _. by apply code_at_lookup in H as [_ H]. Qed.

(** Where a statement at [base] ends: at the address [e], at the targets of the
    loop around it, or at a return with the value on top of the stack. *)
Definition arrives (base : nat) (st : list Z) (loop : option (Z * Z)) (e : nat) (st' : list Z) (o : outcome) : Prop :=
  match o with
  | Normal => exists c, goes base st c e st'
  | Broke => forall k b, loop = Some (k, Z.of_nat b) -> lands b -> exists c, goes base st c b st'
  | Continued => forall k b, loop = Some (Z.of_nat k, b) -> lands k -> exists c, goes base st c k st'
  | Returned v => exists pc c, code_at pc [instr RETURN] /\ goes base st c pc (st' ++ [v])
  end.

Lemma arrives_after base st c pc st1 loop e st' o :
  goes base st c pc st1 -> arrives pc st1 loop e st' o -> arrives base st loop e st' o.
Proof.
  intros H. destruct o; cbn.
  - intros [c' H']. eexists. by eapply goes_trans.
  - intros H' k b Hl Hb. destruct (H' k b Hl Hb) as [c' Hc]. eexists. by eapply goes_trans.
  - intros H' k b Hl Hb. destruct (H' k b Hl Hb) as [c' Hc]. eexists. by eapply goes_trans.
  - intros (p & c' & Hp & H'). do 2 eexists. split; [done|]. by eapply goes_trans.
Qed.

Lemma arrives_runs base st l st1 loop e st' o :
  runs base st l st1 -> arrives (base + length l) st1 loop e st' o -> arrives base st loop e st' o.
Proof. intros [c H]. by eapply arrives_after. Qed.

(** Statements with a jump to their end, which has to be in the code. *)
Definition jumpy (s : Statement) : bool :=
  match s with IfStmt _ _ _ _ | WhileStmt _ _ => true | _ => false end.

Section Simulation.
Context (fi strs : gmap string Z).

Definition sim (f : nat) (s : Statement) : Prop :=
  forall ρ ρ' o sc lo base loop x st,
    exec f κ ρ s = Some (ρ', o) -> stmt_code fi strs sc lo base loop s = Some x -> numeric_stmt sc s = true ->
    (after x).1 ⊆ LO -> (stmt_depth s <= D)%nat -> code_at base (code x) -> inv ρ st ->
    (jumpy s = true -> lands (base + length (code x))) ->
    exists st', inv ρ' st' /\ arrives base st loop (base + length (code x)) st' o.

Definition sim_list (f : nat) (l : list Statement) : Prop :=
  forall ρ ρ' o sc lo base loop x st,
    exec_all (exec f κ) l ρ = Some (ρ', o) -> seq_code (stmt_code fi strs) sc loop l lo base = Some x ->
    forallb (numeric_stmt sc) l = true ->
    (after x).1 ⊆ LO -> Forall (fun s => (stmt_depth s <= D)%nat) l -> code_at base (code x) -> inv ρ st ->
    (forall s, last l = Some s -> jumpy s = true -> lands (base + length (code x))) ->
    exists st', inv ρ' st' /\ arrives base st loop (base + length (code x)) st' o.

Lemma sim_seq f l : (forall s, sim f s) -> sim_list f l.
Proof.
  intros Hs. induction l as [|s l IH]; intros ρ ρ' o sc lo base loop z st He Hz Hn HA Hd Hc Hi Hl.
  - injection He as <- <-. injection Hz as <-. exists st. split; [done|]. exists 0. cbn. rewrite Nat.add_0_r. apply goes_refl.
  - cbn in He, Hz, Hn. apply andb_true_iff in Hn as [Hns Hnl]. inversion_clear Hd as [|? ? Hds Hdl].
    apply bind_Some in Hz as (x & Hx & (y & Hy & [= <-])%bind_Some). cbn in *. apply code_at_app in Hc as [Hc1 Hc2].
    apply bind_Some in He as ([ρ1 o1] & He1 & He2). cbn in He2. rewrite length_app, Nat.add_assoc in *.
    assert ((after x).1 ⊆ LO) as HAx.
    { etransitivity; [|exact HA]. eapply seq_grows; [|exact Hy]. apply List.Forall_forall. intros. apply stmt_static. }
    assert (jumpy s = true -> lands (base + length (code x))) as Hj.
    { intros Hj. destruct l as [|s' l].
      - injection Hy as <-. cbn in Hl. rewrite Nat.add_0_r in Hl. by apply (Hl s).
      - cbn in Hy. apply bind_Some in Hy as (x' & Hx' & (y' & _ & [= <-])%bind_Some).
        eapply code_at_lands; [exact Hc2|]. cbn. apply stmt_static in Hx' as [_ Hne]. by destruct (code x'). }
    destruct (Hs _ _ _ _ _ _ _ _ _ _ He1 Hx Hns HAx Hds Hc1 Hi Hj) as (st1 & Hi1 & Ha1).
    destruct o1.
    + destruct Ha1 as [c Ha1]. destruct (IH _ _ _ _ _ _ _ _ _ He2 Hy Hnl HA Hdl Hc2 Hi1) as (st2 & Hi2 & Ha2).
      { intros s' Hs' Hj'. apply (Hl s'); [|done]. by destruct l. }
      exists st2. split; [done|]. by eapply arrives_after.
    + injection He2 as <- <-. by exists st1.
    + injection He2 as <- <-. by exists st1.
    + injection He2 as <- <-. by exists st1.
Qed.

Lemma exp_runs ρ st sc lo e ce v pc :
  exp_code fi strs sc lo e = Some ce -> lo.1 ⊆ LO -> numeric sc e = true -> eval κ ρ e = Some v ->
  inv ρ st -> (depth e <= D)%nat -> code_at pc ce -> Word256.is_word v /\ runs pc st ce (st ++ [v]).
Proof.
  intros Hce Hlo Hn Hv Hi Hd Hc.
  destruct (expr_computes ρ e (MkEnv fi strs sc lo.1) _ _ Hlo Hce Hn Hv st) as [Hw Hr];
    [by apply inv_locals | by eapply inv_room |]. split; [done | by apply Hr].
Qed.

(** The test falls into the body, or jumps over it. *)
Lemma test_runs ρ st sc lo e ce v pc t :
  exp_code fi strs sc lo e = Some ce -> lo.1 ⊆ LO -> numeric sc e = true -> eval κ ρ e = Some v ->
  inv ρ st -> (Nat.max (depth e) 2 <= D)%nat -> code_at pc (test_code ce (Z.of_nat t)) -> lands t ->
  exists c, goes pc st c (if v =? 0 then t else (pc + length ce + 3)%nat) st.
Proof.
  intros Hce Hlo Hn Hv Hi Hd Hc Ht. apply code_at_app in Hc as [Hc1 Hc].
  apply (code_at_app m _ [_]) in Hc as [Hc2 Hc]. apply (code_at_app m _ [_]) in Hc as [Hc3 Hc4].
  destruct (exp_runs _ _ _ _ _ _ _ _ Hce Hlo Hn Hv Hi ltac:(lia) Hc1) as [Hw [c1 H1]].
  assert (room 2 st) as Hr by (eapply inv_room; [done|lia]).
  destruct (runs_push _ (st ++ [b2z (v =? 0)]) _ _ Hc3 (push_at_pushes (Z.of_nat t) ltac:(lia))) as [c3 H3];
    [by apply room_push|].
  cbn [length] in H3. rewrite !Nat.add_1_r in H3.
  eexists. eapply goes_trans; [exact H1|]. eapply goes_trans; [eapply (goes_ISZERO m); [done|eapply room_le; [|exact Hr]; lia]|].
  eapply goes_trans; [exact H3|]. rewrite snoc_snoc.
  replace (if v =? 0 then t else (pc + length ce + 3)%nat) with
    (if b2z (v =? 0) =? 1 then t else S (S (S (pc + length ce)))) by (destruct (v =? 0); cbn; lia).
  eapply (goes_JUMPC m); [|done]. cbn [length] in Hc4. by rewrite !Nat.add_1_r in Hc4.
Qed.

Lemma jump_runs pc st t : code_at pc [push_at (Z.of_nat t); instr JUMP] -> lands t -> room 1 st ->
  exists c, goes pc st c t st.
Proof.
  intros Hc Ht Hr. apply (code_at_app m pc [_]) in Hc as [Hc1 Hc2]. cbn [length] in Hc2. rewrite Nat.add_1_r in Hc2.
  eexists. eapply goes_trans; [eapply (goes_push m); [done|by apply push_at_pushes; lia|done]|].
  by eapply (goes_JUMP m).
Qed.

Lemma store_runs ρ st x v o lo pc :
  inv ρ st -> Word256.is_word v -> (after (store_code x lo)).1 ⊆ LO -> (2 <= D)%nat ->
  (after (store_code x lo)).1 !! x = Some o ->
  code_at pc (code (store_code x lo)) -> runs pc (st ++ [v]) (code (store_code x lo)) (set_local m st o v).
Proof.
  intros Hi Hw HA HD2 Ho Hc. pose proof (lookup_weaken _ _ _ _ Ho HA) as HoL. pose proof (HLO _ _ HoL).
  assert (code (store_code x lo) = [push (OpInt o); instr STORE_LOCAL]) as Hcode.
  { unfold store_code in *. destruct (lo.1 !! x) eqn:E; cbn in *; [|rewrite lookup_insert_eq in Ho]; congruence. }
  rewrite Hcode in *. apply (code_at_app m pc [_]) in Hc as [Hc1 Hc2].
  eapply (runs_app _ _ [_]); [apply runs_push_int; [lia|done|apply room_push; by eapply inv_room]|].
  rewrite snoc_snoc. eapply runs_one. eapply (goes_STORE_LOCAL m); [done|lia].
Qed.

Lemma block_depth_all b : (block_depth stmt_depth b <= D)%nat -> Forall (fun s => (stmt_depth s <= D)%nat) (Statements b).
Proof. destruct b as [l sc]. cbn. induction l as [|s l IH]; intros H; constructor; [|apply IH]; lia. Qed.

Definition sim_block (f : nat) (b : Block) : Prop :=
  forall ρ ρ' o sc lo base loop x st,
    exec_all (exec f κ) (Statements b) ρ = Some (ρ', o) -> block_code (stmt_code fi strs) sc lo base loop b = Some x ->
    block_numeric numeric_stmt sc b = true ->
    (after x).1 ⊆ LO -> (block_depth stmt_depth b <= D)%nat -> code_at base (code x) -> inv ρ st ->
    lands (base + length (code x)) ->
    exists st', inv ρ' st' /\ arrives base st loop (base + length (code x)) st' o.

Lemma sim_in_block f b : (forall s, sim f s) -> sim_block f b.
Proof.
  intros Hs ρ ρ' o sc lo base loop x st He Hx Hn HA Hd Hc Hi Hl. destruct b as [l scope].
  eapply (sim_seq f l Hs); try done. by apply (block_depth_all (MkBlock l scope)).
Qed.

Lemma block_after sc lo base loop b x :
  block_code (stmt_code fi strs) sc lo base loop b = Some x -> (after x).1 ⊆ LO -> lo.1 ⊆ LO.
Proof.
  intros Hx HA. etransitivity; [|exact HA]. eapply block_grows; [|exact Hx].
  apply List.Forall_forall. intros. apply stmt_static.
Qed.

Lemma sim_assign f ty l r t : sim (S f) (AssignmentStmt ty l r t).
Proof.
  intros ρ ρ' o sc lo base loop z st He Hz Hn HA Hd Hc Hi _. cbn in He, Hz, Hn, Hd.
  destruct l as [| | |x tx| | | | |]; try done. destruct r as [e|]; [|done].
  apply bind_Some in He as (v & Hv & [= <- <-]). apply bind_Some in Hz as (cx & Hcx & (y & [= <-] & [= <-])%bind_Some).
  assert (lo.1 ⊆ LO) as Hlo by (etransitivity; [apply store_grows | exact HA]).
  cbn in Hc, HA |- *. apply code_at_app in Hc as [Hc1 Hc2].
  destruct (exp_runs _ _ _ _ _ _ _ _ Hcx Hlo Hn Hv Hi ltac:(lia) Hc1) as [Hw Hr].
  assert (exists o, (after (store_code x lo)).1 !! x = Some o) as [o Ho].
  { unfold store_code. destruct (lo.1 !! x) eqn:E; cbn; [by eauto|]. rewrite lookup_insert_eq. eauto. }
  exists (set_local m st o v). split; [apply inv_set; [done| |done]; by eapply lookup_weaken|].
  eapply runs_app; [exact Hr|]. eapply store_runs; try done. lia.
Qed.

Lemma sim_if f c b eb t : (forall s, sim f s) -> sim (S f) (IfStmt c b eb t).
Proof.
  intros IH ρ ρ' o sc lo base loop z st He Hz Hn HA Hd Hc Hi Hl. cbn in He, Hz, Hn, Hd. specialize (Hl eq_refl).
  apply andb_true_iff in Hn as [[Hnc Hnb]%andb_true_iff Hne].
  apply bind_Some in He as (v & Hv & He). apply bind_Some in Hz as (cc & Hcc & (x & Hx & Hz)%bind_Some).
  destruct eb as [eb|].
  - apply bind_Some in Hz as (y & Hy & [= <-]). cbn in Hc, HA, Hl |- *.
    set (els := (base + length cc + 3 + length (code x) + 2)%nat) in *.
    assert (base + length (test_code cc (Z.of_nat els) ++ code x ++ push_at (Z.of_nat (els + length (code y))) :: instr JUMP :: code y)
            = els + length (code y))%nat as Hend by (unfold els; lengths).
    rewrite Hend in *. apply code_at_app in Hc as [Hc1 Hc]. apply code_at_app in Hc as [Hc2 Hc].
    apply (code_at_app m _ [_; _]) in Hc as [Hc3 Hc4]. rewrite length_test, Nat.add_assoc in *.
    cbn [length] in Hc4. fold els in Hc4.
    assert (lands els) as Hels.
    { unfold lands in *. lia. }
    pose proof (block_after _ _ _ _ _ _ Hy HA) as HAx.
    destruct (test_runs _ _ _ _ _ _ _ _ _ Hcc (block_after _ _ _ _ _ _ Hx HAx) Hnc Hv Hi ltac:(lia) Hc1 Hels) as [c1 H1].
    destruct (v =? 0).
    + destruct (sim_in_block f eb IH _ _ _ _ _ _ _ _ _ He Hy Hne HA ltac:(lia) Hc4 Hi Hl) as (st' & Hi' & Ha).
      exists st'. split; [done|]. by eapply arrives_after.
    + destruct (sim_in_block f b IH _ _ _ _ _ _ _ _ _ He Hx Hnb HAx ltac:(lia) Hc2 Hi) as (st' & Hi' & Ha).
      { by eapply code_at_lands; [exact Hc3|]. }
      exists st'. split; [done|]. eapply arrives_after; [exact H1|]. destruct o; try done.
      destruct Ha as [c2 H2]. destruct (jump_runs _ st' _ Hc3 Hl) as [c3 H3]; [eapply inv_room; [done|lia]|].
      eexists. by eapply goes_trans.
  - injection Hz as <-. cbn in Hc, HA, Hl |- *. set (e := (base + length cc + 3 + length (code x))%nat) in *.
    assert (base + length (test_code cc (Z.of_nat e) ++ code x) = e)%nat as Hend by (unfold e; lengths).
    rewrite Hend in *. apply code_at_app in Hc as [Hc1 Hc2]. rewrite length_test, Nat.add_assoc in *.
    destruct (test_runs _ _ _ _ _ _ _ _ _ Hcc (block_after _ _ _ _ _ _ Hx HA) Hnc Hv Hi ltac:(lia) Hc1 Hl) as [c1 H1].
    destruct (v =? 0).
    + injection He as <- <-. exists st. split; [done|]. by exists c1.
    + destruct (sim_in_block f b IH _ _ _ _ _ _ _ _ _ He Hx Hnb HA ltac:(lia) Hc2 Hi Hl) as (st' & Hi' & Ha).
      exists st'. split; [done|]. by eapply arrives_after.
Qed.

Lemma sim_while f c b : (forall s, sim f s) -> sim (S f) (WhileStmt c b).
Proof.
  intros IH ρ ρ' o sc lo base loop z st He Hz Hn HA Hd Hc Hi Hl. pose proof Hz as Hz0. pose proof Hn as Hn0.
  pose proof Hd as Hd0. cbn in He, Hz, Hn, Hd. specialize (Hl eq_refl).
  apply andb_true_iff in Hn as [Hnc Hnb]. apply bind_Some in He as (v & Hv & He).
  apply bind_Some in Hz as (cc & Hcc & (x0 & Hx0 & (x & Hx & [= <-])%bind_Some)%bind_Some).
  assert (length (code x0) = length (code x)) as Hsame.
  { destruct (block_breaks _ _ b _ _ _ _ _ _ (proj2 (List.Forall_forall _ _) (fun s _ => stmt_breaks _ _ s)) Hx0) as [_ Hb].
    rewrite Hb in Hx. injection Hx as <-. cbn. by rewrite length_patch_list. }
  set (e := (base + length cc + 3 + length (code x0) + 2)%nat) in *.
  pose proof Hc as Hc0. pose proof Hl as Hl0. pose proof HA as HA0. cbn in Hc, HA, Hl |- *.
  assert (base + length (test_code cc (Z.of_nat e) ++ code x ++ [push (OpInt (Z.of_nat base)); instr JUMP]) = e)%nat as Hend
    by (unfold e; rewrite Hsame; lengths).
  rewrite Hend in *. apply code_at_app in Hc as [Hc1 Hc]. apply code_at_app in Hc as [Hc2 Hc3].
  rewrite length_test, Nat.add_assoc in *. rewrite push_OpInt in Hc3 by lia.
  destruct (test_runs _ _ _ _ _ _ _ _ _ Hcc (block_after _ _ _ _ _ _ Hx HA) Hnc Hv Hi ltac:(lia) Hc1 Hl) as [c1 H1].
  destruct (v =? 0).
  { injection He as <- <-. exists st. split; [done|]. by exists c1. }
  apply bind_Some in He as ([ρ1 o1] & He1 & He2). cbn in He2.
  destruct (sim_in_block f b IH _ _ _ _ _ _ _ _ _ He1 Hx Hnb HA ltac:(lia) Hc2 Hi) as (st1 & Hi1 & Ha).
  { by eapply code_at_lands. }
  assert (lands base) as Hbase by (unfold lands in *; lia).
  assert (forall cost, goes base st cost base st1 -> exec f κ ρ1 (WhileStmt c b) = Some (ρ', o) ->
    exists st', inv ρ' st' /\ arrives base st loop e st' o) as Hagain.
  { intros cost Hg Hex. destruct (IH _ _ _ _ _ _ _ _ _ _ Hex Hz0 Hn0 HA0 Hd0 Hc0 Hi1) as (st2 & Hi2 & Ha2).
    - intros _. cbn [code]. by rewrite Hend.
    - exists st2. split; [done|]. cbn [code] in Ha2. rewrite Hend in Ha2. by eapply arrives_after. }
  destruct o1.
  - destruct Ha as [c2 H2]. destruct (jump_runs _ st1 _ Hc3 Hbase) as [c3 H3]; [eapply inv_room; [done|lia]|].
    eapply Hagain; [|done]. eapply goes_trans; [exact H1|]. by eapply goes_trans.
  - injection He2 as <- <-. destruct (Ha _ _ eq_refl Hl) as [c2 H2]. exists st1. split; [done|]. eexists. by eapply goes_trans.
  - destruct (Ha _ _ eq_refl Hbase) as [c2 H2]. eapply Hagain; [|done]. by eapply goes_trans.
  - injection He2 as <- <-. exists st1. split; [done|]. eapply arrives_after; [exact H1|exact Ha].
Qed.

(** Every statement's code ends as the statement does. *)
Lemma sim_all f s : sim f s.
Proof.
  revert s. induction f as [|f IH]; [by intros s ?|]. intros s. destruct s.
  - apply sim_assign.
  - intros ρ ρ' o sc lo base loop z st He Hz Hn HA Hd Hc Hi _. cbn in He, Hz, Hn, Hd.
    apply bind_Some in He as (v & Hv & [= <- <-]). apply bind_Some in Hz as (cx & Hcx & [= <-]).
    cbn in Hc, HA. apply code_at_app in Hc as [Hc1 Hc2].
    destruct (exp_runs _ _ _ _ _ _ _ _ Hcx HA Hn Hv Hi ltac:(lia) Hc1) as [Hw [c Hr]].
    exists st. split; [done|]. by exists (base + length cx)%nat, c.
  - by apply sim_if.
  - by apply sim_while.
  - intros ρ ρ' o sc lo base loop z st [= <- <-] Hz _ _ Hd Hc Hi _. cbn in Hz, Hd.
    apply bind_Some in Hz as ([k' b'] & -> & [= <-]). cbn in Hc. exists st. split; [done|].
    intros k b [= <- ->] Hb. apply jump_runs; [done|done|eapply inv_room; [done|lia]].
  - intros ρ ρ' o sc lo base loop z st [= <- <-] Hz _ _ Hd Hc Hi _. cbn in Hz, Hd.
    apply bind_Some in Hz as ([k' b'] & -> & [= <-]). cbn in Hc. exists st. split; [done|].
    intros k b [= -> <-] Hk. rewrite push_OpInt in Hc by lia. apply jump_runs; [done|done|eapply inv_room; [done|lia]].
  - intros ρ ρ' o sc lo base loop z st He Hz Hn HA Hd Hc Hi _. cbn in He, Hz, Hn, Hd.
    apply bind_Some in He as (v & Hv & [= <- <-]). apply bind_Some in Hz as (cx & Hcx & [= <-]).
    cbn in Hc, HA |- *. apply code_at_app in Hc as [Hc1 Hc2].
    destruct (exp_runs _ _ _ _ _ _ _ _ Hcx HA Hn Hv Hi ltac:(lia) Hc1) as [Hw Hr].
    exists st. split; [done|]. eapply runs_app; [exact Hr|]. eapply runs_one. by eapply (goes_POP m).
Qed.

End Simulation.

End Run.
End Correct.
