(* ===== verification/MgProgram.v ===== *)
(** * A compiled contract runs as its source says

    From the parts to the whole program: a numeric statement that the generator
    accepts has code (MgCompile), its locals get different slots, the code of
    a function stays where it was generated (MgFrame), and the entry table
    leads to it.  [compiled_entry_runs] puts this together with the
    simulation of MgCorrect: executing the generated program from an entry
    point ends with the value the function returns on top of the stack. *)

From S2P Require Import Prelude GoLib Config Bytecode Word256 Machine Opcodes Interp InstrSpec MgLexer MgAst MgCodegen MgFrame MgCompile MgMachine MgCorrect.

Module Program.
Import VM Handlers Exec.
Import Codegen Frame Compile MgMachine Correct.

(** ** What the generator accepts has code *)

Lemma numeric_operator op c c' a : generateOperator op false c = Ret (c', a) -> is_Some (operator_code op false).
Proof. destruct op; try discriminate; cbn; eauto. Qed.

Lemma numeric_unary op c c' a : generateUnary op c = Ret (c', a) -> is_Some (unary_code op).
Proof. destruct op; try discriminate; cbn; eauto. Qed.

(** The generator accepts an expression, in the scopes [sc]. *)
Definition accepted {A} (p : G A) (sc : list variables) (c : CodegenContext) : Prop :=
  is_Some (CurrentFunction c) /\ CurrentScope c = sc /\ exists c' a, p c = Ret (c', a).

Lemma numeric_expression e : forall sc c, numeric sc e = true -> accepted (GenerateExpression e) sc c ->
  is_Some (expr_code (env_of c) e).
Proof.
  induction e as [op l r t IHl IHr|op r IHr|v args t IH|v t|v ty t|args t|t|l r t IHl IHr|l s e t IHl IHs IHe]
    using Expression_ind'; intros sc c Hn Hacc; try discriminate; destruct Hacc as (Hf & Hs & c' & a & Hrun).
  - destruct r as [r|]; [|done]. cbn in Hn, Hrun. apply andb_true_iff in Hn as [[Hl Hr]%andb_true_iff Hc%bool_decide_eq_true].
    apply go_seq in Hrun as (c1 & u1 & H1 & Hrun). destruct (IHl sc c Hl) as [cl Hcl]; [by split_and!; eauto|].
    pose proof (expr_generates _ _ _ Hcl c (conj Hf eq_refl)) as R1. unfold appends in R1. rewrite R1 in H1. injection H1 as <-.
    apply go_seq in Hrun as (c2 & u2 & H2 & Hrun). assert (ready (env_of c) (emits cl c)) as Hrdy by by apply ready_emits.
    destruct (IHr r eq_refl sc (emits cl c) Hr) as [cr Hcr]; [split_and!; [by destruct c..|by eauto]|].
    rewrite env_of_emits in Hcr. pose proof (expr_generates _ _ _ Hcr _ Hrdy) as R2. unfold appends in R2. cbn in H2. rewrite R2 in H2. injection H2 as <-.
    apply go_seq in Hrun as (c3 & str & H3 & Hrun). rewrite (concat_run op l r _ false) in H3; [|rewrite <- Hc, <- Hs; by destruct c].
    injection H3 as <- <-. apply numeric_operator in Hrun as [co Hco]. subst sc. cbn. rewrite Hcl. cbn. rewrite Hcr. cbn. rewrite Hc. cbn.
    rewrite Hco. by eexists.
  - destruct r as [r|]; [|done]. cbn in Hn, Hrun. apply go_seq in Hrun as (c1 & u1 & H1 & Hrun).
    destruct (IHr r eq_refl sc c Hn) as [cr Hcr]; [by split_and!; eauto|]. apply numeric_unary in Hrun as [cu Hcu].
    cbn. rewrite Hcr. cbn. rewrite Hcu. by eexists.
  - cbn in Hn. destruct args as [|arg []]; try discriminate. apply Forall_inv in IH.
    destruct (String.eqb_spec v "emit") as [->|]; [|done]. cbn in Hn. apply andb_true_iff in Hn as [Hn Hs'%bool_decide_eq_true].
    cbn in Hrun. unfold generateCall in Hrun. cbn in Hrun. apply go_seq in Hrun as (c1 & u1 & H1 & Hrun).
    destruct (IH sc c Hn) as [cr Hcr]; [by split_and!; eauto|]. subst sc.
    cbn. unfold call_code. cbn. rewrite Hcr. cbn. rewrite Hs'. by eexists.
  - cbn in Hrun |- *. unfold generateIdentifier in Hrun. destruct (GetBlockchainContextVariable v).
    + destruct (context_opcode v); [by eexists | done].
    + apply go_seq in Hrun as (c1 & c2 & [= <- <-] & Hrun). destruct Hf as [f Hf]. rewrite Hf in Hrun.
      destruct (LocalOffsets c !! v); [by eexists | done].
  - destruct ty; try discriminate. by eexists.
Qed.

Lemma numeric_exp_code e sc c : numeric sc e = true -> accepted (GenerateExpression e) sc c ->
  exists ce, exp_code (FunctionIndex c) (StringTable c) (CurrentScope c) (slots_of c) e = Some ce /\ appends (GenerateExpression e) c ce.
Proof.
  intros Hn Ha. destruct (numeric_expression e sc c Hn Ha) as [ce H]. exists ce. split; [exact H|].
  apply exp_run; [|exact H]. apply Ha.
Qed.

(** The first part of a sequence is accepted. *)
Lemma accepted_first {A B} (p : G A) (f : A -> G B) sc c : accepted (p ≫= f) sc c -> accepted p sc c.
Proof.
  intros (Hf & Hs & c' & b & Hrun). apply go_seq in Hrun as (c1 & a & H1 & _). by split_and!; eauto.
Qed.

(** And what follows, where the first part ends. *)
Lemma accepted_next {A B} (p : G A) (f : A -> G B) sc c c1 a :
  accepted (p ≫= f) sc c -> p c = Ret (c1, a) -> CurrentFunction c1 = CurrentFunction c -> CurrentScope c1 = CurrentScope c ->
  accepted (f a) sc c1.
Proof.
  intros (Hf & Hs & c' & b & Hrun) Hp Hf1 Hs1. rewrite (gen_bind_run _ _ _ _ _ Hp) in Hrun.
  split_and!; [by rewrite Hf1 | congruence | by eauto].
Qed.

Lemma finish_function x c : CurrentFunction (finish x c) = CurrentFunction c.
Proof. by destruct c. Qed.

Lemma finish_scope x c : CurrentScope (finish x c) = CurrentScope c.
Proof. by destruct c. Qed.

Definition coded (s : Statement) : Prop :=
  forall sc c, numeric_stmt sc s = true -> accepted (generateStatement s) sc c -> is_Some (stmt_at c s).

Lemma seq_coded l : Forall coded l -> forall sc c, forallb (numeric_stmt sc) l = true ->
  accepted (run_all l) sc c -> is_Some (seq_at c l).
Proof.
  induction 1 as [|s l Hs _ IH]; intros sc c Hn Ha; [by eexists|].
  cbn in Hn. apply andb_true_iff in Hn as [Hns Hnl]. cbn [run_all] in Ha.
  destruct (Hs sc c Hns (accepted_first _ _ _ _ Ha)) as [x Hx].
  pose proof (stmt_run s c x (proj1 Ha) Hx) as Hd.
  destruct (IH sc (finish x c) Hnl) as [y Hy].
  { exact (accepted_next _ (fun _ => run_all l) _ _ _ _ Ha Hd (finish_function _ _) (finish_scope _ _)). }
  rewrite seq_at_finish in Hy. unfold seq_at. cbn. unfold stmt_at in Hx. rewrite Hx. cbn. rewrite Hy. by eexists.
Qed.

Lemma block_coded b sc c : all_block coded b -> block_numeric numeric_stmt sc b = true ->
  accepted (generateBlock b) sc c -> is_Some (block_at c b).
Proof.
  destruct b as [l scope]. intros Hb Hn (Hf & Hs & c' & a & Hrun).
  unfold generateBlock, in_block in Hrun. apply go_seq in Hrun as (c1 & c2 & [= <- <-] & Hrun).
  apply go_seq in Hrun as (c1 & u1 & [= <-] & Hrun). apply go_seq in Hrun as (c2 & u2 & Hrun & _).
  destruct (seq_coded l Hb (scope :: sc) (with_Scope (scope :: CurrentScope c) c) Hn) as [x Hx].
  { split_and!; [by destruct c | destruct c; cbn in *; congruence | by eauto]. }
  exists x. rewrite <- Hx. by destruct c.
Qed.

(** The body of a conditional or of a loop, after a chunk. *)
Lemma chunk_coded {B} b (f : unit -> G B) sc c l ps lo :
  all_block coded b -> block_numeric numeric_stmt sc b = true ->
  accepted (x ← generateBlock b; f x) sc (finish (MkChunk l ps lo) c) ->
  exists x, block_code (stmt_code (FunctionIndex c) (StringTable c)) (CurrentScope c) lo
              (length (Instructions c) + length l)%nat (loop_of c) b = Some x
    /\ accepted (f ()) sc (finish (MkChunk (l ++ code x) (ps ++ map (Nat.add (length l)) (breaks x)) (after x)) c).
Proof.
  intros Hb Hn Ha. destruct (block_coded b sc _ Hb Hn (accepted_first _ _ _ _ Ha)) as [x Hx].
  rewrite block_at_finish in Hx. exists x. split; [done|].
  eapply accepted_next; [exact Ha | | by rewrite !finish_function | by rewrite !finish_scope].
  apply chunk_run; [|by destruct Ha as [Hf _]; rewrite finish_function in Hf | exact Hx].
  apply List.Forall_forall. intros. apply stmt_run.
Qed.

Lemma if_coded cond b eb t : all_block coded b -> (forall x, eb = Some x -> all_block coded x) -> coded (IfStmt cond b eb t).
Proof.
  intros Hb Heb sc c Hn Ha. cbn [numeric_stmt] in Hn. apply andb_true_iff in Hn as [[Hnc Hnb]%andb_true_iff Hne].
  cbn [generateStatement] in Ha. unfold generateIf in Ha.
  destruct (numeric_exp_code cond sc c Hnc (accepted_first _ _ _ _ Ha)) as (cc & Hcc & Hr).
  unfold accepted in Ha. rewrite (test_run _ cc) in Ha by done.
  assert (accepted (generateBlock b ;; match eb with
    | Some eb => jumpIndex ← emit_jump JUMP; elseStart ← here;
        patch (Z.of_nat (length (Instructions c) + length (cc ++ [instr ISZERO]))) elseStart;;
        generateBlock eb;; endIndex ← here; patch jumpIndex endIndex
    | None => endIndex ← here; patch (Z.of_nat (length (Instructions c) + length (cc ++ [instr ISZERO]))) endIndex
    end) sc (finish (MkChunk (test_code cc 0) [] (slots_of c)) c)) as Ha'.
  { destruct Ha as (Hf & Hs & Hrun). split_and!; [by rewrite finish_function | by rewrite finish_scope | exact Hrun]. }
  apply chunk_coded in Ha' as (x & Hx & Ha'); [|done..]. rewrite length_test, Nat.add_assoc in Hx.
  unfold stmt_at. cbn. rewrite Hcc. cbn. rewrite Hx. cbn. destruct eb as [eb|]; [|by eexists].
  set (els := (length (Instructions c) + length cc + 3 + length (code x) + 2)%nat).
  destruct Ha' as (Hf & Hs & c' & a & Hrun).
  erewrite gen_bind_run in Hrun by (apply jump_at; reflexivity).
  erewrite gen_bind_run in Hrun by (apply (here_at _ _ _ _ els); unfold els; lengths).
  erewrite gen_bind_run in Hrun by (apply (patch_run _ _ (cc ++ [instr ISZERO]) 0 (instr JUMPC :: code x ++ [push_at 0; instr JUMP]));
    first [done | lists]).
  destruct (chunk_coded eb (fun _ => e ← here; patch (Z.of_nat (length (Instructions c) + length (test_code cc 0 ++ code x))) e)
    sc c _ _ _ (Heb eb eq_refl) Hne ltac:(split_and!; [by rewrite finish_function in * | by rewrite finish_scope in * | by eexists _, _; exact Hrun]))
    as (y & Hy & _).
  cbn [after] in Hy.
  replace (_ + length _)%nat with els in Hy by (unfold els; lengths). fold els. rewrite Hy. by eexists.
Qed.

Lemma while_coded cond b : all_block coded b -> coded (WhileStmt cond b).
Proof.
  intros Hb sc c Hn Ha. cbn [numeric_stmt] in Hn. apply andb_true_iff in Hn as [Hnc Hnb].
  cbn [generateStatement] in Ha. unfold generateWhile in Ha. destruct Ha as (Hf & Hs & c' & a & Hrun).
  erewrite gen_bind_run in Hrun by apply here_run.
  destruct (numeric_exp_code cond sc c Hnc) as (cc & Hcc & Hr).
  { apply go_seq in Hrun as (c1 & u1 & H1 & _). by split_and!; eauto. }
  rewrite (test_run _ cc) in Hrun by done.
  set (c1 := with_LoopStack (MkLoopContext (len (Instructions c)) [] :: LoopStack c) c) in *.
  rewrite (gen_bind_run _ _ _ (finish (MkChunk (test_code cc 0) [] (slots_of c1)) c1) ()) in Hrun.
  2:{ unfold push_loop, modify, finish, emits, c1. destruct c. cbn. by rewrite add_breaks_nil. }
  apply go_seq in Hrun as (c2 & u2 & Hbody & _).
  destruct (block_coded b sc (finish (MkChunk (test_code cc 0) [] (slots_of c1)) c1) Hb Hnb) as [x Hx].
  { split_and!; [rewrite finish_function; unfold c1; by destruct c | rewrite finish_scope; unfold c1; by destruct c | by eexists _, _]. }
  rewrite block_at_finish, length_test, Nat.add_assoc in Hx. unfold stmt_at. cbn. rewrite Hcc. cbn.
  replace (block_code _ _ _ _ _ b) with (Some x) by (rewrite <- Hx; unfold c1; by destruct c). cbn.
  assert (block_code (stmt_code (FunctionIndex c) (StringTable c)) (CurrentScope c) (slots_of c)
    (length (Instructions c) + length cc + 3) (Some (len (Instructions c), 0)) b = Some x) as Hx' by (rewrite <- Hx; unfold c1; by destruct c).
  eapply block_breaks in Hx' as [_ Hx']; [|by apply List.Forall_forall; intros; apply stmt_breaks].
  unfold len in Hx'. rewrite Hx'. by eexists.
Qed.

Lemma stmt_coded s : coded s.
Proof.
  induction s as [ty l r t|e|c b eb t IHb IHeb|c b IHb|t|t|e] using Statement_ind'.
  - intros sc c Hn Ha. cbn in Hn. destruct l; try discriminate. destruct r as [r|]; [|done].
    destruct (numeric_exp_code r sc c Hn (accepted_first _ _ _ _ Ha)) as (ce & Hce & _).
    unfold stmt_at. cbn. unfold assignment_code. rewrite Hce. by eexists.
  - intros sc c Hn Ha. destruct (numeric_exp_code e sc c Hn (accepted_first _ _ _ _ Ha)) as (ce & Hce & _).
    unfold stmt_at. cbn. rewrite Hce. by eexists.
  - by apply if_coded.
  - by apply while_coded.
  - intros sc c _ (_ & _ & c' & a & Hrun). unfold stmt_at, loop_of. cbn in *. unfold generateBreak in Hrun.
    erewrite gen_bind_run in Hrun by reflexivity. destruct (LoopStack c); [done | by eexists].
  - intros sc c _ (_ & _ & c' & a & Hrun). unfold stmt_at, loop_of. cbn in *. unfold generateContinue in Hrun.
    erewrite gen_bind_run in Hrun by reflexivity. destruct (LoopStack c); [done | by eexists].
  - intros sc c Hn Ha. destruct (numeric_exp_code e sc c Hn (accepted_first _ _ _ _ Ha)) as (ce & Hce & _).
    unfold stmt_at. cbn. rewrite Hce. by eexists.
Qed.

(** ** Slots *)

(** Different locals have different slots below the next one. *)
Record slots_ok (lo : slots) : Prop := {
  slots_next : 0 <= lo.2;
  slots_range : forall x o, lo.1 !! x = Some o -> 0 <= o < lo.2;
  slots_inj : forall x y o, lo.1 !! x = Some o -> lo.1 !! y = Some o -> x = y
}.

(** How many assignments there are, which bounds the number of locals. *)
Definition block_stores (stores : Statement -> nat) (b : Block) : nat :=
  match b with MkBlock l _ => (fix go (l : list Statement) : nat := match l with [] => 0 | s :: l => stores s + go l end) l end%nat.

Fixpoint stores (s : Statement) : nat :=
  match s with
  | AssignmentStmt _ _ _ _ => 1
  | IfStmt _ b eb _ => block_stores stores b + match eb with Some eb => block_stores stores eb | None => 0 end
  | WhileStmt _ b => block_stores stores b
  | _ => 0
  end%nat.

Definition slots_step (n : nat) (lo lo' : slots) : Prop := slots_ok lo -> slots_ok lo' /\ lo'.2 <= lo.2 + Z.of_nat n.

Lemma slots_step_refl n lo : slots_step n lo lo.
Proof. intros H. split; [done|]. pose proof (slots_next _ H). lia. Qed.

Lemma slots_step_trans a b lo1 lo2 lo3 : slots_step a lo1 lo2 -> slots_step b lo2 lo3 -> slots_step (a + b) lo1 lo3.
Proof. intros H1 H2 H. apply H1 in H as [H Ha]. apply H2 in H as [H Hb]. split; [done|]. lia. Qed.

Lemma slots_store name lo : slots_step 1 lo (after (store_code name lo)).
Proof.
  intros [H0 Hr Hi]. unfold store_code. destruct (lo.1 !! name) eqn:E; cbn; (split; [|lia]); [by split|].
  split; cbn; [lia| |].
  - intros x o. rewrite lookup_insert. case_decide as Ed; [intros [= <-]; lia|]. intros H%Hr. lia.
  - intros x y o. rewrite !lookup_insert. case_decide as E1; case_decide as E2; try congruence.
    + intros [= <-] H%Hr. lia.
    + intros H%Hr [= <-]. lia.
    + apply Hi.
Qed.

Section Slots.
Context (fi st : gmap string Z).

Definition slots_grow (s : Statement) : Prop :=
  forall sc lo base loop x, stmt_code fi st sc lo base loop s = Some x -> slots_step (stores s) lo (after x).

Lemma block_slots b sc lo base loop x : all_block slots_grow b ->
  block_code (stmt_code fi st) sc lo base loop b = Some x -> slots_step (block_stores stores b) lo (after x).
Proof.
  destruct b as [l scope]. unfold all_block. cbn. intros H. revert lo base x.
  induction H as [|s l Hs _ IH]; intros lo base z; cbn.
  - intros [= <-]. apply slots_step_refl.
  - intros (x & Hx & (y & Hy & [= <-])%bind_Some)%bind_Some. cbn.
    eapply slots_step_trans; [by eapply Hs | by eapply IH].
Qed.

Lemma stmt_slots s : slots_grow s.
Proof.
  induction s as [ty l r t|e|c b eb t IHb IHeb|c b IHb|t|t|e] using Statement_ind'; intros sc lo base loop z Hz; cbn in Hz.
  - destruct r as [r|]; [|done]. apply bind_Some in Hz as (y & _ & Hz).
    destruct l; try (apply bind_Some in Hz as (v & _ & [= <-]); apply slots_store).
    repeat case_match; try done; apply bind_Some in Hz as (w & _ & [= <-]); apply slots_step_refl.
  - apply bind_Some in Hz as (x & _ & [= <-]). apply slots_step_refl.
  - apply bind_Some in Hz as (cc & _ & (x & Hx & Hz)%bind_Some). apply block_slots in Hx; [|done]. destruct eb as [eb|].
    + apply bind_Some in Hz as (y & Hy & [= <-]). apply block_slots in Hy; [|by apply IHeb]. by eapply slots_step_trans.
    + injection Hz as <-. cbn. by rewrite Nat.add_0_r.
  - apply bind_Some in Hz as (cc & _ & (x & Hx & (y & Hy & [= <-])%bind_Some)%bind_Some). by apply block_slots in Hy.
  - apply bind_Some in Hz as (t' & _ & [= <-]). apply slots_step_refl.
  - apply bind_Some in Hz as (t' & _ & [= <-]). apply slots_step_refl.
  - apply bind_Some in Hz as (x & _ & [= <-]). apply slots_step_refl.
Qed.

End Slots.

(** ** Functions *)

(** The return that is added unless the last instruction is one. *)
Definition return_tail (l : list Instruction) : list Instruction :=
  match last l with
  | Some i => if Opcode i =? opcode RETURN then [] else [push (OpInt 0); instr RETURN]
  | None => [push (OpInt 0); instr RETURN]
  end.

Lemma return_tail_run c : exists c', (
  match last (Instructions c) with
  | Some i => if Opcode i =? opcode RETURN then mret () else EmitPush (OpInt 0);; Emit RETURN
  | None => EmitPush (OpInt 0);; Emit RETURN
  end : G unit) c = Ret (c', ()) /\ c' = emits (return_tail (Instructions c)) c.
Proof.
  eexists. split; [|reflexivity]. unfold return_tail.
  assert ((EmitPush (OpInt 0);; Emit RETURN) c = Ret (emits [push (OpInt 0); instr RETURN] c, ())) as Ha
    by (apply (appends_seq _ _ _ [_] [_]); [apply appends_EmitPush | apply appends_Emit]).
  destruct (last (Instructions c)) as [i|]; [|done]. destruct (_ =? _); [by rewrite emits_nil | done].
Qed.

(** The context in which the body of a function without parameters is
    generated. *)
Definition body_context (globals : variables) (f : Function_) (c : CodegenContext) : CodegenContext :=
  with_Locals ∅ 0 (with_Scope [globals] (with_Function (Some f)
    (with_FunctionIndex (<[FName f := len (Instructions c)]> (FunctionIndex c)) c))).

(** A new numeric function is its body's code and the return. *)
Lemma function_code globals f c c' a :
  GenerateFunctionDefinition globals f c = Ret (c', a) -> FunctionIndex c !! FName f = None ->
  LoopStack c = [] -> Parameters f = [] -> block_numeric numeric_stmt [globals] (FBlock f) = true ->
  exists x, block_code (stmt_code (<[FName f := len (Instructions c)]> (FunctionIndex c)) (StringTable c)) [globals] (∅, 0)
              (length (Instructions c)) None (FBlock f) = Some x
    /\ Instructions c' = Instructions c ++ code x ++ return_tail (Instructions c ++ code x)
    /\ FunctionIndex c' !! FName f = Some (len (Instructions c)).
Proof.
  intros Hrun Hnew Hloop Hpar Hn. unfold GenerateFunctionDefinition in Hrun.
  erewrite gen_bind_run in Hrun by reflexivity. rewrite Hnew, Hpar in Hrun.
  do 4 (erewrite gen_bind_run in Hrun by reflexivity).
  change (with_Locals _ _ _) with (body_context globals f c) in Hrun.
  apply go_seq in Hrun as (c1 & u1 & Hbody & Hrun).
  assert (is_Some (CurrentFunction (body_context globals f c))) as Hf by (destruct c; by eexists).
  destruct (block_coded (FBlock f) [globals] (body_context globals f c)) as [x Hx]; [|done|split_and!; [done|by destruct c|by eauto]|].
  { apply List.Forall_forall. intros. apply stmt_coded. }
  rewrite (block_run _ _ x) in Hbody; [|apply List.Forall_forall; intros; apply stmt_run|done..]. injection Hbody as <- <-.
  erewrite gen_bind_run in Hrun by reflexivity.
  destruct (return_tail_run (finish x (body_context globals f c))) as (c2 & Htail & ->).
  rewrite (gen_bind_run _ _ _ _ _ Htail) in Hrun. do 2 (erewrite gen_bind_run in Hrun by reflexivity). injection Hrun as <- _.
  exists x. split; [rewrite <- Hx; unfold block_at, loop_of; by destruct c; cbn in *; subst|].
  destruct c. cbn in *. rewrite <- app_assoc. split; [done|]. by rewrite lookup_insert_eq.
Qed.

(** ** The whole program *)

(** The jumps at the start: to the two initialisations of strings, which are
    empty, and from there to the entry points. *)
Definition entry_table (ti tc ai ac : Z) : list Instruction :=
  [push_at ti; instr JUMP; push_at tc; instr JUMP; push_at ai; instr JUMP; push_at ac; instr JUMP].

Definition start_context : CodegenContext := emits (entry_table 0 0 0 0) empty_context.

Lemma no_strings_run c : StringLiterals c = [] -> GenerateStringInitialization c = Ret (c, ()).
Proof. intros H. unfold GenerateStringInitialization. erewrite gen_bind_run by reflexivity. by rewrite H. Qed.

Lemma program_run ast order1 order2 :
  concat (map (fun kv => block_strings (FBlock kv.2)) order1) = [] ->
  codegen_program ast order1 order2 empty_context
  = (generate_named ast "init";; generate_functions (AScope ast) order2;; generate_named ast "call";;
     patch_entry "init" 0 4 4;; patch_entry "call" 2 6 6) start_context.
Proof.
  intros Hs. unfold codegen_program, CollectStringLiterals. rewrite Hs. cbn [register_all].
  rewrite (gen_bind_run _ _ _ empty_context () eq_refl).
  do 2 (erewrite gen_bind_run by apply emit_jump_run). erewrite gen_bind_run by apply here_run.
  erewrite gen_bind_run by by apply no_strings_run. erewrite gen_bind_run by apply emit_jump_run.
  erewrite gen_bind_run by apply here_run. erewrite gen_bind_run by by apply no_strings_run.
  erewrite gen_bind_run by apply emit_jump_run. rewrite !emits_emits. reflexivity.
Qed.

(** Setting a placeholder. *)
Lemma patch_step i t a z b c : Instructions c = a ++ push_at z :: b -> i = Z.of_nat (length a) ->
  patch i t c = Ret (with_Instructions (a ++ push_at t :: b) c, ()).
Proof. intros H ->. by apply (patch_at _ _ z). Qed.

Lemma patch_entry_run name i j t a1 a2 a3 c c' u :
  patch_entry name i t j c = Ret (c', u) -> Instructions c = a1 ++ push_at 0 :: a2 ++ push_at 0 :: a3 ->
  i = Z.of_nat (length a1) -> j = Z.of_nat (length (a1 ++ push_at t :: a2)) ->
  exists a, FunctionIndex c !! name = Some a
    /\ c' = with_Instructions (a1 ++ push_at t :: a2 ++ push_at a :: a3) c.
Proof.
  intros Hrun Hc Hi Hj. unfold patch_entry in Hrun. erewrite gen_bind_run in Hrun by reflexivity.
  destruct (FunctionIndex c !! name) as [a|]; [|done]. exists a. split; [done|].
  rewrite (gen_bind_run _ _ _ _ _ (patch_step i t a1 0 _ c Hc Hi)) in Hrun.
  rewrite (patch_step j a (a1 ++ push_at t :: a2) 0 a3) in Hrun; [|destruct c; by rewrite <- app_assoc|done].
  injection Hrun as <- _. destruct c. cbn. by rewrite <- app_assoc.
Qed.

Lemma patch_entries c c' a rest : Instructions c = entry_table 0 0 0 0 ++ rest ->
  (patch_entry "init" 0 4 4;; patch_entry "call" 2 6 6) c = Ret (c', a) ->
  exists ai ac, FunctionIndex c !! "init"%string = Some ai /\ FunctionIndex c !! "call"%string = Some ac
    /\ Instructions c' = entry_table 4 6 ai ac ++ rest.
Proof.
  intros Hc Hrun. apply go_seq in Hrun as (c1 & u1 & H1 & H2).
  apply (patch_entry_run _ _ _ _ [] [instr JUMP; push_at 0; instr JUMP] (instr JUMP :: push_at 0 :: instr JUMP :: rest))
    in H1 as (ai & Hi & ->); [|done..].
  apply (patch_entry_run _ _ _ _ [push_at 4; instr JUMP] [instr JUMP; push_at ai; instr JUMP] (instr JUMP :: rest))
    in H2 as (ac & Hac & ->); [|by destruct c|done..].
  exists ai, ac. split; [done|]. split; [by destruct c | by destruct c].
Qed.

(** Functions are stored under their names, as the parser does. *)
Definition well_named (ast : Ast) : Prop := map_Forall (fun k f => FName f = k) (Functions ast).

Lemma named_extends ast name names : well_named ast -> name ∈ names -> keeps (extends names) (generate_named ast name).
Proof.
  intros Hw Hn. unfold generate_named. destruct (Functions ast !! name) as [f|] eqn:E; [|keeps_tac].
  apply extends_function. by rewrite (Hw _ _ E).
Qed.

Section Layout.
Context (ast : Ast) (order : list (string * Function_)) (Hnames : well_named ast) (Horder : order ≡ₚ map_to_list (Functions ast)).

Lemma other_functions_extend names :
  (forall k, is_Some (Functions ast !! k) -> k <> "init"%string -> k <> "call"%string -> k ∈ names) ->
  keeps (extends names) (generate_functions (AScope ast) order).
Proof using Hnames Horder.
  intros Hn. apply extends_functions, Forall_forall. intros [k f] Hin. rewrite Horder, elem_of_map_to_list in Hin. cbn.
  destruct (decide (k = "init"%string)); [by auto|]. destruct (decide (k = "call"%string)); [by auto|].
  left. rewrite (Hnames _ _ Hin). apply Hn; [by rewrite Hin | done..].
Qed.

(** What is generated between the table and the patches. *)
Definition generated (c : CodegenContext) : Prop := exists c1 c2 a1 a2 a3,
  generate_named ast "init" start_context = Ret (c1, a1)
  /\ generate_functions (AScope ast) order c1 = Ret (c2, a2)
  /\ generate_named ast "call" c2 = Ret (c, a3).

(** All the functions but [call]. *)
Definition but_call : list string := filter (fun k => k <> "call"%string) ("init"%string :: map fst order).

Lemma but_call_others k : is_Some (Functions ast !! k) -> k <> "init"%string -> k <> "call"%string -> k ∈ but_call.
Proof using Horder.
  intros [f Hf] _ Hk. apply list_elem_of_filter. split; [done|]. right. apply list_elem_of_fmap. exists (k, f).
  split; [done|]. by rewrite Horder, elem_of_map_to_list.
Qed.

(** An entry function's code is put at its address, after the table, and stays. *)
Lemma entry_code c3 name f : generated c3 -> name = "init"%string \/ name = "call"%string ->
  Functions ast !! name = Some f -> Parameters f = [] -> block_numeric numeric_stmt [AScope ast] (FBlock f) = true ->
  exists I x fi st, Instructions start_context `prefix_of` I
    /\ I ++ code x ++ return_tail (I ++ code x) `prefix_of` Instructions c3
    /\ FunctionIndex c3 !! name = Some (len I)
    /\ block_code (stmt_code fi st) [AScope ast] (∅, 0) (length I) None (FBlock f) = Some x.
Proof using Hnames Horder.
  intros (c1 & c2 & a1 & a2 & a3 & R1 & R2 & R3) Hentry Hf Hpar Hn. pose proof (Hnames _ _ Hf) as Hname. cbn in Hname.
  assert (extends but_call start_context c1) as X1 by (eapply named_extends; [done| |exact R1]; by apply list_elem_of_here).
  assert (extends but_call c1 c2) as X2 by (eapply other_functions_extend; [apply but_call_others|exact R2]).
  assert (extends ["call"%string] c2 c3) as X3 by (eapply named_extends; [done|apply list_elem_of_here|exact R3]).
  assert (extends but_call start_context c2) as X12 by by transitivity c1.
  unfold generate_named in R1, R3. destruct Hentry as [->| ->].
  - rewrite Hf in R1. apply function_code in R1 as (x & Hx & HI & Ha); [|done..].
    exists (Instructions start_context), x. do 2 eexists. split; [done|]. rewrite <- HI. split.
    + etransitivity; [apply X2 | apply X3].
    + split; [|exact Hx]. apply X3, X2. by rewrite <- Hname at 1.
  - rewrite Hf in R3. apply function_code in R3 as (x & Hx & HI & Ha); [|..|done|done].
    + exists (Instructions c2), x. do 2 eexists. split; [apply X12|]. rewrite <- HI. split; [done|].
      split; [by rewrite <- Hname at 1 | exact Hx].
    + rewrite Hname. destruct (FunctionIndex c2 !! "call"%string) as [a|] eqn:E; [|done].
      apply X12 in E as [E|[E _]]; [done|]. by apply list_elem_of_filter in E as [].
    + by apply X12.
Qed.

End Layout.

(** ** How a function's body ends *)

(** The body has a last statement, and it is not a conditional; after a
    conditional whose last instruction is a return there is no return. *)
Definition ends_closed (b : Block) : bool :=
  match last (Statements b) with
  | Some (IfStmt _ _ _ _) | None => false
  | _ => true
  end.

Section Ends.
Context (fi st : gmap string Z) (sc : list variables) (loop : option (Z * Z)).

(** The code of the last statement is at the end. *)
Lemma last_code l s : last l = Some s -> forall lo base x, seq_code (stmt_code fi st) sc loop l lo base = Some x ->
  exists lo' base' y pre, stmt_code fi st sc lo' base' loop s = Some y /\ code x = pre ++ code y.
Proof.
  induction l as [|s1 l IH]; [done|]. intros Hl lo base z Hz. cbn in Hz.
  apply bind_Some in Hz as (x & Hx & (y & Hy & [= <-])%bind_Some). destruct l as [|s2 l].
  - injection Hl as <-. injection Hy as <-. exists lo, base, x, []. split; [done|]. cbn. by rewrite app_nil_r.
  - destruct (IH Hl _ _ _ Hy) as (lo' & base' & w & pre & Hw & E). exists lo', base', w, (code x ++ pre).
    split; [done|]. cbn. by rewrite E, app_assoc.
Qed.

(** Which is a return only for a return, or in a conditional. *)
Lemma last_instruction s lo base x : stmt_code fi st sc lo base loop s = Some x ->
  match s with ReturnStmt _ | IfStmt _ _ _ _ => True | _ => exists pre i, code x = pre ++ [i] /\ Opcode i <> opcode RETURN end.
Proof.
  intros Hx. destruct s as [ty l r t|e|cd b eb t|cd b|t|t|e]; try done; cbn in Hx.
  - destruct r as [r|]; [|done]. apply bind_Some in Hx as (y & _ & Hx).
    destruct l; try (apply bind_Some in Hx as (v & _ & [= <-]); cbn; unfold store_code; case_match; cbn;
      (eexists (_ ++ [_]), _; split; [by rewrite <- app_assoc | done])).
    repeat case_match; try done; apply bind_Some in Hx as (w & _ & [= <-]); cbn; rewrite app_assoc; by do 2 eexists.
  - apply bind_Some in Hx as (cc & _ & (y & _ & (z & _ & [= <-])%bind_Some)%bind_Some). cbn.
    eexists (test_code cc _ ++ code z ++ [_]), (instr JUMP). split; [|done]. rewrite <- !app_assoc. reflexivity.
  - apply bind_Some in Hx as (t' & _ & [= <-]). by exists [push_at t'.2], (instr JUMP).
  - apply bind_Some in Hx as (t' & _ & [= <-]). by exists [push (OpInt t'.1)], (instr JUMP).
  - apply bind_Some in Hx as (y & _ & [= <-]). by do 2 eexists.
Qed.

Lemma return_tail_snoc l pre i : l = pre ++ [i] -> Opcode i <> opcode RETURN -> return_tail l = [push (OpInt 0); instr RETURN].
Proof. intros -> Hi. unfold return_tail. by rewrite last_snoc, (proj2 (Z.eqb_neq _ _)). Qed.

(** Unless the body ends in a return, one is added. *)
Lemma tail_added I l s lo base x : last l = Some s -> seq_code (stmt_code fi st) sc loop l lo base = Some x ->
  match s with ReturnStmt _ | IfStmt _ _ _ _ => True | _ => return_tail (I ++ code x) = [push (OpInt 0); instr RETURN] end.
Proof.
  intros Hl Hx. destruct (last_code l s Hl _ _ _ Hx) as (lo' & base' & y & pre & Hy & E).
  pose proof (last_instruction _ _ _ _ Hy) as Hi. rewrite E.
  destruct s; try done; destruct Hi as (pre' & i & -> & Hi);
    (apply (return_tail_snoc _ (I ++ pre ++ pre') i); [by rewrite <- !app_assoc | exact Hi]).
Qed.

End Ends.

(** After a return nothing ends normally. *)
Lemma exec_return_last f κ l e : last l = Some (ReturnStmt e) -> forall ρ ρ', exec_all (exec f κ) l ρ <> Some (ρ', Normal).
Proof.
  induction l as [|s l IH]; [done|]. intros Hl ρ ρ' Hx. cbn in Hx. apply bind_Some in Hx as ([ρ1 o1] & H1 & H2). cbn in H2.
  destruct l as [|s2 l].
  - injection Hl as ->. destruct f; [done|]. cbn in H1. apply bind_Some in H1 as (v & _ & [= <- <-]). done.
  - destruct o1; try done. by apply (IH Hl) in H2.
Qed.

(** ** Execution *)

(** A run from the start to an instruction that ends it. *)
Lemma run_stops r r1 r2 e : IC r = StartIC r -> s (Stack r) = [] -> is_u64 (GasAvailable r) ->
  rtc step r r1 -> IC r1 < len (VM.Instructions r1) -> ExecuteInstruction r1 = Ret (r2, Some e) ->
  StartExecution r = Some (Ret (r2, GasUsed r2, Some e)).
Proof.
  intros Hic Hst Hg Hrun Hlt Hx. unfold StartExecution. rewrite Hic, Z.eqb_refl, Hst. cbn [negb len length Z.of_nat Z.eqb].
  assert (forall k, exists n, (k <= n)%nat /\ exec_loop n r = Some (Ret (r2, Some e))) as H.
  { intros k. clear Hic Hst Hg. induction Hrun as [r|r r3 r4 Hs _ IH].
    - exists (S k). split; [lia|]. cbn [exec_loop]. by rewrite (proj2 (Z.ltb_lt _ _)), Hx.
    - destruct (IH Hlt Hx) as (n & Hn & E). exists (S n). split; [lia|]. destruct Hs as [Hl Hs]. cbn [exec_loop].
      by rewrite (proj2 (Z.ltb_lt _ _)), Hs. }
  destruct (H (loop_fuel r)) as (n & Hn & E). destruct (exec_loop_enough n r Hg) as [En _].
  { unfold loop_fuel in Hn. machine_bounds. lia. }
  by rewrite <- En, E.
Qed.

Section Entry.
Context (code : list Instruction) (κ : BlockchainContext) (storage : gmap string string) (ic : Z).
Context (Hcode : len code < 2 ^ 62).

(** The machine a contract's code starts on. *)
Definition entry_machine : machine :=
  Machine code κ (NewMemory AVMMaxMemorySize) storage 0 ic AVMMaxStackSize 100 [] [].

Definition entry_runtime (gas : Z) : Runtime := with_Persistent storage (NewRuntimeWithIC gas code κ ic).

Lemma entry_conf gas : entry_runtime gas = conf entry_machine ic [] (gas, 0).
Proof. done. Qed.

Lemma entry_machine_ok : machine_ok entry_machine.
Proof using Hcode.
  split; [cbn; unfold AVMMaxStackSize; lia | exact Hcode | cbn; lia|]. intros a Ha. cbn [m_memory entry_machine].
  unfold readStringFromMemory, Load. by destruct (_ && _).
Qed.

(** A return stops the machine, since there is no caller. *)
Lemma stops_at_return pc st cost : code_at entry_machine pc [instr RETURN] -> 0 <= ic ->
  goes entry_machine (Z.to_nat ic) [] cost pc st ->
  forall gas, cost + Price (opcode RETURN) <= gas < 2 ^ 64 -> exists r',
    StartExecution (entry_runtime gas) = Some (Ret (r', cost, Some ErrProgramStopped))
    /\ s (Stack r') = st /\ Persistent r' = storage.
Proof using Hcode.
  intros Hc Hic [H0 Hg] gas Hgas. apply code_at_lookup in Hc as [Hget Hlt]. rewrite entry_conf.
  assert (0 <= Price (opcode RETURN)) by (pose proof (Price_range (opcode RETURN)); lia).
  specialize (Hg gas 0 ltac:(lia) ltac:(lia) ltac:(lia)). rewrite Z2Nat.id in Hg by done.
  exists (conf entry_machine (Z.of_nat pc) st (gas - cost, 0 + cost)). split; [|done].
  rewrite (run_stops (conf entry_machine ic [] (gas, 0)) _ (conf entry_machine (Z.of_nat pc) st (gas - cost, 0 + cost)) ErrProgramStopped
    eq_refl eq_refl ltac:(cbn; machine_bounds; lia) Hg Hlt); [done|].
  unfold ExecuteInstruction. cbn [VM.Instructions conf IC]. rewrite Hget. cbn [mbind go_bind].
  change (ValidateInstruction (instr RETURN)) with (Ok () : res instr_error ()). cbv iota.
  rewrite (proj2 (Z.ltb_ge _ _)) by (change (Price (opcode RETURN) <= gas - cost); lia). by rewrite run_instr.
Qed.

End Entry.

(** The value an entry function returns. *)
Definition entry_value (fuel : nat) (κ : BlockchainContext) (f : Function_) : option Z :=
  x ← exec_all (exec fuel κ) (Statements (FBlock f)) ∅;
  match x.2 with Returned v => Some v | Normal => Some 0 | _ => None end.

(** The functions the theorem is about: no parameters, numeric, with a last
    statement that is not a conditional, and small enough for the stack. *)
Definition numeric_entry (globals : variables) (f : Function_) : bool :=
  bool_decide (Parameters f = []) && block_numeric numeric_stmt [globals] (FBlock f) && ends_closed (FBlock f)
  && (Z.of_nat (block_stores stores (FBlock f)) + Z.of_nat (block_depth stmt_depth (FBlock f)) <? AVMMaxStackSize).

Section Body.
Context (code : list Instruction) (κ : BlockchainContext) (storage : gmap string string) (ic : Z).
Context (Hcode : len code < 2 ^ 62).
Abbreviation m := (entry_machine code κ storage ic).

(** From its address an entry function runs to a return, with its value on top
    of the stack. *)
Lemma body_returns f globals fi st I x base fuel v :
  numeric_entry globals f = true -> entry_value fuel κ f = Some v ->
  block_code (stmt_code fi st) [globals] (∅, 0) base None (FBlock f) = Some x ->
  code_at m base (Compile.code x ++ return_tail (I ++ Compile.code x)) ->
  lands m base /\ exists pc cost st', code_at m pc [instr RETURN] /\ goes m base [] cost pc (st' ++ [v]).
Proof using Hcode.
  intros Hf Hv Hx Hc. unfold numeric_entry in Hf.
  apply andb_true_iff in Hf as [[[_ Hn]%andb_true_iff He]%andb_true_iff Hsize%Z.ltb_lt].
  unfold entry_value in Hv. apply bind_Some in Hv as ([ρ' o] & Hexec & Hv). cbn in Hv.
  pose proof (entry_machine_ok code κ storage ic Hcode) as Hm.
  destruct (block_slots fi st (FBlock f) _ _ _ _ _ ltac:(apply List.Forall_forall; intros; apply stmt_slots) Hx) as [[Hs0 Hsr Hsi] Hs2].
  { split; cbn; [lia|by intros ? ?; rewrite lookup_empty|by intros ? ? ?; rewrite lookup_empty]. }
  unfold ends_closed in He. destruct (last (Statements (FBlock f))) as [s|] eqn:El; [|done].
  destruct (FBlock f) as [l scope] eqn:Eb. cbn in Hexec, Hx, Hn, El.
  pose proof (tail_added fi st _ _ I _ _ _ _ _ El Hx) as Htail. apply code_at_app in Hc as [Hc1 Hc2].
  split.
  { destruct (last_code fi st _ _ _ _ El _ _ _ Hx) as (lo' & base' & y & pre & Hy & E). apply stmt_static in Hy as [_ Hy].
    eapply code_at_lands; [exact Hc1|]. rewrite E. intros [_ ?]%app_eq_nil. done. }
  assert (inv m (after x).1 (after x).2 ∅ []) as Hi by (split; [done|done|change (0 <= 0 + (after x).2); lia]).
  set (D := S (block_depth stmt_depth (MkBlock l scope))).
  assert (m_frame m + (after x).2 + Z.of_nat D <= m_limit m) as HD by (cbn [snd] in Hs2; change (0 + (after x).2 + Z.of_nat D <= AVMMaxStackSize); unfold D; lia).
  assert ((after x).2 < 2 ^ 61) as HNL by (cbn [snd] in Hs2; unfold AVMMaxStackSize in Hsize; lia).
  destruct (sim_seq m (after x).1 (after x).2 D fi st fuel l
    (fun s => sim_all m (after x).1 (after x).2 Hsr HNL Hsi D HD fi st fuel s) _ _ _ _ _ _ _ _ [] Hexec Hx Hn) as (st' & Hi' & Ha).
  - done.
  - apply (block_depth_all D (MkBlock l scope)). unfold D. lia.
  - exact Hc1.
  - exact Hi.
  - intros s' Hs' Hj. rewrite El in Hs'. injection Hs' as <-. destruct s; try done.
    rewrite Htail in Hc2. by eapply code_at_lands.
  - destruct o; try done; injection Hv as <-.
    + assert (return_tail (I ++ Compile.code x) = [push (OpInt 0); instr RETURN]) as Hret.
      { destruct s; try done. by apply (exec_return_last fuel κ l Rhs El) in Hexec. }
      rewrite Hret in Hc2. apply (code_at_app m _ [_]) in Hc2 as [Hc2 Hc3]. destruct Ha as [c1 H1].
      destruct (runs_push_int m _ st' 0 ltac:(lia) Hc2) as [c2 H2]; [by eapply (inv_room m _ _ D HD); [|unfold D; lia]|].
      do 3 eexists. split; [exact Hc3|]. by eapply goes_trans.
    + destruct Ha as (pc & cost & Hret & Hg). eauto.
Qed.

(** The table leads to the entry points. *)
Lemma table_runs ai ac rest name start t : code = entry_table 4 6 ai ac ++ rest ->
  (name, start) = ("init"%string, 0) /\ ai = Z.of_nat t \/ (name, start) = ("call"%string, 2) /\ ac = Z.of_nat t ->
  lands m t -> exists cost, goes m (Z.to_nat start) [] cost t [].
Proof using Hcode.
  intros Hc Hentry Ht. pose proof (entry_machine_ok code κ storage ic Hcode) as Hm.
  unfold entry_table in Hc. cbn [app] in Hc. assert (4 < len code /\ 6 < len code) as [H4 H6] by (rewrite Hc; unfold len; cbn [length]; lia).
  destruct Hentry as [[[= _ ->] ->]|[[= _ ->] ->]].
  - destruct (jump_runs m 0 0 [] 4) as [c1 H1]; [eexists [], _; split; [cbn [app m_code entry_machine]; exact Hc|done]|done|done|].
    destruct (jump_runs m 0 4 [] t) as [c2 H2]; [eexists [_; _; _; _], _; split; [cbn [app m_code entry_machine]; exact Hc|done]|done|done|]. eexists. by eapply goes_trans.
  - destruct (jump_runs m 0 2 [] 6) as [c1 H1]; [eexists [_; _], _; split; [cbn [app m_code entry_machine]; exact Hc|done]|done|done|].
    destruct (jump_runs m 0 6 [] t) as [c2 H2]; [eexists [_; _; _; _; _; _], _; split; [cbn [app m_code entry_machine]; exact Hc|done]|done|done|]. eexists. by eapply goes_trans.
Qed.

End Body.

Lemma codegen_generated ast order1 order2 c :
  order1 ≡ₚ map_to_list (Functions ast) -> map_Forall (fun _ f => block_strings (FBlock f) = []) (Functions ast) ->
  CodegenWithContext ast order1 order2 = Ret c ->
  exists c3 a, generated ast order2 c3 /\ (patch_entry "init" 0 4 4;; patch_entry "call" 2 6 6) c3 = Ret (c, a).
Proof.
  intros Ho Hs Hrun. unfold CodegenWithContext in Hrun. apply go_bind_ret_inv in Hrun as ([c' a] & Hrun & [= <-]).
  rewrite program_run in Hrun.
  - apply go_seq in Hrun as (c1 & u1 & H1 & Hrun). apply go_seq in Hrun as (c2 & u2 & H2 & Hrun).
    apply go_seq in Hrun as (c3 & u3 & H3 & Hrun). exists c3, a. split; [|done]. by exists c1, c2, u1, u2, u3.
  - apply concat_nil_Forall, Forall_forall. intros l (kv & -> & Hin)%list_elem_of_fmap. destruct kv as [k f].
    rewrite Ho, elem_of_map_to_list in Hin. by apply (Hs _ _ Hin).
Qed.

(** A contract that the generator accepts, and whose functions have no string
    literals, runs as its source says: executing the generated program from
    an entry point whose function is numeric stops with the value of the
    function, as the reference semantics gives it, on top of the stack, and
    with the storage it started with.  The gas it uses does not depend on the
    gas limit. *)
Theorem compiled_entry_runs ast order1 order2 c name ic f fuel κ v storage :
  order1 ≡ₚ map_to_list (Functions ast) -> order2 ≡ₚ map_to_list (Functions ast) ->
  map_Forall (fun k g => FName g = k /\ block_strings (FBlock g) = []) (Functions ast) ->
  CodegenWithContext ast order1 order2 = Ret c -> len (Instructions c) < 2 ^ 62 ->
  (name, ic) ∈ [("init"%string, 0); ("call"%string, 2)] ->
  Functions ast !! name = Some f -> numeric_entry (AScope ast) f = true -> entry_value fuel κ f = Some v ->
  exists cost, 0 <= cost /\ forall gas, cost + Price (opcode RETURN) <= gas < 2 ^ 64 ->
    exists r' st, StartExecution (with_Persistent storage (NewRuntimeWithIC gas (Instructions c) κ ic))
                  = Some (Ret (r', cost, Some ErrProgramStopped))
      /\ s (Stack r') = st ++ [v] /\ Persistent r' = storage.
Proof.
  intros Ho1 Ho2 Hw Hrun Hlen Hentry Hf Hn Hv. assert (well_named ast) as Hw1 by (intros k g Hg; by apply (Hw k g)).
  assert (map_Forall (fun _ g => block_strings (FBlock g) = []) (Functions ast)) as Hs by (intros k g Hg; by apply (Hw k g)).
  destruct (codegen_generated _ _ _ _ Ho1 Hs Hrun) as (c3 & a & Hgen & Hpatch).
  assert (numeric_entry (AScope ast) f = true) as Hn' by done. unfold numeric_entry in Hn'.
  apply andb_true_iff in Hn' as [[[Hpar%bool_decide_eq_true Hnum]%andb_true_iff _]%andb_true_iff _].
  assert ((name, ic) = ("init"%string, 0) \/ (name, ic) = ("call"%string, 2)) as Hni by (apply list_elem_of_In in Hentry as [<-|[<-|[]]]; auto).
  assert (name = "init"%string \/ name = "call"%string) as Hname by (destruct Hni as [[= -> _]|[= -> _]]; auto).
  destruct (entry_code ast order2 Hw1 Ho2 c3 name f Hgen Hname Hf Hpar Hnum) as (I & x & fi & st & [J ->] & [K HK] & Haddr & Hx).
  rewrite <- !app_assoc in HK. destruct (patch_entries _ _ _ _ HK Hpatch) as (ai & ac & Hai & Hac & Hcode).
  set (I := Instructions start_context ++ J) in *. pose (m := entry_machine (Instructions c) κ storage ic).
  assert (code_at m (length I) (code x ++ return_tail (I ++ code x))) as Hat.
  { exists (entry_table 4 6 ai ac ++ J), K. cbn [m_code m entry_machine]. rewrite Hcode, <- !app_assoc. split; [done|].
    unfold I. by rewrite !length_app. }
  destruct (body_returns (Instructions c) κ storage ic Hlen f _ _ _ I x (length I) fuel v Hn Hv Hx Hat)
    as (Hland & pc & cost & st' & Hret & Hgoes).
  destruct (table_runs (Instructions c) κ storage ic Hlen ai ac _ name ic (length I) Hcode) as [cost0 Hgoes0].
  { unfold len in Haddr. destruct Hni as [[= -> ->]|[= -> ->]]; [left|right]; (split; [done|congruence]). }
  { exact Hland. }
  exists (cost0 + cost). pose proof (goes_trans m _ _ _ _ _ _ _ _ Hgoes0 Hgoes) as Hg. split; [apply Hg|].
  intros gas Hgas. destruct (stops_at_return (Instructions c) κ storage ic Hlen pc _ _ Hret ltac:(destruct Hni as [[= _ ->]|[= _ ->]]; lia) Hg gas Hgas)
    as (r' & HS & Hst & Hp). eauto.
Qed.

End Program.
