(* ===== verification/MgErase.v ===== *)
(** * Positions do not matter (src/marigold/parser.go after lexer.go)

    The lexer gives tokens positions, and the parser keeps some of them in the
    tree.  Erasing them commutes with every function of the parser, so a text is
    read as the program whose tokens it spells: [parse_text] composes
    [Lexer.Lex_written] and [Print.parse_print]. *)

From S2P Require Import Prelude GoLib MgLexer MgAst MgParser MgPrint.

Module Erase.
Import Lexer Parser Print.

(** ** Erasure *)

Definition er (t : Token) : Token := tok (Type_ t) (Value t).

Fixpoint er_e (e : Expression) : Expression :=
  match e with
  | BinaryExpr op l r t => BinaryExpr op (er_e l) (match r with Some r => Some (er_e r) | None => None end) (er t)
  | UnaryExpr op r => UnaryExpr op (match r with Some r => Some (er_e r) | None => None end)
  | CallExpr v args t => CallExpr v (map er_e args) (er t)
  | IdentifierExpr v t => IdentifierExpr v (er t)
  | LiteralExpr v ty t => LiteralExpr v ty (er t)
  | ArrayLiteral args t => ArrayLiteral (map er_e args) (er t)
  | MapLiteral t => MapLiteral (er t)
  | IndexExpr l r t => IndexExpr (er_e l) (er_e r) (er t)
  | SliceExpr l s e t =>
      SliceExpr (er_e l) (match s with Some s => Some (er_e s) | None => None end)
        (match e with Some e => Some (er_e e) | None => None end) (er t)
  end.

Fixpoint er_s (s : Statement) : Statement :=
  let block b := match b with MkBlock l sc => MkBlock (map er_s l) sc end in
  match s with
  | AssignmentStmt ty l r t => AssignmentStmt ty (er_e l) (er_e <$> r) (er t)
  | ReturnStmt e => ReturnStmt (er_e e)
  | IfStmt c b eb t => IfStmt (er_e c) (block b) (match eb with Some eb => Some (block eb) | None => None end) (er t)
  | WhileStmt c b => WhileStmt (er_e c) (block b)
  | BreakStmt t => BreakStmt (er t)
  | ContinueStmt t => ContinueStmt (er t)
  | ExpressionStmt e => ExpressionStmt (er_e e)
  end.

Definition er_b (b : Block) : Block := match b with MkBlock l sc => MkBlock (map er_s l) sc end.

Definition er_f (f : Function_) : Function_ :=
  MkFunction (FName f) (Parameters f) (ParameterTypes f) (ReturnType f) (er_b (FBlock f)).

Definition er_ast (a : Ast) : Ast := MkAst (map er (Tokens a)) (er_f <$> Functions a) (AScope a).

(** ** Parsers that commute with erasure

    [sim r p q]: on erased tokens [q] does what [p] does, up to [r]. *)

Definition er_res {A} (r : A -> A) (x : option (go (list Token * A))) : option (go (list Token * A)) :=
  match x with
  | Some (Ret (ts, a)) => Some (Ret (map er ts, r a))
  | Some (Panic k) => Some (Panic k)
  | None => None
  end.

Definition sim {A} (r : A -> A) (p q : P A) : Prop := forall ts, q (map er ts) = er_res r (p ts).

Lemma sim_ret {A} (r : A -> A) a b : b = r a -> sim r (mret a) (mret b).
Proof. by intros -> ts. Qed.

Lemma sim_bind {A B} (r : A -> A) (r' : B -> B) p q f g :
  sim r p q -> (forall a, sim r' (f a) (g (r a))) -> sim r' (p ≫= f) (q ≫= g).
Proof.
  intros Hp Hf ts. unfold mbind, P_bind. rewrite Hp. destruct (p ts) as [[[ts' a]|k]|]; [apply Hf | done | done].
Qed.

Lemma sim_panic {A} (r : A -> A) k : sim r (panic k) (panic k).
Proof. done. Qed.

Lemma sim_fatal {A} (r : A -> A) m : sim r (logFatal m) (logFatal m).
Proof. done. Qed.

Lemma sim_no_fuel {A} (r : A -> A) : sim r no_fuel no_fuel.
Proof. done. Qed.

Lemma sim_remaining : sim id remaining remaining.
Proof. intros ts. unfold remaining. by rewrite length_map. Qed.

Lemma sim_peek : sim (fmap er) peek peek.
Proof. by intros [|t ts]. Qed.

Lemma sim_consume : sim (fmap er) consume consume.
Proof. by intros [|t ts]. Qed.

Lemma sim_second_is ty : sim id (second_is ty) (second_is ty).
Proof. by intros [|t [|u ts]]. Qed.

Lemma sim_consumeAssert ty : sim er (consumeAssert ty) (consumeAssert ty).
Proof. intros [|t ts]; [done|]. cbn. by destruct (is_tok ty (Type_ t)). Qed.

Lemma sim_tokens : sim (map er) (fun ts => Some (Ret (ts, ts))) (fun ts => Some (Ret (ts, ts))).
Proof. done. Qed.

Lemma sim_some {A B} (r : A -> A) (r' : B -> B) p q f g :
  sim (fmap r) p q -> (forall a, sim (fmap r') (f a) (g (r a))) -> sim (fmap r') (if_some p f) (if_some q g).
Proof. intros Hp Hf. apply (sim_bind (fmap r)); [done|]. intros [a|]; [apply Hf | by apply sim_ret]. Qed.

Create HintDb sim.
#[local] Hint Resolve sim_panic sim_fatal sim_no_fuel sim_remaining sim_peek sim_consume sim_second_is sim_consumeAssert sim_tokens : sim.

(** A result: an option is split, so that both sides go on alike. *)
Ltac sim_intro :=
  let a := fresh "a" in intros a;
  lazymatch type of a with
  | option _ => destruct a
  | res _ _ => destruct a
  | _ => idtac
  end.

Ltac sim_cbn := cbn [fmap option_fmap option_map id mbind option_bind res_bind map er tok Type_ Value].

(** Both sides bind, split on the same token or option, or are done. *)
Ltac sim_step :=
  first
    [ solve [eauto with sim]
    | apply sim_ret; done
    | match goal with
      | |- sim _ (if_some _ _) (if_some _ _) => eapply sim_some; [solve [eauto with sim] | sim_intro; sim_cbn]
      | |- sim _ (_ ≫= _) (_ ≫= _) => eapply sim_bind; [solve [eauto with sim] | sim_intro; sim_cbn]
      | |- sim _ (_ ≫= _) (_ ≫= _) => apply (sim_bind id); [|sim_intro; sim_cbn]
      | |- sim _ (match ?x with _ => _ end) _ => let E := fresh "E" in destruct x eqn:E; sim_cbn; rewrite ?E
      end ].
Ltac sim_solve := repeat sim_step.

Lemma sim_next_is f : sim id (next_is f) (next_is f).
Proof. unfold next_is. sim_solve. Qed.

Lemma sim_peek_type : sim id peek_type peek_type.
Proof. unfold peek_type. sim_solve. Qed.
#[local] Hint Resolve sim_next_is sim_peek_type : sim.

Lemma sim_consumeIf ty : sim (fmap er) (consumeIf ty) (consumeIf ty).
Proof. unfold consumeIf. sim_solve. Qed.
#[local] Hint Resolve sim_consumeIf : sim.

(** ** Types *)

Lemma sim_array_size : sim id array_size array_size.
Proof. unfold array_size. sim_solve. Qed.
#[local] Hint Resolve sim_array_size : sim.

Lemma sim_parseType n : sim id (parseType n) (parseType n).
Proof. induction n as [|n IH]; cbn [parseType]; sim_solve. Qed.
#[local] Hint Resolve sim_parseType : sim.

Lemma sim_parse_type : sim id parse_type parse_type.
Proof. unfold parse_type. sim_solve. Qed.
#[local] Hint Resolve sim_parse_type : sim.

(** ** Expressions *)

Lemma sim_binary_loop n ops operand operand' left : sim (fmap er_e) operand operand' ->
  sim (fmap er_e) (binary_loop n ops operand left) (binary_loop n ops operand' (er_e left)).
Proof.
  intros Ho. revert left. induction n as [|n IH]; intros left; cbn [binary_loop]; sim_solve.
Qed.

Lemma sim_binary_level ops operand operand' : sim (fmap er_e) operand operand' ->
  sim (fmap er_e) (binary_level ops operand) (binary_level ops operand').
Proof. intros Ho. unfold binary_level. sim_solve. by apply sim_binary_loop. Qed.

(** A list that grew by one result. *)
Ltac sim_snoc := match goal with |- context [map ?f ?l ++ [?f ?x]] => change [f x] with (map f [x]); rewrite <- map_app end.

Section Levels.
Context (e e' : P (option Expression)).
Context (He : sim (fmap er_e) e e').
#[local] Hint Resolve He : sim.

Lemma sim_args n args : sim (fmap (map er_e)) (parse_args e n args) (parse_args e' n (map er_e args)).
Proof. revert args. induction n as [|n IH]; intros args; cbn [parse_args]; sim_solve; sim_snoc; apply IH. Qed.

Lemma sim_elements n elements :
  sim (fmap (map er_e)) (parse_elements e n elements) (parse_elements e' n (map er_e elements)).
Proof. revert elements. induction n as [|n IH]; intros elements; cbn [parse_elements]; sim_solve; sim_snoc; sim_solve. Qed.
#[local] Hint Resolve sim_elements sim_args : sim.

Lemma sim_args_nil n : sim (fmap (map er_e)) (parse_args e n []) (parse_args e' n []).
Proof. apply (sim_args n []). Qed.

Lemma sim_elements_nil n : sim (fmap (map er_e)) (parse_elements e n []) (parse_elements e' n []).
Proof. apply (sim_elements n []). Qed.
#[local] Hint Resolve sim_args_nil sim_elements_nil : sim.

Lemma sim_call : sim (fmap er_e) (parseFunctionCall e) (parseFunctionCall e').
Proof. unfold parseFunctionCall. sim_solve. Qed.
#[local] Hint Resolve sim_call : sim.

Lemma sim_array : sim (fmap er_e) (parseArrayLiteral e) (parseArrayLiteral e').
Proof. unfold parseArrayLiteral. sim_solve. Qed.

Lemma sim_map : sim (fmap er_e) parseMapLiteral parseMapLiteral.
Proof. unfold parseMapLiteral. sim_solve. Qed.

Lemma sim_index a : sim (fmap er_e) (parseIndexOrSlice e a) (parseIndexOrSlice e' (er_e a)).
Proof. unfold parseIndexOrSlice. sim_solve. Qed.

Lemma sim_builtin : sim (fmap er_e) (parse_builtin e) (parse_builtin e').
Proof. unfold parse_builtin. sim_solve. Qed.
#[local] Hint Resolve sim_array sim_map sim_index sim_builtin : sim.

Lemma sim_atom : sim (fmap er_e) (parseAtom e) (parseAtom e').
Proof. unfold parseAtom. sim_solve. Qed.
#[local] Hint Resolve sim_atom : sim.

Lemma sim_parseFactor n : sim (fmap er_e) (parseFactor e n) (parseFactor e' n).
Proof. induction n as [|n IH]; cbn [parseFactor]; sim_solve. Qed.
#[local] Hint Resolve sim_parseFactor : sim.

Lemma sim_factor : sim (fmap er_e) (factor e) (factor e').
Proof. unfold factor. sim_solve. Qed.
#[local] Hint Resolve sim_factor : sim.

Lemma sim_parsePower n : sim (fmap er_e) (parsePower e n) (parsePower e' n).
Proof. induction n as [|n IH]; cbn [parsePower]; sim_solve. Qed.
#[local] Hint Resolve sim_parsePower : sim.

Lemma sim_logical_or : sim (fmap er_e) (parseLogicalOr e) (parseLogicalOr e').
Proof. repeat apply sim_binary_level. unfold power. sim_solve. Qed.

End Levels.

Lemma sim_parse_expression n : sim (fmap er_e) (parse_expression n) (parse_expression n).
Proof. induction n as [|n IH]; cbn [parse_expression]; [done|]. by apply sim_logical_or. Qed.
#[local] Hint Resolve sim_parse_expression : sim.

Lemma sim_parseExpression : sim (fmap er_e) parseExpression parseExpression.
Proof. unfold parseExpression. sim_solve. Qed.
#[local] Hint Resolve sim_parseExpression : sim.
#[local] Hint Resolve sim_call sim_index : sim.

(** ** Statements *)

Lemma sim_assignment : sim (fmap er_s) parseAssignment parseAssignment.
Proof. unfold parseAssignment. sim_solve. Qed.

Lemma sim_indexed : sim (fmap er_s) parseIndexedAssignment parseIndexedAssignment.
Proof. unfold parseIndexedAssignment. sim_solve. Qed.

Lemma sim_expect m : sim er_e (expect_expression m) (expect_expression m).
Proof. unfold expect_expression. sim_solve. Qed.
#[local] Hint Resolve sim_assignment sim_indexed sim_expect : sim.

Lemma sim_statement_loop n p l : sim (fmap er_s) p p ->
  sim (map er_s) (statement_loop n p l) (statement_loop n p (map er_s l)).
Proof.
  intros Hp. revert l. induction n as [|n IH]; intros l; cbn [statement_loop]; sim_solve. sim_snoc. apply IH.
Qed.

Lemma sim_block p : sim (fmap er_s) p p -> sim er_b (parse_block p) (parse_block p).
Proof.
  intros Hp. unfold parse_block. eapply sim_bind; [apply sim_remaining|]. intros n.
  eapply sim_bind; [apply (sim_statement_loop _ _ [] Hp)|]. intros l. by apply sim_ret.
Qed.

Lemma sim_braces p : sim (fmap er_s) p p -> sim er_b (parse_braces p) (parse_braces p).
Proof. intros Hp. pose proof (sim_block p Hp). unfold parse_braces. sim_solve. Qed.
#[local] Hint Resolve sim_block sim_braces : sim.

Lemma sim_parse_statement n : sim (fmap er_s) (parse_statement n) (parse_statement n).
Proof. induction n as [|n IH]; cbn [parse_statement]; sim_solve. Qed.
#[local] Hint Resolve sim_parse_statement : sim.

Lemma sim_parseStatement : sim (fmap er_s) parseStatement parseStatement.
Proof. unfold parseStatement. sim_solve. Qed.
#[local] Hint Resolve sim_parseStatement : sim.

Lemma sim_parseBlock : sim er_b parseBlock parseBlock.
Proof. unfold parseBlock. sim_solve. Qed.
#[local] Hint Resolve sim_parseBlock : sim.

(** ** Functions *)

Lemma sim_parameters n names types : sim id (parse_parameters n names types) (parse_parameters n names types).
Proof. revert names types. induction n as [|n IH]; intros names types; cbn [parse_parameters]; sim_solve. Qed.

Lemma sim_parameters_some n names types :
  sim (fmap id) (parse_parameters n names types) (parse_parameters n names types).
Proof. intros ts. rewrite (sim_parameters n names types ts). by destruct (parse_parameters _ _ _ ts) as [[[? []]|]|]. Qed.
#[local] Hint Resolve sim_parameters_some : sim.

Lemma sim_function : sim (fmap er_f) parseFunctionDefinition parseFunctionDefinition.
Proof. unfold parseFunctionDefinition. sim_solve. Qed.
#[local] Hint Resolve sim_function : sim.

Lemma sim_functions n ast : sim er_ast (parse_functions n ast) (parse_functions n (er_ast ast)).
Proof.
  revert ast. induction n as [|n IH]; intros ast; cbn [parse_functions]; sim_solve.
  match goal with fd : Function_ |- _ => specialize (IH (MkAst (Tokens ast) (<[FName fd := fd]> (Functions ast)) (AScope ast))) end.
  unfold er_ast in IH at 2. cbn [Functions Tokens AScope] in IH. by rewrite fmap_insert in IH.
Qed.

(** The parser ignores positions. *)
Lemma Parse_er ts : Parse (map er ts) = option_map (fun x : go Ast => er_ast <$> x) (Parse ts).
Proof.
  unfold Parse. rewrite length_map. pose proof (sim_functions (S (length ts)) (NewAst ts) ts) as Hs.
  replace (er_ast (NewAst ts)) with (NewAst (map er ts)) in Hs by (unfold er_ast, NewAst; cbn; by rewrite fmap_empty).
  rewrite Hs. by destruct (parse_functions _ _ ts) as [[[ts' a]|k]|].
Qed.

(** ** From the text to the program *)

Lemma kind_er ts us : map kind ts = map kind us -> map er ts = map er us.
Proof.
  revert us. induction ts as [|t ts IH]; intros [|u us]; try done.
  intros E. cbn [map] in E |- *. unfold kind in E at 1 3. injection E as E1 E2 E. unfold er at 1 3. by rewrite E1, E2, (IH us E).
Qed.

(** The text of a program. *)
Definition program_text (fds : list Function_) : string := string_of_bytes (written (print_program fds)).

(** C24. A program that the printer can write, and whose tokens can be lexed, is read
    back from its text up to the positions of its tokens. *)
Theorem text_roundtrip fds : forallb wf_function fds = true -> all_readable (print_program fds) = true -> fds <> [] ->
  exists ts ast, Lex (program_text fds) = Some (Ret (ts, None)) /\ Parse ts = Some (Ret ast) /\
    er_f <$> Functions ast = er_f <$> foldl add_function ∅ fds /\ AScope ast = AScope (NewAst []).
Proof.
  intros Hwf Hr Hne. unfold program_text. destruct (print_program fds) as [|t ts] eqn:Ep.
  { exfalso. destruct fds as [|fd fds]; [done|]. discriminate Ep. }
  destruct (lex_text t ts Hr) as (us & EL & Hk). exists us.
  pose proof (Parse_er us) as Hu. rewrite (kind_er _ _ Hk), Parse_er, <- Ep, (parse_written fds Hwf) in Hu.
  destruct (Parse us) as [[ast|k]|]; cbn in Hu; try discriminate. injection Hu as _ Hf Hs.
  exists ast. by split_and!.
Qed.

End Erase.
