(* ===== verification/MgPlain.v ===== *)
(** * Plain programs through the type checker (src/marigold/typechecker.go)

    The fragment the theorem about compiled code is for, as a condition on the
    program that was written: no texts.  The checker fills in scopes and leaves
    the rest alone, and of a plain program it makes one that is numeric. *)

From S2P Require Import Prelude GoLib Config Bytecode Machine MgLexer MgAst MgTypes MgCodegen MgCompile MgCorrect MgProgram MgPrint MgErase.

Module Plain.
Import Compile Correct Program Erase Typecheck.
#[local] Open Scope nat_scope.

(** ** The fragment *)

(** A declared type: a simple one that is not string. *)
Definition plain_type (ty : Type_t) : bool :=
  match ty with Some (SimpleType k) => negb (String.eqb k "string") | _ => false end.

(** The context variables that are texts. *)
Definition is_text (x : string) : bool :=
  match GetBlockchainContextVariable x with Some v => negb (plain_type (VType v)) | None => false end.

Fixpoint plain (e : Expression) : bool :=
  match e with
  | LiteralExpr _ Int _ => true
  | IdentifierExpr x _ => negb (is_text x)
  | BinaryExpr _ l (Some r) _ => plain l && plain r
  | UnaryExpr _ (Some r) => plain r
  | CallExpr f [arg] _ => String.eqb f "emit" && plain arg
  | _ => false
  end.

Definition block_plain (plain_stmt : Statement -> bool) (b : Block) : bool :=
  match b with MkBlock l sc => bool_decide (map_to_list sc = []) && forallb plain_stmt l end.

Fixpoint plain_stmt (s : Statement) : bool :=
  match s with
  | AssignmentStmt ty (IdentifierExpr _ _) (Some e) _ => (bool_decide (ty = None) || plain_type ty) && plain e
  | AssignmentStmt _ _ _ _ => false
  | ReturnStmt e | ExpressionStmt e => plain e
  | BreakStmt _ | ContinueStmt _ => true
  | IfStmt c b eb _ =>
      plain c && block_plain plain_stmt b && match eb with Some eb => block_plain plain_stmt eb | None => true end
  | WhileStmt c b => plain c && block_plain plain_stmt b
  end.

Definition plain_function (f : Function_) : bool :=
  forallb plain_type (ParameterTypes f) && block_plain plain_stmt (FBlock f).

(** ** What the reference semantics does not look at: types, scopes and positions *)

Fixpoint bare_s (s : Statement) : Statement :=
  let block b := match b with MkBlock l _ => MkBlock (map bare_s l) ∅ end in
  match s with
  | AssignmentStmt _ l r t => AssignmentStmt None (er_e l) (er_e <$> r) (er t)
  | ReturnStmt e => ReturnStmt (er_e e)
  | IfStmt c b eb t => IfStmt (er_e c) (block b) (match eb with Some eb => Some (block eb) | None => None end) (er t)
  | WhileStmt c b => WhileStmt (er_e c) (block b)
  | BreakStmt t => BreakStmt (er t)
  | ContinueStmt t => ContinueStmt (er t)
  | ExpressionStmt e => ExpressionStmt (er_e e)
  end.

Definition bare_b (b : Block) : Block := match b with MkBlock l _ => MkBlock (map bare_s l) ∅ end.

Lemma eval_er κ ρ e : eval κ ρ (er_e e) = eval κ ρ e.
Proof.
  induction e as [op l r t IHl IHr|op r IHr|v args t IH|x t|v ty t|args t IH|t|l r t IHl IHr|l s e t IHl IHs IHe]
    using Expression_ind'; cbn [er_e eval]; try done.
  - destruct r as [r|]; [|done]. by rewrite IHl, (IHr r eq_refl).
  - destruct r as [r|]; [|done]. by rewrite (IHr r eq_refl).
  - destruct args as [|a [|? ?]]; try done. cbn [map]. inversion_clear IH as [|? ? Ha _]. by rewrite Ha.
Qed.

Definition runs_bare (κ : VM.BlockchainContext) (f : nat) : Prop :=
  forall s ρ, exec f κ ρ (bare_s s) = exec f κ ρ s.

Lemma exec_all_bare κ f l ρ : runs_bare κ f -> exec_all (exec f κ) (map bare_s l) ρ = exec_all (exec f κ) l ρ.
Proof.
  intros Hf. revert ρ. induction l as [|s l IH]; intros ρ; [done|]. cbn [map exec_all]. rewrite Hf.
  destruct (exec f κ ρ s) as [[ρ' o]|]; [|done]. cbn. destruct o; auto.
Qed.

Lemma exec_bare κ f : runs_bare κ f.
Proof.
  induction f as [|f IH]; intros s ρ; [done|]. cbn [exec].
  destruct s as [ty l r t|e|c [lb sb] eb t|c [lb sb]|t|t|e]; cbn [bare_s]; rewrite ?eval_er; try done.
  - destruct l as [op l0 r0 t0|op r0|v args t0|x t0|v ty0 t0|args t0|t0|l0 r0 t0|l0 s0 e0 t0]; cbn [er_e]; try done.
    destruct r as [e|]; cbn; [by rewrite eval_er | done].
  - destruct (eval κ ρ c) as [v|]; [|done]. cbn. destruct (v =? 0)%Z.
    + destruct eb as [[leb seb]|]; [|done]. by apply exec_all_bare.
    + by apply exec_all_bare.
  - destruct (eval κ ρ c) as [v|]; [|done]. cbn. destruct (v =? 0)%Z; [done|]. rewrite exec_all_bare by done.
    destruct (exec_all _ _ _) as [[ρ' o]|]; [|done]. cbn.
    pose proof (IH (WhileStmt c (MkBlock lb sb)) ρ') as HW. cbn [bare_s] in HW. by rewrite HW.
Qed.

(** Programs that differ in what is not looked at have the same values. *)
Lemma entry_value_bare fuel κ f f' : bare_b (FBlock f') = bare_b (FBlock f) -> entry_value fuel κ f' = entry_value fuel κ f.
Proof.
  intros E. unfold entry_value. destruct (FBlock f) as [l sc], (FBlock f') as [l' sc']. injection E as E. cbn [Statements].
  rewrite <- (exec_all_bare _ _ l), <- (exec_all_bare _ _ l') by apply exec_bare. by rewrite E.
Qed.

(** ** Scopes without texts *)

Lemma plain_not_string ty : plain_type ty = true -> Equals ty StringType = Ret false.
Proof.
  destruct ty as [[k|n e|k v]|]; try done. cbn. intros Hk%negb_true_iff. unfold Equals, method. cbn. by rewrite Hk.
Qed.

Definition ok (sc : variables) : Prop :=
  forall x v, sc !! x = Some v -> is_text x = false -> Equals (VType v) StringType = Ret false.

Lemma ok_empty : ok ∅.
Proof. intros x v Hx. by rewrite lookup_empty in Hx. Qed.

Lemma ok_insert x v sc : (is_text x = false -> Equals (VType v) StringType = Ret false) -> ok sc -> ok (<[x := v]> sc).
Proof. intros Hv Hs y w. rewrite lookup_insert_Some. intros [[<- <-]|[_ Hy]]; [done | by apply Hs]. Qed.

Lemma plain_not_text sc e : Forall ok sc -> plain e = true -> is_string sc e = Some false.
Proof.
  intros Hs He. destruct e as [op l r t|op r|v args t|x t|v ty t|args t|t|l r t|l s e' t]; try done.
  - cbn [is_string plain] in *. apply negb_true_iff in He. induction Hs as [|s sc Hs _ IH]; [done|]. cbn [scope_is_string].
    destruct (s !! x) as [v|] eqn:Ex; [|exact IH]. by rewrite (Hs x v Ex He).
  - by destruct ty.
Qed.

Lemma plain_numeric sc e : Forall ok sc -> plain e = true -> numeric sc e = true.
Proof.
  intros Hs. induction e as [op l r t IHl IHr|op r IHr|v args t IH|x t|v ty t|args t IH|t|l r t IHl IHr|l s e t IHl IHs IHe]
    using Expression_ind'; cbn [plain numeric]; try done.
  - destruct r as [r|]; [|done]. intros [Hl Hr]%andb_true_iff. rewrite IHl, (IHr r eq_refl) by done. cbn [andb].
    apply bool_decide_eq_true. unfold concatenates. rewrite (plain_not_text sc l) by done. by destruct op.
  - destruct r as [r|]; [|done]. by apply IHr.
  - destruct args as [|a [|? ?]]; try done. intros [-> Ha]%andb_true_iff. inversion_clear IH as [|? ? IHa _]. rewrite IHa by done.
    cbn [andb]. by apply bool_decide_eq_true, plain_not_text.
Qed.

(** ** What a check of plain code keeps *)

Definition keeps {A} (p : T A) (Q : A -> Prop) : Prop :=
  forall sc sc' a, p sc = Ret (sc', a) -> Forall ok sc -> Forall ok sc' /\ Q a.

Lemma plain_keeps_ret {A} (a : A) (Q : A -> Prop) : Q a -> keeps (mret a) Q.
Proof. intros HQ sc sc' a' E Hs. apply Ret_inj in E. assert (sc' = sc /\ a' = a) as [-> ->] by (split; congruence). done. Qed.

Lemma plain_keeps_bind {A B} (p : T A) (f : A -> T B) Q Q' :
  keeps p Q -> (forall a, Q a -> keeps (f a) Q') -> keeps (p ≫= f) Q'.
Proof.
  intros Hp Hf sc sc' b E Hs. apply go_bind_ret_inv in E as ([sc1 a] & E1 & E2).
  destruct (Hp sc sc1 a E1 Hs) as [H1 HQ]. by apply (Hf a HQ sc1).
Qed.

Lemma plain_keeps_of_go {A} (c : go A) (Q : A -> Prop) : (forall a, c = Ret a -> Q a) -> keeps (of_go c) Q.
Proof.
  intros HQ sc sc' a E Hs. apply go_bind_ret_inv in E as (a' & E1 & E2). apply Ret_inj in E2.
  assert (sc' = sc /\ a' = a) as [-> ->] by (split; congruence). auto.
Qed.

Lemma plain_keeps_panic {A} m (Q : A -> Prop) : keeps (panic m) Q.
Proof. done. Qed.

Lemma keeps_fatal {A} m ts (Q : A -> Prop) : keeps (fatal m ts) Q.
Proof.
  induction ts as [|t ts IH]; [apply plain_keeps_panic|]. cbn [fatal]. apply (plain_keeps_bind _ _ (fun _ => True)); [|done].
  by apply plain_keeps_of_go.
Qed.

Lemma plain_keeps_get : keeps get (Forall ok).
Proof. intros sc sc' a E Hs. apply Ret_inj in E. assert (sc' = sc /\ a = sc) as [-> ->] by (split; congruence). done. Qed.

Lemma keeps_declare x ty : plain_type ty = true -> keeps (declare x ty) (fun _ => True).
Proof.
  intros Ht sc sc' a E Hs. split; [|done]. unfold declare in E. injection E as <- _.
  destruct Hs as [|s sc Hs Hsc]; [constructor|]. constructor; [|done]. apply ok_insert; [intros _; by apply plain_not_string | done].
Qed.

Lemma keeps_load_global x v : GetBlockchainContextVariable x = Some v -> keeps (load_global x v) (fun _ => True).
Proof.
  intros Hx sc sc' a E Hs. split; [|done]. unfold load_global in E. injection E as <- _.
  assert (is_text x = false -> Equals (VType v) StringType = Ret false) as Hv.
  { unfold is_text. rewrite Hx. intros Hp%negb_false_iff. by apply plain_not_string. }
  induction Hs as [|s sc Hs Hsc IH]; [constructor|]. cbn [set_global].
  destruct sc; [constructor; [by apply ok_insert | constructor] | by constructor].
Qed.

Lemma keeps_in_scope {A} scope (c : T A) Q : ok scope -> keeps c Q -> keeps (in_scope scope c) (fun x => ok x.1 /\ Q x.2).
Proof.
  intros Ho Hc sc sc' a E Hs. unfold in_scope in E. apply go_bind_ret_inv in E as ([sc1 a1] & E1 & E2).
  destruct (Hc _ _ _ E1 (Forall_cons_2 _ _ _ Ho Hs)) as [H1 HQ]. apply Ret_inj in E2. injection E2 as <- <-.
  destruct H1 as [|s sc1 H0 H1]; (split; [done|]); by split.
Qed.

Create HintDb keeps.
#[local] Hint Resolve plain_keeps_panic keeps_fatal plain_keeps_get : keeps.

Ltac keeps_step :=
  first
    [ solve [eauto with keeps]
    | apply plain_keeps_ret; solve [eauto]
    | apply plain_keeps_of_go; solve [eauto]
    | eapply (plain_keeps_bind _ _ (fun _ => True)); [|intros ? _]
    | match goal with |- keeps (match ?x with _ => _ end) _ => destruct x eqn:? end ].
Ltac keeps_solve := repeat keeps_step.

Section Check.
Context (F : gmap string Function_).

Lemma keeps_builtin name t : keeps (check_builtin name t) (fun _ => True).
Proof. unfold check_builtin. keeps_solve. Qed.

Lemma keeps_identifier x : keeps (check_identifier F x) (fun _ => True).
Proof.
  unfold check_identifier. apply (plain_keeps_bind _ _ (fun _ => True)); [by intros sc sc' a [= <- _]|]. intros scs _.
  destruct (findVariable scs x); [by keeps_solve|]. destruct (GetBlockchainContextVariable x) as [v|] eqn:E; [|keeps_solve].
  apply (plain_keeps_bind _ _ (fun _ => True)); [by apply keeps_load_global | intros _ _; keeps_solve].
Qed.
#[local] Hint Resolve keeps_builtin keeps_identifier : keeps.

Lemma keeps_expression e : plain e = true -> keeps (typecheckExpression F e) (fun _ => True).
Proof.
  induction e as [op l r t IHl IHr|op r IHr|v args t IH|x t|v ty t|args t IH|t|l r t IHl IHr|l s e t IHl IHs IHe]
    using Expression_ind'; cbn [plain typecheckExpression]; try done.
  - destruct r as [r|]; [|done]. intros [Hl Hr]%andb_true_iff. specialize (IHr r eq_refl Hr). specialize (IHl Hl).
    unfold check_binary. cbn [check_operand]. keeps_solve.
  - destruct r as [r|]; [|done]. intros Hr. specialize (IHr r eq_refl Hr). unfold check_unary. cbn [check_operand]. keeps_solve.
  - destruct args as [|a [|? ?]]; try done. intros [->%String.eqb_eq Ha]%andb_true_iff. inversion_clear IH as [|? ? IHa _].
    specialize (IHa Ha). unfold check_call. cbn -[typecheckExpression check_builtin]. keeps_solve.
  - intros _. apply keeps_identifier.
  - intros _. keeps_solve.
Qed.
#[local] Hint Resolve keeps_expression : keeps.

Lemma plain_declared ty rty e ty' rty' : plain_type ty = true -> declared_types ty rty e = Ret (Ok (ty', rty')) -> ty' = ty.
Proof.
  intros Hty E. unfold declared_types in E. destruct ty as [[k|n el|k v]|]; try discriminate Hty.
  apply Ret_inj in E. by injection E as <- _.
Qed.

Lemma keeps_declaration ty x e : plain_type ty = true -> plain e = true ->
  keeps (typecheck_declaration F ty x (Some e)) (fun _ => True).
Proof.
  intros Hty He. unfold typecheck_declaration.
  apply (plain_keeps_bind _ _ (fun _ => True)); [by intros sc sc' a [= <- _]|]. intros scs _.
  destruct (bool_decide _); [apply plain_keeps_panic|].
  apply (plain_keeps_bind _ _ (fun ty' => ty' = ty)).
  - eapply (plain_keeps_bind _ _ (fun _ => True)); [by apply keeps_expression|]. intros rty _.
    eapply plain_keeps_bind; [apply (plain_keeps_of_go _ (fun x => forall ty' rty', x = Ok (ty', rty') -> ty' = ty))|].
    { intros [[ty1 rty1]|] E ty' rty'; [|done]. intros [= <- <-]. by apply (plain_declared ty rty e ty1 rty1). }
    intros [[ty1 rty1]|] Hd; [|apply plain_keeps_panic]. specialize (Hd _ _ eq_refl) as ->.
    apply (plain_keeps_bind _ _ (fun _ => True)); [by apply plain_keeps_of_go|]. intros [|] _; [by apply plain_keeps_ret | apply keeps_fatal].
  - intros ty' ->. apply (plain_keeps_bind _ _ (fun _ => True)); [by apply keeps_declare | intros _ _; by apply plain_keeps_ret].
Qed.

Lemma keeps_assignment x t e : plain e = true -> keeps (typecheck_assignment F (IdentifierExpr x t) (Some e)) (fun _ => True).
Proof.
  intros He. unfold typecheck_assignment.
  apply (plain_keeps_bind _ _ (fun _ => True)); [by intros sc sc' a [= <- _]|]. intros scs _. keeps_solve.
Qed.

Lemma keeps_condition c : plain c = true -> keeps (typecheck_condition F c) (fun _ => True).
Proof. intros Hc. unfold typecheck_condition. keeps_solve. Qed.

Lemma keeps_return e ty : plain e = true -> keeps (typecheck_return F e ty) (fun _ => True).
Proof. intros He. unfold typecheck_return. keeps_solve. Qed.
#[local] Hint Resolve keeps_declaration keeps_assignment keeps_condition keeps_return : keeps.

(** What the checker makes of a statement or block: the same but for types and
    scopes, and numeric wherever the scopes around it have no texts. *)
Definition good (s s' : Statement) : Prop :=
  bare_s s' = bare_s s /\ forall sc, Forall ok sc -> numeric_stmt sc s' = true.

Definition good_block (b b' : Block) : Prop :=
  bare_b b' = bare_b b /\ forall sc, Forall ok sc -> block_numeric numeric_stmt sc b' = true.

Definition checks_plain (s : Statement) : Prop :=
  forall rt loop, plain_stmt s = true -> keeps (typecheck_statement F rt loop s) (good s).

Lemma keeps_body rt loop l sc0 : Forall checks_plain l -> forallb plain_stmt l = true -> ok sc0 ->
  keeps (typecheck_block F rt loop (MkBlock l sc0)) (good_block (MkBlock l sc0)).
Proof.
  intros Hl Hp Hsc0. cbn [typecheck_block check_block]. eapply plain_keeps_bind.
  - apply (keeps_in_scope _ _ (Forall2 good l)); [done|].
    induction Hl as [|s l Hs _ IH]; [by apply plain_keeps_ret|]. cbn [forallb] in Hp. apply andb_true_iff in Hp as [Hp1 Hp2].
    eapply plain_keeps_bind; [by apply Hs|]. intros s' Hs'. eapply plain_keeps_bind; [by apply IH|]. intros l' Hl'. apply plain_keeps_ret. by constructor.
  - intros [sc' l'] [Hok Hl']. apply plain_keeps_ret. cbn [fst snd] in *. split.
    + unfold bare_b. f_equal. clear Hl Hp. induction Hl' as [|s s' l l' [Hs _] _ IH]; [done|]. cbn [map]. by rewrite Hs, IH.
    + intros sc Hsc. cbn [block_numeric]. apply forallb_forall. intros s' Hs'.
      assert (Forall ok (sc' :: sc)) as Hscs by by constructor.
      clear Hl Hp. induction Hl' as [|s s1 l l' [_ Hs] _ IH]; [done|]. destruct Hs' as [->|Hs']; [by apply Hs | by apply IH].
Qed.

Lemma keeps_block rt loop b : all_block checks_plain b -> block_plain plain_stmt b = true ->
  keeps (typecheck_block F rt loop b) (good_block b).
Proof.
  destruct b as [l sc0]. unfold all_block. cbn [Statements block_plain].
  intros Hl [Hsc%bool_decide_eq_true Hp]%andb_true_iff. apply map_to_list_empty_iff in Hsc as ->.
  by apply keeps_body, ok_empty.
Qed.

Lemma statement_checks_plain s : checks_plain s.
Proof.
  induction s as [ty l r t|e|c b eb t Hb Heb|c b Hb|t|t|e] using Statement_ind'; intros rt loop Hp; cbn [plain_stmt typecheck_statement] in *.
  - destruct l as [op l0 r0 t0|op r0|v args t0|x t0|v ty0 t0|args t0|t0|l0 r0 t0|l0 s0 e0 t0]; try done.
    destruct r as [e|]; [|done]. apply andb_true_iff in Hp as [Hty He].
    assert (forall ty', good (AssignmentStmt ty (IdentifierExpr x t0) (Some e) t) (AssignmentStmt ty' (IdentifierExpr x t0) (Some e) t)) as Hg.
    { intros ty'. split; [done|]. intros sc Hsc. by apply plain_numeric. }
    destruct ty as [ty|]; cbn [target_name].
    + apply (plain_keeps_bind _ _ (fun _ => True)); [by apply plain_keeps_of_go|]. intros x' _.
      apply (plain_keeps_bind _ _ (fun _ => True)); [by apply keeps_declaration | intros ty' _; by apply plain_keeps_ret].
    + apply (plain_keeps_bind _ _ (fun _ => True)); [by apply keeps_assignment | intros _ _; by apply plain_keeps_ret].
  - apply (plain_keeps_bind _ _ (fun _ => True)); [by apply keeps_return | intros _ _; apply plain_keeps_ret].
    split; [done|]. intros sc Hsc. by apply plain_numeric.
  - apply andb_true_iff in Hp as [[Hc Hpb]%andb_true_iff Hpe].
    apply (plain_keeps_bind _ _ (fun _ => True)); [by apply keeps_condition|]. intros _ _.
    eapply plain_keeps_bind; [by apply (keeps_block rt loop b)|]. intros b' [Hb1 Hb2].
    destruct eb as [eb|].
    + eapply plain_keeps_bind; [by apply (keeps_block rt loop eb (Heb eb eq_refl))|]. intros eb' [He1 He2]. apply plain_keeps_ret. split.
      * cbn [bare_s]. fold (bare_b b) (bare_b b') (bare_b eb) (bare_b eb'). by rewrite Hb1, He1.
      * intros sc Hsc. cbn [numeric_stmt]. by rewrite plain_numeric, Hb2, He2.
    + apply plain_keeps_ret. split.
      * cbn [bare_s]. fold (bare_b b) (bare_b b'). by rewrite Hb1.
      * intros sc Hsc. cbn [numeric_stmt]. by rewrite plain_numeric, Hb2.
  - apply andb_true_iff in Hp as [Hc Hpb].
    apply (plain_keeps_bind _ _ (fun _ => True)); [by apply keeps_condition|]. intros _ _.
    eapply plain_keeps_bind; [by apply (keeps_block rt true b)|]. intros b' [Hb1 Hb2]. apply plain_keeps_ret. split.
    + cbn [bare_s]. fold (bare_b b) (bare_b b'). by rewrite Hb1.
    + intros sc Hsc. cbn [numeric_stmt]. by rewrite plain_numeric, Hb2.
  - destruct loop; [by apply plain_keeps_ret | apply plain_keeps_panic].
  - destruct loop; [by apply plain_keeps_ret | apply plain_keeps_panic].
  - apply (plain_keeps_bind _ _ (fun _ => True)); [by apply keeps_expression | intros _ _; apply plain_keeps_ret].
    split; [done|]. intros sc Hsc. by apply plain_numeric.
Qed.

(** ** Functions *)

Lemma ok_parameters names types sc sc' : forallb plain_type types = true -> ok sc ->
  declare_parameters names types sc = Ret sc' -> ok sc'.
Proof.
  revert types sc. induction names as [|x names IH]; intros types sc Ht Hs E; cbn [declare_parameters] in E.
  { by apply Ret_inj in E as <-. }
  destruct (bool_decide _); [done|]. destruct types as [|ty types]; [done|]. cbn [forallb] in Ht.
  apply andb_true_iff in Ht as [Ht1 Ht2]. apply (IH _ _ Ht2) in E; [done|]. apply ok_insert; [intros _; by apply plain_not_string | done].
Qed.

Definition good_function (f f' : Function_) : Prop :=
  FName f' = FName f /\ Parameters f' = Parameters f /\ good_block (FBlock f) (FBlock f').

Lemma keeps_function f : plain_function f = true -> keeps (typecheckFunctionDefinition F f) (good_function f).
Proof.
  unfold plain_function, typecheckFunctionDefinition. destruct (FBlock f) as [l sc] eqn:Eb. cbn [Scope Statements block_plain].
  intros [Ht [Hsc%bool_decide_eq_true Hl]%andb_true_iff]%andb_true_iff. apply map_to_list_empty_iff in Hsc as ->.
  eapply plain_keeps_bind; [apply (plain_keeps_of_go _ ok); intros sc' E; by apply (ok_parameters _ _ _ _ Ht ok_empty E)|].
  intros sc' Hsc'. eapply plain_keeps_bind; [apply (keeps_body _ _ l sc'); [|done|done]|].
  { apply Forall_forall. intros s _. apply statement_checks_plain. }
  intros b' Hb'. apply plain_keeps_ret. unfold good_function. rewrite Eb. split_and!; [done | done | exact Hb'].
Qed.

Definition functions_checked (l : list (string * Function_)) (m m' : gmap string Function_) : Prop :=
  (forall name, name ∉ l.*1 -> m' !! name = m !! name) /\
  forall name f, (name, f) ∈ l -> exists f', m' !! name = Some f' /\ good_function f f'.

Lemma keeps_functions l : NoDup l.*1 -> Forall (fun kv => plain_function kv.2 = true) l ->
  forall m, keeps (typecheck_functions F l m) (functions_checked l m).
Proof.
  intros Hd Hl. induction Hl as [|[name f] l Hf _ IH]; intros m; cbn [typecheck_functions].
  { apply plain_keeps_ret. split; [done|]. intros name f Hin. by apply elem_of_nil in Hin. }
  cbn [fmap list_fmap fst] in Hd. apply NoDup_cons in Hd as [Hn Hd].
  eapply plain_keeps_bind; [by apply keeps_function|]. intros f' Hf'.
  intros sc sc' m' E Hs. destruct (IH Hd _ _ _ _ E Hs) as (Hs' & H1 & H2). split; [done|]. split.
  - intros k Hk. cbn [fmap list_fmap fst] in Hk. apply not_elem_of_cons in Hk as [Hne Hk]. rewrite H1, lookup_insert_ne by done. done.
  - intros k g [[= -> ->]|Hin]%elem_of_cons; [|by apply H2]. exists f'. rewrite H1, lookup_insert_eq by done. done.
Qed.

End Check.

(** A plain program is checked to the same program with scopes that have no texts. *)
Lemma Typecheck_plain order ast ast' :
  order (Functions ast) ≡ₚ map_to_list (Functions ast) ->
  map_Forall (fun _ f => plain_function f = true) (Functions ast) -> ok (AScope ast) ->
  Typecheck order ast = Ret ast' ->
  ok (AScope ast') /\
  (forall name f', Functions ast' !! name = Some f' -> exists f, Functions ast !! name = Some f /\ good_function f f') /\
  forall name f, Functions ast !! name = Some f -> exists f', Functions ast' !! name = Some f' /\ good_function f f'.
Proof.
  intros Ho Hp Hs E. unfold Typecheck in E.
  apply go_bind_ret_inv in E as (f1 & _ & E). apply go_bind_ret_inv in E as (f2 & _ & E).
  apply go_bind_ret_inv in E as (u1 & _ & E). apply go_bind_ret_inv in E as (u2 & _ & E).
  apply go_bind_ret_inv in E as ([sc m'] & E & E2). apply Ret_inj in E2 as <-. cbn [AScope Functions fst snd].
  assert (NoDup (order (Functions ast)).*1) as Hd by (rewrite Ho; apply NoDup_fst_map_to_list).
  assert (Forall (fun kv : string * Function_ => plain_function kv.2 = true) (order (Functions ast))) as Hl.
  { rewrite Ho. apply Forall_forall. intros [k g] Hin%elem_of_map_to_list. by apply (Hp k g). }
  destruct (keeps_functions _ _ Hd Hl _ _ _ _ E (Forall_cons_2 _ _ _ Hs (Forall_nil_2 _))) as (Hs' & H1 & H2).
  assert (forall name f, Functions ast !! name = Some f -> exists f', m' !! name = Some f' /\ good_function f f') as Hf.
  { intros name f Ef. apply H2. rewrite Ho. by apply elem_of_map_to_list. }
  split_and!; [| |done].
  - destruct Hs' as [|sc0 sc Hs0 _]; [apply ok_empty | done].
  - intros name f' Hf'. destruct (Functions ast !! name) as [f|] eqn:Ef.
    + destruct (Hf _ _ Ef) as (g & Hg & Hgood). exists f. split; [done|]. by simplify_eq.
    + rewrite H1 in Hf'; [congruence|]. intros (kv & -> & Hin)%list_elem_of_fmap. rewrite Ho in Hin.
      destruct kv as [k g]. apply elem_of_map_to_list in Hin. cbn in Ef. congruence.
Qed.

(** ** The conditions of the theorem about compiled code *)

Lemma depth_er e : depth (er_e e) = depth e.
Proof.
  induction e as [op l r t IHl IHr|op r IHr|v args t IH|x t|v ty t|args t IH|t|l r t IHl IHr|l s e t IHl IHs IHe]
    using Expression_ind'; cbn [er_e depth]; try done.
  - destruct r as [r|]; [|done]. by rewrite IHl, (IHr r eq_refl).
  - destruct r as [r|]; [|done]. by rewrite (IHr r eq_refl).
  - destruct args as [|a [|? ?]]; try done. cbn [map]. by inversion_clear IH.
Qed.

Definition sizes_bare (s : Statement) : Prop := stmt_depth (bare_s s) = stmt_depth s /\ stores (bare_s s) = stores s.

Lemma block_sizes_bare b : all_block sizes_bare b ->
  block_depth stmt_depth (bare_b b) = block_depth stmt_depth b /\ block_stores stores (bare_b b) = block_stores stores b.
Proof.
  destruct b as [l sc]. unfold all_block. cbn [Statements bare_b block_depth block_stores].
  induction 1 as [|s l [H1 H2] _ [IH1 IH2]]; [done|]. cbn [map]. by rewrite H1, H2, IH1, IH2.
Qed.

Lemma statement_sizes_bare s : sizes_bare s.
Proof.
  induction s as [ty l r t|e|c b eb t Hb Heb|c b Hb|t|t|e] using Statement_ind'; unfold sizes_bare; cbn [bare_s stmt_depth stores];
    rewrite ?depth_er; try done.
  - destruct r as [e|]; cbn; rewrite ?depth_er; by destruct l.
  - destruct (block_sizes_bare b Hb) as [B1 B2]. fold (bare_b b). rewrite B1, B2.
    destruct eb as [eb|]; [|done]. destruct (block_sizes_bare eb (Heb eb eq_refl)) as [E1 E2]. fold (bare_b eb). by rewrite E1, E2.
  - destruct (block_sizes_bare b Hb) as [B1 B2]. fold (bare_b b). by rewrite B1, B2.
Qed.

Lemma sizes_equal b b' : bare_b b' = bare_b b ->
  block_depth stmt_depth b' = block_depth stmt_depth b /\ block_stores stores b' = block_stores stores b.
Proof.
  assert (forall b, all_block sizes_bare b) as Ha by (intros b0; apply Forall_forall; intros s _; apply statement_sizes_bare).
  intros E. destruct (block_sizes_bare b (Ha b)) as [<- <-], (block_sizes_bare b' (Ha b')) as [<- <-]. by rewrite E.
Qed.

Lemma ends_closed_bare b : ends_closed (bare_b b) = ends_closed b.
Proof.
  destruct b as [l sc]. unfold ends_closed, bare_b. cbn [Statements]. change (map bare_s l) with (bare_s <$> l). rewrite fmap_last.
  by destruct (last l) as [[]|].
Qed.

(** An entry function: plain, without parameters, not ending in a conditional, and
    small enough for the stack. *)
Definition plain_entry (f : Function_) : bool :=
  plain_function f && bool_decide (Parameters f = []) && ends_closed (FBlock f)
  && (Z.of_nat (block_stores stores (FBlock f)) + Z.of_nat (block_depth stmt_depth (FBlock f)) <? AVMMaxStackSize)%Z.

Lemma checked_entry globals f f' : ok globals -> plain_entry f = true -> good_function f f' ->
  numeric_entry globals f' = true /\ forall fuel κ, entry_value fuel κ f' = entry_value fuel κ f.
Proof.
  intros Hg Hp (_ & Hpar & Hb & Hn). split; [|intros; by apply entry_value_bare].
  unfold plain_entry in Hp. apply andb_true_iff in Hp as [[[_ Hpf]%andb_true_iff He]%andb_true_iff Hs].
  destruct (sizes_equal _ _ Hb) as [Hd Hst]. unfold numeric_entry. rewrite Hpar, Hpf, Hn by by constructor.
  rewrite <- ends_closed_bare, Hb, ends_closed_bare, He, Hd, Hst, Hs. done.
Qed.

(** Numeric code has no string literals. *)
Lemma numeric_strings e : forall sc, numeric sc e = true -> expression_strings e = [].
Proof.
  induction e as [op l r t IHl IHr|op r IHr|v args t IH|x t|v ty t|args t IH|t|l r t IHl IHr|l s e t IHl IHs IHe]
    using Expression_ind'; intros sc; cbn [numeric expression_strings]; try done.
  - destruct r as [r|]; [|done]. intros [[Hl Hr]%andb_true_iff _]%andb_true_iff. by rewrite (IHl sc Hl), (IHr r eq_refl sc Hr).
  - destruct r as [r|]; [|done]. by apply (IHr r eq_refl).
  - destruct args as [|a [|? ?]]; try done. intros [[_ Ha]%andb_true_iff _]%andb_true_iff. cbn [map concat].
    inversion_clear IH as [|? ? IHa _]. by rewrite (IHa sc Ha).
  - by destruct ty.
Qed.

Definition no_strings (s : Statement) : Prop := forall sc, numeric_stmt sc s = true -> statement_strings s = [].

Lemma block_no_strings b sc : all_block no_strings b -> block_numeric numeric_stmt sc b = true -> block_strings b = [].
Proof.
  destruct b as [l sc0]. unfold all_block. cbn [Statements block_numeric block_strings]. induction 1 as [|s l Hs _ IH]; [done|].
  cbn [forallb]. intros [H1 H2]%andb_true_iff. by rewrite (Hs _ H1), IH.
Qed.

Lemma statement_no_strings s : no_strings s.
Proof.
  induction s as [ty l r t|e|c b eb t Hb Heb|c b Hb|t|t|e] using Statement_ind'; intros sc; cbn [numeric_stmt statement_strings]; try done.
  - destruct l as [op l0 r0 t0|op r0|v args t0|x t0|v ty0 t0|args t0|t0|l0 r0 t0|l0 s0 e0 t0]; try done.
    destruct r as [e|]; [|done]. apply numeric_strings.
  - apply numeric_strings.
  - intros [[Hc Hnb]%andb_true_iff Hne]%andb_true_iff. rewrite (numeric_strings _ _ Hc), (block_no_strings _ _ Hb Hnb).
    destruct eb as [eb|]; [|done]. by rewrite (block_no_strings _ _ (Heb eb eq_refl) Hne).
  - intros [Hc Hnb]%andb_true_iff. by rewrite (numeric_strings _ _ Hc), (block_no_strings _ _ Hb Hnb).
  - apply numeric_strings.
Qed.

Lemma good_no_strings f f' : good_function f f' -> block_strings (FBlock f') = [].
Proof.
  intros (_ & _ & _ & Hn). apply (block_no_strings _ []); [|by apply Hn].
  apply Forall_forall. intros s _. apply statement_no_strings.
Qed.

End Plain.
