(* ===== verification/MgTool.v ===== *)
(** * The compiler from text to code (src/cmd/marigold/main.go, src/marigold/utils.go)

    The tool's pipeline, from the text of a contract to its instructions, and the
    theorem about all of it: the text of a plain program compiles to code that
    computes what the program says. *)

From S2P Require Import Prelude GoLib Config Bytecode Machine Opcodes Interp MgLexer MgAst MgParser MgParserSpec MgPrint MgTypes MgCodegen MgCompile MgCorrect MgProgram MgErase MgPlain.

Module Tool.
Import VM Exec.
Import Lexer Parser Print Codegen Compile Correct Program Erase Typecheck Plain.

(** What [parseFile] finds: panics end the tool. *)
Inductive report :=
  | LexError (e : lex_error)
  | Compiled (ast : Ast) (ctx : CodegenContext).

(** The functions are iterated three times, in any order. *)
Record orders := MkOrders {
  check_order : gmap string Function_ -> list (string * Function_);
  collect_order : gmap string Function_ -> list (string * Function_);
  generate_order : gmap string Function_ -> list (string * Function_)
}.

Definition orders_lawful (o : orders) : Prop :=
  forall m, check_order o m ≡ₚ map_to_list m /\ collect_order o m ≡ₚ map_to_list m /\ generate_order o m ≡ₚ map_to_list m.

Definition parseFile (o : orders) (content : string) : option (go report) :=
  match Lex content with
  | None => None
  | Some (Panic k) => Some (Panic k)
  | Some (Ret (_, Some e)) => Some (Ret (LexError e))
  | Some (Ret (tokens, None)) =>
      match Parse tokens with
      | None => None
      | Some parsed => Some (
          ast ← parsed;
          ast ← Typecheck (check_order o) ast;
          ctx ← CodegenWithContext ast (collect_order o (Functions ast)) (generate_order o (Functions ast));
          Ret (Compiled ast ctx))
      end
  end.

(** The tool ends on every text: no fuel runs out. *)
Lemma parseFile_total o content : parseFile o content <> None.
Proof.
  unfold parseFile. destruct (Lex_total content) as (x & Ex & _). rewrite Ex. destruct x as [[ts [e|]]|k]; try done.
  destruct (ParserSpec.Parse_ends ts) as [y Ey]. by rewrite Ey.
Qed.

(** ** The functions of a program *)

(** The parser files each function under its name, and leaves the global scope. *)
Lemma parse_functions_names n : forall ast ts ts' ast',
  map_Forall (fun k g => FName g = k) (Functions ast) ->
  parse_functions n ast ts = Some (Ret (ts', ast')) ->
  map_Forall (fun k g => FName g = k) (Functions ast') /\ AScope ast' = AScope ast.
Proof.
  induction n as [|n IH]; intros ast ts ts' ast' Hf E; [done|]. cbn [parse_functions] in E.
  unfold mbind, P_bind at 1 in E. cbn [peek] in E. unfold peek in E.
  destruct (head ts) as [t|]; [|by injection E as _ <-].
  destruct (is_tok Define (Type_ t)); [|done]. unfold P_bind in E.
  destruct (parseFunctionDefinition ts) as [[[ts1 [fd|]]|k]|]; try done.
  apply IH in E as [H1 H2]; [by split|]. cbn [Functions]. by apply map_Forall_insert_2.
Qed.

Lemma ok_globals : ok (AScope (NewAst [])).
Proof.
  unfold NewAst. cbn [AScope]. apply ok_insert; [done|]. intros x v Hx _. by apply lookup_singleton_Some in Hx as [<- <-].
Qed.

Lemma Parse_names ts parsed : Parse ts = Some (Ret parsed) ->
  map_Forall (fun k g => FName g = k) (Functions parsed) /\ AScope parsed = AScope (NewAst []).
Proof.
  unfold Parse. destruct (parse_functions _ _ _) as [[[ts' ast]|k]|] eqn:E; intros H; simplify_eq.
  apply parse_functions_names in E as [H1 H2]; [|apply map_Forall_empty]. by rewrite H2.
Qed.

(** C21. From text to run.  Let the tool compile a text whose functions, as parsed, are
    all plain: variables of simple types other than string, integer literals, operators
    and context variables other than texts; assignments, conditionals, loops, returns and
    the emit of a value; no calls between them and no storage.  Let the function
    named init or call be an entry function, which takes no parameters, does not end in a
    conditional and is small enough for the stack, and let the reference semantics give
    it a value.  Then executing the code at the function's entry point stops with that
    value on top of the stack, leaves the storage alone, and uses an amount of gas that
    does not depend on the limit. *)
Theorem compiled_text_correct o content ts parsed ast c name ic f fuel κ v storage :
  orders_lawful o -> Lex content = Some (Ret (ts, None)) -> Parse ts = Some (Ret parsed) ->
  parseFile o content = Some (Ret (Compiled ast c)) -> len (Instructions c) < 2 ^ 62 ->
  map_Forall (fun _ g => plain_function g = true) (Functions parsed) ->
  (name, ic) ∈ [("init"%string, 0); ("call"%string, 2)] -> Functions parsed !! name = Some f ->
  plain_entry f = true -> entry_value fuel κ f = Some v ->
  exists cost, 0 <= cost /\ forall gas, cost + Price (opcode RETURN) <= gas < 2 ^ 64 ->
    exists r' st, StartExecution (with_Persistent storage (NewRuntimeWithIC gas (Instructions c) κ ic))
                  = Some (Ret (r', cost, Some ErrProgramStopped))
      /\ s (Stack r') = st ++ [v] /\ Persistent r' = storage.
Proof.
  intros Ho EL EP E Hlen Hp Hic Hf He Hv. destruct (Parse_names ts parsed EP) as [Hnames Hs].
  unfold parseFile in E. rewrite EL, EP in E. injection E as E. cbn [mbind go_bind] in E.
  apply go_bind_ret_inv in E as (ast' & Et & E). apply go_bind_ret_inv in E as (c' & Ec & E). apply Ret_inj in E.
  injection E as -> ->.
  destruct (Typecheck_plain (check_order o) parsed ast) as (Hok & Hback & Hforth); [apply Ho|done|rewrite Hs; apply ok_globals|done|].
  assert (map_Forall (fun k g => FName g = k /\ block_strings (FBlock g) = []) (Functions ast)) as Hnamed.
  { intros k g' Hg'. destruct (Hback k g' Hg') as (g0 & Hg0 & Hgood). split; [|by apply (good_no_strings g0)].
    destruct Hgood as [-> _]. by apply (Hnames k). }
  destruct (Hforth name f Hf) as (f' & Hf' & Hgood).
  destruct (checked_entry (AScope ast) f f' Hok He Hgood) as [Hnum Hval]. destruct (Ho (Functions ast)) as (_ & Ho1 & Ho2).
  apply (compiled_entry_runs ast _ _ c name ic f' fuel κ v storage Ho1 Ho2 Hnamed Ec Hlen Hic Hf' Hnum). by rewrite Hval.
Qed.

(** ** Symbol tables (utils.go)

    The lines that are printed, as data; [order] is the iteration over a scope. *)

Inductive line :=
  | GlobalScope
  | FunctionScope (name : string)
  | NestedBlockScope (indent : string)
  | ElseBlockScope (indent : string)
  | EmptyScope (indent : string)
  | VariableLine (indent name : string) (variable : Variable_).

Section SymbolTables.
Context (order : variables -> list (string * Variable_)).
Context (Horder : forall sc, order sc ≡ₚ map_to_list sc).

Definition printScope (scope : variables) (indent : string) : list line :=
  match order scope with
  | [] => [EmptyScope indent]
  | l => map (fun kv => VariableLine indent kv.1 kv.2) l
  end.

Definition printBlockScopes (statement_scopes : string -> Statement -> list line) (block : Block) (indent : string) : list line :=
  match block with MkBlock l _ => concat (map (statement_scopes indent) l) end.

Fixpoint statement_scopes (indent : string) (stmt : Statement) : list line :=
  let nested b := (printScope (Scope b) (indent +:+ "  ") ++ printBlockScopes statement_scopes b (indent +:+ "  "))%list in
  match stmt with
  | IfStmt _ b eb _ =>
      NestedBlockScope indent :: nested b
      ++ match eb with Some eb => ElseBlockScope indent :: nested eb | None => [] end
  | WhileStmt _ b => NestedBlockScope indent :: nested b
  | _ => []
  end%list.

Definition PrintSymbolTables (functions : list (string * Function_)) (ast : Ast) : list line :=
  (GlobalScope :: printScope (AScope ast) "  ")
  ++ concat (map (fun kv =>
       FunctionScope (FName kv.2) :: printScope (Scope (FBlock kv.2)) "  "
       ++ printBlockScopes statement_scopes (FBlock kv.2) "  ") functions).

(** The scopes of a block and of the blocks in it. *)
Definition block_scopes (inner : Statement -> list variables) (b : Block) : list variables :=
  match b with MkBlock l sc => sc :: concat (map inner l) end.

Fixpoint inner_scopes (s : Statement) : list variables :=
  match s with
  | IfStmt _ b eb _ => block_scopes inner_scopes b ++ match eb with Some eb => block_scopes inner_scopes eb | None => [] end
  | WhileStmt _ b => block_scopes inner_scopes b
  | _ => []
  end%list.

Lemma printScope_complete sc indent x v : sc !! x = Some v -> VariableLine indent x v ∈ printScope sc indent.
Proof.
  intros Hx. unfold printScope. assert ((x, v) ∈ order sc) as Hin by (rewrite Horder; by apply elem_of_map_to_list).
  destruct (order sc) as [|kv l]; [by apply elem_of_nil in Hin|].
  apply list_elem_of_In, in_map_iff. exists (x, v). split; [done|]. by apply list_elem_of_In.
Qed.

Definition shows (s : Statement) : Prop := forall indent sc x v, sc ∈ inner_scopes s -> sc !! x = Some v ->
  exists i, VariableLine i x v ∈ statement_scopes indent s.

Lemma block_shows b indent sc x v : all_block shows b -> sc ∈ block_scopes inner_scopes b -> sc !! x = Some v ->
  exists i, VariableLine i x v ∈ (printScope (Scope b) indent ++ printBlockScopes statement_scopes b indent)%list.
Proof.
  destruct b as [l sc0]. unfold all_block. cbn [Statements block_scopes Scope printBlockScopes].
  intros Hl [->|Hin]%elem_of_cons Hx; [exists indent; apply elem_of_app; left; by apply printScope_complete|].
  apply list_elem_of_In, in_concat in Hin as (scs & (s & <- & Hs)%in_map_iff & Hsc).
  rewrite List.Forall_forall in Hl. destruct (Hl s Hs indent sc x v) as [i Hi]; [by apply list_elem_of_In | done |].
  exists i. apply elem_of_app. right. apply list_elem_of_In, in_concat. exists (statement_scopes indent s).
  split; [apply in_map_iff; by exists s | by apply list_elem_of_In].
Qed.

Lemma statement_shows s : shows s.
Proof.
  induction s as [ty l r t|e|c b eb t Hb Heb|c b Hb|t|t|e] using Statement_ind'; intros indent sc x v; cbn [inner_scopes statement_scopes];
    try (intros Hin; by apply elem_of_nil in Hin).
  - intros [Hin|Hin]%elem_of_app Hx.
    + destruct (block_shows b (indent +:+ "  ") sc x v Hb Hin Hx) as [i Hi]. exists i. apply elem_of_cons. right. apply elem_of_app. by left.
    + destruct eb as [eb|]; [|by apply elem_of_nil in Hin].
      destruct (block_shows eb (indent +:+ "  ") sc x v (Heb eb eq_refl) Hin Hx) as [i Hi]. exists i.
      apply elem_of_cons. right. apply elem_of_app. right. apply elem_of_cons. by right.
  - intros Hin Hx. destruct (block_shows b (indent +:+ "  ") sc x v Hb Hin Hx) as [i Hi]. exists i. apply elem_of_cons. by right.
Qed.

(** The tables show every variable of every scope of the program. *)
Theorem PrintSymbolTables_complete functions ast sc x v :
  sc = AScope ast \/ (exists kv, kv ∈ functions /\ sc ∈ block_scopes inner_scopes (FBlock kv.2)) -> sc !! x = Some v ->
  exists i, VariableLine i x v ∈ PrintSymbolTables functions ast.
Proof.
  unfold PrintSymbolTables. intros [->|(kv & Hkv & Hsc)] Hx.
  - exists "  "%string. apply elem_of_app. left. apply elem_of_cons. right. by apply printScope_complete.
  - destruct (block_shows (FBlock kv.2) "  " sc x v) as [i Hi]; [|done|done|].
    { apply Forall_forall. intros s _. apply statement_shows. }
    exists i. apply elem_of_app. right. apply list_elem_of_In, in_concat. eexists. split.
    + apply in_map_iff. exists kv. split; [reflexivity|]. by apply list_elem_of_In.
    + right. by apply list_elem_of_In.
Qed.

End SymbolTables.

End Tool.
