(* ===== verification/Tools.v ===== *)
(** * The demonstration tools (src/cmd/parser, src/cmd/avm, src/cmd/test_codegen.go)

    Small programs over the assembly parser, the machine and the compiler.  What
    they print is returned as data; [Printf] itself is left out. *)

From S2P Require Import Prelude GoLib Config Bytecode Machine Opcodes Interp AvmParser MgLexer MgAst MgParser MgCodegen.

Module Tools.
Import VM Handlers Exec Asm.
#[local] Open Scope string_scope.
#[local] Open Scope Z_scope.

(** ** src/cmd/parser/main.go *)

Inductive verdict :=
  | ParseError (e : parse_error)
  | RoundTripError (e : parse_error)
  | RoundTripFailed (reparsed instructions : Z)
  | RoundTripSuccessful (instructions : Z).

Definition parser_main (runtimeCode : bytes) : go verdict :=
  x ← ParseInstructionsFromString runtimeCode;
  match x with
  | (_, Some e) => Ret (ParseError e)
  | (instructions, None) =>
      let exported := ExportInstructionsAsString instructions in
      y ← ParseInstructionsFromString exported;
      match y with
      | (_, Some e) => Ret (RoundTripError e)
      | (reparsed, None) =>
          Ret (if len reparsed =? len instructions then RoundTripSuccessful (len reparsed)
               else RoundTripFailed (len reparsed) (len instructions))
      end
  end.

(** C38. The round trip that the tool tests for works on every file that can be parsed:
    the tool reports a parse error of the file, or success. *)
Theorem parser_main_succeeds runtimeCode instructions e :
  ParseInstructionsFromString runtimeCode = Ret (instructions, e) ->
  parser_main runtimeCode = Ret (match e with Some e => ParseError e | None => RoundTripSuccessful (len instructions) end).
Proof.
  intros E. unfold parser_main. rewrite E. cbn [mbind go_bind]. destruct e as [e|]; [done|].
  rewrite (parsed_roundtrip _ _ E). cbn [mbind go_bind]. by rewrite Z.eqb_refl.
Qed.

Lemma parser_main_succeeds_witness :
  parser_main (bytes_of_string "PUSH 2a, ADD") = Ret (ParseError (ErrUnknownOpcode (bytes_of_string ","))) /\
  parser_main (bytes_of_string "PUSH 2a ADD") = Ret (RoundTripSuccessful 2).
Proof.
  split.
  - apply (parser_main_succeeds _ [MakePushInstruction "0x2a"] (Some (ErrUnknownOpcode (bytes_of_string ",")))).
    vm_compute. reflexivity.
  - apply (parser_main_succeeds _ [MakePushInstruction "0x2a"; MakeInstruction (opcode ADD)] None). vm_compute. reflexivity.
Defined.

(** ** src/cmd/avm/main.go *)

Definition calculator : list Instruction :=
  [MakePushInstruction "0x7"; MakePushInstruction "0x3"; MakeInstruction (opcode ADD);
   MakePushInstruction "0x2"; MakeInstruction (opcode MUL); MakePushInstruction "0xF";
   MakeInstruction (opcode GT); MakeInstruction (opcode EMIT)].

Definition avm_main : option (go (Runtime * Z * option avm_error)) := StartExecution (NewTestRuntime 1000 calculator).

(** (7 + 3) * 2 > 15 is true. *)
Lemma avm_main_true : exists r gas, avm_main = Some (Ret (r, gas, None)) /\ s (Stack r) = [1].
Proof. eexists _, _. split; vm_compute; reflexivity. Qed.

(** ** src/cmd/test_codegen.go *)

(** The bytecode as it is shown. *)
Definition bytecode_text (instructions : list Instruction) : string :=
  string_of_bytes (concat (map (fun inst =>
    match Value inst with
    | Some v => if Opcode inst =? opcode PUSH then bytes_of_string ("PUSH " +:+ v +:+ " ")
                else bytes_of_string (OPCODE_String (Opcode inst) +:+ " ")
    | None => bytes_of_string (OPCODE_String (Opcode inst) +:+ " ")
    end) instructions)).

(** [for IC >= 0 && IC < len(Instructions)], stopping at an error. *)
Fixpoint run_loop (fuel : nat) (r : Runtime) : option (go (Runtime * option avm_error)) :=
  match fuel with
  | O => None
  | S f =>
      if (0 <=? IC r) && (IC r <? len (Instructions r)) then
        match ExecuteInstruction r with
        | Panic k => Some (Panic k)
        | Ret (r', Some e) => Some (Ret (r', Some e))
        | Ret (r', None) => run_loop f r'
        end
      else Some (Ret (r, None))
  end.

(** The error printed and the top of the stack. *)
Definition run_result (x : option (go (Runtime * option avm_error))) : option (go (option avm_error * option Z)) :=
  match x with
  | Some (Ret (r, e)) => Some (Ret (e, last (s (Stack r))))
  | Some (Panic k) => Some (Panic k)
  | None => None
  end.

Definition deploy_runtime (instructions : list Instruction) : Runtime :=
  with_IC 0 (with_FramePointer 0 (NewTestRuntime 1000000 instructions)).

(** The result of [Push] is ignored. *)
Definition call_runtime (instructions : list Instruction) : go Runtime :=
  x ← Push 5 (NewTestRuntime 1000000 instructions);
  Ret (with_IC 2 (with_FramePointer 0 x.1)).

(** The loop ends: as many rounds as there is gas are enough. *)
Theorem run_loop_ends fuel r : is_u64 (GasAvailable r) -> GasAvailable r < Z.of_nat fuel -> is_Some (run_loop fuel r).
Proof.
  revert r. induction fuel as [|f IH]; intros r Hr Hf; [machine_bounds; lia|]. cbn [run_loop].
  destruct (Z.leb_spec 0 (IC r)); [|by eauto]. destruct (Z.ltb_spec (IC r) (len (Instructions r))); [|by eauto].
  destruct (ExecuteInstruction r) as [[r' [e|]]|k] eqn:E; cbn [andb]; [by eauto| |by eauto].
  destruct (step_gas r r' Hr) as (_ & p & ? & ? & Ha & _); [by constructor|]. apply IH; machine_bounds; lia.
Qed.

(** The contract of the demonstration. *)
Definition demo_source : string :=
  "
	define init() : int{
		emit(1)
		return 42 + 2
	}

	define call(x: int) : int{
		emit(x + 10)
		return x
	}
	".

(** Lexed, parsed and compiled without type checking; the functions are iterated in
    some order. *)
Definition demo_context (source : string) (order : gmap string Mg.Function_ -> list (string * Mg.Function_))
    : option (go Codegen.CodegenContext) :=
  match Lexer.Lex source with
  | Some (Ret (tokens, None)) =>
      match Parser.Parse tokens with
      | Some (Ret ast) => Some (Codegen.CodegenWithContext ast (order (Mg.Functions ast)) (order (Mg.Functions ast)))
      | Some (Panic k) => Some (Panic k)
      | None => None
      end
  | Some (Panic k) => Some (Panic k)
  | _ => None
  end.

Definition demo_code : list Instruction :=
  Eval vm_compute in
    match demo_context demo_source map_to_list with Some (Ret c) => Codegen.Instructions c | _ => [] end.

Definition deploy_result (fuel : nat) (instructions : list Instruction) : option (go (option avm_error * option Z)) :=
  run_result (run_loop fuel (deploy_runtime instructions)).

Definition call_result (fuel : nat) (instructions : list Instruction) : option (go (option avm_error * option Z)) :=
  match call_runtime instructions with
  | Ret r => run_result (run_loop fuel r)
  | Panic k => Some (Panic k)
  end.

(** The deployment leaves 44 and the call its argument; both stop with the error
    that stands for the end of the program, which the deployment reports. *)
Lemma demo_runs :
  deploy_result 100 demo_code = Some (Ret (Some ErrProgramStopped, Some 44)) /\
  call_result 100 demo_code = Some (Ret (Some ErrProgramStopped, Some 5)).
Proof. split; vm_compute; reflexivity. Qed.

End Tools.
