(* ===== verification/Converters.v ===== *)
(** * Wire conversions (src/libnet/converters.go)

    The conversions between ledger values and the generated protobuf messages,
    whose fields are those the converters read and write. *)

From S2P Require Import Prelude GoLib Config Utils Bytecode Sha256 Ledger LedgerSpec.

Module Wire.
Import Blk.

Record InstructionData := MkInstructionData { pOpcode : bytes; pValue : bytes }.

Record TransactionData := MkTransactionData {
  Frompk : bytes; Topk : bytes; pAmount : Z; pSignature : bytes; pNonce : Z; pTimestamp : Z;
  Chainid : Z; pInstructions : list InstructionData; pGasLimit : Z; pGasPrice : Z; pData : bytes
}.

Record HeaderData := MkHeaderData {
  hVersion : Z; hPreviousHash : bytes; hHeight : Z; hTimestamp : Z; hNonce : Z; hMerkleRoot : bytes;
  hStateRoot : bytes; hBits : Z; hTotalWork : string; hGasLimit : Z; hGasUsed : Z; hBeneficiary : bytes
}.

(** A message field of message type may be absent. *)
Record BlockData := MkBlockData { bHeader : option HeaderData; bTransactions : list TransactionData }.

Definition InstructionToProtoInstruction (instr : Instruction) : InstructionData :=
  MkInstructionData [byte_of (Opcode instr)]
    match Value instr with Some v => bytes_of_string v | None => [] end.

(** [protoInstr.Opcode[0]] panics on an empty field. *)
Definition ProtoInstructionToInstruction (d : InstructionData) : go Instruction :=
  match pOpcode d with
  | [] => Panic IndexOutOfRange
  | c :: _ =>
      Ret (MkInstruction (byte_val c)
             match pValue d with [] => None | v => Some (string_of_bytes v) end)
  end.

Definition TransactionToProtoTransaction (tx : Tx.Transaction) : TransactionData :=
  MkTransactionData (Tx.From tx) (Tx.To tx) (Tx.Amount tx) (Tx.Signature tx) (Tx.Nonce tx)
    (Tx.Timestamp tx) (Tx.ChainID tx) (map InstructionToProtoInstruction (Tx.Instructions tx))
    (Tx.GasLimit tx) (Tx.GasPrice tx) (Tx.Data tx).

Definition ProtoTransactionToTransaction (d : TransactionData) : go Tx.Transaction :=
  instructions ← mapM ProtoInstructionToInstruction (pInstructions d);
  Ret (Tx.MkTx (copy_into 32 (Frompk d)) (copy_into 32 (Topk d)) (pAmount d) (copy_into 64 (pSignature d))
         (pNonce d) (pTimestamp d) (Chainid d) instructions (pGasLimit d) (pGasPrice d) (pData d)).

(** The receipt root is not transmitted. *)
Definition BlockHeaderToProtoHeader (h : Hdr.BlockHeader) : HeaderData :=
  MkHeaderData (Hdr.Version h) (Hdr.PreviousHash h) (Hdr.Height h) (Hdr.Timestamp h) (Hdr.Nonce h)
    (Hdr.MerkleRoot h) (Hdr.StateRoot h) (Hdr.Bits h) (Hdr.TotalWork h) (Hdr.GasLimit h) (Hdr.GasUsed h)
    (Hdr.Beneficiary h).

Definition ProtoHeaderToBlockHeader (h : HeaderData) : Hdr.BlockHeader :=
  Hdr.MkHeader (hVersion h) (copy_into 32 (hPreviousHash h)) (hHeight h) (hTimestamp h) (hNonce h)
    (copy_into 32 (hMerkleRoot h)) (copy_into 32 (hStateRoot h)) Hash32_zero (hBits h) (hTotalWork h)
    (hGasLimit h) (hGasUsed h) (copy_into 32 (hBeneficiary h)).

Definition BlockToProtoBlock (b : Block) : BlockData :=
  MkBlockData (Some (BlockHeaderToProtoHeader (Header b))) (map TransactionToProtoTransaction (Transactions b)).

Definition ProtoBlockToBlock (d : BlockData) : go Block :=
  transactions ← mapM ProtoTransactionToTransaction (bTransactions d);
  match bHeader d with
  | None => Panic NilDereference
  | Some h => Ret (MkBlock (ProtoHeaderToBlockHeader h) transactions)
  end.

(** ** Round trips *)

Lemma mapM_go_map {A B} (f : A -> B) (g : B -> go A) l :
  Forall (fun a => g (f a) = Ret a) l -> mapM g (map f l) = Ret l.
Proof.
  induction 1 as [|a l Ha _ IH]; [done|]. cbn [map mapM]. rewrite Ha. cbn [mbind go_bind]. by rewrite IH.
Qed.

(** An instruction the wire can carry: a byte, and an operand that is not the
    empty string. *)
Definition wire_instruction (i : Instruction) : Prop := 0 <= Opcode i < 256 /\ Value i <> Some ""%string.

Lemma instruction_roundtrip i :
  wire_instruction i -> ProtoInstructionToInstruction (InstructionToProtoInstruction i) = Ret i.
Proof.
  intros [Ho Hv]. destruct i as [op [v|]]; unfold ProtoInstructionToInstruction; simpl in *;
    rewrite byte_val_of, Z.mod_small by done; [|done].
  destruct (bytes_of_string v) as [|c l] eqn:E.
  - exfalso. apply Hv. by rewrite <- (string_of_bytes_of_string v), E.
  - assert (string_of_bytes (c :: l) = v) as Hx by (by rewrite <- E, string_of_bytes_of_string).
    rewrite <- Hx. reflexivity.
Qed.

Record wire_tx (t : Tx.Transaction) : Prop := {
  wt_From : length (Tx.From t) = 32%nat;
  wt_To : length (Tx.To t) = 32%nat;
  wt_Signature : length (Tx.Signature t) = 64%nat;
  wt_Instructions : Forall wire_instruction (Tx.Instructions t)
}.

Lemma transaction_roundtrip t :
  wire_tx t -> ProtoTransactionToTransaction (TransactionToProtoTransaction t) = Ret t.
Proof.
  intros [Hf Ht Hs Hi]. unfold ProtoTransactionToTransaction. cbn [pInstructions TransactionToProtoTransaction].
  rewrite mapM_go_map by (eapply Forall_impl; [exact Hi | apply instruction_roundtrip]).
  cbn [mbind go_bind Frompk Topk pSignature TransactionToProtoTransaction].
  rewrite !copy_into_id by done. by destruct t.
Qed.

(** A header comes back with its receipt root cleared. *)
Lemma header_roundtrip h :
  LedgerSpec.header_ok h ->
  ProtoHeaderToBlockHeader (BlockHeaderToProtoHeader h)
  = Hdr.MkHeader (Hdr.Version h) (Hdr.PreviousHash h) (Hdr.Height h) (Hdr.Timestamp h) (Hdr.Nonce h)
      (Hdr.MerkleRoot h) (Hdr.StateRoot h) Hash32_zero (Hdr.Bits h) (Hdr.TotalWork h) (Hdr.GasLimit h)
      (Hdr.GasUsed h) (Hdr.Beneficiary h).
Proof.
  intros []. unfold ProtoHeaderToBlockHeader, BlockHeaderToProtoHeader.
  cbn [hPreviousHash hMerkleRoot hStateRoot hBeneficiary]. by rewrite !copy_into_id.
Qed.

(** A block the wire can carry. *)
Record wire_block (b : Block) : Prop := {
  wb_header : LedgerSpec.header_ok (Header b);
  wb_receipts : Hdr.ReceiptRoot (Header b) = Hash32_zero;
  wb_transactions : Forall wire_tx (Transactions b)
}.

Lemma block_roundtrip b : wire_block b -> ProtoBlockToBlock (BlockToProtoBlock b) = Ret b.
Proof.
  intros [Hh Hr Ht]. unfold ProtoBlockToBlock. cbn [bTransactions BlockToProtoBlock].
  rewrite mapM_go_map by (eapply Forall_impl; [exact Ht | apply transaction_roundtrip]).
  cbn [mbind go_bind bHeader BlockToProtoBlock]. rewrite header_roundtrip by done. rewrite <- Hr.
  by destruct b as [[] ?].
Qed.

(** A block whose receipt root is empty survives the trip to a peer unchanged,
    transactions, signatures and code included. *)
Theorem block_wire_roundtrip b :
  LedgerSpec.header_ok (Header b) -> Hdr.ReceiptRoot (Header b) = Hash32_zero ->
  Forall wire_tx (Transactions b) -> ProtoBlockToBlock (BlockToProtoBlock b) = Ret b.
Proof. intros Hh Hr Ht. by apply block_roundtrip. Qed.

(** Any other receipt root is lost, and the block arrives under another hash (or
    the bytes hashed of the two headers are a SHA-256 collision). *)
Theorem receipt_root_changes_hash h :
  LedgerSpec.header_ok h -> Hdr.ReceiptRoot h <> Hash32_zero ->
  Hdr.GetHash (ProtoHeaderToBlockHeader (BlockHeaderToProtoHeader h)) <> Hdr.GetHash h
  \/ Sha256.collision (Hdr.hash_input (ProtoHeaderToBlockHeader (BlockHeaderToProtoHeader h))) (Hdr.hash_input h).
Proof.
  intros Hh Hr. destruct (decide (Hdr.GetHash (ProtoHeaderToBlockHeader (BlockHeaderToProtoHeader h)) = Hdr.GetHash h))
    as [E|]; [right | by left].
  rewrite header_roundtrip in E |- * by done. unfold Hdr.GetHash in E.
  destruct (LedgerSpec.hash32_inj _ _ E) as [E'|]; [|done]. exfalso. apply Hr.
  apply LedgerSpec.header_input_inj in E' as [E' _]; [| |done].
  - apply (f_equal Hdr.ReceiptRoot) in E'. cbn in E'. symmetry. exact E'.
  - destruct Hh. by split.
Qed.

Lemma block_wire_roundtrip_witness :
  let b := MkBlock (LedgerSpec.demo_header "42")
             [LedgerSpec.demo_tx 1 [MakePushInstruction "0x2a"; MakeInstruction (opcode STOP)]] in
  ProtoBlockToBlock (BlockToProtoBlock b) = Ret b.
Proof.
  intros b. apply (block_wire_roundtrip b); [apply LedgerSpec.demo_header_ok | reflexivity |].
  constructor; [|constructor]. split; try reflexivity.
  repeat constructor; simpl; try discriminate; lia.
Defined.

Definition receipt_header : Hdr.BlockHeader :=
  Hdr.MkHeader 1 Hash32_zero 3 1704067300 7 Hash32_zero Hash32_zero FirstUser 0x1f00ffff "42" 8000000 0 FirstUser.

Lemma receipt_root_changes_hash_witness :
  Hdr.GetHash (ProtoHeaderToBlockHeader (BlockHeaderToProtoHeader receipt_header)) <> Hdr.GetHash receipt_header
  \/ Sha256.collision (Hdr.hash_input (ProtoHeaderToBlockHeader (BlockHeaderToProtoHeader receipt_header)))
       (Hdr.hash_input receipt_header).
Proof.
  apply (receipt_root_changes_hash receipt_header); [|discriminate].
  split; simpl; try done; machine_bounds; lia.
Defined.

End Wire.
