(* ===== verification/Rpc.v ===== *)
(** * Requests between peers (src/libnet/utils.go, src/libnet/proto_stream.go,
    src/libnet/rpc)

    A peer service keeps the answers that arrived under the identifiers of their
    requests, and the channels of those who wait for them.  The handlers read a
    message from a stream and answer from the node, which they see through the
    interface [NodeInterface].  The generated protobuf messages have the fields
    the handlers use; their encoding, peer identifiers and opening streams are
    libp2p's and protobuf's: [Marshal], [Unmarshal] and [Decode] are
    parameters, and what is sent is a list of messages with their targets.
    Logging and the lock, which makes each method atomic, are left out. *)

From S2P Require Import Prelude GoLib GoText Config Utils Bytecode Machine Sha256 Ledger LedgerSpec Chain Validation Mempool Node Converters.

Module Rpc.
Import Blk Wire.

(** ** Messages *)

Record MessageData := MkMessageData { ClientVersion : string; mTimestamp : Z; MessageID : string; SenderID : string }.

#[export] Instance InstructionData_eq_dec : EqDecision InstructionData.
Proof. solve_decision. Defined.
#[export] Instance TransactionData_eq_dec : EqDecision TransactionData.
Proof. solve_decision. Defined.
#[export] Instance HeaderData_eq_dec : EqDecision HeaderData.
Proof. solve_decision. Defined.
#[export] Instance BlockData_eq_dec : EqDecision BlockData.
Proof. solve_decision. Defined.
#[export] Instance MessageData_eq_dec : EqDecision MessageData.
Proof. solve_decision. Defined.

(** [BlocksRequest] and [HeadersRequest]; a message field may be absent. *)
Record HashesRequest := MkHashesRequest { rMessageData : option MessageData; Hashes : list bytes }.

Inductive response :=
  | HeadersResponse (md : option MessageData) (headers : list HeaderData)
  | BlocksResponse (md : option MessageData) (blocks : list BlockData).

#[export] Instance response_eq_dec : EqDecision response.
Proof. solve_decision. Defined.

Definition response_data (r : response) : option MessageData :=
  match r with HeadersResponse md _ | BlocksResponse md _ => md end.

(** [data.MessageData.MessageID], [data.MessageData.SenderID] *)
Definition field {A} (f : MessageData -> A) (md : option MessageData) : go A :=
  match md with Some d => Ret (f d) | None => Panic NilDereference end.

(** ** utils.go *)

(** A channel, by its number. *)
Abbreviation chan := nat.

Record PeerService := MkPeerService {
  PendingRequests : gmap string (list response);
  PendingRequestsWaiters : gmap string (list chan);
  closed : gset chan;
  next_chan : chan
}.

Definition NewPeerService : PeerService := MkPeerService ∅ ∅ ∅ 0.

(** [close] panics on a channel that is closed. *)
Fixpoint close_all (l : list chan) (s : gset chan) : go (gset chan) :=
  match l with
  | [] => Ret s
  | ch :: l => if decide (ch ∈ s) then Panic (ExplicitPanic "close of closed channel") else close_all l ({[ch]} ∪ s)
  end.

Definition NotifyMessageWaiters (messageID : string) (n : PeerService) : go PeerService :=
  match PendingRequestsWaiters n !! messageID with
  | None => Ret n
  | Some l =>
      s ← close_all l (closed n);
      Ret (MkPeerService (PendingRequests n) (<[messageID := []]> (PendingRequestsWaiters n)) s (next_chan n))
  end.

Definition GetDataFromMessage (messageID : string) (n : PeerService) : list response :=
  default [] (PendingRequests n !! messageID).

Definition AddMessageToPending (messageID : string) (n : PeerService) : PeerService * chan :=
  let ch := next_chan n in
  let pending := match PendingRequests n !! messageID with
                 | Some _ => PendingRequests n
                 | None => <[messageID := []]> (PendingRequests n)
                 end in
  let waiters := <[messageID := default [] (PendingRequestsWaiters n !! messageID) ++ [ch]]> (PendingRequestsWaiters n) in
  (MkPeerService pending waiters (closed n) (S ch), ch).

(** The loop of [SamplePeers], whose condition does not mention [i]; [None] when
    the fuel runs out. *)
Fixpoint sample_loop {A} (fuel : nat) (peers : list A) (indices : list Z) (maxSample : Z) (i : Z) (subsample : list (option A))
    : option (go (list (option A))) :=
  match fuel with
  | O => None
  | S f =>
      if 0 <? maxSample then
        match VM.slice_get indices i with
        | Ret idx =>
            match VM.slice_get peers idx with
            | Ret p =>
                if i <? len subsample then sample_loop f peers indices maxSample (i + 1) (<[Z.to_nat i := Some p]> subsample)
                else Some (Panic IndexOutOfRange)
            | Panic k => Some (Panic k)
            end
        | Panic k => Some (Panic k)
        end
      else Some (Ret subsample)
  end.

(** [indices] is [rand.Perm(len(peers))]; an element of the result that was not
    set is an empty identifier. *)
Definition SamplePeers {A} (peers : list A) (maxSample : Z) (indices : list Z) : option (go (list (option A))) :=
  if len peers <=? maxSample then Some (Ret (map Some peers))
  else sample_loop (S (Z.to_nat maxSample)) peers indices maxSample 0 (replicate (Z.to_nat maxSample) None).

Definition NewMessageData (now : Z) (host : string) (messageID : string) : MessageData :=
  MkMessageData RPCClientVersion (u64 now) messageID host.

(** An error is [None]. *)
Definition StringToHash32 (hashStr : string) : option Hash32 :=
  hashBytes ← hex_DecodeString hashStr;
  if bool_decide (length hashBytes = 32%nat) then Some (copy_into 32 hashBytes) else None.

Definition Hash32ToString (hash : Hash32) : string := base64_EncodeToString hash.

(** ** proto_stream.go *)

Section Stream.
Context {A : Type} (Marshal : A -> option bytes).
(** What is left in the message, and whether there was no error. *)
Context (Unmarshal : bytes -> A * bool).

(** What is written. *)
Definition WriteProtoMsg (msg : A) : option bytes :=
  data ← Marshal msg; Some (be_bytes 4 (u32 (len data)) ++ data).

(** The message is [empty] before. *)
Definition ReadProtoMsg (empty : A) (stream : bytes) : A * bool :=
  if (length stream <? 4)%nat then (empty, false)
  else
    let n := big_SetBytes (take 4 stream) in
    let rest := drop 4 stream in
    if len rest <? n then (empty, false) else Unmarshal (take (Z.to_nat n) rest).

End Stream.

(** ** The handlers *)

(** What a peer service uses of its node. *)
Class NodeInterface (N : Type) := {
  node_GetBlocks : N -> list Hash32 -> list Block;
  node_GetHeaders : N -> list Hash32 -> list Hdr.BlockHeader
}.

#[export] Instance Node_interface : NodeInterface Node.Node := {
  node_GetBlocks := Node.GetBlocks;
  node_GetHeaders := Node.GetHeaders
}.

(** [var hash [32]byte; copy(hash[:], h)] *)
Definition to_hashes (l : list bytes) : list Hash32 := map (copy_into 32) l.

Section Handlers.
Context {N Peer : Type} `{!NodeInterface N}.
(** [peer.Decode], whose error is dropped. *)
Context (Decode : string -> Peer).

(** The answer to a request for blocks, and to whom; the node may not be set yet. *)
Definition onBlocksRequest (now : Z) (host : string) (node : option N) (data : HashesRequest) : go (Peer * response) :=
  match node with
  | None => Panic NilDereference
  | Some node =>
      let blocksData := map BlockToProtoBlock (node_GetBlocks node (to_hashes (Hashes data))) in
      id ← field MessageID (rMessageData data);
      sender ← field SenderID (rMessageData data);
      Ret (Decode sender, BlocksResponse (Some (NewMessageData now host id)) blocksData)
  end.

Definition onHeadersRequest (now : Z) (host : string) (node : option N) (data : HashesRequest) : go (Peer * response) :=
  match node with
  | None => Panic NilDereference
  | Some node =>
      let headersData := map BlockHeaderToProtoHeader (node_GetHeaders node (to_hashes (Hashes data))) in
      id ← field MessageID (rMessageData data);
      sender ← field SenderID (rMessageData data);
      Ret (Decode sender, HeadersResponse (Some (NewMessageData now host id)) headersData)
  end.

End Handlers.

(** [onBlocksResponse] and [onHeadersResponse], up to where the lock is released:
    whatever arrives is kept. *)
Definition store_response (data : response) (n : PeerService) : go (PeerService * string) :=
  id ← field MessageID (response_data data);
  Ret (MkPeerService (<[id := GetDataFromMessage id n ++ [data]]> (PendingRequests n)) (PendingRequestsWaiters n)
         (closed n) (next_chan n), id).

Definition onResponse (data : response) (n : PeerService) : go PeerService :=
  '(n, id) ← store_response data n; NotifyMessageWaiters id n.

Definition hashes_request (now : Z) (host messageID : string) (hashes : list Hash32) : HashesRequest :=
  MkHashesRequest (Some (NewMessageData now host messageID)) hashes.

(** [RequestBlocks] and [RequestHeaders]: the request, and to whom. *)
Definition request {A} (peers : list A) (indices : list Z) (now : Z) (host messageID : string) (hashes : list Hash32)
    : option (go (list (option A * HashesRequest))) :=
  match SamplePeers peers MaxPeersForRequest indices with
  | Some (Ret subsample) =>
      Some (Ret (map (fun p => (p, hashes_request now host messageID hashes)) subsample))
  | Some (Panic k) => Some (Panic k)
  | None => None
  end.

(** Both requests go out under their protocols. *)
Definition RPCHeadersRequest : string := "/august/rpc/headersreq/1.0.0".
Definition RPCBlocksRequest : string := "/august/rpc/blocksreq/1.0.0".

Definition send_requests {A} (protocol : string) (peers : list A) (indices : list Z) (now : Z) (host messageID : string)
    (hashes : list Hash32) : option (go (list (option A * string * HashesRequest))) :=
  match request peers indices now host messageID hashes with
  | Some (Ret l) => Some (Ret (map (fun p => (p.1, protocol, p.2)) l))
  | Some (Panic k) => Some (Panic k)
  | None => None
  end.

Definition RequestBlocks {A} := @send_requests A RPCBlocksRequest.
Definition RequestHeaders {A} := @send_requests A RPCHeadersRequest.

(** [onBlocksResponse] reads blocks and [onHeadersResponse] headers. *)
Definition onBlocksResponse (md : option MessageData) (blocks : list BlockData) : PeerService -> go PeerService :=
  onResponse (BlocksResponse md blocks).
Definition onHeadersResponse (md : option MessageData) (headers : list HeaderData) : PeerService -> go PeerService :=
  onResponse (HeadersResponse md headers).

(** What the node makes of the answers to a request for blocks, and of those to a
    request for a header, of which it looks at the first. *)
Definition answer_blocks (data : list response) : go (list (list Block)) :=
  mapM (fun msg => match msg with
                   | BlocksResponse _ blocks => mapM ProtoBlockToBlock blocks
                   | HeadersResponse _ _ => Panic BadTypeAssertion
                   end) data.

Definition answer_header (data : list response) : go (option Hdr.BlockHeader) :=
  match data with
  | [] => Ret None
  | HeadersResponse _ headers :: _ => Ret (ProtoHeaderToBlockHeader <$> head headers)
  | BlocksResponse _ _ :: _ => Panic BadTypeAssertion
  end.

(** Announcements go to every peer. *)
Definition AnnounceHeader {A} (peers : list A) (header : Hdr.BlockHeader) : list (A * HeaderData) :=
  map (fun p => (p, BlockHeaderToProtoHeader header)) peers.

Definition AnnounceTransaction {A} (peers : list A) (tx : Tx.Transaction) : list (A * TransactionData) :=
  map (fun p => (p, TransactionToProtoTransaction tx)) peers.

(** The header or transaction that is given to the callback, when one is set. *)
Definition onHeaderAnnouncement (callback_set : bool) (data : HeaderData) : option Hdr.BlockHeader :=
  if callback_set then Some (ProtoHeaderToBlockHeader data) else None.

Definition onTransactionAnnouncement (callback_set : bool) (data : TransactionData) : option (go Tx.Transaction) :=
  if callback_set then Some (ProtoTransactionToTransaction data) else None.

(** ** rpc.go *)

Inductive handler :=
  | HandleHeadersRequest | HandleHeadersResponse | HandleHeaderAnnouncement
  | HandleBlocksRequest | HandleBlocksResponse.

Definition RPCHeadersResponse : string := "/august/rpc/headersresp/1.0.0".
Definition RPCHeaderAnnouncement : string := "/august/rpc/headerannounce/1.0.0".
Definition RPCBlocksResponse : string := "/august/rpc/blocksresp/1.0.0".
Definition RPCTransactionAnnouncement : string := "/august/rpc/transactionannounce/1.0.0".

(** The handlers [NewRPCProtocol] registers. *)
Definition NewRPCProtocol : gmap string handler :=
  <[RPCHeadersRequest := HandleHeadersRequest]>
  (<[RPCHeadersResponse := HandleHeadersResponse]>
  (<[RPCHeaderAnnouncement := HandleHeaderAnnouncement]>
  (<[RPCBlocksRequest := HandleBlocksRequest]>
  {[RPCBlocksResponse := HandleBlocksResponse]}))).

(** ** Too many peers *)

Lemma slice_get_lookup {A} (l : list A) i x : l !! i = Some x -> VM.slice_get l (Z.of_nat i) = Ret x.
Proof. intros H. unfold VM.slice_get. rewrite (proj2 (Z.ltb_ge _ _)) by lia. by rewrite Nat2Z.id, H. Qed.

Lemma sample_loop_panics {A} (peers : list A) indices maxSample :
  0 < maxSample < len peers -> Forall (fun idx => 0 <= idx < len peers) indices -> len indices = len peers ->
  forall fuel i subsample, len subsample = maxSample -> Z.of_nat i <= maxSample ->
  (Z.to_nat maxSample < fuel + i)%nat ->
  sample_loop fuel peers indices maxSample (Z.of_nat i) subsample = Some (Panic IndexOutOfRange).
Proof.
  intros Hm Hr Hl fuel. induction fuel as [|f IH]; intros i subsample Hs Hi Hf; [lia|]. cbn [sample_loop].
  rewrite (proj2 (Z.ltb_lt _ _)) by lia.
  destruct (lookup_lt_is_Some_2 indices i) as [idx Hidx]; [unfold len in *; lia|].
  rewrite (slice_get_lookup _ _ _ Hidx). rewrite Forall_lookup in Hr. specialize (Hr _ _ Hidx).
  destruct (lookup_lt_is_Some_2 peers (Z.to_nat idx)) as [p Hp]; [unfold len in *; lia|].
  rewrite <- (Z2Nat.id idx) by lia. rewrite (slice_get_lookup _ _ _ Hp). destruct (Z.ltb_spec (Z.of_nat i) (len subsample)); [|done].
  replace (Z.of_nat i + 1) with (Z.of_nat (S i)) by lia. apply IH; [unfold len in *; by rewrite length_insert | lia | lia].
Qed.

(** The loop of [SamplePeers] tests [0 < maxSample] and not [i < maxSample]: with
    more peers than are to be sampled it runs past its result and panics,
    whatever the permutation. *)
Lemma SamplePeers_too_many {A} (peers : list A) maxSample indices :
  0 < maxSample < len peers -> indices ≡ₚ seqZ 0 (len peers) ->
  SamplePeers peers maxSample indices = Some (Panic IndexOutOfRange).
Proof.
  intros Hm Hp. unfold SamplePeers. rewrite (proj2 (Z.leb_gt _ _)) by lia.
  apply (sample_loop_panics peers indices maxSample Hm) with (i := 0%nat).
  - rewrite Hp. apply Forall_forall. intros x Hx%elem_of_seqZ. lia.
  - unfold len. rewrite (Permutation_length Hp), length_seqZ. unfold len. lia.
  - unfold len. rewrite length_replicate. lia.
  - lia.
  - lia.
Qed.

(** A node that is connected to more than [MaxPeersForRequest] peers panics when
    it requests blocks or headers. *)
Theorem request_panics {A} protocol (peers : list A) indices now host messageID hashes :
  MaxPeersForRequest < len peers -> indices ≡ₚ seqZ 0 (len peers) ->
  send_requests protocol peers indices now host messageID hashes = Some (Panic IndexOutOfRange).
Proof. intros Hm Hp. unfold send_requests, request. by rewrite SamplePeers_too_many by (done || unfold MaxPeersForRequest in *; lia). Qed.

(** With no more peers, every one is asked. *)
Lemma request_all {A} protocol (peers : list A) indices now host messageID hashes : len peers <= MaxPeersForRequest ->
  send_requests protocol peers indices now host messageID hashes
  = Some (Ret (map (fun p => (Some p, protocol, hashes_request now host messageID hashes)) peers)).
Proof.
  intros Hm. unfold send_requests, request, SamplePeers. rewrite (proj2 (Z.leb_le _ _)) by done. by rewrite !map_map.
Qed.

(** ** Waiting for answers *)

(** What happens at a peer service: someone starts to wait, an answer is kept,
    its waiters are notified.  Between the last two the lock is free. *)
Inductive event := Wait (messageID : string) | Store (data : response) | Notify (messageID : string).

Definition happen (e : event) (n : PeerService) : go PeerService :=
  match e with
  | Wait id => Ret (AddMessageToPending id n).1
  | Store data => '(n, _) ← store_response data n; Ret n
  | Notify id => NotifyMessageWaiters id n
  end.

#[export] Instance event_eq_dec : EqDecision event.
Proof. solve_decision. Defined.

Fixpoint run (l : list event) (n : PeerService) : go PeerService :=
  match l with [] => Ret n | e :: l => n ← happen e n; run l n end.

(** The answers to a request, in the order of their arrival. *)
Definition answers (id : string) (l : list event) : list response :=
  omap (fun e => match e with
                 | Store data => if decide (MessageID <$> response_data data = Some id) then Some data else None
                 | Wait _ | Notify _ => None
                 end) l.

Arguments answers : simpl never.

(** Channels that are waited on are open, and each is waited on once. *)
Record peer_ok (n : PeerService) : Prop := {
  ok_open : forall id l ch, PendingRequestsWaiters n !! id = Some l -> ch ∈ l -> ch ∉ closed n;
  ok_next : forall id l ch, PendingRequestsWaiters n !! id = Some l -> ch ∈ l -> (ch < next_chan n)%nat;
  ok_closed : forall ch, ch ∈ closed n -> (ch < next_chan n)%nat;
  ok_nodup : forall id l, PendingRequestsWaiters n !! id = Some l -> NoDup l;
  ok_owner : forall id1 id2 l1 l2 ch, PendingRequestsWaiters n !! id1 = Some l1 -> PendingRequestsWaiters n !! id2 = Some l2 ->
    ch ∈ l1 -> ch ∈ l2 -> id1 = id2
}.

Lemma NewPeerService_ok : peer_ok NewPeerService.
Proof. by split. Qed.

Lemma close_all_open l s : NoDup l -> (forall ch, ch ∈ l -> ch ∉ s) -> close_all l s = Ret (list_to_set l ∪ s).
Proof.
  intros Hl. revert s. induction Hl as [|ch l Hch _ IH]; intros s Hs; cbn [close_all].
  - cbn [list_to_set]. by rewrite union_empty_l_L.
  - rewrite decide_False by apply Hs, list_elem_of_here. rewrite IH.
    + by rewrite list_to_set_cons, assoc_L, (comm_L _ (list_to_set l)) by apply _.
    + intros c Hc [->%elem_of_singleton|Hcs]%elem_of_union; [done|]. by apply (Hs c); [apply list_elem_of_further|].
Qed.

(** Those who wait are woken once. *)
Lemma notify_run n id : peer_ok n ->
  NotifyMessageWaiters id n = Ret
    match PendingRequestsWaiters n !! id with
    | None => n
    | Some l => MkPeerService (PendingRequests n) (<[id := []]> (PendingRequestsWaiters n)) (list_to_set l ∪ closed n) (next_chan n)
    end.
Proof.
  intros Hok. unfold NotifyMessageWaiters. destruct (PendingRequestsWaiters n !! id) as [l|] eqn:E; [|done].
  rewrite close_all_open; [done | by eapply ok_nodup | intros ch; by eapply ok_open].
Qed.

Lemma wait_ok n id : peer_ok n -> peer_ok (AddMessageToPending id n).1.
Proof.
  intros [Ho Hn Hc Hd Hw]. set (old := default [] (PendingRequestsWaiters n !! id)).
  assert (forall ch, ch ∈ old -> exists l, PendingRequestsWaiters n !! id = Some l /\ ch ∈ l) as Hold.
  { intros ch. unfold old. destruct (PendingRequestsWaiters n !! id) as [l|]; [by eauto|]. cbn. set_solver. }
  assert (forall i l ch, <[id := old ++ [next_chan n]]> (PendingRequestsWaiters n) !! i = Some l -> ch ∈ l ->
    ch = next_chan n /\ i = id \/ exists l', PendingRequestsWaiters n !! i = Some l' /\ ch ∈ l') as Hcases.
  { intros i l ch. rewrite lookup_insert. case_decide as Ei.
    - intros [= <-] [H|H%list_elem_of_singleton]%elem_of_app; [|by left]. right. subst. by apply Hold.
    - intros Hl Hin. right. by exists l. }
  split; cbn -[insert].
  - intros i l ch Hl Hin. destruct (Hcases _ _ _ Hl Hin) as [[-> _]|(l' & Hl' & Hin')]; [|by eapply Ho].
    intros Hx%Hc. lia.
  - intros i l ch Hl Hin. destruct (Hcases _ _ _ Hl Hin) as [[-> _]|(l' & Hl' & Hin')]; [lia|]. specialize (Hn _ _ _ Hl' Hin'). lia.
  - intros ch Hx%Hc. lia.
  - intros i l. rewrite lookup_insert. case_decide as Ei; [|apply Hd]. intros [= <-]. apply NoDup_app. split_and!.
    + unfold old. destruct (PendingRequestsWaiters n !! id) eqn:E; [by eapply Hd | constructor].
    + intros ch (l' & Hl' & Hin')%Hold ->%list_elem_of_singleton. specialize (Hn _ _ _ Hl' Hin'). lia.
    + apply NoDup_singleton.
  - intros i1 i2 l1 l2 ch H1 H2 Hc1 Hc2.
    destruct (Hcases _ _ _ H1 Hc1) as [[-> ->]|(l1' & H1' & Hc1')], (Hcases _ _ _ H2 Hc2) as [[E2 ->]|(l2' & H2' & Hc2')]; [done| | |by eapply Hw].
    + specialize (Hn _ _ _ H2' Hc2'). lia.
    + subst. specialize (Hn _ _ _ H1' Hc1'). lia.
Qed.

Lemma notify_ok n id n' : peer_ok n -> NotifyMessageWaiters id n = Ret n' -> peer_ok n'.
Proof.
  intros Hok. rewrite notify_run by done. intros [= <-].
  destruct Hok as [Ho Hn Hc Hd Hw]. destruct (PendingRequestsWaiters n !! id) as [l|] eqn:E; [|by split].
  assert (forall i l' ch, <[id := []]> (PendingRequestsWaiters n) !! i = Some l' -> ch ∈ l' ->
    PendingRequestsWaiters n !! i = Some l' /\ i <> id) as Hcases.
  { intros i l' ch. rewrite lookup_insert. case_decide; [intros [= <-] []%not_elem_of_nil | done]. }
  split; cbn -[insert].
  - intros i l' ch Hl Hin. destruct (Hcases _ _ _ Hl Hin) as [Hl' Hne]. apply not_elem_of_union. split; [|by eapply Ho].
    intros Hx%elem_of_list_to_set. by apply Hne, (Hw _ _ _ _ ch Hl' E).
  - intros i l' ch Hl Hin. destruct (Hcases _ _ _ Hl Hin) as [Hl' _]. by eapply Hn.
  - intros ch [Hx%elem_of_list_to_set|Hx]%elem_of_union; [by eapply Hn | by apply Hc].
  - intros i l'. rewrite lookup_insert. case_decide; [intros [= <-]; constructor | apply Hd].
  - intros i1 i2 l1 l2 ch H1 H2 Hc1 Hc2. destruct (Hcases _ _ _ H1 Hc1) as [H1' _], (Hcases _ _ _ H2 Hc2) as [H2' _]. by eapply Hw.
Qed.

(** [ch] is waited on for [id]. *)
Definition waiting (id : string) (ch : chan) (n : PeerService) : Prop :=
  exists l, PendingRequestsWaiters n !! id = Some l /\ ch ∈ l.

Definition carries_data (e : event) : Prop :=
  match e with Store data => is_Some (response_data data) | Wait _ | Notify _ => True end.

(** What an event does to those who wait and to what they find. *)
Record event_effect (es : list event) (n n' : PeerService) : Prop := {
  ee_ok : peer_ok n';
  ee_closed : closed n ⊆ closed n';
  ee_waiting : forall id ch, waiting id ch n -> Notify id ∉ es -> waiting id ch n';
  ee_woken : forall id ch, waiting id ch n -> Notify id ∈ es -> ch ∈ closed n';
  ee_data : forall id, GetDataFromMessage id n' = GetDataFromMessage id n ++ answers id es
}.

Lemma wait_effect id n : peer_ok n -> event_effect [Wait id] n (AddMessageToPending id n).1.
Proof.
  intros Hok. split; [by apply wait_ok | done | | |].
  - intros i ch (l & Hl & Hin) _. unfold waiting. cbn. rewrite lookup_insert. case_decide as Ei; [|by exists l].
    subst. rewrite Hl. eexists. split; [done|]. by apply elem_of_app; left.
  - by intros i ch _ ?%list_elem_of_singleton.
  - intros i. unfold GetDataFromMessage. change (answers i [Wait id]) with (@nil response). cbn. rewrite app_nil_r.
    destruct (PendingRequests n !! id) eqn:E; [done|]. rewrite lookup_insert. case_decide; subst; by rewrite ?E.
Qed.

Lemma store_effect data n : peer_ok n -> is_Some (response_data data) ->
  exists n', happen (Store data) n = Ret n' /\ event_effect [Store data] n n'.
Proof.
  intros Hok [md Hmd]. eexists. split; [cbn; unfold store_response; by rewrite Hmd|]. destruct Hok. split; [by split | done | done | |].
  - by intros i ch _ ?%list_elem_of_singleton.
  - intros id. unfold GetDataFromMessage, answers. cbn. rewrite Hmd. cbn.
    rewrite lookup_insert. case_decide; case_decide; try congruence; subst; by rewrite ?app_nil_r.
Qed.

Lemma notify_effect id n : peer_ok n -> exists n', happen (Notify id) n = Ret n' /\ event_effect [Notify id] n n'.
Proof.
  intros Hok. pose proof (notify_run n id Hok) as Hr. eexists. split; [exact Hr|].
  assert (forall i, answers i [Notify id] = []) as Ha by done.
  destruct (PendingRequestsWaiters n !! id) as [ls|] eqn:E; (split; [by eapply notify_ok | | | |]).
  - apply union_subseteq_r.
  - intros i ch (l & Hl & Hin) Hne. exists l. split; [|done]. cbn. rewrite lookup_insert_ne; [done|].
    intros ->. apply Hne, list_elem_of_here.
  - intros i ch (l & Hl & Hin) [= ->]%list_elem_of_singleton. simplify_eq. cbn.
    by apply elem_of_union; left; apply elem_of_list_to_set.
  - intros i. by rewrite Ha, app_nil_r.
  - done.
  - done.
  - intros i ch (l & Hl & Hin) [= ->]%list_elem_of_singleton. congruence.
  - intros i. by rewrite Ha, app_nil_r.
Qed.

Lemma happen_effect e n : peer_ok n -> carries_data e -> exists n', happen e n = Ret n' /\ event_effect [e] n n'.
Proof.
  destruct e; intros Hok Hd; [eexists; split; [done | by apply wait_effect] | by apply store_effect | by apply notify_effect].
Qed.

Lemma answers_app id l1 l2 : answers id (l1 ++ l2) = answers id l1 ++ answers id l2.
Proof. apply omap_app. Qed.

Lemma effect_trans l1 l2 n1 n2 n3 : event_effect l1 n1 n2 -> event_effect l2 n2 n3 -> event_effect (l1 ++ l2) n1 n3.
Proof.
  intros [_ Hc1 Hw1 Ha1 Hg1] [Hok Hc2 Hw2 Ha2 Hg2]. split; [done | by trans (closed n2) | | |].
  - intros id ch Hw [H1 H2]%not_elem_of_app. eauto.
  - intros id ch Hw [Hin|Hin]%elem_of_app; [by eapply Hc2, Ha1|].
    destruct (decide (Notify id ∈ l1)); [by eapply Hc2, Ha1 | eauto].
  - intros id. by rewrite Hg2, Hg1, answers_app, app_assoc.
Qed.

Lemma run_effect l n : peer_ok n -> Forall carries_data l -> exists n', run l n = Ret n' /\ event_effect l n n'.
Proof.
  intros Hok Hd. revert n Hok. induction Hd as [|e l He Hd IH]; intros n Hok.
  - exists n. split; [done|]. split; try done.
    + by intros id ch _ ?%not_elem_of_nil.
    + intros id. by rewrite app_nil_r.
  - destruct (happen_effect e n Hok He) as (n1 & Hr1 & He1).
    destruct (IH n1 (ee_ok _ _ _ He1)) as (n2 & Hr2 & He2). exists n2. cbn [run]. rewrite Hr1.
    split; [exact Hr2|]. exact (effect_trans [e] l _ _ _ He1 He2).
Qed.

(** C37. Whoever waits for the answers to a request is woken exactly when the waiters of
    that request are notified in the meantime, and finds what was there before and
    the answers kept since, in their order: no interleaving of waits, answers and
    notifications panics, loses an answer or wakes someone for the answer to
    another request. *)
Theorem woken_by_answer n id l : peer_ok n -> Forall carries_data l ->
  exists n', run l (AddMessageToPending id n).1 = Ret n' /\ peer_ok n' /\
    ((AddMessageToPending id n).2 ∈ closed n' <-> Notify id ∈ l) /\
    GetDataFromMessage id n' = GetDataFromMessage id n ++ answers id l.
Proof.
  intros Hok Hd. pose proof (wait_effect id n Hok) as Hwait.
  destruct (run_effect l _ (ee_ok _ _ _ Hwait) Hd) as (n2 & Hr & He). exists n2. split; [done|]. split; [by eapply ee_ok|].
  assert (waiting id (AddMessageToPending id n).2 (AddMessageToPending id n).1) as Hw.
  { unfold waiting. cbn. rewrite lookup_insert_eq. eexists. split; [done|]. apply elem_of_app. right. apply list_elem_of_here. }
  split; [|exact (ee_data _ _ _ (effect_trans [Wait id] l _ _ _ Hwait He) id)].
  split; [|by eapply ee_woken]. intros Hc. destruct (decide (Notify id ∈ l)) as [|Hn]; [done|].
  destruct (ee_waiting _ _ _ He _ _ Hw Hn) as (ls & Hl & Hin). exfalso. by eapply (ok_open _ (ee_ok _ _ _ He)).
Qed.

(** An answer without message data, as one that cannot be read leaves it, panics. *)
Theorem unreadable_answer_panics data n : response_data data = None -> onResponse data n = Panic NilDereference.
Proof. unfold onResponse, store_response. by intros ->. Qed.

(** ** Messages on a stream *)

(** A message that was written is read back, when its encoding is shorter than
    4 GiB, whatever follows it on the stream. *)
Lemma ReadProtoMsg_WriteProtoMsg {A} (Marshal : A -> option bytes) (Unmarshal : bytes -> A * bool) empty msg data rest :
  Marshal msg = Some data -> Unmarshal data = (msg, true) -> len data < 2 ^ 32 ->
  (written ← WriteProtoMsg Marshal msg; Some (ReadProtoMsg Unmarshal empty (written ++ rest))) = Some (msg, true).
Proof.
  intros Hm Hu Hl. unfold WriteProtoMsg. rewrite Hm. cbn [mbind option_bind]. f_equal. unfold ReadProtoMsg.
  rewrite <- app_assoc, !length_app, length_be_bytes. cbn [Nat.ltb Nat.leb Nat.add].
  rewrite take_app_length', drop_app_length' by (by rewrite length_be_bytes). rewrite big_SetBytes_be.
  replace (u32 (len data) mod 256 ^ Z.of_nat 4) with (len data) by (change (256 ^ Z.of_nat 4) with (2 ^ 32); unfold u32, len in *; by rewrite !Z.mod_small by (rewrite ?Z.mod_small; lia)).
  rewrite (proj2 (Z.ltb_ge _ _)) by (unfold len; rewrite length_app; lia).
  unfold len. by rewrite Nat2Z.id, take_app_length.
Qed.

(** ** A request and its answers *)

Section Exchange.
Context {Peer : Type} (Decode : string -> Peer).

(** A peer's node, the time there and the identifier of its host. *)
Abbreviation peer := (Node.Node * Z * string)%type.

Definition answer_of (data : HashesRequest) (p : peer) : go response :=
  '(_, r) ← onBlocksRequest Decode p.1.2 p.2 (Some p.1.1) data; Ret r.

Lemma to_hashes_id hashes : Forall (fun h => length h = 32%nat) hashes -> to_hashes hashes = hashes.
Proof. induction 1 as [|h l Hh _ IH]; [done|]. unfold to_hashes in *. cbn [map]. by rewrite IH, copy_into_id. Qed.

Lemma answer_blocks_sent now host id hashes peers data :
  Forall (fun h => length h = 32%nat) hashes ->
  Forall (fun p : peer => forall h b, Node.GetBlock p.1.1 h = Some b -> wire_block b) peers ->
  mapM (answer_of (hashes_request now host id hashes)) peers = Ret data ->
  answer_blocks data = Ret (map (fun p => Node.GetBlocks p.1.1 hashes) peers).
Proof.
  intros Hh Hw. revert data. induction Hw as [|[[m t] o] peers Hm _ IH]; intros data.
  - by intros [= <-].
  - cbn -[answer_blocks to_hashes]. rewrite to_hashes_id by done.
    destruct (mapM _ peers) as [ds|] eqn:Ed; [|done]. intros [= <-]. specialize (IH ds eq_refl).
    unfold answer_blocks in *. cbn [mapM]. rewrite mapM_go_map.
    + cbn. by rewrite IH.
    + apply Forall_forall. intros b (h & _ & Hb)%list_elem_of_omap. by eapply block_roundtrip, Hm.
Qed.

(** Who asks its peers for blocks under a new identifier and is woken finds, of
    every peer that answered, exactly the blocks that peer has of those asked for,
    whatever else happened at the peer service meanwhile. *)
Lemma fetch_blocks_ok n id now host hashes peers l :
  peer_ok n -> PendingRequests n !! id = None -> Forall carries_data l ->
  Forall (fun h => length h = 32%nat) hashes ->
  Forall (fun p : peer => forall h b, Node.GetBlock p.1.1 h = Some b -> wire_block b) peers ->
  mapM (answer_of (hashes_request now host id hashes)) peers = Ret (answers id l) -> Notify id ∈ l ->
  exists n', run l (AddMessageToPending id n).1 = Ret n' /\ (AddMessageToPending id n).2 ∈ closed n' /\
    answer_blocks (GetDataFromMessage id n') = Ret (map (fun p => Node.GetBlocks p.1.1 hashes) peers).
Proof.
  intros Hok Hid Hd Hh Hw Ha Hl. pose proof (wait_effect id n Hok) as Hwait.
  destruct (run_effect l _ (ee_ok _ _ _ Hwait) Hd) as (n2 & Hr & He). exists n2. split; [done|].
  pose proof (effect_trans [Wait id] l _ _ _ Hwait He) as Hboth. split.
  - eapply (ee_woken _ _ _ He); [|exact Hl]. unfold waiting. cbn. rewrite lookup_insert_eq.
    eexists. split; [done|]. apply elem_of_app. right. apply list_elem_of_here.
  - rewrite (ee_data _ _ _ Hboth). unfold GetDataFromMessage. rewrite Hid. cbn [default app].
    by apply (answer_blocks_sent now host id).
Qed.

End Exchange.

(** ** Instances *)

(** Two waits and two answers that overlap. *)
Definition demo_response (id : string) : response := HeadersResponse (Some (NewMessageData 5 "bob" id)) [].

Definition demo_events : list event :=
  [Wait "b"; Store (demo_response "a"); Wait "a"; Notify "a"; Store (demo_response "b"); Notify "b";
   Store (demo_response "a"); Notify "a"].

Lemma woken_by_answer_witness :
  exists n', run demo_events (AddMessageToPending "a" NewPeerService).1 = Ret n' /\ peer_ok n' /\
    ((AddMessageToPending "a" NewPeerService).2 ∈ closed n' <-> Notify "a" ∈ demo_events) /\
    GetDataFromMessage "a" n' = GetDataFromMessage "a" NewPeerService ++ answers "a" demo_events.
Proof.
  apply (woken_by_answer NewPeerService "a" demo_events NewPeerService_ok).
  repeat constructor; by eexists.
Defined.

Lemma request_panics_witness :
  RequestBlocks (seq 0 21) (seqZ 0 21) 5 "alice" "a" [Hash32_zero] = Some (Panic IndexOutOfRange).
Proof. apply (request_panics RPCBlocksRequest (seq 0 21) (seqZ 0 21)); [vm_compute; done | reflexivity]. Defined.

(** A node that has one block. *)
Definition demo_block : Block :=
  MkBlock (LedgerSpec.demo_header "42")
    [LedgerSpec.demo_tx 1 [MakePushInstruction "0x2a"; MakeInstruction (opcode STOP)]].

Definition demo_node : Node.Node :=
  Node.MkNode [] [] ∅ Hash32_zero ∅ {[Hash32_zero := demo_block]} ∅ ∅ Mempool.NewMempool None [].

Lemma demo_block_wire : wire_block demo_block.
Proof.
  split; [apply LedgerSpec.demo_header_ok | reflexivity |].
  constructor; [|constructor]. split; try reflexivity. repeat constructor; simpl; try discriminate; lia.
Qed.

Lemma demo_node_wire h b : Node.GetBlock demo_node h = Some b -> wire_block b.
Proof.
  unfold Node.GetBlock. cbn [Node.blocksMap demo_node Node.submittedBlocks].
  intros H. repeat case_match; simplify_map_eq; apply demo_block_wire.
Qed.

Definition demo_answer : response :=
  BlocksResponse (Some (NewMessageData 5 "bob" "a")) [BlockToProtoBlock demo_block].

Lemma fetch_blocks_instance :
  exists n', run [Store demo_answer; Notify "a"] (AddMessageToPending "a" NewPeerService).1 = Ret n' /\
    (AddMessageToPending "a" NewPeerService).2 ∈ closed n' /\
    answer_blocks (GetDataFromMessage "a" n') = Ret [[demo_block]].
Proof.
  apply (fetch_blocks_ok (fun s => s) NewPeerService "a" 4 "alice" [Hash32_zero] [(demo_node, 5, "bob")]%string).
  - apply NewPeerService_ok.
  - done.
  - repeat constructor; by eexists.
  - by repeat constructor.
  - constructor; [|constructor]. intros h b. apply demo_node_wire.
  - by vm_compute.
  - apply list_elem_of_further, list_elem_of_here.
Defined.

End Rpc.
