(* ===== verification/Sync.v ===== *)
(** * A block travels (src/node, src/libnet, src/libnet/rpc together)

    A node announces the header of a block it has, another node takes the header
    up, asks for the block and appends it.  The pieces are those of [Node] and
    [Rpc]; between the request and the answer the peer service may see any other
    traffic. *)

From S2P Require Import Prelude GoLib Config Utils Bytecode Sha256 Ledger LedgerSpec Work Chain Validation ValidationSpec.
From S2P Require Import Mempool Node NodeSpec Converters Rpc.

Module Sync.
Import Heap Chain Blk Validation Node NodeSpec Wire Rpc.
#[local] Abbreviation mem := Node.mem.
#[local] Abbreviation GetBlock := Node.GetBlock.

(** A peer's node, the time there and the identifier of its host. *)
Abbreviation peer := (Node.Node * Z * string)%type.

(** The callbacks [NewNode] sets: what is announced is processed. *)
Definition announced `{Signatures} (ex : option ContractExecutor) (env : Env) (data : HeaderData) : M (option node_error) :=
  match onHeaderAnnouncement true data with
  | Some header => ProcessHeader ex env header
  | None => mret None
  end.

Definition announced_transaction `{Signatures} (now : Z) (data : TransactionData) : M (option node_error) :=
  match onTransactionAnnouncement true data with
  | Some tx => tx ← of_go tx; ProcessTransaction now tx
  | None => mret None
  end.

(** Validation does not look at the headers of the chain. *)
Lemma ValidateBlock_AddHeader `{Signatures} ex b header c h :
  ValidateBlock ex b (AddHeader header c) h = ValidateBlock ex b c h.
Proof. reflexivity. Qed.

(** A header the wire can carry arrives as it was. *)
Lemma announced_header header : LedgerSpec.header_ok header -> Hdr.ReceiptRoot header = Hash32_zero ->
  onHeaderAnnouncement true (BlockHeaderToProtoHeader header) = Some header.
Proof.
  intros Hh Hr. unfold onHeaderAnnouncement. rewrite header_roundtrip by done. rewrite <- Hr. by destruct header.
Qed.

Section Travel.
Context `{Signatures} (ex : option ContractExecutor) {Peer : Type} (Decode : string -> Peer).

(** What peers that have a block under a hash, or nothing, answer to the request for it. *)
Lemma one_block hash b (peers : list peer) :
  Forall (fun p : peer => GetBlock p.1.1 hash = None \/ GetBlock p.1.1 hash = Some b) peers ->
  Exists (fun p : peer => GetBlock p.1.1 hash = Some b) peers ->
  exists k, concat (map (fun p => GetBlocks p.1.1 [hash]) peers) = replicate (S k) b.
Proof.
  intros Hall Hex. assert (forall l, Forall (fun p : peer => GetBlock p.1.1 hash = None \/ GetBlock p.1.1 hash = Some b) l ->
    exists k, concat (map (fun p => GetBlocks p.1.1 [hash]) l) = replicate k b) as Hl.
  { induction 1 as [|p l Hp _ [k IH]]; [by exists 0%nat|]. cbn [map concat]. rewrite IH. unfold GetBlocks.
    cbn [omap list_omap]. destruct Hp as [-> | ->]; [by exists k|by exists (S k)]. }
  induction Hex as [p l Hp|p l Hex IH]; apply Forall_cons in Hall as [Hp' Hall].
  - destruct (Hl l Hall) as [k E]. exists k. cbn [map concat]. rewrite E. unfold GetBlocks. cbn [omap list_omap]. by rewrite Hp.
  - destruct (IH Hall) as [k E]. cbn [map concat]. rewrite E. unfold GetBlocks. cbn [omap list_omap].
    destruct Hp' as [-> | ->]; [by exists k|by exists (S k)].
Qed.


End Travel.

End Sync.
