(* ===== verification/QueryApi.v ===== *)
(** * The query API (src/node/api.go)

    One handler per route, over the node of [Node.v].  A request is what the
    handlers look at: its method, its path, the query parameter [limit] and what
    the JSON decoder made of its body.  A response is an error with its status
    and message (without the text of an inner error), or the value that is
    encoded; the encoding itself, the server and logging are left out.  The
    orders of map iteration and the clock are arguments.  A panic ends the request:
    net/http recovers from it and closes the connection. *)

From S2P Require Import Prelude GoLib GoText Config Utils Bytecode Sha256 Ledger Work Chain Validation Mempool Node NodeSpec.

Module QueryApi.
Import Heap Acct Chain Blk Validation Node NodeSpec.
#[local] Abbreviation mem := Node.mem.
#[local] Open Scope string_scope.
#[local] Open Scope Z_scope.

(** ** Requests and responses *)

Record Request := MkRequest { Method : string; Path : string; limit : string }.

Inductive http (A : Type) :=
  | HttpError (code : Z) (message : string)
  | Encoded (response : A).
Arguments HttpError {A} _ _.
Arguments Encoded {A} _.

#[export] Instance http_bind : MBind http := fun A B f c =>
  match c with HttpError code message => HttpError code message | Encoded a => f a end.

Definition MethodGet : string := "GET".
Definition MethodPost : string := "POST".
Definition StatusBadRequest : Z := 400.
Definition StatusMethodNotAllowed : Z := 405.

(** [if r.Method != method { http.Error(...) }] *)
Definition check_method (method : string) (r : Request) : http unit :=
  if String.eqb (Method r) method then Encoded () else HttpError StatusMethodNotAllowed "Method not allowed".

Record BalanceResponse := MkBalanceResponse { brAddress : string; brExists : bool; brBalance : Z; brNonce : Z }.

Record SubmitTransactionResponse := MkSubmitTransactionResponse { srStatus : string; srHash : string }.

Record TransactionResponse := MkTransactionResponse {
  trFound : bool; trTransaction : option Tx.Transaction; BlockHeight : Z; trBlockHash : string; TxIndex : Z;
  trStatus : string; InMempool : bool; trHash : string
}.

Record BlockResponse := MkBlockResponse {
  bkFound : bool; bkBlock : option Block; bkHeight : Z; bkHash : string; TxCount : Z; Confirmations : Z
}.

Record MempoolResponse := MkMempoolResponse { Count : Z; mpTransactions : list Tx.Transaction }.

Record ContractResponse := MkContractResponse {
  crFound : bool; crAddress : string; crBalance : Z; crNonce : Z; IsContract : bool; HasInstructions : bool;
  StorageEntries : Z; PersistentData : gmap string string; crCodeHash : string; crStorageRoot : string
}.

(** The accounts are pointers into the memory of the node. *)
Record ChainStateResponse := MkChainStateResponse { csAccountStates : gmap string loc; AccountCount : Z }.

(** ** Parameters in paths *)

(** An address is in hex. *)
Definition path_address (required path : string) : http PublicKey :=
  if String.eqb path "" then HttpError StatusBadRequest required
  else
    match hex_DecodeString path with
    | None => HttpError StatusBadRequest "Invalid address format"
    | Some addressBytes =>
        if bool_decide (length addressBytes = 32%nat) then Encoded (copy_into 32 addressBytes)
        else HttpError StatusBadRequest "Address must be 32 bytes"
    end.

(** A hash is in hex or, if it cannot be that, in base64. *)
Definition path_hash (required path : string) : http Hash32 :=
  if String.eqb path "" then HttpError StatusBadRequest required
  else
    match (match hex_DecodeString path with Some b => Some b | None => base64_DecodeString path end) with
    | None => HttpError StatusBadRequest "Invalid hash format (tried hex and base64)"
    | Some hashBytes =>
        if bool_decide (length hashBytes = 32%nat) then Encoded (copy_into 32 hashBytes)
        else HttpError StatusBadRequest "Hash must be 32 bytes"
    end.

(** The number of transactions [/mempool] gives. *)
Definition parse_limit (limitStr : string) : Z :=
  if String.eqb limitStr "" then 100
  else
    match strconv_Atoi limitStr with
    | None => 100
    | Some parsedLimit =>
        let limit := parsedLimit in
        let limit := if 1000 <? limit then 1000 else limit in
        if limit <? 1 then 1 else limit
    end.

(** ** Handlers that only read *)

Definition handleChainInfo (n : Node) (r : Request) : http (Z * Hash32 * string) :=
  check_method MethodGet r ≫= fun _ => Encoded (GetChainHead n).

Definition hex_keys (m : accounts) : gmap string loc :=
  foldl (fun acc kv => <[hex_encode kv.1 := kv.2]> acc) ∅ (map_to_list m).

Definition handleChainState (n : Node) (r : Request) : http ChainStateResponse :=
  check_method MethodGet r ≫= fun _ =>
  let chain := GetChain n in
  Encoded (MkChainStateResponse (hex_keys (AccountStates chain)) (Z.of_nat (size (AccountStates chain)))).

(** The account an address has in the current chain. *)
Definition account_at (n : Node) (publicKey : PublicKey) : go (option AccountState) :=
  match AccountStates (GetChain n) !! publicKey with
  | None => Ret None
  | Some p => a ← deref (mem n) p; Ret (Some a)
  end.

Definition handleBalance (n : Node) (r : Request) : go (http BalanceResponse) :=
  let path := strings_TrimPrefix (Path r) "/balance/" in
  match check_method MethodGet r ≫= fun _ => path_address "Address required" path with
  | HttpError code message => Ret (HttpError code message)
  | Encoded publicKey =>
      accountState ← account_at n publicKey;
      Ret (Encoded match accountState with
                   | Some a => MkBalanceResponse path true (Balance a) (Nonce a)
                   | None => MkBalanceResponse path false 0 0
                   end)
  end.

Definition contract_response (path : string) (accountState : option AccountState) : ContractResponse :=
  match accountState with
  | None => MkContractResponse false path 0 0 false false 0 ∅ "" ""
  | Some a =>
      let code := negb (bool_decide (Instructions a = [])) in
      MkContractResponse true path (Balance a) (Nonce a) code code (Z.of_nat (size (Persistent a))) (Persistent a)
        (hex_encode (CodeHash a)) (hex_encode (StorageRoot a))
  end.

Definition handleContract (n : Node) (r : Request) : go (http ContractResponse) :=
  let path := strings_TrimPrefix (Path r) "/contract/" in
  match check_method MethodGet r ≫= fun _ => path_address "Contract address required" path with
  | HttpError code message => Ret (HttpError code message)
  | Encoded publicKey => accountState ← account_at n publicKey; Ret (Encoded (contract_response path accountState))
  end.

(** The first block of [blocks], from [blockHeight] on, with the hash. *)
Fixpoint find_block (targetHash : Hash32) (blocks : list (option Block)) (blockHeight : Z) : go (option (Z * Block)) :=
  match blocks with
  | [] => Ret None
  | None :: _ => Panic NilDereference
  | Some block :: blocks =>
      if bool_decide (Hdr.GetHash (Header block) = targetHash) then Ret (Some (blockHeight, block))
      else find_block targetHash blocks (blockHeight + 1)
  end.

Definition handleBlock (n : Node) (r : Request) : go (http BlockResponse) :=
  let path := strings_TrimPrefix (Path r) "/block/" in
  match check_method MethodGet r ≫= fun _ => path_hash "Block hash required" path with
  | HttpError code message => Ret (HttpError code message)
  | Encoded targetHash =>
      let blocks := Blocks (GetChain n) in
      found ← find_block targetHash blocks 0;
      Ret (Encoded match found with
                   | Some (blockHeight, block) =>
                       MkBlockResponse true (Some block) blockHeight (hex_encode (Hdr.GetHash (Header block)))
                         (len (Transactions block)) (len blocks - blockHeight)
                   | None => MkBlockResponse false None 0 path 0 0
                   end)
  end.

(** ** Transactions *)

(** The first transaction of [txs], from [txIndex] on, with the hash. *)
Fixpoint find_tx (targetHash : Hash32) (txs : list Tx.Transaction) (txIndex : Z) : option (Z * Tx.Transaction) :=
  match txs with
  | [] => None
  | tx :: txs => if bool_decide (Tx.GetHash tx = targetHash) then Some (txIndex, tx) else find_tx targetHash txs (txIndex + 1)
  end.

(** And of the transactions of [blocks]. *)
Fixpoint find_in_blocks (targetHash : Hash32) (blocks : list (option Block)) (blockHeight : Z)
    : go (option (Z * Block * Z * Tx.Transaction)) :=
  match blocks with
  | [] => Ret None
  | None :: _ => Panic NilDereference
  | Some block :: blocks =>
      match find_tx targetHash (Transactions block) 0 with
      | Some (txIndex, tx) => Ret (Some (blockHeight, block, txIndex, tx))
      | None => find_in_blocks targetHash blocks (blockHeight + 1)
      end
  end.

(** What the pool gives depends on the time and on two orders of iteration. *)
Record PoolEnv := MkPoolEnv { now : Z; order1 : Mempool.order; order2 : Mempool.order }.

(** [node.GetMempool().GetTransactions(limit)] *)
Definition pool_transactions (env : PoolEnv) (limit : Z) : M (list Tx.Transaction) :=
  n ← get;
  '(mp, txs) ← of_go (Mempool.GetTransactions (now env) limit (order1 env) (order2 env) (pool n));
  modify (with_pool mp);;
  mret txs.

Definition handleTransaction (env : PoolEnv) (r : Request) : M (http TransactionResponse) :=
  let path := strings_TrimPrefix (Path r) "/transaction/" in
  match check_method MethodGet r ≫= fun _ => path_hash "Transaction hash required" path with
  | HttpError code message => mret (HttpError code message)
  | Encoded targetHash =>
      n ← get;
      found ← of_go (find_in_blocks targetHash (Blocks (GetChain n)) 0);
      match found with
      | Some (blockHeight, block, txIndex, tx) =>
          mret (Encoded (MkTransactionResponse true (Some tx) blockHeight (hex_encode (Hdr.GetHash (Header block))) txIndex
            "" false ""))
      | None =>
          transactions ← pool_transactions env 1000;
          mret (Encoded match find_tx targetHash transactions 0 with
                        | Some (_, tx) => MkTransactionResponse true (Some tx) 0 "" 0 "pending" true ""
                        | None => MkTransactionResponse false None 0 "" 0 "" false path
                        end)
      end
  end.

Definition handleGetMempool (env : PoolEnv) (r : Request) : M (http MempoolResponse) :=
  match check_method MethodGet r with
  | HttpError code message => mret (HttpError code message)
  | Encoded _ =>
      transactions ← pool_transactions env (parse_limit (limit r));
      mret (Encoded (MkMempoolResponse (len transactions) transactions))
  end.

(** ** Submissions *)

Section Submit.
Context `{Signatures} (ex : option ContractExecutor).

(** The body is [None] when it cannot be decoded. *)
Definition handleSubmitTransaction (now : Z) (r : Request) (body : option Tx.Transaction)
    : M (http SubmitTransactionResponse) :=
  match check_method MethodPost r with
  | HttpError code message => mret (HttpError code message)
  | Encoded _ =>
      match body with
      | None => mret (HttpError StatusBadRequest "Invalid transaction format")
      | Some tx =>
          err ← ProcessTransaction now tx;
          mret match err with
               | Some _ => HttpError StatusBadRequest "Transaction rejected"
               | None => Encoded (MkSubmitTransactionResponse "submitted" (hex_encode (Tx.GetHash tx)))
               end
      end
  end.

(** The response, which says nothing of the outcome, and the block that a new
    goroutine takes up. *)
Definition handleSubmitBlock (r : Request) (body : option Block) : http string * option Block :=
  match check_method MethodPost r with
  | HttpError code message => (HttpError code message, None)
  | Encoded _ =>
      match body with
      | None => (HttpError StatusBadRequest "Invalid block format", None)
      | Some block => (Encoded "submitted", Some block)
      end
  end.

(** The goroutine, to its end or to where [ProcessHeader] waits; whether the header
    is announced to the peers now. *)
Definition submit_block (env : Env) (block : Block) : M bool :=
  StoreBlock block;;
  err ← ProcessHeader ex env (Header block);
  n ← get;
  mret (bool_decide (err = None) && bool_decide (processing n = None)).

End Submit.

(** ** Routes *)

Inductive endpoint :=
  | ChainInfo | ChainState | SubmitBlock | SubmitTransaction | GetMempool | GetBalance | GetTransaction | LookupBlock
  | GetContract.

#[export] Instance endpoint_eq_dec : EqDecision endpoint.
Proof. solve_decision. Defined.

(** The table of [StartQueryAPI]. *)
Definition routes : list (string * endpoint) :=
  [("/chain-info", ChainInfo); ("/chain-state", ChainState); ("/submit-block", SubmitBlock);
   ("/submit-transaction", SubmitTransaction); ("/mempool", GetMempool); ("/balance/", GetBalance);
   ("/transaction/", GetTransaction); ("/block/", LookupBlock); ("/contract/", GetContract)].

(** A pattern that ends with a slash matches every path below it.  A path that is
    not clean is redirected before. *)
Definition matches (path pattern : string) : bool :=
  match List.rev (bytes_of_string pattern) with
  | "/"%char :: _ => has_prefix pattern path
  | _ => String.eqb path pattern
  end.

(** [mux] takes the most specific pattern that matches: here no two match. *)
Definition mux (path : string) : option endpoint := snd <$> List.find (fun kv => matches path kv.1) routes.

(** ** Hashes and addresses in paths *)

Lemma path_address_hex required pk : length pk = 32%nat -> path_address required (hex_encode pk) = Encoded pk.
Proof.
  intros Hl. unfold path_address. rewrite (proj2 (String.eqb_neq _ _)).
  - rewrite hex_decode_encode, bool_decide_true by done. by rewrite copy_into_id.
  - intros He. apply (hex_encode_inj pk []) in He. by subst.
Qed.

(** The two forms of a hash are the same to a handler. *)
Lemma path_hash_hex required h : length h = 32%nat -> path_hash required (hex_encode h) = Encoded h.
Proof.
  intros Hl. unfold path_hash. rewrite (proj2 (String.eqb_neq _ _)).
  - rewrite hex_decode_encode, bool_decide_true by done. by rewrite copy_into_id.
  - intros He. apply (hex_encode_inj h []) in He. by subst.
Qed.

Lemma path_hash_base64 required h : length h = 32%nat -> path_hash required (base64_EncodeToString h) = Encoded h.
Proof.
  intros Hl. unfold path_hash. rewrite (proj2 (String.eqb_neq _ _)).
  - rewrite base64_not_hex by (rewrite Hl; done). rewrite base64_roundtrip, bool_decide_true by done. by rewrite copy_into_id.
  - intros He. pose proof (base64_roundtrip h) as Hr. rewrite He in Hr. cbn in Hr. injection Hr as <-. done.
Qed.

Lemma parse_limit_bounds s : 1 <= parse_limit s <= 1000.
Proof.
  unfold parse_limit. repeat case_match; simplify_eq; try lia;
    repeat match goal with H : (_ <? _) = _ |- _ => apply Z.ltb_lt in H || apply Z.ltb_ge in H end; lia.
Qed.

(** ** Accounts *)

Lemma current_chain_wf n c : node_ok n -> current_chain n = Some c -> chain_wf (mem n) c.
Proof.
  intros Hok Hc. unfold current_chain in Hc. destruct (chains n !! currentChainTip n) as [p|]; [|done].
  pose proof (ok_store n Hok) as Hs. rewrite Forall_lookup in Hs. by eapply Hs.
Qed.

Lemma GetChain_accounts n : node_ok n -> wf (mem n) (AccountStates (GetChain n)).
Proof.
  intros Hok. unfold GetChain. case_bool_decide; [by split|].
  destruct (current_chain n) as [c|] eqn:Ec; [|by split]. exact (cw_accounts _ _ (current_chain_wf n c Hok Ec)).
Qed.

(** The accounts of the current chain, by address. *)
Definition balances (n : Node) : gmap PublicKey AccountState := view (mem n) (AccountStates (GetChain n)).

Lemma account_at_ok n pk : node_ok n -> account_at n pk = Ret (balances n !! pk).
Proof.
  intros Hok. unfold account_at, balances, view. rewrite lookup_omap.
  destruct (AccountStates (GetChain n) !! pk) as [l|] eqn:El; [|done].
  apply (wf_valid _ _ (GetChain_accounts n Hok)) in El. apply lookup_lt_is_Some_2 in El as [a Ha].
  unfold deref. cbn [mbind option_bind]. by rewrite Ha.
Qed.

(** [/balance] gives the account of the address in the current chain, and says so
    when there is none; it never panics. *)
Theorem handleBalance_spec n pk limit : node_ok n -> length pk = 32%nat ->
  handleBalance n (MkRequest "GET" ("/balance/" ++ hex_encode pk) limit)
  = Ret (Encoded match balances n !! pk with
                 | Some a => MkBalanceResponse (hex_encode pk) true (Balance a) (Nonce a)
                 | None => MkBalanceResponse (hex_encode pk) false 0 0
                 end).
Proof.
  intros Hok Hl. unfold handleBalance. cbn [Path]. rewrite TrimPrefix_app, path_address_hex by done.
  cbn -[account_at hex_encode]. by rewrite account_at_ok.
Qed.

Theorem handleContract_spec n pk limit : node_ok n -> length pk = 32%nat ->
  handleContract n (MkRequest "GET" ("/contract/" ++ hex_encode pk) limit)
  = Ret (Encoded (contract_response (hex_encode pk) (balances n !! pk))).
Proof.
  intros Hok Hl. unfold handleContract. cbn [Path]. rewrite TrimPrefix_app, path_address_hex by done.
  cbn -[account_at hex_encode contract_response]. by rewrite account_at_ok.
Qed.

Lemma hex_keys_lookup m pk : hex_keys m !! hex_encode pk = m !! pk.
Proof.
  unfold hex_keys. enough (forall (l : list (PublicKey * loc)) (acc : gmap string loc), NoDup l.*1 ->
    foldl (fun acc kv => <[hex_encode kv.1 := kv.2]> acc) acc l !! hex_encode pk
    = match (list_to_map l : accounts) !! pk with Some v => Some v | None => acc !! hex_encode pk end) as He.
  { rewrite He by apply NoDup_fst_map_to_list. rewrite list_to_map_to_list. by destruct (m !! pk). }
  induction l as [|[k v] l IH]; intros acc Hl; [done|]. cbn [foldl fst snd]. apply NoDup_cons in Hl as [Hk Hl].
  rewrite IH by done. cbn [list_to_map foldr]. cbn [fst snd]. destruct (decide (k = pk)) as [->|Hne].
  - rewrite lookup_insert_eq. rewrite (not_elem_of_list_to_map_1 l pk) by done. by rewrite lookup_insert_eq.
  - rewrite (lookup_insert_ne (M := gmap PublicKey) _ k pk) by done.
    by rewrite (lookup_insert_ne (M := gmap string)) by (intros He%hex_encode_inj; congruence).
Qed.

(** The miners' view of the accounts has every account of the current chain under
    its address in hex. *)
Theorem handleChainState_spec n path limit :
  exists response, handleChainState n (MkRequest "GET" path limit) = Encoded response /\
    AccountCount response = Z.of_nat (size (AccountStates (GetChain n))) /\
    forall pk, csAccountStates response !! hex_encode pk = AccountStates (GetChain n) !! pk.
Proof. eexists. split; [reflexivity|]. split; [done|]. intros pk. apply hex_keys_lookup. Qed.

(** ** Searching *)

Lemma find_tx_find h txs i :
  find_tx h txs i = prod_map (fun j => i + Z.of_nat j) id <$> list_find (fun tx => Tx.GetHash tx = h) txs.
Proof.
  revert i. induction txs as [|tx txs IH]; intros i; [done|]. cbn [find_tx list_find].
  case_bool_decide as Ht; [rewrite decide_True by done | rewrite decide_False by done].
  - cbn. by rewrite Z.add_0_r.
  - rewrite IH. destruct (list_find _ txs) as [[j y]|]; [|done]. cbn. do 2 f_equal. lia.
Qed.

Definition has_tx (h : Hash32) (b : Block) : Prop := Exists (fun tx => Tx.GetHash tx = h) (Transactions b).

Lemma find_in_blocks_ok h bs i :
  (exists k b j tx, find_in_blocks h (map Some bs) i = Ret (Some (i + Z.of_nat k, b, Z.of_nat j, tx)) /\
     bs !! k = Some b /\ Transactions b !! j = Some tx /\ Tx.GetHash tx = h /\ Forall (fun b => ~ has_tx h b) (take k bs))
  \/ find_in_blocks h (map Some bs) i = Ret None /\ Forall (fun b => ~ has_tx h b) bs.
Proof.
  revert i. induction bs as [|b bs IH]; intros i; [by right|]. cbn [map find_in_blocks]. rewrite find_tx_find.
  destruct (list_find _ (Transactions b)) as [[j tx]|] eqn:Ef; cbn [fmap option_fmap option_map prod_map].
  - apply list_find_Some in Ef as (Hj & Ht & _). left. exists 0%nat, b, j, tx. rewrite Z.add_0_r. by split_and!.
  - assert (~ has_tx h b) as Hb by (by apply list_find_None, (Forall_not_Exists (fun tx => Tx.GetHash tx = h)) in Ef).
    destruct (IH (i + 1)) as [(k & b' & j & tx & He & Hk & Hj & Ht & Hf)|[He Hf]]; [left|right; by auto].
    exists (S k), b', j, tx. rewrite He. split; [by replace (i + 1 + Z.of_nat k) with (i + Z.of_nat (S k)) by lia|]. split_and!; try done. by constructor.
Qed.

(** A height without a block hides everything above it: the search panics there. *)
Lemma find_in_blocks_hole h bs rest i : Forall (fun b => ~ has_tx h b) bs ->
  find_in_blocks h (map Some bs ++ None :: rest) i = Panic NilDereference.
Proof.
  intros Hf. revert i. induction Hf as [|b bs Hb _ IH]; intros i; [done|]. cbn [map app find_in_blocks]. rewrite find_tx_find.
  destruct (list_find _ (Transactions b)) as [[j tx]|] eqn:Ef; [|apply IH].
  apply list_find_Some in Ef as (Hj & Ht & _). exfalso. apply Hb, Exists_exists. exists tx.
  split; [by eapply list_elem_of_lookup_2 | done].
Qed.

(** ** The pool *)

(** The orders are those of the maps ranged over. *)
Record orders_ok (env : PoolEnv) (n : Node) : Prop := {
  oo_first : order1 env ≡ₚ map_to_list (Mempool.transactions (pool n));
  oo_second : order2 env ≡ₚ map_to_list (Mempool.live (now env) (pool n))
}.

Lemma pool_transactions_ok env limit n : node_ok n -> orders_ok env n -> exists mp es rest,
  pool_transactions env limit n = Some (Ret (with_pool mp n, map Mempool.Transaction es)) /\
  node_ok (with_pool mp n) /\ Mempool.transactions mp = Mempool.live (now env) (pool n) /\
  (map_to_list (Mempool.live (now env) (pool n))).*2 ≡ₚ es ++ rest /\
  length es = (Z.to_nat limit `min` size (Mempool.live (now env) (pool n)))%nat /\ Mempool.best es rest.
Proof.
  intros Hok [H1 H2]. destruct (Mempool.GetTransactions_ok (now env) limit _ _ (pool n) (ok_pool n Hok) H1 H2)
    as (mp & es & rest & Hg & Hp & Ht & Hperm & Hl & Hb).
  exists mp, es, rest. split_and!; try done.
  - unfold pool_transactions, of_go, get, modify, mret, M_ret, mbind, M_bind. by rewrite Hg.
  - by apply (evt_ok n), set_pool.
Qed.

Lemma live_size now mp : Mempool.pool_ok mp -> (size (Mempool.live now mp) <= 1000)%nat.
Proof.
  intros Hok. pose proof (Mempool.ok_size mp Hok) as Hs. unfold Mempool.Size, MempoolMaxSize in Hs.
  assert (size (Mempool.live now mp) <= size (Mempool.transactions mp))%nat; [|lia].
  apply map_subseteq_size, map_filter_subseteq.
Qed.

(** A thousand transactions are all of them. *)
Lemma pool_search env n : node_ok n -> orders_ok env n -> exists mp txs,
  pool_transactions env 1000 n = Some (Ret (with_pool mp n, txs)) /\ node_ok (with_pool mp n) /\
  forall h, snd <$> find_tx h txs 0 = Mempool.Transaction <$> Mempool.live (now env) (pool n) !! h.
Proof.
  intros Hok Ho. destruct (pool_transactions_ok env 1000 n Hok Ho) as (mp & es & rest & Hg & Hok' & Ht & Hp & Hl & _).
  exists mp, (map Mempool.Transaction es). split; [done|]. split; [done|]. intros h.
  pose proof (live_size (now env) _ (ok_pool n Hok)) as Hs. pose proof (Permutation_length Hp) as Hlp.
  rewrite length_fmap, length_map_to_list, length_app in Hlp.
  destruct rest; [|cbn in Hlp; lia]. rewrite app_nil_r in Hp. clear Hl Hlp Hs Hg Hok' Ht.
  assert (forall e, e ∈ es <-> Mempool.live (now env) (pool n) !! Tx.GetHash (Mempool.Transaction e) = Some e) as He.
  { intros e. rewrite <- Hp, list_elem_of_fmap. split.
    - intros ([k e'] & -> & Hin%elem_of_map_to_list). cbn [snd]. pose proof Hin as Hin2.
      apply map_lookup_filter_Some in Hin as [Hin _]. by destruct (Mempool.ok_keys _ (ok_pool n Hok) _ _ Hin) as [<- _].
    - intros Hin. exists (Tx.GetHash (Mempool.Transaction e), e). split; [done|]. by apply elem_of_map_to_list. }
  rewrite find_tx_find. destruct (list_find _ (map Mempool.Transaction es)) as [[j tx]|] eqn:Ef.
  - apply list_find_Some in Ef as (Hj & <- & _). rewrite list_lookup_fmap in Hj.
    destruct (es !! j) as [e|] eqn:Ej; [|done]. injection Hj as <-. cbn [fmap option_fmap option_map prod_map snd].
    apply list_elem_of_lookup_2, He in Ej. by rewrite Ej.
  - destruct (Mempool.live (now env) (pool n) !! h) as [e|] eqn:Ee; [|done]. exfalso.
    pose proof Ee as Hm. apply map_lookup_filter_Some in Hm as [Hm _].
    destruct (Mempool.ok_keys _ (ok_pool n Hok) _ _ Hm) as [-> _]. apply He in Ee.
    apply list_find_None in Ef. rewrite Forall_forall in Ef. eapply Ef; [|reflexivity].
    by apply list_elem_of_fmap_2.
Qed.

(** ** Looking up transactions and blocks *)

(** A path names a hash in hex or in base64. *)
Definition names (path : string) (h : Hash32) : Prop :=
  length h = 32%nat /\ (path = hex_encode h \/ path = base64_EncodeToString h).

Lemma names_hash required path h : names path h -> path_hash required path = Encoded h.
Proof. intros [Hl [->| ->]]; [by apply path_hash_hex | by apply path_hash_base64]. Qed.

(** The handler once the path is read. *)
Lemma handleTransaction_run env n h path limit : names path h ->
  handleTransaction env (MkRequest "GET" ("/transaction/" ++ path) limit) n
  = match find_in_blocks h (Blocks (GetChain n)) 0 with
    | Panic k => Some (Panic k)
    | Ret (Some (blockHeight, block, txIndex, tx)) =>
        Some (Ret (n, Encoded (MkTransactionResponse true (Some tx) blockHeight (hex_encode (Hdr.GetHash (Header block))) txIndex
          "" false "")))
    | Ret None =>
        (transactions ← pool_transactions env 1000;
         mret (Encoded match find_tx h transactions 0 with
                       | Some (_, tx) => MkTransactionResponse true (Some tx) 0 "" 0 "pending" true ""
                       | None => MkTransactionResponse false None 0 "" 0 "" false path
                       end)) n
    end.
Proof.
  intros Hn. unfold handleTransaction. cbn [Path]. rewrite TrimPrefix_app. cbn [check_method Method String.eqb].
  replace (check_method MethodGet _ ≫= _) with (path_hash "Transaction hash required" path) by done.
  rewrite (names_hash _ _ _ Hn). unfold get, of_go, mbind, M_bind. by destruct (find_in_blocks _ _ _) as [[[[[? ?] ?] ?]|]|].
Qed.

(** What [/transaction] finds. *)
Lemma handleTransaction_ok env n bs h path limit :
  node_ok n -> orders_ok env n -> Blocks (GetChain n) = map Some bs -> names path h ->
  exists n' r, handleTransaction env (MkRequest "GET" ("/transaction/" ++ path) limit) n = Some (Ret (n', Encoded r)) /\
    node_ok n' /\
    match trFound r, InMempool r with
    | true, false => exists k b j tx, BlockHeight r = Z.of_nat k /\ TxIndex r = Z.of_nat j /\ trTransaction r = Some tx /\
        trBlockHash r = hex_encode (Hdr.GetHash (Header b)) /\
        bs !! k = Some b /\ Transactions b !! j = Some tx /\ Tx.GetHash tx = h
    | true, true => Forall (fun b => ~ has_tx h b) bs /\
        exists e, Mempool.live (now env) (pool n) !! h = Some e /\ trTransaction r = Some (Mempool.Transaction e)
    | false, _ => Forall (fun b => ~ has_tx h b) bs /\ Mempool.live (now env) (pool n) !! h = None
    end.
Proof.
  intros Hok Ho Hb Hn. rewrite (handleTransaction_run _ _ _ _ _ Hn), Hb.
  destruct (find_in_blocks_ok h bs 0) as [(k & b & j & tx & -> & Hk & Hj & Ht & _)|[-> Hf]].
  - eexists n, _. split; [reflexivity|]. split; [done|]. cbn. exists k, b, j, tx. rewrite Z.add_0_l. by split_and!.
  - destruct (pool_search env n Hok Ho) as (mp & txs & Hp & Hok' & Hs). specialize (Hs h).
    unfold mbind, M_bind. rewrite Hp. eexists (with_pool mp n), _. split; [reflexivity|]. split; [done|].
    destruct (find_tx h txs 0) as [[j tx]|]; cbn in *; (split; [done|]); destruct (Mempool.live _ _ !! h) as [e|]; try done.
    exists e. split; [done|]. exact Hs.
Qed.

(** C29. What [/transaction] says of a hash is true and complete: a transaction of the
    current chain is found with its place, one that is only in the pool and has not
    expired is found as pending, and any other hash is not found.  Hex and base64
    are the same. *)
Theorem handleTransaction_spec env n bs h path limit :
  node_ok n -> orders_ok env n -> Blocks (GetChain n) = map Some bs -> names path h ->
  exists n' r, handleTransaction env (MkRequest "GET" ("/transaction/" ++ path) limit) n = Some (Ret (n', Encoded r)) /\
    node_ok n' /\
    match trFound r, InMempool r with
    | true, false => exists k b j tx, BlockHeight r = Z.of_nat k /\ TxIndex r = Z.of_nat j /\ trTransaction r = Some tx /\
        trBlockHash r = hex_encode (Hdr.GetHash (Header b)) /\
        bs !! k = Some b /\ Transactions b !! j = Some tx /\ Tx.GetHash tx = h
    | true, true => Forall (fun b => ~ has_tx h b) bs /\
        exists e, Mempool.live (now env) (pool n) !! h = Some e /\ trTransaction r = Some (Mempool.Transaction e)
    | false, _ => Forall (fun b => ~ has_tx h b) bs /\ Mempool.live (now env) (pool n) !! h = None
    end.
Proof. apply handleTransaction_ok. Qed.

(** A height without a block, which a fork leaves when its blocks arrive out of
    order, makes every search that gets there panic. *)
Theorem handleTransaction_hole env n bs rest h path limit :
  Blocks (GetChain n) = (map Some bs ++ None :: rest)%list -> Forall (fun b => ~ has_tx h b) bs -> names path h ->
  handleTransaction env (MkRequest "GET" ("/transaction/" ++ path) limit) n = Some (Panic NilDereference).
Proof. intros Hb Hf Hn. by rewrite (handleTransaction_run _ _ _ _ _ Hn), Hb, find_in_blocks_hole. Qed.

Lemma find_block_ok h bs i :
  (exists k b, find_block h (map Some bs) i = Ret (Some (i + Z.of_nat k, b)) /\ bs !! k = Some b /\ Hdr.GetHash (Header b) = h)
  \/ find_block h (map Some bs) i = Ret None /\ Forall (fun b => Hdr.GetHash (Header b) <> h) bs.
Proof.
  revert i. induction bs as [|b bs IH]; intros i; [by right|]. cbn [map find_block].
  case_bool_decide as Hh; [left; exists 0%nat, b; by rewrite Z.add_0_r|].
  destruct (IH (i + 1)) as [(k & b' & He & Hk & Hb)|[He Hf]]; [left|right; by auto].
  exists (S k), b'. rewrite He. by replace (i + 1 + Z.of_nat k) with (i + Z.of_nat (S k)) by lia.
Qed.

(** [/block] finds a block of the current chain by its hash, at its height, with the
    number of blocks from it to the tip; any other hash is not found. *)
Theorem handleBlock_spec n bs h path limit :
  Blocks (GetChain n) = map Some bs -> names path h ->
  exists r, handleBlock n (MkRequest "GET" ("/block/" ++ path) limit) = Ret (Encoded r) /\
    if bkFound r
    then exists k b, bkHeight r = Z.of_nat k /\ bs !! k = Some b /\ Hdr.GetHash (Header b) = h /\ bkBlock r = Some b /\
           bkHash r = hex_encode h /\ TxCount r = len (Transactions b) /\ 1 <= Confirmations r <= len bs
    else Forall (fun b => Hdr.GetHash (Header b) <> h) bs.
Proof.
  intros Hb Hn. unfold handleBlock. cbn [Path]. rewrite TrimPrefix_app, Hb.
  replace (check_method MethodGet _ ≫= _) with (path_hash "Block hash required" path) by done.
  rewrite (names_hash _ _ _ Hn). destruct (find_block_ok h bs 0) as [(k & b & -> & Hk & Hh)|[-> Hf]].
  - eexists. split; [reflexivity|]. cbn -[hex_encode]. exists k, b. rewrite Hh. split_and!; try done.
    all: apply lookup_lt_Some in Hk; unfold len; rewrite length_map; lia.
  - eexists. split; [reflexivity|]. done.
Qed.

(** [/mempool] gives the best transactions that have not expired, at most a thousand
    and at least one if there is any. *)
Theorem handleGetMempool_spec env n path limit : node_ok n -> orders_ok env n -> exists n' es rest,
  handleGetMempool env (MkRequest "GET" path limit) n
    = Some (Ret (n', Encoded (MkMempoolResponse (len es) (map Mempool.Transaction es)))) /\ node_ok n' /\
  (map_to_list (Mempool.live (now env) (pool n))).*2 ≡ₚ (es ++ rest)%list /\ Mempool.best es rest /\
  len es <= 1000 /\ (es = [] -> Mempool.live (now env) (pool n) = ∅).
Proof.
  intros Hok Ho. pose proof (parse_limit_bounds limit) as Hl.
  destruct (pool_transactions_ok env (parse_limit limit) n Hok Ho) as (mp & es & rest & Hg & Hok' & Ht & Hp & Hle & Hb).
  exists (with_pool mp n), es, rest. split_and!; try done.
  - unfold handleGetMempool. replace (check_method MethodGet _) with (Encoded ()) by done. cbn [QueryApi.limit].
    unfold mbind, M_bind. rewrite Hg. unfold len. by rewrite length_map.
  - unfold len. lia.
  - intros ->. cbn in Hle. apply map_size_empty_inv. lia.
Qed.

(** ** Submitting *)

Section Keeps.
Context `{Signatures} (ex : option ContractExecutor) (Hex : forall e, ex = Some e -> LawfulExecutor e).

Lemma accepted_transaction now tx n n' : ProcessTransaction now tx n = Some (Ret (n', None)) ->
  exists mp, n' = with_pool mp n /\ Mempool.AddTransaction now tx (pool n) = (mp, true).
Proof.
  intros E. unfold ProcessTransaction in E. run_inv E.
  match goal with x : res tx_error _ |- _ => destruct x end; [|by apply M_ret_inv in E as [_ ?]].
  destruct (Mempool.AddTransaction now tx (pool n)) as [mp added] eqn:Ea.
  apply M_bind_inv in E as (n1 & u & H1 & H2). apply modify_inv in H1 as ->. apply M_ret_inv in H2 as [-> Hx].
  exists mp. split; [done|]. by destruct added.
Qed.

Lemma submit_inv now1 tx n n' path limit response :
  handleSubmitTransaction now1 (MkRequest "POST" path limit) (Some tx) n = Some (Ret (n', Encoded response)) ->
  ProcessTransaction now1 tx n = Some (Ret (n', None)) /\
  response = MkSubmitTransactionResponse "submitted" (hex_encode (Tx.GetHash tx)).
Proof.
  intros E. unfold handleSubmitTransaction in E. replace (check_method MethodPost _) with (Encoded ()) in E by done.
  apply M_bind_inv in E as (n1 & [e|] & Hp & E); apply M_ret_inv in E as [-> Hx]; [done|]. split; [done|].
  by apply (f_equal (fun x => match x with Encoded a => a | HttpError _ _ => response end)) in Hx.
Qed.

(** A later call that goes through the pool: another submission, accepted or not, while
    the pool has room, or a request that reads the pool, and drops what has expired. *)
Inductive pool_call (until : Z) n : Node -> Prop :=
  | call_submit now r body n' x : Mempool.Size (pool n) < MempoolMaxSize ->
      handleSubmitTransaction now r body n = Some (Ret (n', x)) -> pool_call until n n'
  | call_transaction env r n' x : orders_ok env n -> now env <= until ->
      handleTransaction env r n = Some (Ret (n', x)) -> pool_call until n n'
  | call_mempool env r n' x : orders_ok env n -> now env <= until ->
      handleGetMempool env r n = Some (Ret (n', x)) -> pool_call until n n'.

Section Kept.
Context (now1 until : Z) (tx : Tx.Transaction) (Huntil : until - now1 <= MempoolMaxExpiry).

Definition kept n : Prop :=
  Mempool.transactions (pool n) !! Tx.GetHash tx = Some (Mempool.MkEntry tx now1 (Tx.GasPrice tx)).

Lemma kept_live env n : now env <= until -> kept n ->
  Mempool.live (now env) (pool n) !! Tx.GetHash tx = Some (Mempool.MkEntry tx now1 (Tx.GasPrice tx)).
Proof using Huntil.
  intros Ht Hk. apply map_lookup_filter_Some. split; [exact Hk|].
  unfold Mempool.expired, Mempool.time_Sub. cbn [snd Mempool.AddedAt]. apply Z.ltb_ge. unfold MempoolMaxExpiry in *. lia.
Qed.

Lemma read_keeps env limit n n' x : node_ok n -> orders_ok env n -> now env <= until -> kept n ->
  pool_transactions env limit n = Some (Ret (n', x)) -> node_ok n' /\ kept n' /\ GetChain n' = GetChain n.
Proof using Huntil.
  intros Hok Ho Ht Hk E. destruct (pool_transactions_ok env limit n Hok Ho) as (mp & es & rest & Hg & Hok' & Hl & _).
  rewrite Hg in E. injection E as <- _. split; [done|]. split; [|done]. unfold kept. cbn [pool with_pool]. rewrite Hl.
  by apply kept_live.
Qed.

Lemma submission_keeps now2 tx2 n n' r : node_ok n -> Mempool.Size (pool n) < MempoolMaxSize -> kept n ->
  ProcessTransaction now2 tx2 n = Some (Ret (n', r)) -> node_ok n' /\ kept n' /\ GetChain n' = GetChain n.
Proof using.
  intros Hok Hs Hk E. unfold ProcessTransaction in E. run_inv E.
  match goal with x : res tx_error _ |- _ => destruct x end; [|by run_inv E].
  destruct (Mempool.AddTransaction now2 tx2 (pool n)) as [mp added] eqn:Ea. run_inv E.
  destruct (Mempool.AddTransaction_ok _ _ _ _ _ (ok_pool n Hok) Ea) as [Hok' Hadd].
  split; [by apply (evt_ok n), set_pool|]. split; [|done]. unfold kept in *. cbn [pool with_pool].
  destruct added; [|by destruct Hadd as [-> _]]. destruct Hadd as [Hno [[_ ->]|[? _]]]; [|lia].
  rewrite lookup_insert_ne; [done|]. intros He. rewrite He, Hk in Hno. by apply Hno.
Qed.

Lemma call_keeps n n' : node_ok n -> kept n -> pool_call until n n' -> node_ok n' /\ kept n' /\ GetChain n' = GetChain n.
Proof using Huntil.
  intros Hok Hk [now2 r body n2 x Hs E|env r n2 x Ho Ht E|env r n2 x Ho Ht E].
  - unfold handleSubmitTransaction in E. destruct (check_method _ _); [by run_inv E|].
    destruct body as [tx2|]; [|by run_inv E]. run_inv E. by eapply submission_keeps.
  - unfold handleTransaction in E. destruct (_ ≫= _); [by run_inv E|]. run_inv E.
    match goal with x : option _ |- _ => destruct x as [[[[? ?] ?] ?]|] end; run_inv E; [done|]. by eapply read_keeps.
  - unfold handleGetMempool in E. destruct (check_method _ _); [by run_inv E|]. run_inv E. by eapply read_keeps.
Qed.

Lemma calls_keep n n' : rtc (pool_call until) n n' -> node_ok n -> kept n ->
  node_ok n' /\ kept n' /\ GetChain n' = GetChain n.
Proof using Huntil.
  induction 1 as [n|n n2 n3 Hc _ IH]; intros Hok Hk; [done|].
  destruct (call_keeps n n2 Hok Hk Hc) as (Hok2 & Hk2 & <-). by apply IH.
Qed.

End Kept.

(** C35. A transaction the API accepts is found under the hash in the response, in the
    pool or in the current chain, as long as it has not expired: right away, and after
    any later submissions that found room in the pool and any requests that read the
    pool.  The current chain is the one of the submission, and has no hole.  (A full
    pool may evict the transaction for one that pays more, and a new block or a
    reorganisation changes the chain; neither is a call of this kind.) *)
Theorem submitted_transaction_found now1 tx n n1 path1 limit1 limit response n' env bs :
  node_ok n -> Blocks (GetChain n) = map Some bs ->
  handleSubmitTransaction now1 (MkRequest "POST" path1 limit1) (Some tx) n = Some (Ret (n1, Encoded response)) ->
  rtc (pool_call (now1 + MempoolMaxExpiry)) n1 n' -> orders_ok env n' -> now env <= now1 + MempoolMaxExpiry ->
  exists n2 r found,
    handleTransaction env (MkRequest "GET" ("/transaction/" ++ srHash response) limit) n' = Some (Ret (n2, Encoded r)) /\
    node_ok n2 /\ trFound r = true /\ trTransaction r = Some found /\ Tx.GetHash found = Tx.GetHash tx.
Proof.
  intros Hok Hb E Hcalls Ho Ht.
  destruct (submit_inv now1 tx n n1 path1 limit1 response E) as [Hp ->].
  destruct (accepted_transaction now1 tx n n1 Hp) as (mp & -> & Ha).
  destruct (Mempool.AddTransaction_ok now1 tx (pool n) mp true (ok_pool n Hok) Ha) as [Hok' Hadd].
  destruct (calls_keep now1 (now1 + MempoolMaxExpiry) tx ltac:(lia) _ _ Hcalls) as (Hok1 & Hk & Hc).
  { by apply (evt_ok n), set_pool. }
  { unfold kept. cbn [pool with_pool]. destruct Hadd as [_ [[_ ->]|(_ & e & _ & _ & _ & ->)]]; apply lookup_insert_eq. }
  apply (kept_live now1 (now1 + MempoolMaxExpiry) tx ltac:(lia) env n' Ht) in Hk as Hlive.
  destruct (handleTransaction_ok env n' bs (Tx.GetHash tx) (hex_encode (Tx.GetHash tx)) limit Hok1 Ho)
    as (n2 & r & Hr & Hok2 & Hcase); [by rewrite Hc|split; [apply length_sha256 | by left]|].
  exists n2, r. destruct (trFound r); [|destruct Hcase as [_ Hnone]; by rewrite Hlive in Hnone].
  destruct (InMempool r).
  - destruct Hcase as (_ & e & He & Htx). rewrite Hlive in He. exists (Mempool.Transaction e).
    split_and!; try done. by injection He as <-.
  - destruct Hcase as (k & b & j & tx' & _ & _ & Htx & _ & _ & _ & Hh). exists tx'. by split_and!.
Qed.

(** The handlers keep the invariant of the node. *)
Theorem submissions_keep_node n n' : node_ok n ->
  (forall now r body x, handleSubmitTransaction now r body n = Some (Ret (n', x)) -> node_ok n') /\
  (forall env block b, LawfulEnv env -> is_u64 (Hdr.Height (Header block)) -> processing n = None ->
     submit_block ex env block n = Some (Ret (n', b)) ->
     node_ok n' /\ (b = true -> processing n' = None)).
Proof.
  intros Hok. split.
  - intros now r body x E. unfold handleSubmitTransaction in E. destruct (check_method _ _); [run_inv E; done|].
    destruct body as [tx|]; [|run_inv E; done]. run_inv E. by eapply (evt_ok n), ProcessTransaction_inv.
  - intros env block b Henv Hu Hp E. unfold submit_block in E. run_inv E.
    apply StoreBlock_inv in Hrun as H1; [|done|done].
    apply (ProcessHeader_inv ex Hex) in Hrun0 as [[] _]; [|by eapply evt_ok].
    split; [done|]. intros [_ Hb]%andb_true_iff. by apply bool_decide_eq_true in Hb.
Qed.

End Keeps.

(** ** Dispatch *)

Lemma matches_prefix path pattern : matches path pattern = true -> String.prefix pattern path = true.
Proof.
  unfold matches. assert (String.eqb path pattern = true -> String.prefix pattern path = true) as He.
  { intros ->%String.eqb_eq. apply string_prefix_refl. }
  destruct (List.rev _) as [|c l]; [exact He|]. by repeat case_match.
Qed.

Lemma prefix_comparable p q s : String.prefix p s = true -> String.prefix q s = true ->
  String.prefix p q = true \/ String.prefix q p = true.
Proof.
  revert q s. induction p as [|c p IH]; intros q s Hp Hq; [left; by destruct q|].
  destruct q as [|d q]; [by right|]. destruct s as [|e s]; [done|]. cbn [String.prefix] in *.
  destruct (Ascii.ascii_dec c e) as [<-|]; [|done]. destruct (Ascii.ascii_dec d c) as [->|]; [|done].
  destruct (Ascii.ascii_dec c c); [|done]. by eapply IH.
Qed.

Definition comparable (p q : string) : bool := String.prefix p q || String.prefix q p.

Lemma routes_incomparable :
  forallb (fun k1 => forallb (fun k2 => bool_decide (k1 = k2) || negb (comparable k1.1 k2.1)) routes) routes = true.
Proof. reflexivity. Qed.

(** No path matches two patterns, so that the order of registration and Go's rules
    of precedence do not matter. *)
Lemma mux_unambiguous path k1 k2 : k1 ∈ routes -> k2 ∈ routes ->
  matches path k1.1 = true -> matches path k2.1 = true -> k1 = k2.
Proof.
  intros H1 H2 M1%matches_prefix M2%matches_prefix. pose proof routes_incomparable as Hr.
  rewrite List.forallb_forall in Hr. specialize (Hr k1 (proj1 (list_elem_of_In _ _) H1)).
  rewrite List.forallb_forall in Hr. specialize (Hr k2 (proj1 (list_elem_of_In _ _) H2)).
  apply orb_true_iff in Hr as [Hr%bool_decide_eq_true|Hr%negb_true_iff]; [done|]. exfalso.
  unfold comparable in Hr. apply orb_false_iff in Hr as [Hr1 Hr2].
  destruct (prefix_comparable _ _ _ M1 M2); congruence.
Qed.

(** What follows the pattern of a lookup reaches its handler. *)
Lemma mux_below pattern e s : (pattern, e) ∈ routes -> matches (pattern ++ s) pattern = true -> mux (pattern ++ s) = Some e.
Proof.
  intros Hin Hm. unfold mux. destruct (List.find _ routes) as [[q e']|] eqn:Ef.
  - apply List.find_some in Ef as [Hin' Hm']. apply list_elem_of_In in Hin'.
    by pose proof (mux_unambiguous _ _ _ Hin Hin' Hm Hm') as [= <- <-].
  - exfalso. eapply List.find_none in Ef; [|by apply list_elem_of_In]. cbn [fst] in Ef. congruence.
Qed.

End QueryApi.
