(* ===== verification/Wallet.v ===== *)
(** * The wallet (src/cmd/wallet/main.go)

    Each subcommand asks the node for the balance and nonce of its account, builds
    a signed transaction and submits it.  What the node answered, the clock and
    ed25519's signing are arguments; the result is the transaction that is
    submitted, or the error that is printed.  The flags come parsed; printing and
    the transport are left out. *)

From S2P Require Import Prelude GoLib GoText Config Utils Bytecode Sha256 Ledger Work Chain.
From S2P Require Import Validation ValidationSpec Mempool Node NodeSpec AvmParser QueryApi.

Module Wallet.
Import SafeMath Chain Validation ValidationSpec NodeSpec QueryApi.
#[local] Open Scope string_scope.
#[local] Open Scope Z_scope.

Inductive wallet_error :=
  | ErrGet
  | ErrHttp (code : Z) (body : string)
  | ErrNoAccount
  | ErrInsufficient (have need : Z)
  | ErrReadFile
  | ErrParse (e : Asm.parse_error)
  | ErrPost.

(** What came back: nothing when the request failed or could not be decoded. *)
Abbreviation reply A := (option (http A)).

(** [blockchain.PublicKey(s)]: the conversion of a slice that is too short panics. *)
Definition to_PublicKey (s : bytes) : go PublicKey :=
  if (length s <? 32)%nat then Panic (ExplicitPanic "cannot convert slice to array") else Ret (take 32 s).

Definition convertHexStringToPubKey (hexVal : string) : bytes :=
  match hex_DecodeString hexVal with
  | None => []
  | Some pubBytes => if bool_decide (length pubBytes = 32%nat) then pubBytes else []
  end.

(** The first part of every subcommand. *)
Definition fetch_balance (r : reply BalanceResponse) : res wallet_error BalanceResponse :=
  match r with
  | None => Err ErrGet
  | Some (HttpError code body) => Err (ErrHttp code body)
  | Some (Encoded balanceResp) => if brExists balanceResp then Ok balanceResp else Err ErrNoAccount
  end.

(** [checkBalance]: what is shown, nothing for an account that does not exist. *)
Definition checkBalance (r : reply BalanceResponse) : res wallet_error (option (Z * Z)) :=
  match r with
  | None => Err ErrGet
  | Some (HttpError code body) => Err (ErrHttp code body)
  | Some (Encoded response) => Ok (if brExists response then Some (brBalance response, brNonce response) else None)
  end.

(** The last part: what the node said of the transaction. *)
Definition submitted (r : reply SubmitTransactionResponse) : res wallet_error SubmitTransactionResponse :=
  match r with
  | None => Err ErrPost
  | Some (HttpError code body) => Err (ErrHttp code body)
  | Some (Encoded response) => Ok response
  end.

Section Build.
Context (Sign : bytes -> bytes -> go bytes).

(** [tsx.Signature = tsx.GetSignature(priv)]: the last thing done before sending. *)
Definition signed (priv : bytes) (tsx : Tx.Transaction) : go (res wallet_error Tx.Transaction) :=
  s ← Tx.GetSignature Sign priv tsx; Ret (Ok (Tx.with_Signature s tsx)).

Definition Signature_zero : Bytecode.Signature := replicate 64 zero.

Definition sendMoneyWithData (now : Z) (pub priv : bytes) (amount : Z) (to data : bytes) (r : reply BalanceResponse)
    : go (res wallet_error Tx.Transaction) :=
  match fetch_balance r with
  | Err e => Ret (Err e)
  | Ok balanceResp =>
      if brBalance balanceResp <? amount then Ret (Err (ErrInsufficient (brBalance balanceResp) amount))
      else
        let nextNonce := u64 (brNonce balanceResp + 1) in
        from ← to_PublicKey pub;
        to ← to_PublicKey to;
        signed priv (Tx.MkTx from to amount Signature_zero nextNonce (u64 now) 0 [] 25000 100 data)
  end.

(** The cost a deployment or a call is checked against wraps around. *)
Definition check_cost (balanceResp : BalanceResponse) (amount gasLimit gasPrice : Z) : res wallet_error unit :=
  let maxGasCost := u64 (gasLimit * gasPrice) in
  let totalCost := u64 (amount + maxGasCost) in
  if brBalance balanceResp <? totalCost then Err (ErrInsufficient (brBalance balanceResp) totalCost) else Ok ().

(** The content of the file is [None] when it cannot be read. *)
Definition deployContract (now : Z) (pub priv : bytes) (amount gasLimit gasPrice : Z) (bytecodeFile : option bytes)
    (r : reply BalanceResponse) : go (res wallet_error Tx.Transaction) :=
  match (balanceResp ← fetch_balance r; _ ← check_cost balanceResp amount gasLimit gasPrice; Ok balanceResp) with
  | Err e => Ret (Err e)
  | Ok balanceResp =>
      match bytecodeFile with
      | None => Ret (Err ErrReadFile)
      | Some bodyData =>
          '(instructions, err) ← Asm.ParseInstructionsFromString bodyData;
          match err with
          | Some e => Ret (Err (ErrParse e))
          | None =>
              let nextNonce := u64 (brNonce balanceResp + 1) in
              from ← to_PublicKey pub;
              signed priv (Tx.MkTx from PublicKey_zero amount Signature_zero nextNonce (u64 now) 0 instructions
                gasLimit gasPrice [])
          end
      end
  end.

Definition callContractWithData (now : Z) (pub priv : bytes) (amount : Z) (contract : bytes) (gasLimit gasPrice : Z)
    (data : bytes) (r : reply BalanceResponse) : go (res wallet_error Tx.Transaction) :=
  match (balanceResp ← fetch_balance r; _ ← check_cost balanceResp amount gasLimit gasPrice; Ok balanceResp) with
  | Err e => Ret (Err e)
  | Ok balanceResp =>
      let nextNonce := u64 (brNonce balanceResp + 1) in
      from ← to_PublicKey pub;
      to ← to_PublicKey contract;
      signed priv (Tx.MkTx from to amount Signature_zero nextNonce (u64 now) 0 [] gasLimit gasPrice data)
  end.

End Build.

(** ** The command line

    The values of the flags, after parsing; the file of [--bytecode] is given by its
    content. *)

Record flags := MkFlags {
  privKey : string;
  args : list string;
  fl_amount : Z;
  fl_to : string;
  fl_data : string;
  fl_contract : string;
  fl_gasLimit : Z;
  fl_gasPrice : Z;
  fl_bytecode : string
}.

Inductive outcome :=
  | Fatal
  | Exited
  | Shown (account : option (Z * Z))
  | Failed (e : wallet_error)
  | Sent (tx : Tx.Transaction).

(** The data of a transaction; the flag is optional. *)
Definition data_flag (data : string) : option bytes :=
  if String.eqb data "" then Some [] else hex_DecodeString data.

(** What a subcommand prints or sends. *)
Definition reported (x : go (res wallet_error Tx.Transaction)) : go outcome :=
  r ← x; Ret (match r with Ok tx => Sent tx | Err e => Failed e end).

Definition run_command (Sign : bytes -> bytes -> go bytes) (now : Z) (pub priv : bytes) (f : flags) (file : string -> option bytes)
    (r : reply BalanceResponse) : go outcome :=
  match args f with
  | [] => Ret Exited
  | cmd :: _ =>
      if String.eqb cmd "balance" then
        Ret (match checkBalance r with Ok a => Shown a | Err e => Failed e end)
      else if String.eqb cmd "send" then
        if (fl_amount f <=? 0) || String.eqb (fl_to f) "" then Ret Exited
        else match data_flag (fl_data f) with
             | None => Ret Exited
             | Some dataBytes =>
                 reported (sendMoneyWithData Sign now pub priv (fl_amount f) (convertHexStringToPubKey (fl_to f)) dataBytes r)
             end
      else if String.eqb cmd "deploy" then
        if String.eqb (fl_bytecode f) "" then Ret Exited
        else reported (deployContract Sign now pub priv (fl_amount f) (fl_gasLimit f) (fl_gasPrice f) (file (fl_bytecode f)) r)
      else if String.eqb cmd "call" then
        if String.eqb (fl_contract f) "" then Ret Exited
        else match data_flag (fl_data f) with
             | None => Ret Exited
             | Some dataBytes =>
                 reported (callContractWithData Sign now pub priv (fl_amount f) (convertHexStringToPubKey (fl_contract f))
                   (fl_gasLimit f) (fl_gasPrice f) dataBytes r)
             end
      else Ret Exited
  end.

Definition main (Sign : bytes -> bytes -> go bytes) (now : Z) (f : flags) (file : string -> option bytes) (r : reply BalanceResponse)
    : go outcome :=
  if String.eqb (privKey f) "" then Ret Fatal
  else match hex_DecodeString (privKey f) with
       | None => Ret Fatal
       | Some priv => pub ← ed25519_Public priv; run_command Sign now pub priv f file r
       end.

(** A transaction of the key's own account with the nonce after the one the node
    reported, signed by the key. *)
Definition own_transaction (Sign : bytes -> bytes -> go bytes) (pub priv : bytes) (response : BalanceResponse) (tx : Tx.Transaction) : Prop :=
  Tx.From tx = pub /\ Tx.Nonce tx = u64 (brNonce response + 1) /\
  exists s, Sign priv (Tx.GetHash tx) = Ret s /\ Tx.Signature tx = copy_into 64 s.

(** What the subcommand asks for: the recipient decoded from the flag, or the program
    parsed from the file. *)
Definition requested (f : flags) (file : string -> option bytes) (tx : Tx.Transaction) : Prop :=
  Tx.Amount tx = fl_amount f /\
  match args f with
  | [] => False
  | cmd :: _ =>
      if String.eqb cmd "send" then
        hex_DecodeString (fl_to f) = Some (Tx.To tx) /\ data_flag (fl_data f) = Some (Tx.Data tx) /\ Tx.Instructions tx = [] /\
        0 < fl_amount f
      else if String.eqb cmd "deploy" then
        Tx.To tx = PublicKey_zero /\ Tx.Data tx = [] /\ Tx.GasLimit tx = fl_gasLimit f /\ Tx.GasPrice tx = fl_gasPrice f /\
        exists body, file (fl_bytecode f) = Some body /\ Asm.ParseInstructionsFromString body = Ret (Tx.Instructions tx, None)
      else
        hex_DecodeString (fl_contract f) = Some (Tx.To tx) /\ data_flag (fl_data f) = Some (Tx.Data tx) /\ Tx.Instructions tx = [] /\
        Tx.GasLimit tx = fl_gasLimit f /\ Tx.GasPrice tx = fl_gasPrice f
  end.

Lemma reported_sent x tx : reported x = Ret (Sent tx) -> x = Ret (Ok tx).
Proof.
  intros E. apply go_bind_ret_inv in E as ([tx'|e] & -> & E); apply Ret_inj in E; [|done]. by injection E as ->.
Qed.

Lemma to_PublicKey_ret b pk : to_PublicKey b = Ret pk -> pk = take 32 b.
Proof. unfold to_PublicKey. destruct (_ <? _)%nat; [done|]. intros E. by apply Ret_inj in E. Qed.

Lemma recipient_decoded s pk : to_PublicKey (convertHexStringToPubKey s) = Ret pk -> hex_DecodeString s = Some pk.
Proof.
  unfold convertHexStringToPubKey. destruct (hex_DecodeString s) as [b|]; [|done].
  case_bool_decide as Hl; [|done]. intros ->%to_PublicKey_ret. by rewrite take_ge by lia.
Qed.

Lemma fetched r response : fetch_balance r = Ok response -> r = Some (Encoded response) /\ brExists response = true.
Proof.
  unfold fetch_balance. destruct r as [[code body|b]|]; [done| |done]. destruct (brExists b) eqn:E; [|done]. by intros [= ->].
Qed.

(** Signing changes nothing but the signature, and the hash does not cover it. *)
Lemma signed_inv Sign priv tsx tx : signed Sign priv tsx = Ret (Ok tx) ->
  exists s, Sign priv (Tx.GetHash tsx) = Ret s /\ tx = Tx.with_Signature (copy_into 64 s) tsx.
Proof.
  intros E. apply go_bind_ret_inv in E as (s' & Hs & E). apply Ret_inj in E. injection E as <-.
  apply go_bind_ret_inv in Hs as (s & Hs & E). apply Ret_inj in E as <-. by exists s.
Qed.

Lemma signed_ret Sign priv tsx s : Sign priv (Tx.GetHash tsx) = Ret s ->
  signed Sign priv tsx = Ret (Ok (Tx.with_Signature (copy_into 64 s) tsx)).
Proof. intros Hs. unfold signed, Tx.GetSignature. by rewrite Hs. Qed.

Section Sent.
Context (Sign : bytes -> bytes -> go bytes) (now : Z) (pub priv : bytes).
Context (Hpub : length pub = 32%nat).

Lemma signed_own response amount to l gasLimit gasPrice code data tx from :
  to_PublicKey pub = Ret from ->
  signed Sign priv (Tx.MkTx from to amount Signature_zero (u64 (brNonce response + 1)) (u64 now) l code gasLimit gasPrice data)
  = Ret (Ok tx) -> own_transaction Sign pub priv response tx /\ exists s,
    tx = Tx.MkTx from to amount s (u64 (brNonce response + 1)) (u64 now) l code gasLimit gasPrice data.
Proof.
  intros Hf E. apply signed_inv in E as (s & Hs & ->). apply to_PublicKey_ret in Hf. rewrite take_ge in Hf by lia. subst from.
  split; [|by eexists]. split; [done|]. split; [done|]. by exists s.
Qed.

Lemma cost_checked r amount gasLimit gasPrice response :
  (balanceResp ← fetch_balance r; _ ← check_cost balanceResp amount gasLimit gasPrice; Ok balanceResp) = Ok response ->
  fetch_balance r = Ok response.
Proof.
  intros E. apply res_bind_ok_inv in E as (b & -> & E). apply res_bind_ok_inv in E as (u & _ & E). done.
Qed.

Lemma run_command_sent f file r tx : run_command Sign now pub priv f file r = Ret (Sent tx) ->
  exists response, r = Some (Encoded response) /\ brExists response = true /\ own_transaction Sign pub priv response tx /\
    requested f file tx.
Proof.
  unfold run_command, requested. destruct (args f) as [|cmd rest]; [done|].
  destruct (String.eqb cmd "balance"); [by destruct (checkBalance r)|].
  destruct (String.eqb cmd "send"); [|destruct (String.eqb cmd "deploy"); [|destruct (String.eqb cmd "call"); [|done]]].
  - destruct (_ <=? _) eqn:Ea; [done|]. destruct (String.eqb _ _); [done|].
    destruct (data_flag _) as [d|]; [|done]. intros E%reported_sent. unfold sendMoneyWithData in E.
    destruct (fetch_balance r) as [response|e] eqn:Ef; [|done]. destruct (_ <? _); [done|]. apply fetched in Ef as [-> He].
    apply go_bind_ret_inv in E as (from & Hfrom & E). apply go_bind_ret_inv in E as (to & Hto%recipient_decoded & E).
    apply signed_own in E as [Hown [s ->]]; [|done]. exists response. cbn. apply Z.leb_gt in Ea. done.
  - destruct (String.eqb _ _); [done|]. intros E%reported_sent. unfold deployContract in E.
    match type of E with context [match ?x with _ => _ end = _] => destruct x as [response|e] eqn:Ef; [|done] end.
    apply cost_checked, fetched in Ef as [-> He]. destruct (file _) as [body|] eqn:Eb; [|done].
    apply go_bind_ret_inv in E as ([code [e|]] & Hcode & E); [done|].
    apply go_bind_ret_inv in E as (from & Hfrom & E). apply signed_own in E as [Hown [s ->]]; [|done].
    exists response. cbn. split_and!; try done. by exists body.
  - destruct (String.eqb _ _); [done|]. destruct (data_flag _) as [d|]; [|done]. intros E%reported_sent. unfold callContractWithData in E.
    match type of E with context [match ?x with _ => _ end = _] => destruct x as [response|e] eqn:Ef; [|done] end.
    apply cost_checked, fetched in Ef as [-> He].
    apply go_bind_ret_inv in E as (from & Hfrom & E). apply go_bind_ret_inv in E as (to & Hto%recipient_decoded & E).
    apply signed_own in E as [Hown [s ->]]; [|done]. exists response. cbn. done.
Qed.

End Sent.

(** C40. Whatever the command line, what the wallet submits is a transaction of the
    account of its key, with the next nonce, signed by the key, with the amount, the
    decoded recipient and data or the parsed program that the flags ask for; and it
    submits one only for an account that the node reported to exist. *)
Theorem main_sent Sign now f file r tx : main Sign now f file r = Ret (Sent tx) ->
  exists priv response, hex_DecodeString (privKey f) = Some priv /\ r = Some (Encoded response) /\ brExists response = true /\
    own_transaction Sign (copy_into 32 (drop 32 priv)) priv response tx /\ requested f file tx.
Proof.
  unfold main. destruct (String.eqb _ _); [done|]. destruct (hex_DecodeString _) as [priv|]; [|done]. intros E.
  apply go_bind_ret_inv in E as (pub & Hpub & E). unfold ed25519_Public in Hpub. destruct (_ <? _)%nat; [done|].
  apply Ret_inj in Hpub as <-. apply run_command_sent in E as (response & -> & He & Hown & Hreq); [|apply length_copy_into].
  by exists priv, response.
Qed.

(** A key of fewer than 32 bytes is not refused: taking its public half panics. *)
Lemma short_key_panics Sign now f file r priv : hex_DecodeString (privKey f) = Some priv -> (length priv < 32)%nat ->
  privKey f <> "" -> main Sign now f file r = Panic SliceBounds.
Proof.
  intros Hk Hl Hn. unfold main. rewrite (proj2 (String.eqb_neq _ _) Hn), Hk. unfold ed25519_Public.
  by rewrite (proj2 (Nat.ltb_lt _ _) Hl).
Qed.

(** ** What the node makes of it *)

Section Accepted.
Context `{Signatures}.

(** A transaction its sender can pay for is accepted by the state it was made for. *)
Lemma ValidateTransaction_accepts tx (w : world) l a :
  tx_u64 tx -> Tx.From tx <> PublicKey_zero -> Tx.GasLimit tx <> 0 -> Tx.GasPrice tx <> 0 ->
  ed25519_Verify (Tx.From tx) (Tx.GetHash tx) (Tx.Signature tx) = true ->
  accts w !! Tx.From tx = Some l -> Heap.deref (mem w) l = Ret a ->
  account_u64 a -> max_cost tx <= Acct.Balance a -> Tx.Nonce tx = u64 (Acct.Nonce a + 1) ->
  ValidateTransaction tx w = Ret (Ok ()).
Proof.
  intros Ht Hf Hg Hp Hv Hl Ha Hu Hc Hn. pose proof Ht as [? ? ? ?]. unfold ValidateTransaction.
  rewrite !ValidateAmount_u64 by done. unfold isCoinbase. rewrite bool_decide_false by done.
  rewrite (proj2 (Z.eqb_neq _ _) Hg), (proj2 (Z.eqb_neq _ _) Hp), Hv. cbn [negb]. rewrite Hl, Ha. cbn [mbind go_bind].
  f_equal. by apply check_sender_spec.
Qed.

(** The node validates against the accounts of its current chain. *)
Lemma ProcessTransaction_accepts now tx n : tx_u64 tx -> Tx.From tx <> PublicKey_zero ->
  Tx.GasLimit tx <> 0 -> Tx.GasPrice tx <> 0 ->
  ed25519_Verify (Tx.From tx) (Tx.GetHash tx) (Tx.Signature tx) = true ->
  forall a, node_ok n -> balances n !! Tx.From tx = Some a ->
  account_u64 a -> max_cost tx <= Acct.Balance a -> Tx.Nonce tx = u64 (Acct.Nonce a + 1) ->
  Mempool.transactions (Node.pool n) !! Tx.GetHash tx = None -> Mempool.Size (Node.pool n) < MempoolMaxSize ->
  exists mp, Node.ProcessTransaction now tx n = Some (Ret (Node.with_pool mp n, None)).
Proof.
  intros Ht Hf Hg Hp Hv a Hok Hb Hu Hc Hn Hnew Hroom.
  exists (Mempool.AddTransaction now tx (Node.pool n)).1. unfold Node.ProcessTransaction.
  unfold balances, Heap.view in Hb. rewrite lookup_omap in Hb.
  destruct (Chain.AccountStates (Node.GetChain n) !! Tx.From tx) as [l|] eqn:El; [|done].
  assert ((if bool_decide (Node.currentChainTip n = Hash32_zero) then ∅
           else match Node.current_chain n with Some c => Chain.GetAccountStates c | None => ∅ end)
          = Chain.AccountStates (Node.GetChain n)) as Hs.
  { unfold Node.GetChain. case_bool_decide; [done|]. by destruct (Node.current_chain n). }
  unfold Node.get, Node.of_go, Node.modify, mret, Node.M_ret, mbind, Node.M_bind. rewrite Hs.
  rewrite (ValidateTransaction_accepts tx (MkWorld _ (Node.mem n)) l a); try done.
  - cbn [go_bind]. unfold Mempool.AddTransaction. rewrite Hnew. rewrite (proj2 (Z.leb_gt _ _)) by done. done.
  - unfold Heap.deref. cbn [mem]. cbn [mbind option_bind] in Hb. by rewrite Hb.
Qed.

(** ed25519: what the wallet's key signs is accepted for its address. *)
Class SigningLaw (Sign : bytes -> bytes -> go bytes) (pub priv : bytes) : Prop :=
  signed_verifies : forall message, exists s, Sign priv message = Ret s /\ ed25519_Verify pub message (copy_into 64 s) = true.

(** So what is to be signed can be signed for its sender. *)
Lemma signed_ok Sign pub priv tsx : SigningLaw Sign pub priv -> Tx.From tsx = pub ->
  exists s, signed Sign priv tsx = Ret (Ok (Tx.with_Signature s tsx)) /\ ed25519_Verify (Tx.From tsx) (Tx.GetHash tsx) s = true.
Proof.
  intros Hlaw ->. destruct (Hlaw (Tx.GetHash tsx)) as (s & Hs & Hv). eexists. by split; [apply signed_ret|].
Qed.

(** A signed transaction with the next nonce that its sender can pay for is
    submitted, unless the pool has it or is full. *)
Lemma built_accepted now tx n a path limit :
  tx_u64 tx -> Tx.From tx <> PublicKey_zero -> Tx.GasLimit tx <> 0 -> Tx.GasPrice tx <> 0 ->
  ed25519_Verify (Tx.From tx) (Tx.GetHash tx) (Tx.Signature tx) = true ->
  node_ok n -> balances n !! Tx.From tx = Some a -> account_u64 a -> max_cost tx <= Acct.Balance a ->
  Tx.Nonce tx = u64 (Acct.Nonce a + 1) -> Mempool.Size (Node.pool n) < MempoolMaxSize ->
  Mempool.transactions (Node.pool n) !! Tx.GetHash tx = None ->
  exists n' response, handleSubmitTransaction now (MkRequest "POST" path limit) (Some tx) n = Some (Ret (n', Encoded response))
    /\ submitted (Some (Encoded response)) = Ok (MkSubmitTransactionResponse "submitted" (hex_encode (Tx.GetHash tx))).
Proof.
  intros Ht Hf Hg Hp Hv Hok Hb Hu Hc Hn Hroom Hnew.
  destruct (ProcessTransaction_accepts now tx n Ht Hf Hg Hp Hv a Hok Hb Hu Hc Hn Hnew Hroom) as [mp Hrun].
  eexists _, _. split; [|reflexivity]. unfold handleSubmitTransaction.
  replace (check_method MethodPost _) with (Encoded ()) by done. unfold mbind, Node.M_bind. rewrite Hrun. reflexivity.
Qed.

(** What the wallet computes of the cost is the cost when it does not wrap. *)
Lemma check_cost_ok b amount gasLimit gasPrice : 0 <= amount -> 0 <= gasLimit -> 0 <= gasPrice ->
  is_u64 (brBalance b) -> amount + gasLimit * gasPrice <= brBalance b -> check_cost b amount gasLimit gasPrice = Ok ().
Proof.
  intros Ha Hl Hp [Hb1 Hb2] Hc. unfold check_cost. assert (0 <= gasLimit * gasPrice) by nia.
  rewrite (u64_small (gasLimit * gasPrice)) by (machine_bounds; lia). rewrite u64_small by (machine_bounds; lia).
  by rewrite (proj2 (Z.ltb_ge _ _)).
Qed.

(** C39. A payment the account can afford, gas included, is built from the balance the
    node reports and accepted when it is submitted, unless the pool has the same
    transaction or is full. *)
Theorem payment_accepted Sign now1 now2 pub priv amount to data n a path limit :
  SigningLaw Sign pub priv ->
  node_ok n -> length pub = 32%nat -> pub <> PublicKey_zero -> length to = 32%nat ->
  balances n !! pub = Some a -> account_u64 a -> is_u64 amount -> amount + 25000 * 100 <= Acct.Balance a ->
  Mempool.Size (Node.pool n) < MempoolMaxSize ->
  exists answer tx,
    handleBalance n (MkRequest "GET" ("/balance/" ++ hex_encode pub) limit) = Ret answer /\
    sendMoneyWithData Sign now1 pub priv amount to data (Some answer) = Ret (Ok tx) /\
    Tx.From tx = pub /\ Tx.To tx = to /\ Tx.Amount tx = amount /\ Tx.Nonce tx = u64 (Acct.Nonce a + 1) /\ Tx.Data tx = data /\
    (Mempool.transactions (Node.pool n) !! Tx.GetHash tx = None ->
     exists n' response, handleSubmitTransaction now2 (MkRequest "POST" path limit) (Some tx) n = Some (Ret (n', Encoded response))
       /\ submitted (Some (Encoded response)) = Ok (MkSubmitTransactionResponse "submitted" (hex_encode (Tx.GetHash tx)))).
Proof.
  intros Hsign Hok Hl Hz Hto Hb Hu Ha Hpay Hroom.
  destruct (signed_ok Sign pub priv (Tx.MkTx pub to amount Signature_zero (u64 (Acct.Nonce a + 1)) (u64 now1) 0 [] 25000 100 data)
    Hsign eq_refl) as (s & Hs & Hv).
  eexists _, _. split; [by apply handleBalance_spec|]. rewrite Hb.
  split.
  { unfold sendMoneyWithData. cbn [fetch_balance brExists brBalance brNonce].
    rewrite (proj2 (Z.ltb_ge _ _)) by lia. unfold to_PublicKey. rewrite Hl, Hto. cbn [Nat.ltb Nat.leb mbind go_bind].
    rewrite !take_ge by lia. exact Hs. }
  cbn [Tx.with_Signature Tx.From Tx.To Tx.Amount Tx.Nonce Tx.Data]. split_and!; try done. intros Hnew.
  apply (built_accepted now2 _ n a); try done.
  - split; cbn [Tx.with_Signature Tx.Amount Tx.GasLimit Tx.GasPrice Tx.Nonce]; [done | machine_bounds; lia | machine_bounds; lia | apply u64_range].
  - unfold max_cost, fee, isContractDeployment. cbn [Tx.with_Signature Tx.Amount Tx.GasLimit Tx.GasPrice Tx.Instructions].
    rewrite andb_false_r. lia.
Qed.

(** So is a call with enough gas, *)
Theorem call_accepted Sign now1 now2 pub priv amount contract gasLimit gasPrice data n a path limit :
  SigningLaw Sign pub priv ->
  node_ok n -> length pub = 32%nat -> pub <> PublicKey_zero -> length contract = 32%nat ->
  balances n !! pub = Some a -> account_u64 a -> is_u64 amount -> is_u64 gasLimit -> is_u64 gasPrice ->
  gasLimit <> 0 -> gasPrice <> 0 -> amount + gasLimit * gasPrice <= Acct.Balance a ->
  Mempool.Size (Node.pool n) < MempoolMaxSize ->
  exists answer tx,
    handleBalance n (MkRequest "GET" ("/balance/" ++ hex_encode pub) limit) = Ret answer /\
    callContractWithData Sign now1 pub priv amount contract gasLimit gasPrice data (Some answer) = Ret (Ok tx) /\
    Tx.To tx = contract /\ Tx.Data tx = data /\
    (Mempool.transactions (Node.pool n) !! Tx.GetHash tx = None ->
     exists n' response, handleSubmitTransaction now2 (MkRequest "POST" path limit) (Some tx) n = Some (Ret (n', Encoded response))
       /\ submitted (Some (Encoded response)) = Ok (MkSubmitTransactionResponse "submitted" (hex_encode (Tx.GetHash tx)))).
Proof.
  intros Hsign Hok Hl Hz Hto Hb Hu Ha HL HP Hl0 Hp0 Hpay Hroom.
  destruct (signed_ok Sign pub priv
    (Tx.MkTx pub contract amount Signature_zero (u64 (Acct.Nonce a + 1)) (u64 now1) 0 [] gasLimit gasPrice data) Hsign eq_refl) as (s & Hs & Hv).
  eexists _, _. split; [by apply handleBalance_spec|]. rewrite Hb.
  split.
  { unfold callContractWithData. cbn [fetch_balance brExists mbind res_bind]. destruct Ha, HL, HP, Hu.
    rewrite check_cost_ok by done. cbn [brNonce]. unfold to_PublicKey. rewrite Hl, Hto. cbn [Nat.ltb Nat.leb mbind go_bind].
    rewrite !take_ge by lia. exact Hs. }
  cbn [Tx.with_Signature Tx.To Tx.Data]. split_and!; try done. intros Hnew.
  apply (built_accepted now2 _ n a); try done.
  - split; cbn [Tx.with_Signature Tx.Amount Tx.GasLimit Tx.GasPrice Tx.Nonce]; try done. apply u64_range.
  - unfold max_cost, fee, isContractDeployment. cbn [Tx.with_Signature Tx.Amount Tx.GasLimit Tx.GasPrice Tx.Instructions].
    rewrite andb_false_r. lia.
Qed.

(** and a deployment, whose fee the wallet does not check. *)
Theorem deployment_accepted Sign now1 now2 pub priv amount gasLimit gasPrice file code n a path limit :
  SigningLaw Sign pub priv -> Asm.ParseInstructionsFromString file = Ret (code, None) ->
  node_ok n -> length pub = 32%nat -> pub <> PublicKey_zero ->
  balances n !! pub = Some a -> account_u64 a -> is_u64 amount -> is_u64 gasLimit -> is_u64 gasPrice ->
  gasLimit <> 0 -> gasPrice <> 0 -> amount + gasLimit * gasPrice + ContractDeploymentFee <= Acct.Balance a ->
  Mempool.Size (Node.pool n) < MempoolMaxSize ->
  exists answer tx,
    handleBalance n (MkRequest "GET" ("/balance/" ++ hex_encode pub) limit) = Ret answer /\
    deployContract Sign now1 pub priv amount gasLimit gasPrice (Some file) (Some answer) = Ret (Ok tx) /\
    Tx.To tx = PublicKey_zero /\ Tx.Instructions tx = code /\
    (Mempool.transactions (Node.pool n) !! Tx.GetHash tx = None ->
     exists n' response, handleSubmitTransaction now2 (MkRequest "POST" path limit) (Some tx) n = Some (Ret (n', Encoded response))
       /\ submitted (Some (Encoded response)) = Ok (MkSubmitTransactionResponse "submitted" (hex_encode (Tx.GetHash tx)))).
Proof.
  intros Hsign Hparse Hok Hl Hz Hb Hu Ha HL HP Hl0 Hp0 Hpay Hroom.
  assert (0 <= ContractDeploymentFee) as Hfee by (unfold ContractDeploymentFee, AUG, Leaf; lia).
  destruct (signed_ok Sign pub priv
    (Tx.MkTx pub PublicKey_zero amount Signature_zero (u64 (Acct.Nonce a + 1)) (u64 now1) 0 code gasLimit gasPrice []) Hsign eq_refl) as (s & Hs & Hv).
  eexists _, _. split; [by apply handleBalance_spec|]. rewrite Hb. split.
  { unfold deployContract. cbn [fetch_balance brExists mbind res_bind]. destruct Ha, HL, HP, Hu.
    rewrite check_cost_ok by (done || (cbn [brBalance]; lia)). rewrite Hparse. cbn [brNonce mbind go_bind]. unfold to_PublicKey.
    rewrite Hl. cbn [Nat.ltb Nat.leb mbind go_bind]. rewrite !take_ge by lia. exact Hs. }
  cbn [Tx.with_Signature Tx.To Tx.Instructions]. split_and!; try done. intros Hnew.
  apply (built_accepted now2 _ n a); try done.
  - split; cbn [Tx.with_Signature Tx.Amount Tx.GasLimit Tx.GasPrice Tx.Nonce]; try done. apply u64_range.
  - unfold max_cost, fee. cbn [Tx.with_Signature Tx.Amount Tx.GasLimit Tx.GasPrice]. destruct (isContractDeployment _); lia.
Qed.

End Accepted.

(** ** What the wallet does not check *)

(** A payment of the whole balance is built although the gas cannot be paid, and
    no node accepts it. *)
Lemma payment_without_gas Sign now pub priv to data a `{Signatures} (w : world) l :
  (forall message, exists s, Sign priv message = Ret s) ->
  length pub = 32%nat -> pub <> PublicKey_zero -> length to = 32%nat -> account_u64 a ->
  accts w !! pub = Some l -> Heap.deref (mem w) l = Ret a ->
  exists tx, sendMoneyWithData Sign now pub priv (Acct.Balance a) to data
      (Some (Encoded (MkBalanceResponse (hex_encode pub) true (Acct.Balance a) (Acct.Nonce a)))) = Ret (Ok tx) /\
    ValidateTransaction tx w <> Ret (Ok ()).
Proof.
  intros Hsign Hl Hz Hto [Hb Hn] Hw Ha.
  set (tsx := Tx.MkTx pub to (Acct.Balance a) Signature_zero (u64 (Acct.Nonce a + 1)) (u64 now) 0 [] 25000 100 data).
  destruct (Hsign (Tx.GetHash tsx)) as [s Hs]. eexists. split.
  { unfold sendMoneyWithData. cbn [fetch_balance brExists brBalance brNonce]. rewrite Z.ltb_irrefl.
    unfold to_PublicKey. rewrite Hl, Hto. cbn [Nat.ltb Nat.leb mbind go_bind]. rewrite !take_ge by lia. by apply (signed_ret Sign priv tsx). }
  set (tx := Tx.with_Signature _ tsx). assert (tx_u64 tx) as Ht.
  { split; cbn [Tx.with_Signature Tx.Amount Tx.GasLimit Tx.GasPrice Tx.Nonce tx tsx]; [done | machine_bounds; lia | machine_bounds; lia|].
    unfold u64. machine_bounds. apply Z.mod_pos_bound. lia. }
  unfold ValidateTransaction. pose proof Ht as [? ? ? ?]. rewrite !ValidateAmount_u64 by done.
  unfold isCoinbase. rewrite bool_decide_false by done. change (Tx.GasLimit tx =? 0) with false. change (Tx.GasPrice tx =? 0) with false.
  cbn iota. destruct (ed25519_Verify _ _ _); [|done]. cbn [negb]. change (Tx.From tx) with pub. match goal with |- context [?x !! ?y] => replace (x !! y) with (Some l) by (symmetry; exact Hw) end. rewrite Ha. cbn [mbind go_bind].
  intros [= Hc]. apply check_sender_spec in Hc as [Hc _]; [|done|done|done].
  unfold max_cost, fee, isContractDeployment in Hc. cbn [Tx.with_Signature Tx.Amount Tx.GasLimit Tx.GasPrice Tx.Instructions tx tsx] in Hc.
  rewrite andb_false_r in Hc. lia.
Qed.

(** The product of gas limit and price wraps around: no balance is too small. *)
Lemma cost_wraps balanceResp : 0 <= brBalance balanceResp -> check_cost balanceResp 0 (2 ^ 32) (2 ^ 32) = Ok ().
Proof. intros Hb. unfold check_cost. change (u64 (0 + u64 (2 ^ 32 * 2 ^ 32))) with 0. by rewrite (proj2 (Z.ltb_ge _ _)). Qed.

(** A recipient that is not 32 bytes of hex is not refused: the wallet panics once
    the balance suffices. *)
Lemma bad_recipient_panics Sign now pub priv amount hexVal data response :
  (forall b, hex_DecodeString hexVal = Some b -> length b <> 32%nat) -> length pub = 32%nat ->
  brExists response = true -> amount <= brBalance response ->
  exists k, sendMoneyWithData Sign now pub priv amount (convertHexStringToPubKey hexVal) data (Some (Encoded response)) = Panic k.
Proof.
  intros Hbad Hl He Hb. eexists. unfold sendMoneyWithData. cbn [fetch_balance]. rewrite He, (proj2 (Z.ltb_ge _ _)) by done.
  assert (convertHexStringToPubKey hexVal = []) as ->.
  { unfold convertHexStringToPubKey. destruct (hex_DecodeString hexVal) as [b|]; [|done]. by rewrite bool_decide_false by by apply Hbad. }
  unfold to_PublicKey. rewrite Hl. reflexivity.
Qed.

End Wallet.
