(* ===== verification/Miner.v ===== *)
(** * The miner (src/cmd/miner/main.go)

    The miner asks its node for the head, the pool and the accounts, computes the
    fees of the pool's transactions, and mines a block with a coinbase of the
    reward and these fees.  What the node answered and the clock are arguments;
    flags, printing, sleeping and the transport are left out. *)

From S2P Require Import Prelude GoLib GoText Config Utils Bytecode Sha256 Ledger Work Chain Validation ValidationSpec Mining QueryApi.

Module Miner.
Import SafeMath Heap HeapSpec Chain Blk Validation ValidationSpec Mining QueryApi.
#[local] Open Scope Z_scope.

(** [getChainInfo], [getMempoolTransactions] and [getChainState] fail alike. *)
Definition received {A} (r : option (http A)) : option A :=
  match r with Some (Encoded a) => Some a | _ => None end.

(** The accounts as they come out of the JSON object, in its order of iteration;
    a null has no effect on what the miner does with the map. *)
Fixpoint decode_states (entries : list (string * option Acct.AccountState)) (accountStates : accounts) (h : heap)
    : accounts * heap :=
  match entries with
  | [] => (accountStates, h)
  | (keyHex, state) :: rest =>
      match hex_DecodeString keyHex, state with
      | Some keyBytes, Some s =>
          if bool_decide (length keyBytes = 32%nat) then
            let '(l, h) := alloc s h in decode_states rest (<[copy_into 32 keyBytes := l]> accountStates) h
          else decode_states rest accountStates h
      | _, _ => decode_states rest accountStates h
      end
  end.

Section Mine.
Context (ex : option ContractExecutor).

(** The fees, each transaction executed on a copy of its own of the accounts. *)
Fixpoint total_gas_fees (currentStates : world) (mempoolTxs : list Tx.Transaction) (totalGasFees : Z) : go Z :=
  match mempoolTxs with
  | [] => Ret totalGasFees
  | tx :: rest =>
      if isCoinbase tx then total_gas_fees currentStates rest totalGasFees
      else
        tempStates ← copy_world currentStates;
        x ← ApplyTransaction ex tx tempStates;
        let '(_, (gasUsed, err)) := x in
        match err with
        | Some _ => total_gas_fees currentStates rest totalGasFees
        | None => total_gas_fees currentStates rest (u64 (totalGasFees + u64 (gasUsed * Tx.GasPrice tx)))
        end
  end.

Definition coinbase_for (minerAddress : PublicKey) (now amount : Z) : Tx.Transaction :=
  Tx.MkTx PublicKey_zero minerAddress amount (replicate 64 zero) 0 (u64 now) MainnetChainID [] 0 0 [].

Definition block_params (minerAddress : PublicKey) (now : Z) (chainInfo : Z * Hash32 * string)
    (mempoolTxs : list Tx.Transaction) (states : accounts) (totalGasFees : Z) : BlockCreationParams :=
  MkParams 1 chainInfo.1.2 (u64 (chainInfo.1.1 + 1)) chainInfo.2
    (coinbase_for minerAddress now (u64 (BlockReward + totalGasFees))) mempoolTxs (u64 now) TestTargetCompact states.

(** A pool or accounts that cannot be fetched count as empty. *)
Definition createAndMineBlock (minerAddress : PublicKey) (now : Z) (chainInfo : Z * Hash32 * string)
    (mempool : option (http MempoolResponse)) (state : option (http (list (string * option Acct.AccountState))))
    : go (option (res mining_error Block)) :=
  let mempoolTxs := default [] (mpTransactions <$> received mempool) in
  let '(currentStates, h) := decode_states (default [] (received state)) ∅ [] in
  totalGasFees ← total_gas_fees (MkWorld currentStates h) mempoolTxs 0;
  NewBlock ex now (block_params minerAddress now chainInfo mempoolTxs currentStates totalGasFees) h.

End Mine.

(** ** The mining loop *)

(** The address the miner mines for: nothing without a valid key, and a key of fewer
    than 32 bytes panics.  The identifier is for log messages only. *)
Definition main (privKey : string) : go (option PublicKey) :=
  if String.eqb privKey "" then Ret None
  else match hex_DecodeString privKey with
       | None => Ret None
       | Some priv => pub ← ed25519_Public priv; Ret (Some pub)
       end.

(** What one round of [StartMining] meets: the head could not be fetched, no block
    was found, or a block was found and submitted, with success or not. *)
Inductive round := NoChainInfo | NoBlock | Submitted (accepted : bool).

(** What the node answers in a round, and the clock. *)
Record answers := MkAnswers {
  aChainInfo : option (http (Z * Hash32 * string));
  aMempool : option (http MempoolResponse);
  aState : option (http (list (string * option Acct.AccountState)));
  aSubmit : Block -> option (http string);
  aNow : Z
}.

(** Any answer that can be decoded counts as success. *)
Definition submitBlock (r : option (http string)) : bool := bool_decide (is_Some (received r)).

Definition mining_round (ex : option ContractExecutor) (minerAddress : PublicKey) (a : answers) : go (option round) :=
  match received (aChainInfo a) with
  | None => Ret (Some NoChainInfo)
  | Some chainInfo =>
      block ← createAndMineBlock ex minerAddress (aNow a) chainInfo (aMempool a) (aState a);
      Ret (match block with
           | None => None
           | Some (Err _) => Some NoBlock
           | Some (Ok block) => Some (Submitted (submitBlock (aSubmit a block)))
           end)
  end.

(** The number of blocks mined, and whether the loop has stopped. *)
Fixpoint StartMining (maxBlocks : Z) (rounds : list round) (blocksMinedCount : Z) : Z * bool :=
  let done := (0 <? maxBlocks) && (maxBlocks <=? blocksMinedCount) in
  if done then (blocksMinedCount, true)
  else
    match rounds with
    | [] => (blocksMinedCount, false)
    | Submitted true :: rest => StartMining maxBlocks rest (blocksMinedCount + 1)
    | _ :: rest => StartMining maxBlocks rest blocksMinedCount
    end.

Definition successes (rounds : list round) : Z :=
  len (List.filter (fun r => match r with Submitted true => true | _ => false end) rounds).

(** The loop counts the blocks that were submitted with success, and stops at the
    limit, if there is one. *)
Lemma StartMining_count maxBlocks rounds count : 0 < maxBlocks -> 0 <= count <= maxBlocks ->
  StartMining maxBlocks rounds count = (Z.min maxBlocks (count + successes rounds), maxBlocks <=? count + successes rounds).
Proof.
  intros Hm. revert count. induction rounds as [|r rounds IH]; intros count Hc; cbn [StartMining];
    rewrite (proj2 (Z.ltb_lt _ _) Hm); cbn [andb].
  - change (successes []) with 0. rewrite Z.add_0_r. destruct (Z.leb_spec maxBlocks count); f_equal; lia.
  - assert (0 <= successes rounds) as Hs by (unfold successes, len; lia).
    assert (successes (r :: rounds) = match r with Submitted true => 1 | _ => 0 end + successes rounds) as Hr.
    { unfold successes, len. destruct r as [| |[]]; cbn [List.filter]; rewrite ?length_cons; lia. }
    destruct (Z.leb_spec maxBlocks count).
    + rewrite Hr, (proj2 (Z.leb_le _ _)) by (destruct r as [| |[]]; lia). f_equal. destruct r as [| |[]]; lia.
    + rewrite Hr. destruct r as [| |[]]; rewrite IH by lia; f_equal; f_equal; lia.
Qed.

(** ** The block *)

Section Block.
Context (ex : option ContractExecutor).

Lemma zero_u64 : is_u64 0.
Proof. split; [done | reflexivity]. Qed.

Lemma right_amount minerAddress now chainInfo txs m fees ts g a e :
  is_u64 fees ->
  finish_block (block_params minerAddress now chainInfo txs m fees) ts fees g <> Some (Err (CoinbaseAmount a e)).
Proof.
  intros Hf. unfold finish_block. cbn [Coinbase block_params Tx.Amount coinbase_for]. rewrite SafeAdd_spec by done.
  destruct (decide (BlockReward + fees < 2 ^ 64)) as [Hs|]; [|done].
  assert (u64 (BlockReward + fees) = BlockReward + fees) as ->.
  { apply u64_small. split; [|done]. destruct Hf. unfold BlockReward, AUG, Leaf. lia. }
  rewrite Z.eqb_refl. cbn [negb]. destruct (blockGasLimit <? g); [done|].
  match goal with |- context [MineCorrectNonce ?hd ?bits] => pose proof (MineCorrectNonce_search hd bits) as Hs2 end.
  destruct (MineCorrectNonce _ _) as [[n|err]|]; try done. destruct Hs2 as [-> _]; [|done].
  cbn [Hdr.Nonce new_header]. machine_bounds; lia.
Qed.

(** The coinbase is right for a pool of at most one transaction: building the block
    never fails for its amount. *)
Theorem one_transaction_coinbase minerAddress now chainInfo tx states a e :
  createAndMineBlock ex minerAddress now chainInfo (Some (Encoded (MkMempoolResponse 1 [tx]))) states
  <> Ret (Some (Err (CoinbaseAmount a e))).
Proof.
  unfold createAndMineBlock. cbn [received fmap option_fmap option_map default mpTransactions].
  change (id [tx]) with [tx].
  destruct (decode_states _ _ _) as [m h]. cbn [total_gas_fees]. destruct (isCoinbase tx) eqn:Ec.
  { cbn [mbind go_bind]. unfold NewBlock. cbn [CurrentStates block_params Transactions]. destruct (copy_world _) as [w|]; [|done].
    cbn [mbind go_bind execute_all]. rewrite Ec. intros E. apply Ret_inj in E. eapply right_amount; [apply zero_u64 | exact E]. }
  destruct (copy_world (MkWorld m h)) as [w|] eqn:Ew; [|done]. cbn [mbind go_bind].
  destruct (ApplyTransaction ex tx w) as [[w' [g err]]|] eqn:Ea; [|done]. cbn [mbind go_bind].
  assert (forall f, NewBlock ex now (block_params minerAddress now chainInfo [tx] m f) h
    = match execute_all ex [tx] 0 0 w with
      | Ret (Ok (gasFeeSum, totalGasUsed)) =>
          Ret (finish_block (block_params minerAddress now chainInfo [tx] m f)
            (if u64 now =? 0 then u64 now else u64 now) gasFeeSum totalGasUsed)
      | Ret (Err e) => Ret (Some (Err e))
      | Panic k => Panic k
      end) as HN.
  { intros f. unfold NewBlock. cbn [CurrentStates block_params Transactions Timestamp]. rewrite Ew. cbn [mbind go_bind].
    by destruct (execute_all ex [tx] 0 0 w) as [[[? ?]|]|]. }
  destruct err as [e0|]; cbn [mbind go_bind]; rewrite HN; cbn [execute_all]; rewrite Ec, Ea; cbn [mbind go_bind].
  - intros E. apply Ret_inj in E. eapply right_amount; [apply zero_u64 | exact E].
  - destruct (SafeAdd 0 (u64 (g * Tx.GasPrice tx))) as [f|] eqn:Ef; [|done]. destruct (SafeAdd 0 g); [|done].
    intros E. apply Ret_inj in E. pose proof (u64_range (g * Tx.GasPrice tx)) as Hu. apply SafeAdd_ok in Ef as [-> _]; [|done|done].
    rewrite Z.add_0_l in E. rewrite u64_small in E by done. eapply right_amount; [exact Hu | exact E].
Qed.

(** Whatever could be executed, the block has every transaction of the pool. *)
Theorem mined_transactions minerAddress now chainInfo mempool states b :
  createAndMineBlock ex minerAddress now chainInfo mempool states = Ret (Some (Ok b)) ->
  exists coinbase, Blk.Transactions b = coinbase :: default [] (mpTransactions <$> received mempool) /\
    Tx.From coinbase = PublicKey_zero /\ Tx.To coinbase = minerAddress /\ Hdr.Bits (Header b) = TestTargetCompact.
Proof.
  unfold createAndMineBlock. destruct (decode_states _ _ _) as [m h]. intros E.
  apply go_bind_ret_inv in E as (fees & _ & E). unfold NewBlock in E.
  apply go_bind_ret_inv in E as (w & _ & E). apply go_bind_ret_inv in E as (x & _ & E).
  destruct x as [[f g]|]; [|discriminate]. injection E as E. apply finish_block_inv in E as (n & -> & _).
  eexists. split; [reflexivity|]. by split_and!.
Qed.

(** A round that counts has had a block accepted which extends the reported head with
    the whole pool and pays the miner. *)
Theorem counted_round minerAddress a : mining_round ex minerAddress a = Ret (Some (Submitted true)) ->
  exists chainInfo b coinbase answer, aChainInfo a = Some (Encoded chainInfo) /\ aSubmit a b = Some (Encoded answer) /\
    Blk.Transactions b = coinbase :: default [] (mpTransactions <$> received (aMempool a)) /\
    Tx.From coinbase = PublicKey_zero /\ Tx.To coinbase = minerAddress /\ Hdr.Bits (Header b) = TestTargetCompact.
Proof.
  intros E. unfold mining_round in E. destruct (aChainInfo a) as [[?|chainInfo]|]; [done| |done]. cbn [received] in E.
  apply go_bind_ret_inv in E as ([[b|e]|] & Hb & E); apply Ret_inj in E; [|done|done].
  injection E as E. apply bool_decide_eq_true in E as [ans Ha].
  apply mined_transactions in Hb as (coinbase & H1 & H2 & H3 & H4).
  destruct (aSubmit a b) as [[?|answer]|] eqn:Es; [done| |done]. by exists chainInfo, b, coinbase, answer.
Qed.

End Block.

(** ** The node's side *)

Section Accepted.
Context `{Signatures} (ex : option ContractExecutor).

(** What the block is, when the pool is empty. *)
Lemma idle_block minerAddress now chainInfo mempool states b :
  createAndMineBlock ex minerAddress now chainInfo mempool states = Ret (Some (Ok b)) ->
  default [] (mpTransactions <$> Miner.received mempool) = [] ->
  exists m h, NewBlock ex now (block_params minerAddress now chainInfo [] m 0) h = Ret (Some (Ok b)) /\
    Blk.Transactions b = [coinbase_for minerAddress now BlockReward] /\ Hdr.GasUsed (Header b) = 0 /\
    Hdr.GasLimit (Header b) = blockGasLimit /\
    Hdr.PreviousHash (Header b) = chainInfo.1.2 /\ Hdr.Bits (Header b) = TestTargetCompact /\ meets (Header b).
Proof.
  unfold createAndMineBlock. intros E Hm. rewrite Hm in E. destruct (decode_states _ _ _) as [m h].
  cbn [total_gas_fees mbind go_bind] in E. exists m, h. split; [exact E|].
  unfold NewBlock in E. apply go_bind_ret_inv in E as (w & _ & E). cbn [Mining.Transactions block_params execute_all mbind go_bind] in E.
  apply Ret_inj in E. apply finish_block_inv in E as (nonce & -> & Hmeets & _). by split_and!.
Qed.


End Accepted.

End Miner.
