(* ===== verification/Demo.v ===== *)
(** * A scenario

    A one-block chain with an easy target, on which a miner builds a block with
    a coinbase and a payment.  It instantiates the theorems about validation,
    execution and mining at concrete values, with an accepting signature check. *)

From S2P Require Import Prelude GoLib Config Utils Bytecode Machine Interp Sha256 Ledger LedgerSpec Work.
From S2P Require Import Chain Validation ValidationSpec Execution Mining.

Module Demo.
Import Heap Chain Blk Validation ValidationSpec.

Definition sigs : Signatures := {| ed25519_Verify := fun _ _ _ => true |}.

Definition bob : PublicKey := replicate 32 "b"%char.
Definition miner : PublicKey := replicate 32 "m"%char.
Definition easy : Z := 0x2200ffff.

Definition parent : Block :=
  MkBlock (Hdr.MkHeader 1 Hash32_zero 0 1700000000 0 Hash32_zero Hash32_zero Hash32_zero easy "1" 8000000 0 miner) [].

Definition alice_account : Acct.AccountState := Acct.fresh FirstUser 1000000000.
Definition store : heap := [alice_account].

Definition chain : Chain :=
  MkChain [Some parent] {[Blk.GetHash parent := parent]} {[Blk.GetHash parent := Header parent]}
    {[FirstUser := 0%nat]} (Some parent).

Definition pay : Tx.Transaction :=
  Tx.MkTx FirstUser bob 5 (replicate 64 zero) 1 1700000001 1 [] 30000 2 [].

Definition coinbase : Tx.Transaction :=
  Tx.MkTx PublicKey_zero miner (BlockReward + 42000) (replicate 64 zero) 0 1700000001 1 [] 0 0 [].

Definition params : Mining.BlockCreationParams :=
  Mining.MkParams 1 (Blk.GetHash parent) 1 "1" coinbase [pay] 1700000002 easy (AccountStates chain).

Definition block_of (x : go (option (res Mining.mining_error Block))) : Block :=
  match x with Ret (Some (Ok b)) => b | _ => parent end.

Definition block : Block := Eval vm_compute in block_of (Mining.NewBlock None 0 params store).

Lemma block_mined : Mining.NewBlock None 0 params store = Ret (Some (Ok block)).
Proof. vm_compute. reflexivity. Qed.

Lemma block_transactions : Transactions block = [coinbase; pay].
Proof. vm_compute. reflexivity. Qed.

Lemma block_not_genesis : is_genesis block = false.
Proof. apply not_genesis. vm_compute. reflexivity. Qed.

Definition world0 : world := MkWorld (AccountStates chain) store.

Lemma store_wf : wf store (AccountStates chain).
Proof.
  change (AccountStates chain) with ({[FirstUser := 0%nat]} : accounts). split.
  - intros k l Hk. apply lookup_singleton_Some in Hk as [_ <-]. simpl. lia.
  - intros k1 k2 l H1 H2. apply lookup_singleton_Some in H1 as [<- _].
    by apply lookup_singleton_Some in H2 as [<- _].
Qed.

Lemma store_view : view store (AccountStates chain) = {[FirstUser := alice_account]}.
Proof.
  change (AccountStates chain) with ({[FirstUser := 0%nat]} : accounts).
  unfold view. rewrite omap_singleton. reflexivity.
Qed.

Lemma alice_only (P : Acct.AccountState -> Prop) :
  P alice_account -> map_Forall (fun _ a => P a) (view store (AccountStates chain)).
Proof. intros H. rewrite store_view. by apply map_Forall_singleton. Qed.

Lemma store_solvent : solvent (view store (AccountStates chain)).
Proof. apply alice_only. split; split; (discriminate || reflexivity). Qed.

Lemma store_no_contract ex k : no_contract ex (view store (AccountStates chain)) k.
Proof. right. intros a Ha. exact (alice_only (fun a => Acct.Instructions a = []) eq_refl k a Ha). Qed.

Lemma store_supply : supply (view store (AccountStates chain)) = 1000000000.
Proof. rewrite store_view. reflexivity. Qed.

Lemma pay_ok : payment pay.
Proof. split; [split; split; (discriminate || reflexivity) | reflexivity | discriminate | reflexivity]. Qed.

Lemma coinbase_u64 : tx_u64 coinbase.
Proof. split; split; (discriminate || reflexivity). Qed.

(** The working copy of the accounts, and what the transactions make of it. *)
Definition world_of {A} (x : go (world * A)) : world := match x with Ret (w, _) => w | Panic _ => world0 end.
Definition copy_of (x : go world) : world := match x with Ret w => w | Panic _ => world0 end.

Definition working : world := copy_of (copy_world world0).
Definition after : world := world_of (@apply_all sigs None 0 (Transactions block) 0 0 working).

Lemma structure_ok : validateBlockStructure block chain = Ret (Ok ()).
Proof. unfold validateBlockStructure. rewrite block_not_genesis. vm_compute. reflexivity. Qed.

Lemma copy_ok : copy_world world0 = Ret working.
Proof. vm_compute. reflexivity. Qed.

Lemma apply_ok : @apply_all sigs None 0 (Transactions block) 0 0 working = Ret (after, Ok (21000, 42000)).
Proof. vm_compute. reflexivity. Qed.

Lemma totals_ok : check_totals block 21000 42000 = Ret (Ok ()).
Proof. unfold check_totals. rewrite block_not_genesis. vm_compute. reflexivity. Qed.

Lemma block_validates : @ValidateBlock sigs None block chain store = Ret (mem after, Ok (accts after)).
Proof.
  exact (@ValidateBlock_intro sigs None block chain store working after 21000 42000
           structure_ok copy_ok apply_ok totals_ok).
Qed.

(** ** Instances of the theorems *)

Lemma block_mints_reward_witness :
  supply (view (mem after) (accts after)) = supply (view store (AccountStates chain)) + BlockReward.
Proof.
  apply (@block_mints_reward sigs None block chain store (mem after) (accts after) coinbase [pay]).
  - exact block_validates.
  - exact block_not_genesis.
  - exact block_transactions.
  - reflexivity.
  - exact coinbase_u64.
  - constructor; [exact pay_ok | constructor].
  - exact store_wf.
  - exact store_solvent.
  - constructor; [apply store_no_contract | constructor].
  - rewrite store_supply. reflexivity.
Defined.

Lemma alice_account_u64 k a : account world0 k = Some a -> account_u64 a.
Proof. intros Ha. exact (store_solvent k a Ha). Qed.

Lemma ValidateTransaction_spec_witness : @ValidateTransaction sigs pay world0 = Ret (Ok ()).
Proof.
  apply (@ValidateTransaction_spec sigs pay world0 (pay_u64 _ pay_ok) store_wf alice_account_u64).
  right. split; [discriminate|]. split; [discriminate|]. split; [reflexivity|].
  exists alice_account. split; [|split; [discriminate | reflexivity]].
  unfold account. cbn [mem accts world0]. rewrite store_view. apply lookup_singleton_eq.
Defined.

Lemma pay_validates : @ValidateTransaction sigs pay world0 = Ret (Ok ()).
Proof. vm_compute. reflexivity. Qed.

(** A payment whose gas limit is too low for it: validation accepts it. *)
Definition hasty : Tx.Transaction :=
  Tx.MkTx FirstUser bob 5 (replicate 64 zero) 1 1700000001 1 [] 20000 2 [].

Lemma hasty_ok : payment hasty.
Proof. split; [split; split; (discriminate || reflexivity) | reflexivity | discriminate | reflexivity]. Qed.

Lemma world0_bob : balance_at (wview world0) bob = 0.
Proof. unfold balance_at. cbn [mem accts world0]. rewrite store_view. reflexivity. Qed.

Lemma transfer_refines_spec_witness :
  (exists w', ApplyTransaction (Some Execution.ExecutorImpl) pay world0 = Ret (w', (21000, None))
     /\ world_wf w' /\ wview w' = transfer_view pay 21000 (wview world0)) /\
  exists w', ApplyTransaction (Some Execution.ExecutorImpl) hasty world0 = Ret (w', (21000, Some (ApplyGasLimit 21000 20000)))
    /\ world_wf w' /\ wview w' = credited hasty (wview world0).
Proof.
  pose proof (@transfer_refines_spec sigs (Some Execution.ExecutorImpl) pay world0
    (payment_plain _ _ world0 pay_ok (store_no_contract _ _)) (pay_u64 _ pay_ok) store_wf store_solvent pay_validates) as H1.
  pose proof (@transfer_refines_spec sigs (Some Execution.ExecutorImpl) hasty world0
    (payment_plain _ _ world0 hasty_ok (store_no_contract _ _)) (pay_u64 _ hasty_ok) store_wf store_solvent) as H2.
  unfold transfer_spec in H1, H2. change (Tx.To pay) with bob in H1. change (Tx.To hasty) with bob in H2.
  rewrite world0_bob in H1, H2. split; [exact H1|]. apply H2. vm_compute. reflexivity.
Defined.

Lemma ExecutorImpl_lawful_option e : Some Execution.ExecutorImpl = Some e -> LawfulExecutor e.
Proof. intros [= <-]. apply Execution.ExecutorImpl_lawful. Qed.

Lemma pay_not_own : ~ own_address pay world0.
Proof.
  intros (a & Ha & E). unfold account in Ha. cbn [mem accts world0] in Ha.
  rewrite store_view, lookup_singleton_eq in Ha. injection Ha as <-. vm_compute in E. discriminate.
Qed.

Definition paid : world := world_of (ApplyTransaction (Some Execution.ExecutorImpl) pay world0).

Lemma applied_transaction_not_replayable_witness :
  @ValidateTransaction sigs pay paid <> Ret (Ok ()).
Proof.
  apply (@applied_transaction_not_replayable sigs (Some Execution.ExecutorImpl) ExecutorImpl_lawful_option
           pay world0 paid 21000).
  - exact (pay_u64 _ pay_ok).
  - exact store_wf.
  - exact store_solvent.
  - reflexivity.
  - left. discriminate.
  - exact pay_not_own.
  - exact pay_validates.
  - vm_compute. reflexivity.
Defined.

Lemma single_ok p m :
  Hdr.Height (Header p) = 0 ->
  ChainSpec.chain_ok (MkChain [Some p] {[Blk.GetHash p := p]} {[Blk.GetHash p := Header p]} m (Some p)).
Proof.
  intros Hh. split; simpl.
  - intros k b Hk. apply lookup_singleton_Some in Hk as [<- <-]. split; [done|]. by rewrite lookup_singleton_eq.
  - intros k hd Hk. by apply lookup_singleton_Some in Hk as [<- <-].
  - intros [|i] b; simpl; [|done]. intros [= <-]. split; [done|]. by rewrite lookup_singleton_eq.
  - rewrite Hh. split; [done|]. by rewrite lookup_singleton_eq.
Qed.

Lemma block_height : Hdr.Height (Header block) = 1.
Proof. vm_compute. reflexivity. Qed.

Lemma block_applies :
  @ValidateAndApplyBlock sigs None block chain store
  = Ret (ApplyBlock block (accts after) chain, mem after, None).
Proof. unfold ValidateAndApplyBlock. rewrite block_validates. reflexivity. Qed.

Lemma ValidateAndApplyBlock_atomic_witness :
  view (mem after) (AccountStates chain) = view store (AccountStates chain)
  /\ GetBlock (ApplyBlock block (accts after) chain) (Blk.GetHash block) = Some block.
Proof.
  destruct (@ValidateAndApplyBlock_atomic sigs None ltac:(discriminate) block chain store
              (ApplyBlock block (accts after) chain) (mem after) None) as (H1 & _ & _ & H2 & _).
  - exact store_wf.
  - apply single_ok. reflexivity.
  - rewrite block_height. split; [discriminate | reflexivity].
  - exact block_applies.
  - split; [exact H1 | exact H2].
Defined.

Lemma validateBlockStructure_extends_tip_witness :
  exists p, GetBlock chain (Hdr.PreviousHash (Header block)) = Some p
    /\ Hdr.Timestamp (Header p) < Hdr.Timestamp (Header block).
Proof.
  destruct (validateBlockStructure_extends_tip block chain block_not_genesis structure_ok)
    as (p & Hp & _ & _ & _ & _ & Ht).
  exists p. split; [exact Hp | exact Ht].
Defined.

Lemma block_meets : meets (Header block).
Proof. vm_compute. reflexivity. Qed.

Lemma block_header_work : ValidateHeaderChainWithWork [Header block] (dec 1) = true.
Proof.
  unfold ValidateHeaderChainWithWork. cbn [header_work_loop]. unfold ValidateHeaderTotalWork.
  rewrite (ValidateHeaderStructure_height (Header block)); [|rewrite block_height; lia | exact block_meets].
  cbn [mbind res_bind]. vm_compute. reflexivity.
Qed.

Lemma ValidateHeaderChainWithWork_sound_witness :
  linked [Header block] /\ Hdr.TotalWork (Header block) = dec (1 + work_sum [Header block]).
Proof.
  destruct (ValidateHeaderChainWithWork_sound [Header block] 1) as (_ & _ & Hl & Hw).
  - constructor; [rewrite block_height; lia | constructor].
  - exact block_header_work.
  - split; [exact Hl | exact (Hw _ eq_refl)].
Defined.

Lemma MineCorrectNonce_spec_witness :
  match Mining.MineCorrectNonce (LedgerSpec.demo_header "42") easy with
  | Some (Ok n) => 7 <= n < max_u64 /\ Mining.meets_at (LedgerSpec.demo_header "42") easy n = true
                   /\ forall m, 7 <= m < n -> Mining.meets_at (LedgerSpec.demo_header "42") easy m = false
  | Some (Err e) => e = Mining.NonceOverflow
                    /\ forall m, 7 <= m < max_u64 -> Mining.meets_at (LedgerSpec.demo_header "42") easy m = false
  | None => False
  end.
Proof.
  apply (Mining.MineCorrectNonce_spec (LedgerSpec.demo_header "42") easy).
  simpl. unfold max_u64. lia.
Defined.

Lemma target_bits : Work.GetTargetBits (len (Blocks chain)) (Blocks chain) = Ret easy.
Proof. vm_compute. reflexivity. Qed.

Lemma NewBlock_valid_structure_witness :
  validateBlockStructure block chain = Ret (Ok ())
  /\ ValidateHeaderTotalWork (Header block) "1" = Ok ().
Proof.
  destruct (@Mining.NewBlock_valid_structure sigs None 0 params store block chain parent 1)
    as (_ & _ & _ & H1 & H2).
  - exact block_mined.
  - exact block_not_genesis.
  - apply lookup_singleton_eq.
  - intros tip [= <-]. reflexivity.
  - exact target_bits.
  - reflexivity.
  - reflexivity.
  - reflexivity.
  - split; [exact H1 | exact H2].
Defined.

(** A contract at bob's address: it stops at its call entry point. *)
Definition contract_account : Acct.AccountState :=
  Acct.MkAccount bob 100 0 [MakeInstruction (opcode NOOP); MakeInstruction (opcode NOOP); MakeInstruction (opcode STOP)]
    ∅ Hash32_zero Hash32_zero Hash32_zero Hash32_zero.

Definition contract_world : world := MkWorld {[bob := 0%nat]} [contract_account].

Lemma contract_world_wf : world_wf contract_world.
Proof.
  split; simpl.
  - intros k l Hk. apply lookup_singleton_Some in Hk as [_ <-]. simpl. lia.
  - intros k1 k2 l H1 H2. apply lookup_singleton_Some in H1 as [<- _].
    by apply lookup_singleton_Some in H2 as [<- _].
Qed.

Definition called : world := world_of (transfer_to (Some Execution.ExecutorImpl) pay 21000 contract_world).

Lemma contract_call_credits_twice_witness :
  exists a', account called bob = Some a' /\ Acct.Balance a' = 110.
Proof.
  apply (Execution.contract_call_credits_twice pay 21000 contract_world called 21000 contract_account).
  - exact contract_world_wf.
  - reflexivity.
  - vm_compute. reflexivity.
  - discriminate.
  - split; [discriminate | reflexivity].
  - split; [discriminate | reflexivity].
  - reflexivity.
  - vm_compute. reflexivity.
Defined.

End Demo.
