(* ===== verification/DemoNode.v ===== *)
(** * A node in a scenario

    Nodes on the chain of Demo.v, which instantiate the theorems of [NodeSpec]: a
    header whose block never comes, an answer without blocks, a header whose parent
    a new node does not know, and a header whose block comes and becomes the tip. *)

From Stdlib Require Import Sorted.
From S2P Require Import Prelude GoLib Config Utils Bytecode Sha256 Ledger Work Chain Validation ValidationSpec Mempool Node NodeSpec Demo.

Module DemoNode.
Import Heap Chain Blk Validation ValidationSpec Node NodeSpec Demo.

(** Maps iterate in the order of their keys. *)
Definition in_order : Env := MkEnv map_to_list map_to_list.

#[export] Instance in_order_lawful : LawfulEnv in_order.
Proof. split; reflexivity. Qed.

Definition parentHash : Hash32 := Blk.GetHash parent.
Definition blockHash : Hash32 := Blk.GetHash block.

Definition node1 : Node :=
  MkNode store [chain] {[parentHash := 0%nat]} parentHash {[parentHash := Header parent]} {[parentHash := parent]}
    ∅ ∅ Mempool.NewMempool None [].

Lemma no_executor e : @None ContractExecutor = Some e -> LawfulExecutor e.
Proof. discriminate. Qed.

Lemma header_valid : ValidateHeaderStructure (Header block) = Ok ().
Proof. apply ValidateHeaderStructure_height; [rewrite block_height; lia | exact block_meets]. Qed.

Lemma header_unknown : checkHeaderExists node1 blockHash = false.
Proof. vm_compute. reflexivity. Qed.

Lemma work_valid : ValidateHeaderTotalWork (Header block) "1" = Ok ().
Proof. unfold ValidateHeaderTotalWork. rewrite header_valid. cbn [mbind res_bind]. vm_compute. reflexivity. Qed.

Lemma block_parent : Hdr.PreviousHash (Header block) = parentHash.
Proof. vm_compute. reflexivity. Qed.

Lemma parent_found : findParentChain node1 (Header block) = Some (0%nat, currentChainTip node1).
Proof.
  unfold node1 at 2. cbn [currentChainTip]. rewrite <- block_parent.
  apply (findParentChain_intro node1 (Header block) 0 chain (Header parent)); rewrite ?block_parent.
  - unfold node1. cbn [chains]. apply lookup_singleton_eq.
  - reflexivity.
  - unfold Chain.GetHeader, chain. cbn [Headers]. unfold parentHash. apply lookup_singleton_eq.
  - exact work_valid.
Qed.

Lemma block_missing : Node.GetBlock node1 blockHash = None.
Proof. vm_compute. reflexivity. Qed.

Lemma hash_ne (a b : Hash32) : bool_decide (a = b) = false -> a <> b.
Proof. by rewrite bool_decide_eq_false. Qed.

Ltac hash_ne := apply hash_ne; vm_compute; reflexivity.

Lemma block_not_tip : blockHash <> currentChainTip node1.
Proof. hash_ne. Qed.

Lemma timeout_loses_current_chain_witness :
  exists n2, currentChainTip n2 = parentHash /\ GetCurrentChain n2 = None /\ GetChain n2 = NewChain.
Proof.
  destruct (@timeout_loses_current_chain sigs None in_order (Header block) 0 node1 _ header_valid header_unknown
              parent_found block_missing block_not_tip) as (n1 & k & n2 & _ & _ & _ & H1 & H2 & _ & H3 & _).
  exists n2. split; [exact H1|]. split; [exact H2 | exact H3].
Defined.

Lemma empty_answer_panics_witness :
  @resume sigs None in_order (AwaitCandidate [blockHash] 0 parentHash) (Some [[]]) node1 = Some (Panic IndexOutOfRange).
Proof. exact (@empty_answer_panics sigs None in_order [blockHash] 0 parentHash node1 chain _ eq_refl). Defined.

Lemma one_header_acyclic k h : Hdr.PreviousHash h <> k -> acyclic {[k := h]}.
Proof.
  intros Hne. exists (fun x => if decide (x = k) then 1%nat else 0%nat). intros k' h' E.
  apply lookup_singleton_Some in E as [<- <-]. rewrite decide_False by done. rewrite decide_True by done. lia.
Qed.

Lemma two_headers_acyclic k1 h1 k2 h2 : k1 <> k2 ->
  Hdr.PreviousHash h1 <> k1 -> Hdr.PreviousHash h1 <> k2 -> Hdr.PreviousHash h2 <> k2 ->
  acyclic (<[k2 := h2]> {[k1 := h1]}).
Proof.
  intros H12 H11 H1 H2. exists (fun x => if decide (x = k1) then 1%nat else if decide (x = k2) then 2%nat else 0%nat).
  intros k h [[<- <-]|[Hne E]]%lookup_insert_Some.
  - rewrite (decide_False (P := k2 = k1)), (decide_True (P := k2 = k2)) by congruence.
    case_decide; [lia|]. rewrite decide_False by done. lia.
  - apply lookup_singleton_Some in E as [<- <-]. rewrite (decide_True (P := k1 = k1)) by done.
    rewrite !decide_False by done. lia.
Qed.

Lemma parent_no_cycle : Hdr.PreviousHash (Header parent) <> parentHash.
Proof. hash_ne. Qed.

Lemma block_new : parentHash <> Hdr.GetHash (Header block).
Proof. hash_ne. Qed.

Lemma parent_not_block : Hdr.PreviousHash (Header parent) <> Hdr.GetHash (Header block).
Proof. hash_ne. Qed.

Lemma block_no_cycle : Hdr.PreviousHash (Header block) <> Hdr.GetHash (Header block).
Proof. hash_ne. Qed.

Lemma ProcessHeader_terminates_witness :
  exists r, @ProcessHeader sigs None in_order (Header block) node1 = Some r.
Proof.
  apply (@ProcessHeader_terminates sigs None in_order (Header block) node1).
  - exact (one_header_acyclic _ _ parent_no_cycle).
  - apply two_headers_acyclic; [exact block_new | exact parent_no_cycle | exact parent_not_block | exact block_no_cycle].
Defined.

(** A new node that is given a block by its miner, and hears of its header: the
    parent is unknown. *)
Definition node2 : Node := with_submitted {[blockHash := block]} NewNode.

Lemma block_stored : @step sigs None NewNode node2.
Proof.
  apply step_store with (block := block); [|reflexivity].
  rewrite block_height. split; [discriminate | reflexivity].
Qed.

Lemma parent_not_genesis : parentHash <> genesisHash.
Proof. apply hash_not_genesis. vm_compute. reflexivity. Qed.

Lemma genesis_not_parent : genesisHash <> parentHash.
Proof. exact (not_eq_sym parent_not_genesis). Qed.

Lemma block_hash_not_genesis : Hdr.GetHash (Header block) <> genesisHash.
Proof. apply hash_not_genesis. vm_compute. reflexivity. Qed.

Lemma genesis_only {A} (a : A) : ({[genesisHash := a]} : gmap Hash32 A) !! Hdr.PreviousHash (Header block) = None.
Proof. rewrite block_parent. apply lookup_singleton_ne. exact genesis_not_parent. Qed.

Lemma no_genesis_parent : findParentBlock in_order node2 (Header block) = None.
Proof.
  unfold findParentBlock, in_order, chain_order, node2. cbn [chains with_submitted].
  rewrite new_chains, map_to_list_singleton. cbn [find_block Node.store with_submitted]. rewrite new_store.
  cbn [mbind option_bind]. rewrite block_parent.
  assert (Chain.GetBlock genesis_chain parentHash = None) as ->; [|reflexivity].
  unfold Chain.GetBlock, genesis_chain, AddBlock, AddHeader, NewChain. cbn [BlockIndex].
  rewrite !lookup_insert_ne by exact genesis_not_parent.
  apply lookup_singleton_ne. exact genesis_not_parent.
Qed.

Definition node3 : Node :=
  with_spawned [TaskFetchParent (Header block)] (with_orphans {[parentHash := [Header block]]} node2).

Lemma orphan_step : @step sigs None node2 node3.
Proof.
  apply step_header with (env := in_order) (header := Header block) (r := None); [apply _|reflexivity|].
  pose proof (@orphan_kept sigs None in_order (Header block) node2 header_valid
    (new_knows_genesis _ block_hash_not_genesis) (genesis_only 0%nat) no_genesis_parent (genesis_only _)) as E.
  rewrite block_parent in E. exact E.
Qed.

Lemma reachable_node_ok_witness :
  node_ok node3 /\ orphanHeaders node3 !! parentHash = Some [Header block] /\ submittedBlocks node3 !! blockHash = Some block.
Proof.
  destruct (@reachable_node_ok sigs None no_executor node2 node3) as [H _].
  - eapply rtc_l; [exact block_stored | apply rtc_refl].
  - exact orphan_step.
  - split; [exact H|]. split; apply lookup_singleton_eq.
Defined.

(** The node that extends its chain: the header, the wait, and the block. *)
Lemma chain_well_formed : chain_wf store chain.
Proof.
  apply chain_ok_wf; [|exact store_wf]. unfold chain. split; cbn [BlockIndex Headers Blocks Tip].
  - intros k b [<- <-]%lookup_singleton_Some. split; [done|]. rewrite lookup_singleton_eq. by eexists.
  - by intros k hd [<- <-]%lookup_singleton_Some.
  - intros [|i] b E; [|done]. injection E as <-. split; [done|]. rewrite lookup_singleton_eq. by eexists.
  - split; [done|]. rewrite lookup_singleton_eq. by eexists.
Qed.

Lemma node1_well_formed : node_ok node1.
Proof.
  unfold node1. split; cbn [chains Node.store Node.mem headersMap blocksMap submittedBlocks orphanHeaders pool processing spawned].
  - apply map_Forall_singleton. unfold pointer_ok. simpl. lia.
  - constructor; [exact chain_well_formed | constructor].
  - by apply map_Forall_singleton.
  - by apply map_Forall_singleton.
  - apply map_Forall_empty.
  - apply map_Forall_empty.
  - apply Mempool.NewMempool_ok.
  - done.
  - done.
Qed.

Lemma direct_keeps_accounts n n' : node_ok n -> direct n n' -> Node.mem n' = Node.mem n.
Proof.
  intros Hok (env & b & r & E). unfold AddBlockDirectly in E.
  apply M_bind_inv in E as (n0 & x & Hx & E). apply get_inv in Hx as [-> ->].
  destruct (List.find _ _) as [[k p]|]; [|by apply M_ret_inv in E as [-> _]].
  apply M_bind_inv in E as (n1 & u & E1 & E). unfold update_chain, read_chain, mbind, M_bind, get, of_go, modify in E1.
  destruct (chain_at n p); [|discriminate]. injection E1 as <- _.
  unfold mbind, M_bind, modify, mret, M_ret in E. injection E as <- _. by case_match.
Qed.

Lemma fork_choice_sound_witness : exists n1 n2,
  @step sigs None node1 n1 /\ @step sigs None n1 n2 /\ currentChainTip n1 = parentHash /\ currentChainTip n2 = blockHash
  /\ exists hd b c h m, base (H := sigs) None n1 hd b c h /\ Hdr.GetHash hd = blockHash
       /\ @ValidateBlock sigs None b c h = Ret (Node.mem n2, Ok m) /\ current_chain n2 = Some (ApplyBlock b m c).
Proof.
  destruct (@extension_waits sigs None in_order (Header block) 0 node1 header_valid header_unknown parent_found block_missing)
    as (n1 & E1 & Hk & Ht & _ & Hst & Hm & Hsub).
  assert (@step sigs None node1 n1) as Hs1 by (eapply step_header; [exact in_order_lawful|reflexivity|exact E1]).
  pose proof (ev_ok _ _ (proj1 (@ProcessHeader_inv sigs None no_executor in_order (Header block) node1 n1 None node1_well_formed E1))) as Hok1.
  assert (forall t, Chain.Tip (Chain.AddHeader (Header block) chain) = Some t -> Hdr.Height (Header t) < Hdr.Height (Header block)) as Htip.
  { intros t [= <-]. rewrite block_height. reflexivity. }
  destruct (@resume_adopts sigs None in_order (Header block) 0 (Chain.AddHeader (Header block) chain) block (Validation.mem after)
    (accts after) n1 parentHash [[block]] in_order_lawful (received_one in_order block in_order_lawful) eq_refl (Hst chain eq_refl) ltac:(by rewrite Hsub)
    ltac:(rewrite Hm; exact block_validates) Htip ltac:(hash_ne)) as (n2 & E2 & Ht2 & _ & _ & Hm2 & _).
  assert (@step sigs None n1 n2) as Hs2.
  { eapply step_resume; [exact in_order_lawful|exact Hk| |exact E2].
    do 2 (constructor; [|constructor]). rewrite block_height. split; [discriminate | reflexivity]. }
  exists n1, n2. split; [exact Hs1|]. split; [exact Hs2|]. split; [exact Ht|]. split; [exact Ht2|].
  destruct (@fork_choice_sound sigs None no_executor n1 n2 Hok1 Hs2)
    as [H|[(hd & b & c & h & m & Hb & Hv & H & Hc)|[H|H]]].
  - exfalso. rewrite Ht2, Ht in H. exact (block_not_tip H).
  - exists hd, b, c, h, m. split; [exact Hb|].
    split; [rewrite <- H; exact Ht2|]. split; [exact Hv | exact Hc].
  - destruct H as (env & hashes & p & t0 & msgs & t & first & bs & tip & cand & c & _ & Hw & _). rewrite Hk in Hw. discriminate Hw.
  - apply direct_keeps_accounts in H; [|exact Hok1]. rewrite Hm2, Hm in H. apply (f_equal length) in H. vm_compute in H. discriminate H.
Defined.

End DemoNode.
