(* ===== verification/DemoSync.v ===== *)
(** * An instance of a block that travels

    The mined block of [Demo] goes from a node that was given it to the node of
    [DemoNode], past an unrelated answer and one without blocks. *)

From S2P Require Import Prelude GoLib Config Utils Bytecode Sha256 Ledger LedgerSpec Work Chain Validation ValidationSpec.
From S2P Require Import Mempool Node NodeSpec Converters Rpc Sync Demo DemoNode.

Module DemoSync.
Import Chain Blk Validation Node NodeSpec Wire Rpc Demo DemoNode.
#[local] Open Scope string_scope.
#[local] Open Scope Z_scope.

Lemma block_wire : wire_block block.
Proof.
  split.
  - split; try reflexivity; split; (discriminate || reflexivity).
  - reflexivity.
  - rewrite block_transactions. repeat constructor.
Qed.

(** The peer: [Demo]'s chain, and the block as submitted by a miner. *)
Definition peer1 : Node.Node := with_submitted {[blockHash := block]} node1.

Lemma peer1_has : Node.GetBlock peer1 blockHash = Some block.
Proof. unfold Node.GetBlock, peer1. cbn [submittedBlocks with_submitted]. by rewrite lookup_singleton_eq. Qed.

Lemma parent_wire : wire_block parent.
Proof. split; [split; try reflexivity; split; (discriminate || reflexivity) | reflexivity | constructor]. Qed.

Lemma node1_wire k b : Node.GetBlock node1 k = Some b -> wire_block b.
Proof.
  unfold Node.GetBlock, node1. cbn [submittedBlocks blocksMap]. rewrite lookup_empty.
  intros [_ <-]%lookup_singleton_Some. apply parent_wire.
Qed.

Lemma peer1_wire k b : Node.GetBlock peer1 k = Some b -> wire_block b.
Proof.
  unfold Node.GetBlock, peer1, node1. cbn [submittedBlocks blocksMap with_submitted].
  destruct (({[blockHash := block]} : gmap Hash32 Block) !! k) as [b'|] eqn:E.
  - apply lookup_singleton_Some in E as [_ <-]. intros [= <-]. apply block_wire.
  - intros [_ <-]%lookup_singleton_Some. apply parent_wire.
Qed.

(** A second peer that was asked has nothing and says so. *)
Definition peer2 : Node.Node := node1.

Definition the_peers : list Sync.peer := [(peer2, 9, "late"); (peer1, 9, "peer")].

Definition the_answer : response :=
  BlocksResponse (Some (NewMessageData 9 "peer" "id")) [BlockToProtoBlock block].

Definition no_answer : response := BlocksResponse (Some (NewMessageData 9 "late" "id")) [].

Definition traffic : list event :=
  [Store (demo_response "other"); Store no_answer; Notify "other"; Store the_answer; Notify "id"].

Lemma peers_answer : mapM (answer_of (fun s => s) (hashes_request 8 "self" "id" [blockHash])) the_peers = Ret (answers "id" traffic).
Proof.
  unfold the_peers, answer_of, onBlocksRequest, hashes_request. cbn [mapM Rpc.Hashes rMessageData fst snd].
  rewrite to_hashes_id by (by repeat constructor). cbn [node_GetBlocks Node_interface]. unfold GetBlocks. cbn [omap list_omap].
  rewrite peer1_has. change (Node.GetBlock peer2 blockHash) with (Node.GetBlock node1 blockHash). rewrite block_missing. reflexivity.
Qed.


End DemoSync.
