(* ===== verification/DemoApi.v ===== *)
(** * Instances of the query API

    A node whose current chain is one block with a payment, and whose pool is
    empty, answers requests. *)

From S2P Require Import Prelude GoLib GoText Config Utils Bytecode Sha256 Ledger Work Chain Validation ValidationSpec Mining Mempool Node NodeSpec QueryApi Wallet Miner Demo.

Module DemoApi.
Import Heap Chain Blk Validation Node NodeSpec QueryApi.
#[local] Open Scope string_scope.
#[local] Open Scope Z_scope.

Definition block1 : Block := MkBlock (Header Demo.parent) [Demo.pay].

Definition chain1 : Chain :=
  MkChain [Some block1] {[Blk.GetHash block1 := block1]} {[Blk.GetHash block1 := Header block1]}
    (AccountStates Demo.chain) (Some block1).

Definition tip1 : Hash32 := replicate 32 "k"%char.

Definition node1 : Node :=
  MkNode Demo.store [chain1] {[tip1 := 0%nat]} tip1 ∅ ∅ ∅ ∅ Mempool.NewMempool None [].

Lemma chain1_wf : chain_wf Demo.store chain1.
Proof. apply chain_ok_wf; [by apply Demo.single_ok | apply Demo.store_wf]. Qed.

Lemma node1_ok : node_ok node1.
Proof.
  split; cbn [chains store Node.mem headersMap blocksMap submittedBlocks orphanHeaders pool processing spawned node1].
  - apply map_Forall_singleton. unfold pointer_ok. cbn. lia.
  - constructor; [apply chain1_wf | constructor].
  - apply map_Forall_empty.
  - apply map_Forall_empty.
  - apply map_Forall_empty.
  - apply map_Forall_empty.
  - apply Mempool.NewMempool_ok.
  - done.
  - constructor.
Qed.

Lemma node1_current : current_chain node1 = Some chain1.
Proof. unfold current_chain. cbn -[chain1]. by rewrite lookup_insert_eq. Qed.

Lemma node1_chain : GetChain node1 = chain1.
Proof. unfold GetChain. rewrite bool_decide_false by done. by rewrite node1_current. Qed.

Lemma node1_blocks : Blocks (GetChain node1) = map Some [block1].
Proof. by rewrite node1_chain. Qed.

(** The orders of a pool without transactions. *)
Definition empty_env : PoolEnv := MkPoolEnv 5 [] [].

Lemma empty_orders : orders_ok empty_env node1.
Proof. by split. Qed.

Definition pay_path : string := base64_EncodeToString (Tx.GetHash Demo.pay).

Lemma pay_named : names pay_path (Tx.GetHash Demo.pay).
Proof. split; [apply length_sha256 | by right]. Qed.

Lemma handleTransaction_spec_witness :
  exists n' r, handleTransaction empty_env (MkRequest "GET" ("/transaction/" ++ pay_path) "") node1 = Some (Ret (n', Encoded r))
    /\ node_ok n'.
Proof.
  destruct (handleTransaction_spec empty_env node1 [block1] (Tx.GetHash Demo.pay) pay_path "" node1_ok empty_orders node1_blocks
    pay_named) as (n' & r & Hr & Hok & _).
  exists n', r. by split.
Defined.

Lemma handleBalance_spec_witness :
  handleBalance node1 (MkRequest "GET" ("/balance/" ++ hex_encode FirstUser) "")
  = Ret (Encoded match balances node1 !! FirstUser with
                 | Some a => MkBalanceResponse (hex_encode FirstUser) true (Acct.Balance a) (Acct.Nonce a)
                 | None => MkBalanceResponse (hex_encode FirstUser) false 0 0
                 end).
Proof. apply (handleBalance_spec node1 FirstUser "" node1_ok). reflexivity. Defined.

(** The pool once [Demo.pay] is in it. *)
Definition pay_pool : Mempool.Mempool := (Mempool.AddTransaction 5 Demo.pay Mempool.NewMempool).1.

Lemma pay_pool_add : Mempool.AddTransaction 5 Demo.pay Mempool.NewMempool = (pay_pool, true).
Proof. unfold pay_pool, Mempool.AddTransaction, Mempool.NewMempool. cbn [Mempool.transactions]. rewrite lookup_empty. done. Qed.

Lemma pay_pool_has : Mempool.transactions pay_pool !! Tx.GetHash Demo.pay = Some (Mempool.MkEntry Demo.pay 5 (Tx.GasPrice Demo.pay)).
Proof.
  unfold pay_pool, Mempool.AddTransaction, Mempool.NewMempool. cbn [Mempool.transactions]. rewrite lookup_empty.
  apply lookup_insert_eq.
Qed.

Definition submitted : SubmitTransactionResponse :=
  MkSubmitTransactionResponse "submitted" (hex_encode (Tx.GetHash Demo.pay)).

Lemma pay_submitted :
  handleSubmitTransaction (H := Demo.sigs) 5 (MkRequest "POST" "/submit-transaction" "") (Some Demo.pay) node1
  = Some (Ret (with_pool pay_pool node1, Encoded submitted)).
Proof.
  unfold handleSubmitTransaction. replace (check_method MethodPost _) with (Encoded ()) by done.
  unfold ProcessTransaction, get, of_go, modify, mret, M_ret, mbind, M_bind.
  rewrite bool_decide_false by done. rewrite node1_current.
  replace (ValidateTransaction _ _) with (Ret (Ok ()) : go (res tx_error unit)) by (symmetry; exact Demo.pay_validates).
  cbn [pool node1]. by rewrite pay_pool_add.
Qed.

Definition pay_env : PoolEnv :=
  MkPoolEnv 9 (map_to_list (Mempool.transactions pay_pool)) (map_to_list (Mempool.live 9 pay_pool)).

(** The same transaction is submitted again, and refused, before it is looked up. *)
Lemma pay_again : pool_call (H := Demo.sigs) (5 + MempoolMaxExpiry) (with_pool pay_pool node1) (with_pool pay_pool node1).
Proof.
  eapply (call_submit (H := Demo.sigs)) with (now := 6) (r := MkRequest "POST" "/submit-transaction" "") (body := Some Demo.pay).
  - vm_compute. reflexivity.
  - unfold handleSubmitTransaction. replace (check_method MethodPost _) with (Encoded ()) by done.
    unfold ProcessTransaction, get, of_go, modify, mret, M_ret, mbind, M_bind.
    rewrite bool_decide_false by done. change (current_chain (with_pool pay_pool node1)) with (current_chain node1).
    rewrite node1_current.
    replace (ValidateTransaction _ _) with (Ret (Ok ()) : go (res tx_error unit)) by (symmetry; exact Demo.pay_validates).
    cbn [pool with_pool]. unfold Mempool.AddTransaction. rewrite pay_pool_has. reflexivity.
Qed.

Lemma submitted_transaction_found_witness :
  exists n2 r found,
    handleTransaction pay_env (MkRequest "GET" ("/transaction/" ++ srHash submitted) "") (with_pool pay_pool node1)
      = Some (Ret (n2, Encoded r)) /\
    node_ok n2 /\ trFound r = true /\ trTransaction r = Some found /\ Tx.GetHash found = Tx.GetHash Demo.pay.
Proof.
  apply (submitted_transaction_found (H := Demo.sigs) 5 Demo.pay node1 (with_pool pay_pool node1) "/submit-transaction" "" ""
    submitted (with_pool pay_pool node1) pay_env [block1] node1_ok node1_blocks pay_submitted).
  - eapply rtc_l; [exact pay_again | apply rtc_refl].
  - by split.
  - cbn [now pay_env]. unfold MempoolMaxExpiry. lia.
Defined.

(** ** The wallet *)

#[local] Instance signing : Wallet.SigningLaw (H := Demo.sigs) (fun _ _ => Ret []) FirstUser [].
Proof. intros message. by exists []. Qed.

Lemma node1_balance : balances node1 !! FirstUser = Some Demo.alice_account.
Proof. unfold balances. rewrite node1_chain. change (Node.mem node1) with Demo.store. change (AccountStates chain1) with (AccountStates Demo.chain). by rewrite Demo.store_view, lookup_singleton_eq. Qed.

Lemma payment_accepted_witness :
  exists answer tx,
    handleBalance node1 (MkRequest "GET" ("/balance/" ++ hex_encode FirstUser) "") = Ret answer /\
    Wallet.sendMoneyWithData (fun _ _ => Ret []) 5 FirstUser [] 7 Demo.bob [] (Some answer) = Ret (Ok tx).
Proof.
  destruct (Wallet.payment_accepted (H := Demo.sigs) (fun _ _ => Ret []) 5 6 FirstUser [] 7 Demo.bob [] node1 Demo.alice_account "" "" signing
    node1_ok eq_refl) as (answer & tx & H1 & H2 & _).
  - discriminate.
  - reflexivity.
  - exact node1_balance.
  - split; split; (discriminate || reflexivity).
  - split; (discriminate || reflexivity).
  - discriminate.
  - reflexivity.
  - by exists answer, tx.
Defined.

(** [wallet --privkey ... send --amount 7 --to ...]. *)
Definition demo_key : bytes := (replicate 32 "s"%char ++ Demo.bob)%list.

Definition demo_flags : Wallet.flags :=
  Wallet.MkFlags (hex_encode demo_key) ["send"] 7 (hex_encode Demo.miner) "c0ffee" "" 50000 100 "".

Definition demo_balance : BalanceResponse := MkBalanceResponse (hex_encode Demo.bob) true 1000 4.

Definition demo_sent : Tx.Transaction :=
  Tx.MkTx Demo.bob Demo.miner 7 Wallet.Signature_zero 5 60 0 [] 25000 100 (map ascii_of_nat [192; 255; 238]%nat).

Lemma main_sent_witness :
  Wallet.main (fun _ _ => Ret []) 60 demo_flags (fun _ => None) (Some (Encoded demo_balance)) = Ret (Wallet.Sent demo_sent) /\
  exists priv response, hex_DecodeString (hex_encode demo_key) = Some priv /\
    Some (Encoded demo_balance) = Some (Encoded response) /\ brExists response = true /\
    Wallet.own_transaction (fun _ _ => Ret []) (copy_into 32 (drop 32 priv)) priv response demo_sent /\
    Wallet.requested demo_flags (fun _ => None) demo_sent.
Proof.
  split; [vm_compute; reflexivity|].
  apply (Wallet.main_sent (fun _ _ => Ret []) 60 demo_flags (fun _ => None) (Some (Encoded demo_balance)) demo_sent).
  vm_compute. reflexivity.
Defined.

(** ** The miner *)

(** A chain of one block whose target is the miner's. *)
Definition idle_tip : Block :=
  MkBlock (Hdr.MkHeader 1 Hash32_zero 0 1700000000 0 Hash32_zero Hash32_zero Hash32_zero TestTargetCompact "1" 8000000 0
    Demo.miner) [].

Definition idle_chain : Chain :=
  MkChain [Some idle_tip] {[Blk.GetHash idle_tip := idle_tip]} {[Blk.GetHash idle_tip := Header idle_tip]}
    (AccountStates Demo.chain) (Some idle_tip).

Definition idle_head : Z * Hash32 * string := (0, Blk.GetHash idle_tip, "1").

Lemma idle_parent : Chain.GetBlock idle_chain (Blk.GetHash idle_tip) = Some idle_tip.
Proof. unfold Chain.GetBlock, idle_chain. cbn [BlockIndex]. generalize (Blk.GetHash idle_tip). intros k. apply lookup_singleton_eq. Qed.

(** The time was chosen such that the first nonce is found at once. *)
Definition idle_mined : Block :=
  Eval vm_compute in
    match Miner.createAndMineBlock None Demo.miner 1700008565 idle_head None None with
    | Ret (Some (Ok b)) => b
    | _ => idle_tip
    end.

Lemma idle_created :
  Miner.createAndMineBlock None Demo.miner 1700008565 idle_head None None = Ret (Some (Ok idle_mined)).
Proof. vm_compute. reflexivity. Qed.

(** The same miner at a head of another target. *)
Definition other_chain : Chain :=
  MkChain [Some Demo.parent] {[Blk.GetHash Demo.parent := Demo.parent]} {[Blk.GetHash Demo.parent := Header Demo.parent]}
    (AccountStates Demo.chain) (Some Demo.parent).

Lemma other_parent : Chain.GetBlock other_chain (Blk.GetHash Demo.parent) = Some Demo.parent.
Proof. unfold Chain.GetBlock, other_chain. cbn [BlockIndex]. generalize (Blk.GetHash Demo.parent). intros k. apply lookup_singleton_eq. Qed.

Definition other_mined : Block :=
  Eval vm_compute in
    match Miner.createAndMineBlock None Demo.miner 1700014059 (0, Blk.GetHash Demo.parent, "1") None None with
    | Ret (Some (Ok b)) => b
    | _ => idle_tip
    end.

Lemma other_created :
  Miner.createAndMineBlock None Demo.miner 1700014059 (0, Blk.GetHash Demo.parent, "1") None None = Ret (Some (Ok other_mined)).
Proof. vm_compute. reflexivity. Qed.

Lemma no_miner_account (P : Prop) a : view Demo.store (AccountStates Demo.chain) !! Demo.miner = Some a -> P.
Proof. rewrite Demo.store_view. intros [Ha _]%lookup_singleton_Some. discriminate Ha. Qed.


Definition head1 : Z * Hash32 * string := (0, Hash32_zero, "1").

(** What [/chain-state] gives of the accounts. *)
Definition states1 : option (http (list (string * option Acct.AccountState))) :=
  Some (Encoded [(hex_encode FirstUser, Some Demo.alice_account)]).

(** A payment of more than half of what the sender has, at some time. *)
Definition big_pay (time : Z) : Tx.Transaction :=
  Tx.MkTx FirstUser Demo.bob 600000000 (replicate 64 zero) 1 time 1 [] 30000 2 [].

(** Two such payments crash the miner: each is valid on the accounts as they are, so
    the node takes both into its pool, and executing one after the other panics. *)
Lemma double_spend_crashes_miner :
  (forall time, 0 <= time < 2 -> @ValidateTransaction Demo.sigs (big_pay time) Demo.world0 = Ret (Ok ())) /\
  Miner.createAndMineBlock None Demo.miner 5 head1 (Some (Encoded (MkMempoolResponse 2 [big_pay 0; big_pay 1]))) states1
  = Panic (ExplicitPanic "sender balance underflow during apply").
Proof.
  split; [|vm_compute; reflexivity]. intros time Ht. assert (time = 0 \/ time = 1) as [-> | ->] by lia; vm_compute; reflexivity.
Qed.

(** A sender that is funded in the same block. *)
Definition bob_pays : Tx.Transaction :=
  Tx.MkTx Demo.bob Demo.miner 5 (replicate 64 zero) 1 1700000001 1 [] 30000 2 [].

(** A pool in which a transaction depends on another is never mined: executed on the
    accounts as they are it fails, so its fee is missing in the coinbase, but the
    block counts it. *)
Lemma dependent_payments_not_mined :
  Miner.createAndMineBlock None Demo.miner 5 head1 (Some (Encoded (MkMempoolResponse 2 [big_pay 0; bob_pays]))) states1
  = Ret (Some (Err (Mining.CoinbaseAmount (BlockReward + 42000) (BlockReward + 84000)))).
Proof. vm_compute. reflexivity. Qed.

End DemoApi.
