(* ===== verification/DemoTest.v ===== *)
(** * Instances of the test chains

    Two headers and a block on a one-block chain, at times at which the first nonce
    fits. *)

From S2P Require Import Prelude GoLib Config Utils Bytecode Sha256 Ledger Work Chain Validation ValidationSpec Mining Demo QueryApi Miner DemoApi TestChain.

Module DemoTest.
Import Heap Chain Blk Validation ValidationSpec TestChain.
#[local] Open Scope Z_scope.

Definition returned {A} (d : A) (m : go A) : A := match m with Ret a => a | Panic _ => d end.

Definition times : list Z := [1700101634; 1700113518].

Definition headers : list Hdr.BlockHeader :=
  Eval vm_compute in
    returned [] (chain_loop times (Header DemoApi.idle_tip)).

Lemma headers_built : CreateTestChain (Some (Header DemoApi.idle_tip)) times = Ret headers.
Proof. change (chain_loop times (Header DemoApi.idle_tip) = Ret headers). vm_compute. reflexivity. Qed.

Lemma CreateTestChain_validates_witness :
  ValidateHeaderChainWithWork headers (Hdr.TotalWork (Header DemoApi.idle_tip)) = true /\ length headers = length times
  /\ linked (Header DemoApi.idle_tip :: headers) /\ Forall meets headers
  /\ Hdr.TotalWork (default (Header DemoApi.idle_tip) (last headers)) = dec (1 + len times * Work.GetBlockWork GetTargetCompact).
Proof.
  apply CreateTestChain_validates; [exact headers_built | | discriminate].
  split; [reflexivity | split; [discriminate | reflexivity || discriminate] | split; discriminate |].
  repeat constructor; discriminate.
Defined.

Definition test_block : Block :=
  Eval vm_compute in
    returned DemoApi.idle_tip
      (CreateTestBlock 1700005486 (Some (Header DemoApi.idle_tip)) [CreateCoinbaseTransaction 1700000100 Demo.miner 1]).

Lemma test_block_built :
  CreateTestBlock 1700005486 (Some (Header DemoApi.idle_tip)) [CreateCoinbaseTransaction 1700000100 Demo.miner 1] = Ret test_block.
Proof. vm_compute. reflexivity. Qed.

Lemma CreateTestBlock_validates_witness :
  is_genesis test_block = true \/
  exists h' newAccountStates,
    ValidateBlock (H := Demo.sigs) None test_block DemoApi.idle_chain Demo.store = Ret (h', Ok newAccountStates) /\
    view h' newAccountStates
    = credited (CreateCoinbaseTransaction 1700000100 Demo.miner 1) (shallow_copy <$> view Demo.store (AccountStates DemoApi.idle_chain)).
Proof.
  apply (CreateTestBlock_validates (H := Demo.sigs) None 1700005486 1700000100 Demo.miner 1 DemoApi.idle_tip DemoApi.idle_chain
    Demo.store test_block 1).
  - exact test_block_built.
  - reflexivity.
  - split; [discriminate | reflexivity].
  - split; [discriminate | reflexivity].
  - reflexivity.
  - exact DemoApi.idle_parent.
  - vm_compute. reflexivity.
  - exact Demo.store_wf.
  - intros a Ha. exfalso. change (AccountStates DemoApi.idle_chain) with (AccountStates Demo.chain) in Ha.
    rewrite Demo.store_view in Ha. apply lookup_singleton_Some in Ha as [Ha _]. discriminate Ha.
Defined.

End DemoTest.
