(* ===== verification/DemoMarigold.v ===== *)
(** * Contracts in Marigold

    Programs from their text to their runs, which instantiate the theorems about
    the compiler, and runs of compiled code that do not do what the text says. *)

From S2P Require Import Prelude GoLib Config Bytecode Word256 Machine Opcodes Interp MgLexer MgAst MgParser MgTypes MgTypesSpec MgCodegen MgCompile MgMachine MgCorrect MgProgram MgParserSpec MgPrint MgErase MgPlain MgTool.

Module DemoMarigold.
Import VM Exec.
Import Mg Typecheck TypesSpec Codegen Compile Correct Program.
Import Lexer Parser.

(** A text, with a backquote for a quotation mark and a bar for the end of a line. *)
Definition source (text : string) : string :=
  string_of_bytes (map (fun c => if Ascii.eqb c "`" then ascii_of_nat 34 else if Ascii.eqb c "|" then ascii_of_nat 10 else c)
    (bytes_of_string text)).

Definition in_order (m : gmap string Function_) : list (string * Function_) := map_to_list m.

Definition parsed (text : string) : Ast :=
  match Lex (source text) with
  | Some (Ret (tokens, None)) => match Parse tokens with Some (Ret ast) => ast | _ => NewAst [] end
  | _ => NewAst []
  end.

(** The checked program. *)
Definition checked (text : string) : option Ast :=
  match Typecheck in_order (parsed text) with Ret ast => Some ast | Panic _ => None end.

Definition compiled (text : string) : option CodegenContext :=
  ast ← checked text;
  match CodegenWithContext ast (in_order (Functions ast)) (in_order (Functions ast)) with Ret c => Some c | Panic _ => None end.

(** The stack and storage after a run from an entry point, and how it ended. *)
Definition run (text : string) (ic : Z) (storage : gmap string string) : option (list Z * gmap string string * option avm_error) :=
  c ← compiled text;
  match StartExecution (with_Persistent storage (NewRuntimeWithIC 100000 (Instructions c) MockBlockchainContext ic)) with
  | Some (Ret (r, _, e)) => Some (s (Stack r), Persistent r, e)
  | _ => None
  end.

(** ** A numeric contract *)

Definition factorial_text : string :=
  "define init() : int { return 7 } define call() : int { n : int = 5 | product : int = 1 | while n > 0 { product = product * n | n = n - 1 } return product }".

Definition factorial : Ast := Eval vm_compute in default (NewAst []) (checked factorial_text).
Definition factorial_call : Function_ := Eval vm_compute in
  match Functions factorial !! "call" with Some f => f | None => MkFunction "" [] [] None (MkBlock [] ∅) end.

Definition factorial_code : CodegenContext := Eval vm_compute in default empty_context (compiled factorial_text).

Lemma factorial_checked : checked factorial_text = Some factorial.
Proof. vm_compute. reflexivity. Qed.

(** Executing the compiled contract leaves 5! on top of the stack, as its source
    says. *)
Lemma compiled_entry_runs_instance :
  entry_value 20 MockBlockchainContext factorial_call = Some 120
  /\ exists cost, 0 <= cost /\ forall gas, cost + Price (opcode RETURN) <= gas < 2 ^ 64 ->
    exists r' st, StartExecution (with_Persistent ∅ (NewRuntimeWithIC gas (Instructions factorial_code) MockBlockchainContext 2))
                  = Some (Ret (r', cost, Some ErrProgramStopped))
      /\ s (Stack r') = st ++ [120] /\ Persistent r' = ∅.
Proof.
  split; [vm_compute; reflexivity|].
  apply (compiled_entry_runs factorial (in_order (Functions factorial)) (in_order (Functions factorial)) factorial_code
    "call" 2 factorial_call 20 MockBlockchainContext 120 ∅).
  - reflexivity.
  - reflexivity.
  - refine (bool_decide_eq_true_1 _ _). vm_compute. reflexivity.
  - vm_compute. reflexivity.
  - vm_compute. reflexivity.
  - apply list_elem_of_further, list_elem_of_here.
  - vm_compute. reflexivity.
  - vm_compute. reflexivity.
  - vm_compute. reflexivity.
Defined.

(** ** From the text to the run *)

(** The text parsed, and the tool's report on it. *)
Definition factorial_tokens : list Token := Eval vm_compute in
  match Lex (source factorial_text) with Some (Ret (ts, None)) => ts | _ => [] end.

Definition factorial_parsed : Ast := Eval vm_compute in
  match Parse factorial_tokens with Some (Ret ast) => ast | _ => NewAst [] end.

Definition factorial_source : Function_ := Eval vm_compute in
  match Functions factorial_parsed !! "call" with Some f => f | None => MkFunction "" [] [] None (MkBlock [] ∅) end.

Definition any_orders : Tool.orders := Tool.MkOrders in_order in_order in_order.

Definition factorial_report : Ast * CodegenContext := Eval vm_compute in
  match Tool.parseFile any_orders (source factorial_text) with
  | Some (Ret (Tool.Compiled ast c)) => (ast, c)
  | _ => (NewAst [], empty_context)
  end.

Lemma compiled_text_correct_witness :
  entry_value 20 MockBlockchainContext factorial_source = Some 120
  /\ exists cost, 0 <= cost /\ forall gas, cost + Price (opcode RETURN) <= gas < 2 ^ 64 ->
    exists r' st, StartExecution (with_Persistent ∅ (NewRuntimeWithIC gas (Instructions factorial_report.2) MockBlockchainContext 2))
                  = Some (Ret (r', cost, Some ErrProgramStopped))
      /\ s (Stack r') = st ++ [120] /\ Persistent r' = ∅.
Proof.
  split; [vm_compute; reflexivity|].
  apply (Tool.compiled_text_correct any_orders (source factorial_text) factorial_tokens factorial_parsed
    factorial_report.1 factorial_report.2 "call" 2 factorial_source 20 MockBlockchainContext 120 ∅).
  - by intros m.
  - vm_compute. reflexivity.
  - vm_compute. reflexivity.
  - vm_compute. reflexivity.
  - vm_compute. reflexivity.
  - refine (bool_decide_eq_true_1 _ _). vm_compute. reflexivity.
  - apply list_elem_of_further, list_elem_of_here.
  - vm_compute. reflexivity.
  - vm_compute. reflexivity.
  - vm_compute. reflexivity.
Defined.

(** The program, without positions, to print it. *)
Definition factorial_functions : list Function_ :=
  Eval vm_compute in map (fun kv => Erase.er_f kv.2) (map_to_list (Functions (parsed factorial_text))).

Lemma text_roundtrip_witness : exists ts ast,
  Lex (Erase.program_text factorial_functions) = Some (Ret (ts, None)) /\ Parse ts = Some (Ret ast) /\
  Erase.er_f <$> Functions ast = Erase.er_f <$> foldl Print.add_function ∅ factorial_functions /\ AScope ast = AScope (NewAst []).
Proof.
  apply (Erase.text_roundtrip factorial_functions); [vm_compute; reflexivity | vm_compute; reflexivity | discriminate].
Defined.

(** ** The counter of src/contracts/counter.mg *)

Definition counter_text : string :=
  "define init() : int {|  // Initialize counter to 42|  persistent[`counter`] = `42`|  return 0|}||define call() : int {|  // Get current counter value|  currentStr: string = persistent[`counter`]|  current: int = 0|  if len(currentStr) > 0 {|    current = int(currentStr)|  }||  // Increment counter|  newValue: int = current + 1|  persistent[`counter`] = string(newValue)||  // Emit new value|  emit(newValue)|  return newValue|}".

Definition counter : Ast := Eval vm_compute in default (NewAst []) (checked counter_text).

(** The deployment stores 42, a call 43, and a call on that 44. *)
Lemma counter_runs :
  run counter_text 0 ∅ = Some ([0], {["counter" := "42"]}, Some ErrProgramStopped)
  /\ run counter_text 2 {["counter" := "42"]} = Some ([100; 42; 43; 43], {["counter" := "43"]}, Some ErrProgramStopped).
Proof. split; vm_compute; reflexivity. Qed.

(** The checker accepts it, so it is well typed. *)
Lemma Typecheck_sound_witness : program_typed (parsed counter_text).
Proof. apply (Typecheck_sound in_order (parsed counter_text) counter); [reflexivity | vm_compute; reflexivity]. Defined.

(** ** A loop with a break *)

Definition loop_text : string :=
  "define init() : int { return 0 } define call() : int { n : int = 3 | while n > 0 { n = n - 1 | if n == 1 { break } } return n }".

Definition loop_call : Function_ := Eval vm_compute in
  match checked loop_text ≫= fun a => Functions a !! "call" with Some f => f | None => MkFunction "" [] [] None (MkBlock [] ∅) end.

Definition loop_body : Block := Eval vm_compute in
  match Statements (FBlock loop_call) with _ :: WhileStmt _ b :: _ => b | _ => MkBlock [] ∅ end.

(** The context in which the loop's body is generated: a loop whose condition is
    at address 11. *)
Definition in_loop : CodegenContext :=
  with_Locals {["n" := 0]} 1 (with_LoopStack [MkLoopContext 11 []] (body_context ∅ loop_call start_context)).

Lemma generateBlock_code_witness : exists x,
  block_at in_loop loop_body = Some x /\ breaks x = [13%nat] /\ generateBlock loop_body in_loop = Ret (finish x in_loop, ())
  /\ forall cont t, loop_of in_loop = Some (cont, 0) ->
       block_code (stmt_code (FunctionIndex in_loop) (StringTable in_loop)) (CurrentScope in_loop) (slots_of in_loop)
         (length (Instructions in_loop)) (Some (cont, t)) loop_body = Some (patch_chunk t x).
Proof.
  destruct (block_at in_loop loop_body) as [x|] eqn:E; [|exfalso; revert E; vm_compute; discriminate].
  exists x. split; [reflexivity|]. split; [revert E; vm_compute; intros [= <-]; reflexivity|].
  apply (generateBlock_code in_loop loop_body x); [vm_compute; eauto | exact E].
Defined.

(** ** Code that does not do what the text says *)

(** A variable of an inner block shares the slot of the outer variable it shadows:
    the checker takes them for two, and the outer one is overwritten. *)
Lemma shadowing_overwrites :
  run "define init() : int { return 0 } define call() : int { x : int = 1 | if x == 1 { x : int = 2 } return x }" 2 ∅
  = Some ([2; 2], ∅, Some ErrProgramStopped).
Proof. vm_compute. reflexivity. Qed.

(** After a conditional that ends in a return there is no default return, and its
    jump is out of range. *)
Lemma return_in_conditional :
  run "define init() : int { return 0 } define call() : int { x : int = 1 | if x == 2 { return 5 } }" 2 ∅
  = Some ([1], ∅, Some ErrInvalidJump).
Proof. vm_compute. reflexivity. Qed.

(** A call with one argument takes a word more from the stack than was pushed. *)
Lemma one_argument :
  run "define f(a : int) : int { return a } define init() : int { return 0 } define call() : int { return f(5) }" 2 ∅
  = Some ([5], ∅, Some ErrLocalOffset).
Proof. vm_compute. reflexivity. Qed.

(** The locals of a function are left on the stack when it returns, under its
    value: 100 + (7 - 5) is computed as 7 + 2. *)
Lemma callee_locals_stay :
  run "define f(a : int, b : int) : int { c : int = a | return c - b } define init() : int { return 0 } define call() : int { x : int = 100 | y : int = 200 | return x + f(7, 5) }" 2 ∅
  = Some ([100; 200; 100; 9], ∅, Some ErrProgramStopped).
Proof. vm_compute. reflexivity. Qed.

(** EMITSTR takes its address off the stack, and the statement takes it off again. *)
Lemma emit_string_statement :
  run "define init() : int { return 0 } define call() : int { emit(`s`) | return 1 }" 2 ∅ = Some ([], ∅, Some ErrEmptyStack).
Proof. vm_compute. reflexivity. Qed.

(** A context variable can be assigned once it has been read; the assignment has
    no effect on what is read. *)
Lemma context_assignment :
  checked "define init() : int { return 0 } define call() : int { @height = 5 | return @height }" = None
  /\ run "define init() : int { return 0 } define call() : int { x : int = @height | @height = 5 | return @height }" 2 ∅
     = Some ([1; 5; 1], ∅, Some ErrProgramStopped).
Proof. split; vm_compute; reflexivity. Qed.

End DemoMarigold.
